(** * Shallow embedding of the render-graph copy node, the PLY exporter
      entry point and the Grease Pencil stroke-editing operators.

    Sources:
    - [source/blender/gpu/vulkan/render_graph/nodes/vk_copy_buffer_to_image_node.hh]
    - [source/blender/io/ply/exporter/ply_export.cc]  (the PLY exporter entry
      point, followed by the Grease Pencil edit operators)

    C++ [int]/[int64_t] values are modelled in [Z]; arrays, spans and vectors are
    lists; index operations that the C++ code leaves undefined when out of
    range return [None]. *)

From Stdlib Require Import ZArith List Lia Permutation.
From stdpp Require Import base option list gmap strings sorting.

Open Scope Z_scope.

(* ===================================================================== *)
(** * Vulkan render graph: [VKCopyBufferToImageNode]                     *)
(* ===================================================================== *)

Module render_graph.

(** Vulkan handles are opaque 64-bit values. *)
Definition VkBuffer := Z.
Definition VkImage := Z.

(** The members of [VkImageLayout] (vulkan_core.h) with their values. *)
Inductive VkImageLayout :=
| VK_IMAGE_LAYOUT_UNDEFINED
| VK_IMAGE_LAYOUT_GENERAL
| VK_IMAGE_LAYOUT_COLOR_ATTACHMENT_OPTIMAL
| VK_IMAGE_LAYOUT_DEPTH_STENCIL_ATTACHMENT_OPTIMAL
| VK_IMAGE_LAYOUT_DEPTH_STENCIL_READ_ONLY_OPTIMAL
| VK_IMAGE_LAYOUT_SHADER_READ_ONLY_OPTIMAL
| VK_IMAGE_LAYOUT_TRANSFER_SRC_OPTIMAL
| VK_IMAGE_LAYOUT_TRANSFER_DST_OPTIMAL
| VK_IMAGE_LAYOUT_PREINITIALIZED.

Definition VkImageLayout_value (l : VkImageLayout) : Z :=
  match l with
  | VK_IMAGE_LAYOUT_UNDEFINED => 0
  | VK_IMAGE_LAYOUT_GENERAL => 1
  | VK_IMAGE_LAYOUT_COLOR_ATTACHMENT_OPTIMAL => 2
  | VK_IMAGE_LAYOUT_DEPTH_STENCIL_ATTACHMENT_OPTIMAL => 3
  | VK_IMAGE_LAYOUT_DEPTH_STENCIL_READ_ONLY_OPTIMAL => 4
  | VK_IMAGE_LAYOUT_SHADER_READ_ONLY_OPTIMAL => 5
  | VK_IMAGE_LAYOUT_TRANSFER_SRC_OPTIMAL => 6
  | VK_IMAGE_LAYOUT_TRANSFER_DST_OPTIMAL => 7
  | VK_IMAGE_LAYOUT_PREINITIALIZED => 8
  end.

(** [VkAccessFlagBits], [VkPipelineStageFlagBits], [VkImageAspectFlagBits]. *)
Definition VkAccessFlags := Z.
Definition VK_ACCESS_TRANSFER_READ_BIT : VkAccessFlags := 0x800.
Definition VK_ACCESS_TRANSFER_WRITE_BIT : VkAccessFlags := 0x1000.
Definition VK_PIPELINE_STAGE_TRANSFER_BIT : Z := 0x1000.
Definition VkImageAspectFlags := Z.
Definition VK_IMAGE_ASPECT_NONE : VkImageAspectFlags := 0.

Record VkImageSubresourceLayers := {
  aspectMask : VkImageAspectFlags;
  mipLevel : Z;
  baseArrayLayer : Z;
  layerCount : Z;
}.

Record VkOffset3D := { offset_x : Z; offset_y : Z; offset_z : Z }.
Record VkExtent3D := { extent_width : Z; extent_height : Z; extent_depth : Z }.

Record VkBufferImageCopy := {
  bufferOffset : Z;
  bufferRowLength : Z;
  bufferImageHeight : Z;
  imageSubresource : VkImageSubresourceLayers;
  imageOffset : VkOffset3D;
  imageExtent : VkExtent3D;
}.

(** Information stored inside the render graph node. *)
Record VKCopyBufferToImageData := {
  src_buffer : VkBuffer;
  dst_image : VkImage;
  region : VkBufferImageCopy;
}.

(** [CreateInfo] and [Data] are both instantiated with
    [VKCopyBufferToImageData] in the [VKNodeInfo] base. *)
Definition CreateInfo := VKCopyBufferToImageData.
Definition Data := VKCopyBufferToImageData.

Inductive VKNodeType := COPY_BUFFER_TO_IMAGE.
Definition node_type : VKNodeType := COPY_BUFFER_TO_IMAGE.
Definition pipeline_stage : Z := VK_PIPELINE_STAGE_TRANSFER_BIT.

Inductive ResourceHandle :=
| BufferResource (vk_buffer : VkBuffer)
| ImageResource (vk_image : VkImage).

Record ResourceWithStamp := {
  handle : ResourceHandle;
  stamp : Z;
}.

(** Modelled from the spec: [VKResourceStateTracker] (vk_resource_state_tracker.hh)
    is not part of the sources.  It keeps, for every buffer and image, the
    version stamp of the resource; a resource that was never written has
    stamp 0. *)
Record VKResourceStateTracker := {
  buffer_stamps : gmap VkBuffer Z;
  image_stamps : gmap VkImage Z;
}.

Definition buffer_stamp (resources : VKResourceStateTracker) (b : VkBuffer) : Z :=
  default 0 (buffer_stamps resources !! b).
Definition image_stamp (resources : VKResourceStateTracker) (i : VkImage) : Z :=
  default 0 (image_stamps resources !! i).

(** Modelled from the spec: [VKResourceStateTracker::get_buffer] is not part of
    the sources; it reads the buffer together with its current stamp and leaves
    the tracker as it is. *)
Definition get_buffer (resources : VKResourceStateTracker) (b : VkBuffer)
  : ResourceWithStamp :=
  {| handle := BufferResource b; stamp := buffer_stamp resources b |}.

(** Modelled from the spec: [VKResourceStateTracker::get_image_and_increase_stamp]
    is not part of the sources; it reads the image with its current stamp and
    then increases the stamp kept by the tracker. *)
Definition get_image_and_increase_stamp (resources : VKResourceStateTracker)
    (i : VkImage) : ResourceWithStamp * VKResourceStateTracker :=
  ({| handle := ImageResource i; stamp := image_stamp resources i |},
   {| buffer_stamps := buffer_stamps resources;
      image_stamps := <[i := image_stamp resources i + 1]> (image_stamps resources) |}).

(** Modelled from the spec: [VKRenderGraphLink] and [VKRenderGraphNodeLinks]
    (vk_render_graph_links.hh) are not part of the sources.  A link names the
    resource, the access flags, the image layout and the image aspect; the
    aspect is [VK_IMAGE_ASPECT_NONE] when the initializer omits it. *)
Record VKRenderGraphLink := {
  resource : ResourceWithStamp;
  vk_access_flags : VkAccessFlags;
  vk_image_layout : VkImageLayout;
  vk_image_aspect : VkImageAspectFlags;
}.

Record VKRenderGraphNodeLinks := {
  inputs : list VKRenderGraphLink;
  outputs : list VKRenderGraphLink;
}.

(** Node storage: [set_node_data] stores the create info in the node. *)
Record VKRenderGraphNode := {
  copy_buffer_to_image : VKCopyBufferToImageData;
}.

Definition set_node_data (node : VKRenderGraphNode) (create_info : CreateInfo)
  : VKRenderGraphNode :=
  {| copy_buffer_to_image := create_info |}.

(** [build_links]: extract read/write resource dependencies from
    [create_info] and add them to [node_links].  The tracker and the links
    are passed by reference in C++; both are returned here. *)
Definition build_links (resources : VKResourceStateTracker)
    (node_links : VKRenderGraphNodeLinks) (create_info : CreateInfo)
  : VKResourceStateTracker * VKRenderGraphNodeLinks :=
  let src_resource := get_buffer resources (src_buffer create_info) in
  let '(dst_resource, resources) :=
    get_image_and_increase_stamp resources (dst_image create_info) in
  let node_links :=
    {| inputs := inputs node_links ++
                 [ {| resource := src_resource;
                      vk_access_flags := VK_ACCESS_TRANSFER_READ_BIT;
                      vk_image_layout := VK_IMAGE_LAYOUT_UNDEFINED;
                      vk_image_aspect := VK_IMAGE_ASPECT_NONE |} ];
       outputs := outputs node_links |} in
  let node_links :=
    {| inputs := inputs node_links;
       outputs := outputs node_links ++
                  [ {| resource := dst_resource;
                       vk_access_flags := VK_ACCESS_TRANSFER_WRITE_BIT;
                       vk_image_layout := VK_IMAGE_LAYOUT_TRANSFER_DST_OPTIMAL;
                       vk_image_aspect :=
                         aspectMask (imageSubresource (region create_info)) |} ] |} in
  (resources, node_links).

(** Modelled from the spec: [VKCommandBufferInterface] (vk_command_buffer_wrapper.hh)
    is an abstract interface that is not part of the sources.  A command buffer
    is the sequence of commands recorded into it; [copy_buffer_to_image]
    records one [vkCmdCopyBufferToImage] with its arguments, the region
    pointer being read as an array of [region_count] elements. *)
Inductive VKCommand :=
| CmdCopyBufferToImage (src : VkBuffer) (dst : VkImage)
    (dst_image_layout : VkImageLayout) (region_count : Z)
    (regions : list VkBufferImageCopy).

Definition VKCommandBufferInterface := list VKCommand.

Definition copy_buffer_to_image_cmd (command_buffer : VKCommandBufferInterface)
    (src : VkBuffer) (dst : VkImage) (dst_image_layout : VkImageLayout)
    (region_count : Z) (regions : list VkBufferImageCopy)
  : VKCommandBufferInterface :=
  command_buffer ++ [CmdCopyBufferToImage src dst dst_image_layout region_count regions].

(** [build_commands]: build the commands and add them to the command buffer.
    [r_bound_pipelines] is unused by this node. *)
Definition build_commands (command_buffer : VKCommandBufferInterface) (data : Data)
  : VKCommandBufferInterface :=
  copy_buffer_to_image_cmd command_buffer
    (src_buffer data) (dst_image data) VK_IMAGE_LAYOUT_TRANSFER_DST_OPTIMAL 1
    [region data].

End render_graph.

(* ===================================================================== *)
(** * PLY exporter entry point                                           *)
(* ===================================================================== *)

Module ply.

Record PLYExportParams := {
  filepath : string;
  ascii_format : bool;
}.

(** Modelled from the spec: [FileBuffer], [FileBufferAscii] and
    [FileBufferBinary] (ply_file_buffer*.hh) and the writers [write_header],
    [write_vertices], [write_faces], [write_edges] (ply_export_header.hh,
    ply_export_data.hh) are not part of the sources.  A buffer is its concrete
    class, the path it was opened on and the sequence of operations applied
    to it; each writer is one operation on the buffer it is handed. *)
Inductive FileBufferClass := FileBufferAscii | FileBufferBinary.

Inductive FileBufferOp :=
| op_write_header
| op_write_vertices
| op_write_faces
| op_write_edges
| op_close_file.

Record FileBuffer := {
  buffer_class : FileBufferClass;
  buffer_path : string;
  buffer_ops : list FileBufferOp;
}.

Definition make_FileBuffer (c : FileBufferClass) (path : string) : FileBuffer :=
  {| buffer_class := c; buffer_path := path; buffer_ops := [] |}.

Definition buffer_apply (op : FileBufferOp) (b : FileBuffer) : FileBuffer :=
  {| buffer_class := buffer_class b;
     buffer_path := buffer_path b;
     buffer_ops := buffer_ops b ++ [op] |}.

(** Modelled from the spec: [PlyData] and [load_plydata] are not part of the
    sources; the loaded mesh data is opaque here. *)
Inductive PlyData := LoadedPlyData (params : PLYExportParams).

Definition load_plydata (export_params : PLYExportParams) : PlyData :=
  LoadedPlyData export_params.

Definition write_header (buffer : FileBuffer) (ply_data : PlyData)
    (export_params : PLYExportParams) : FileBuffer :=
  buffer_apply op_write_header buffer.
Definition write_vertices (buffer : FileBuffer) (ply_data : PlyData) : FileBuffer :=
  buffer_apply op_write_vertices buffer.
Definition write_faces (buffer : FileBuffer) (ply_data : PlyData) : FileBuffer :=
  buffer_apply op_write_faces buffer.
Definition write_edges (buffer : FileBuffer) (ply_data : PlyData) : FileBuffer :=
  buffer_apply op_write_edges buffer.
Definition close_file (buffer : FileBuffer) : FileBuffer :=
  buffer_apply op_close_file buffer.

(** [exporter_main(bmain, scene, view_layer, C, export_params)]; the result
    is the file buffer as it stands when the function returns. *)
Definition exporter_main (export_params : PLYExportParams) : FileBuffer :=
  let plyData := load_plydata export_params in
  let buffer :=
    if ascii_format export_params
    then make_FileBuffer FileBufferAscii (filepath export_params)
    else make_FileBuffer FileBufferBinary (filepath export_params) in
  let buffer := write_header buffer plyData export_params in
  let buffer := write_vertices buffer plyData in
  let buffer := write_faces buffer plyData in
  let buffer := write_edges buffer plyData in
  close_file buffer.

End ply.

(* ===================================================================== *)
(** * Containers of the base library (BLI) used by the operators         *)
(* ===================================================================== *)

Module BLI.

(** Modelled from the spec: the containers of the base library ([Array],
    [Vector], [Span], [MutableSpan], [IndexRange], [IndexMask], [VArray],
    [OffsetIndices]; BLI_*.hh) are not part of the sources.  Each operation
    the operators use is given below under the name it has in C++, on lists;
    an access that C++ leaves undefined returns [None]. *)

(** Monadic left fold in the [option] monad: a loop whose body may hit
    undefined behaviour. *)
Fixpoint foldlM {A B : Type} (f : B → A → option B) (b : B) (l : list A) : option B :=
  match l with
  | [] => Some b
  | x :: l => b' ← f b x; foldlM f b' l
  end.

Section Array.
Context {A : Type}.

(** [a[i]] for reading. *)
Definition Array_get (a : list A) (i : Z) : option A :=
  if decide (0 ≤ i) then a !! Z.to_nat i else None.

(** [a[i] = x]. *)
Definition Array_set (a : list A) (i : Z) (x : A) : option (list A) :=
  if decide (0 ≤ i < Z.of_nat (length a)) then Some (<[Z.to_nat i := x]> a) else None.

(** [std::swap(a[i], a[j])]. *)
Definition std_swap (a : list A) (i j : Z) : option (list A) :=
  x ← Array_get a i;
  y ← Array_get a j;
  a ← Array_set a i y;
  Array_set a j x.

(** [Vector::insert(index, value)]: the index may be the end of the vector. *)
Definition Vector_insert (v : list A) (i : Z) (x : A) : option (list A) :=
  if decide (0 ≤ i ≤ Z.of_nat (length v))
  then Some (take (Z.to_nat i) v ++ x :: drop (Z.to_nat i) v)
  else None.

(** An array of a trivial type is left uninitialized by its sized
    constructor; [junk] gives the unspecified content of each cell. *)
Definition Array_uninitialized (junk : nat → A) (n : Z) : list A :=
  junk <$> seq 0 (Z.to_nat n).

(** Writing [values] through a span that views [a] from cell [start] on. *)
Definition Span_write (a : list A) (start : Z) (values : list A) : option (list A) :=
  if decide (0 ≤ start ∧ start + Z.of_nat (length values) ≤ Z.of_nat (length a))
  then Some (take (Z.to_nat start) a ++ values
             ++ drop (Z.to_nat start + length values) a)
  else None.

End Array.

(** ** [IndexRange] *)

Record IndexRange := { start : Z; size : Z }.

Definition IndexRange_first (r : IndexRange) : Z := start r.
(** [last(n)]: the n-th element counted from the end. *)
Definition IndexRange_last (r : IndexRange) (n : Z) : Z := start r + size r - 1 - n.
Definition IndexRange_shift (r : IndexRange) (n : Z) : IndexRange :=
  {| start := start r + n; size := size r |}.
Definition IndexRange_drop_front (r : IndexRange) (n : Z) : IndexRange :=
  {| start := start r + n; size := Z.max 0 (size r - n) |}.
Definition IndexRange_drop_back (r : IndexRange) (n : Z) : IndexRange :=
  {| start := start r; size := Z.max 0 (size r - n) |}.
Definition IndexRange_from_end_size (e s : Z) : IndexRange :=
  {| start := e - s; size := s |}.
(** The elements visited by a range-based [for]. *)
Definition IndexRange_to_list (r : IndexRange) : list Z :=
  (λ k : nat, start r + Z.of_nat k) <$> seq 0 (Z.to_nat (size r)).

Definition index_range {A : Type} (a : list A) : IndexRange :=
  {| start := 0; size := Z.of_nat (length a) |}.

(** [Span::slice(range)]. *)
Definition Span_slice {A : Type} (a : list A) (r : IndexRange) : option (list A) :=
  if decide (0 ≤ start r ∧ 0 ≤ size r ∧ start r + size r ≤ Z.of_nat (length a))
  then Some (take (Z.to_nat (size r)) (drop (Z.to_nat (start r)) a))
  else None.

(** [MutableSpan::take_front(n)] and [take_back(n)] as views on an array of
    [len] cells: the range of cells the view covers. *)
Definition Span_take_front (len n : Z) : IndexRange :=
  {| start := 0; size := Z.min len n |}.
Definition Span_take_back (len n : Z) : IndexRange :=
  {| start := len - Z.min len n; size := Z.min len n |}.

(** [array_utils::fill_index_range]. *)
Definition fill_index_range {A : Type} (a : list A) : list Z :=
  Z.of_nat <$> seq 0 (length a).

(** ** [IndexMask]: a strictly increasing sequence of non-negative indices. *)

Definition IndexMask := list Z.

Definition IndexMask_wf (mask : IndexMask) : Prop :=
  Forall (λ i, 0 ≤ i) mask ∧ StronglySorted Z.lt mask.

Definition IndexMask_size (mask : IndexMask) : Z := Z.of_nat (length mask).
Definition IndexMask_is_empty (mask : IndexMask) : bool := bool_decide (mask = []).

(** [IndexMask::complement(universe)]: the indices of the universe that are
    not in the mask. *)
Definition IndexMask_complement (mask : IndexMask) (universe : IndexRange) : IndexMask :=
  filter (λ i, i ∉ mask) (IndexRange_to_list universe).

(** [IndexMask::slice_content(range)]: the indices of the mask that lie in
    the range. *)
Definition IndexMask_slice_content (mask : IndexMask) (r : IndexRange) : IndexMask :=
  filter (λ i, start r ≤ i < start r + size r) mask.

(** [IndexMask::to_indices(r_indices)]: the destination span, viewing
    [a] on the cells [view], must have the size of the mask. *)
Definition IndexMask_to_indices (mask : IndexMask) (a : list Z) (view : IndexRange)
  : option (list Z) :=
  if decide (size view = IndexMask_size mask) then Span_write a (start view) mask else None.

(** [IndexMask::to_bools(r_bools)]: false everywhere, true on the mask. *)
Definition IndexMask_to_bools (mask : IndexMask) (r_bools : list bool) : option (list bool) :=
  foldlM (λ bools i, Array_set bools i true) (replicate (length r_bools) false) mask.

(** [IndexMask::foreach_index_optimized<int>(fn)] with a callback taking the
    index and its position in the mask. *)
Fixpoint foreach_index_pos {S : Type} (fn : Z → Z → S → option S)
    (mask : IndexMask) (pos : Z) (s : S) : option S :=
  match mask with
  | [] => Some s
  | i :: mask => s ← fn i pos s; foreach_index_pos fn mask (pos + 1) s
  end.
Definition foreach_index_optimized {S : Type} (mask : IndexMask)
    (fn : Z → Z → S → option S) (s : S) : option S :=
  foreach_index_pos fn mask 0 s.

(** ** Virtual arrays *)

Inductive VArray (A : Type) :=
| ForSingle (value : A) (n : Z)
| ForSpan (values : list A).
Arguments ForSingle {A} value n.
Arguments ForSpan {A} values.

Definition VArray_get {A : Type} (v : VArray A) (i : Z) : option A :=
  match v with
  | ForSingle value n => if decide (0 ≤ i < n) then Some value else None
  | ForSpan values => Array_get values i
  end.
Definition VArray_is_span {A : Type} (v : VArray A) : bool :=
  match v with ForSpan _ => true | ForSingle _ _ => false end.
Definition VArray_is_single {A : Type} (v : VArray A) : bool :=
  match v with ForSingle _ _ => true | ForSpan _ => false end.
Definition VArray_get_if_single {A : Type} (v : VArray A) : option A :=
  match v with ForSingle value _ => Some value | ForSpan _ => None end.

(** ** Offsets *)

(** [OffsetIndices::operator[]]: the range of elements of group [i]. *)
Definition OffsetIndices_get (offsets : list Z) (i : Z) : option IndexRange :=
  b ← Array_get offsets i;
  e ← Array_get offsets (i + 1);
  Some {| start := b; size := e - b |}.

(** Modelled from the spec: [offset_indices::accumulate_counts_to_offsets]
    (BLI_offset_indices.hh) is not part of the sources.  Every cell but the
    last holds a count on entry; on exit cell [i] holds the sum of the counts
    before it, and the last cell the total. *)
Fixpoint accumulate_from (offset : Z) (counts_to_offsets : list Z) : list Z :=
  match counts_to_offsets with
  | [] => []
  | [_] => [offset]
  | count :: rest => offset :: accumulate_from (offset + count) rest
  end.
Definition accumulate_counts_to_offsets (counts_to_offsets : list Z) : list Z :=
  accumulate_from 0 counts_to_offsets.

(** Modelled from the spec: [array_utils::find_all_ranges] (BLI_array_utils.hh)
    is not part of the sources.  It returns, in increasing order and counted
    from zero, the maximal runs of consecutive cells of [span] that hold
    [value].  [i] is the position reached and [len] the length of the run that
    ends just before it. *)
Fixpoint find_all_ranges_from (value : bool) (span : list bool) (i len : Z)
  : list IndexRange :=
  match span with
  | [] => if decide (0 < len) then [IndexRange_from_end_size i len] else []
  | b :: span =>
      if decide (b = value)
      then find_all_ranges_from value span (i + 1) (len + 1)
      else (if decide (0 < len) then [IndexRange_from_end_size i len] else [])
           ++ find_all_ranges_from value span (i + 1) 0
  end.
Definition find_all_ranges (span : list bool) (value : bool) : list IndexRange :=
  find_all_ranges_from value span 0 0.

(** [Span<bool>::count(value)]. *)
Definition Span_count (value : bool) (span : list bool) : Z :=
  Z.of_nat (length (filter (λ b, b = value) span)).

End BLI.

(* ===================================================================== *)
(** * Curves geometry and its attribute storage                          *)
(* ===================================================================== *)

Module bke.
Import BLI.

(** A [float] is carried as its IEEE-754 binary32 bit pattern; the
    operations modelled here only copy floats. *)
Definition float := Z.

(** One element of an attribute array. *)
Inductive AttrValue :=
| VBool (b : bool)
| VInt (i : Z)
| VInt8 (i : Z)
| VFloat (f : float)
| VFloat3 (x y z : float).

#[global] Instance AttrValue_eq_dec : EqDecision AttrValue.
Proof. solve_decision. Defined.

Inductive AttrDomain := Auto | Point | Edge | Face | Corner | Curve | Instance | Layer.

#[global] Instance AttrDomain_eq_dec : EqDecision AttrDomain.
Proof. solve_decision. Defined.

(** Modelled from the spec: [bke::CurvesGeometry] (BKE_curves.hh) is not part
    of the sources: an indexed point/curve container with per-domain
    attributes.  [curve_offsets] has [curve_num + 1] cells when there are
    curves; the points of curve [i] are the range from [curve_offsets[i]] to
    [curve_offsets[i + 1]]. *)
Record CurvesGeometry := {
  point_num : Z;
  curve_num : Z;
  curve_offsets : list Z;
  point_data : gmap string (list AttrValue);
  curve_data : gmap string (list AttrValue);
  vertex_group_names : list string;
}.

Definition points_num (curves : CurvesGeometry) : Z := point_num curves.
Definition curves_num (curves : CurvesGeometry) : Z := curve_num curves.
Definition curves_range (curves : CurvesGeometry) : IndexRange :=
  {| start := 0; size := curve_num curves |}.
Definition points_by_curve (curves : CurvesGeometry) : list Z := curve_offsets curves.

(** The default-constructed geometry, [CurvesGeometry()]. *)
Definition CurvesGeometry_default : CurvesGeometry :=
  {| point_num := 0; curve_num := 0; curve_offsets := [];
     point_data := ∅; curve_data := ∅; vertex_group_names := [] |}.

(** [CurvesGeometry(point_num, curve_num)]: sizes set, offsets allocated but
    not yet written, attribute values to be supplied by the caller. *)
Definition CurvesGeometry_new (junk : nat → Z) (point_num curve_num : Z) : CurvesGeometry :=
  {| point_num := point_num; curve_num := curve_num;
     curve_offsets :=
       if decide (0 < curve_num) then Array_uninitialized junk (curve_num + 1) else [];
     point_data := ∅; curve_data := ∅; vertex_group_names := [] |}.

Definition domain_data (domain : AttrDomain) (curves : CurvesGeometry)
  : gmap string (list AttrValue) :=
  match domain with
  | Point => point_data curves
  | Curve => curve_data curves
  | _ => ∅
  end.

Definition domain_size (domain : AttrDomain) (curves : CurvesGeometry) : Z :=
  match domain with
  | Point => point_num curves
  | Curve => curve_num curves
  | _ => 0
  end.

Definition set_domain_data (domain : AttrDomain) (data : gmap string (list AttrValue))
    (curves : CurvesGeometry) : CurvesGeometry :=
  match domain with
  | Point =>
      {| point_num := point_num curves; curve_num := curve_num curves;
         curve_offsets := curve_offsets curves;
         point_data := data; curve_data := curve_data curves;
         vertex_group_names := vertex_group_names curves |}
  | Curve =>
      {| point_num := point_num curves; curve_num := curve_num curves;
         curve_offsets := curve_offsets curves;
         point_data := point_data curves; curve_data := data;
         vertex_group_names := vertex_group_names curves |}
  | _ => curves
  end.

Definition set_curve_offsets (offsets : list Z) (curves : CurvesGeometry) : CurvesGeometry :=
  {| point_num := point_num curves; curve_num := curve_num curves;
     curve_offsets := offsets;
     point_data := point_data curves; curve_data := curve_data curves;
     vertex_group_names := vertex_group_names curves |}.

(** [BKE_defgroup_copy_list(&dst.vertex_group_names, &src.vertex_group_names)]. *)
Definition BKE_defgroup_copy_list (dst src : CurvesGeometry) : CurvesGeometry :=
  {| point_num := point_num dst; curve_num := curve_num dst;
     curve_offsets := curve_offsets dst;
     point_data := point_data dst; curve_data := curve_data dst;
     vertex_group_names := vertex_group_names src |}.

Definition as_bool (v : AttrValue) : option bool :=
  match v with VBool b => Some b | _ => None end.
Definition as_bools (a : list AttrValue) : option (list bool) := mapM as_bool a.

(** Modelled from the spec: [AttributeAccessor::lookup_or_default<bool>] is not
    part of the sources: the attribute stored under [name] on [domain], or a
    single value repeated over the domain when no such attribute is stored. *)
Definition lookup_or_default_bool (curves : CurvesGeometry) (name : string)
    (domain : AttrDomain) (default_value : bool) : VArray bool :=
  match domain_data domain curves !! name ≫= as_bools with
  | Some values => ForSpan values
  | None => ForSingle default_value (domain_size domain curves)
  end.

(** [CurvesGeometry::cyclic()]: the curve attribute "cyclic", false by default. *)
Definition cyclic (curves : CurvesGeometry) : VArray bool :=
  lookup_or_default_bool curves "cyclic" Curve false.

(** [CurvesGeometry::cyclic_for_write()]: the span of the attribute, which is
    created holding the default when it is not stored yet. *)
Definition cyclic_for_write (curves : CurvesGeometry) : list bool :=
  match curve_data curves !! "cyclic" ≫= as_bools with
  | Some values => values
  | None => replicate (Z.to_nat (curve_num curves)) false
  end.
Definition store_cyclic (values : list bool) (curves : CurvesGeometry) : CurvesGeometry :=
  set_domain_data Curve (<["cyclic" := VBool <$> values]> (curve_data curves)) curves.

(** The invariants of a curves container: the offsets start at zero, do not
    decrease and end at the number of points; every attribute array has the
    size of its domain; the builtin "cyclic" attribute holds booleans. *)
Record CurvesGeometry_wf (curves : CurvesGeometry) : Prop := {
  wf_point_num : 0 ≤ point_num curves;
  wf_curve_num : 0 ≤ curve_num curves;
  wf_no_curves : curve_num curves = 0 → point_num curves = 0;
  wf_offsets_length :
    0 < curve_num curves →
    Z.of_nat (length (curve_offsets curves)) = curve_num curves + 1;
  wf_offsets_first : 0 < curve_num curves → head (curve_offsets curves) = Some 0;
  wf_offsets_last :
    0 < curve_num curves → last (curve_offsets curves) = Some (point_num curves);
  wf_offsets_sorted : StronglySorted Z.le (curve_offsets curves);
  wf_point_data :
    map_Forall (λ _ values, Z.of_nat (length values) = point_num curves)
      (point_data curves);
  wf_curve_data :
    map_Forall (λ _ values, Z.of_nat (length values) = curve_num curves)
      (curve_data curves);
  wf_cyclic :
    ∀ values, curve_data curves !! "cyclic" = Some values → is_Some (as_bools values);
}.

(** [array_utils::gather(src, indices, dst)]. *)
Definition gather {A : Type} (src : list A) (indices : list Z) : option (list A) :=
  mapM (Array_get src) indices.

Definition gather_total {A : Type} (src : list A) (indices : list Z) : list A :=
  default [] (gather src indices).

(** Modelled from the spec: [bke::gather_attributes] (BKE_attribute.hh) is not
    part of the sources.  Every attribute the source stores on [domain], except
    those named in [skip], is written to the destination under the same name
    with cell [i] taken from source cell [indices[i]]. *)
Definition gather_attributes (src : CurvesGeometry) (domain : AttrDomain)
    (skip : list string) (indices : list Z) (dst : CurvesGeometry)
  : option CurvesGeometry :=
  let selected := filter (λ kv, kv.1 ∉ skip) (domain_data domain src) in
  if decide (map_Forall (λ _ values, is_Some (gather values indices)) selected)
  then Some (set_domain_data domain
               ((λ values, gather_total values indices) <$> selected
                ∪ domain_data domain dst) dst)
  else None.

(** [array_utils::copy(src, dst)] into the span that views [a] on [view]. *)
Definition array_utils_copy {A : Type} (src : list A) (a : list A) (view : IndexRange)
  : option (list A) :=
  if decide (size view = Z.of_nat (length src)) then Span_write a (start view) src else None.

(** [MutableSpan::drop_back(n)] and [drop_front(n)] as views on [len] cells. *)
Definition Span_drop_back (len n : Z) : IndexRange :=
  {| start := 0; size := Z.max 0 (len - n) |}.
Definition Span_drop_front (len n : Z) : IndexRange :=
  {| start := n; size := Z.max 0 (len - n) |}.

End bke.

(* ===================================================================== *)
(** * Grease Pencil edit operators: geometry helpers                     *)
(* ===================================================================== *)

Module greasepencil.
Import BLI bke.

Section geometry.

(** Unspecified contents of freshly allocated [int] arrays. *)
Variable uninitialized : nat → Z.

(** Modelled from the spec: [CurvesGeometry::update_curve_types] and
    [CurvesGeometry::remove_attributes_based_on_types] (BKE_curves.hh) are not
    part of the sources; they are parameters of the functions that call them. *)
Variable update_curve_types : CurvesGeometry → CurvesGeometry.
Variable remove_attributes_based_on_types : CurvesGeometry → CurvesGeometry.

(** ** Reorder *)

Inductive ReorderDirection :=
| TOP      (** Move the selected strokes to be drawn in front. *)
| UP       (** Increase the draw order of the selected strokes. *)
| DOWN     (** Decrease the draw order of the selected strokes. *)
| BOTTOM.  (** Move the selected strokes to be drawn behind. *)

#[global] Instance ReorderDirection_eq_dec : EqDecision ReorderDirection.
Proof. solve_decision. Defined.

Definition get_reordered_indices (universe : IndexRange) (selected : IndexMask)
    (direction : ReorderDirection) : option (list Z) :=
  let indices := Array_uninitialized uninitialized (size universe) in
  let indices :=
    if decide (direction = UP ∨ direction = DOWN)
    then (* Initialize the indices. *) fill_index_range indices
    else indices in
  if decide (direction = TOP ∨ direction = BOTTOM) then
    let unselected := IndexMask_complement selected universe in
    let A := if decide (direction = BOTTOM) then selected else unselected in
    let B := if decide (direction = BOTTOM) then unselected else selected in
    let len := Z.of_nat (length indices) in
    indices ← IndexMask_to_indices A indices (Span_take_front len (IndexMask_size A));
    IndexMask_to_indices B indices (Span_take_back len (IndexMask_size B))
  else if decide (direction = DOWN) then
    foreach_index_optimized selected
      (λ curve_i pos indices,
         (* Check if the curve index is touching the beginning without any gaps. *)
         if decide (curve_i ≠ pos)
         then (* Move a index down by flipping it with the one below it. *)
              std_swap indices curve_i (curve_i - 1)
         else Some indices)
      indices
  else if decide (direction = UP) then
    let selected_indices := Array_uninitialized uninitialized (IndexMask_size selected) in
    selected_indices ←
      IndexMask_to_indices selected selected_indices (index_range selected_indices);
    (* Because each index is moving up we need to loop through the indices
       backwards, starting at the largest. *)
    foldlM
      (λ indices i,
         let pos := IndexRange_last (index_range selected_indices) i in
         curve_i ← Array_get selected_indices pos;
         (* Check if the curve index is touching the end without any gaps. *)
         if decide (curve_i ≠ IndexRange_last universe i)
         then (* Move a index up by flipping it with the one above it. *)
              std_swap indices curve_i (curve_i + 1)
         else Some indices)
      indices (IndexRange_to_list (index_range selected_indices))
  else Some indices.

(** ** Delete: [remove_points_and_split] *)

Record SplitState := {
  curr_dst_point_id : Z;
  dst_to_src_point : list Z;
  dst_curve_counts : list Z;
  dst_to_src_curve : list Z;
  dst_cyclic : list bool;
}.

(** [for (src_point : range) dst_to_src_point[curr_dst_point_id++] = src_point;] *)
Definition write_src_points (range : IndexRange) (st : SplitState) : option SplitState :=
  foldlM
    (λ st src_point,
       a ← Array_set (dst_to_src_point st) (curr_dst_point_id st) src_point;
       Some {| curr_dst_point_id := curr_dst_point_id st + 1;
               dst_to_src_point := a;
               dst_curve_counts := dst_curve_counts st;
               dst_to_src_curve := dst_to_src_curve st;
               dst_cyclic := dst_cyclic st |})
    st (IndexRange_to_list range).

(** The body of the loop over the kept ranges of one curve. *)
Definition split_range (curve_i : Z) (points : IndexRange)
    (ranges_to_keep : list IndexRange) (is_curve_self_joined is_cyclic : bool)
    (st : SplitState) (range_i : Z) : option SplitState :=
  let range_ids := index_range ranges_to_keep in
  range ← Array_get ranges_to_keep range_i;
  let count := size range in
  st ← write_src_points (IndexRange_shift range (IndexRange_first points)) st;
  '(st, count) ←
    (* Join the first range to the end of the last range. *)
    (if is_curve_self_joined && bool_decide (range_i = IndexRange_last range_ids 0)
     then
       first_range ← Array_get ranges_to_keep (IndexRange_first range_ids);
       st ← write_src_points (IndexRange_shift first_range (IndexRange_first points)) st;
       Some (st, count + size first_range)
     else Some (st, count));
  Some {| curr_dst_point_id := curr_dst_point_id st;
          dst_to_src_point := dst_to_src_point st;
          dst_curve_counts := dst_curve_counts st ++ [count];
          dst_to_src_curve := dst_to_src_curve st ++ [curve_i];
          dst_cyclic := dst_cyclic st ++ [is_cyclic] |}.

(** The body of the loop over the source curves. *)
Definition split_curve (points_by_curve : list Z) (src_cyclic : VArray bool)
    (points_to_delete : list bool) (st : SplitState) (curve_i : Z) : option SplitState :=
  points ← OffsetIndices_get points_by_curve curve_i;
  curve_points_to_delete ← Span_slice points_to_delete points;
  curve_cyclic ← VArray_get src_cyclic curve_i;
  (* Note, these ranges start at zero and needed to be shifted by `points.first()` *)
  let ranges_to_keep := find_all_ranges curve_points_to_delete false in
  if decide (ranges_to_keep = []) then Some st else
  first_range ← head ranges_to_keep;
  last_range ← last ranges_to_keep;
  let is_last_segment_selected :=
    curve_cyclic && bool_decide (IndexRange_first first_range = 0)
    && bool_decide (IndexRange_last last_range 0 = size points - 1) in
  let is_curve_self_joined :=
    is_last_segment_selected && bool_decide (length ranges_to_keep ≠ 1%nat) in
  let is_cyclic :=
    bool_decide (length ranges_to_keep = 1%nat) && is_last_segment_selected in
  (* Skip the first range because it is joined to the end of the last range. *)
  foldlM (split_range curve_i points ranges_to_keep is_curve_self_joined is_cyclic) st
    (IndexRange_to_list
       (IndexRange_drop_front (index_range ranges_to_keep)
          (if is_curve_self_joined then 1 else 0))).

Definition remove_points_and_split (curves : CurvesGeometry) (mask : IndexMask)
  : option CurvesGeometry :=
  let points_by_curve := points_by_curve curves in
  let src_cyclic := cyclic curves in
  points_to_delete ←
    IndexMask_to_bools mask (replicate (Z.to_nat (points_num curves)) false);
  let total_points := Span_count false points_to_delete in
  (* Return if deleting everything. *)
  if decide (total_points = 0) then Some CurvesGeometry_default else
  st ← foldlM (split_curve points_by_curve src_cyclic points_to_delete)
        {| curr_dst_point_id := 0;
           dst_to_src_point := Array_uninitialized uninitialized total_points;
           dst_curve_counts := [];
           dst_to_src_curve := [];
           dst_cyclic := [] |}
        (IndexRange_to_list (curves_range curves));
  let total_curves := Z.of_nat (length (dst_to_src_curve st)) in
  let dst_curves := CurvesGeometry_new uninitialized total_points total_curves in
  let dst_curves := BKE_defgroup_copy_list dst_curves curves in
  let new_curve_offsets := curve_offsets dst_curves in
  new_curve_offsets ←
    array_utils_copy (dst_curve_counts st) new_curve_offsets
      (Span_drop_back (Z.of_nat (length new_curve_offsets)) 1);
  let dst_curves :=
    set_curve_offsets (accumulate_counts_to_offsets new_curve_offsets) dst_curves in
  (* Transfer curve attributes. *)
  dst_curves ← gather_attributes curves Curve ["cyclic"] (dst_to_src_curve st) dst_curves;
  dst_cyclic_span ←
    array_utils_copy (dst_cyclic st) (cyclic_for_write dst_curves)
      (index_range (cyclic_for_write dst_curves));
  let dst_curves := store_cyclic dst_cyclic_span dst_curves in
  (* Transfer point attributes. *)
  dst_curves ← gather_attributes curves Point [] (dst_to_src_point st) dst_curves;
  let dst_curves := update_curve_types dst_curves in
  let dst_curves := remove_attributes_based_on_types dst_curves in
  Some dst_curves.

(** ** Extrude *)

Record ExtrudeState := {
  dst_to_src_points : list Z;
  dst_selected : list bool;
  dst_to_src_curves : list Z;
  ext_curve_counts : list Z;
  point_offset : Z;
}.

(** The callback run for every point to extrude of one curve. *)
Definition extrude_point (curve_index : Z) (curve_points : IndexRange) (curve_cyclic : bool)
    (st : ExtrudeState) (src_point_index : Z) : option ExtrudeState :=
  if negb curve_cyclic && bool_decide (src_point_index = IndexRange_first curve_points) then
    (* Start-point extruded, we insert a new point at the beginning of the curve. *)
    pts ← Vector_insert (dst_to_src_points st) (src_point_index + point_offset st)
            src_point_index;
    sel ← Vector_insert (dst_selected st) (src_point_index + point_offset st) true;
    count ← Array_get (ext_curve_counts st) curve_index;
    counts ← Array_set (ext_curve_counts st) curve_index (count + 1);
    Some {| dst_to_src_points := pts; dst_selected := sel;
            dst_to_src_curves := dst_to_src_curves st;
            ext_curve_counts := counts; point_offset := point_offset st + 1 |}
  else if negb curve_cyclic && bool_decide (src_point_index = IndexRange_last curve_points 0)
  then
    (* End-point extruded, we insert a new point at the end of the curve. *)
    pts ← Vector_insert (dst_to_src_points st) (src_point_index + point_offset st + 1)
            src_point_index;
    sel ← Vector_insert (dst_selected st) (src_point_index + point_offset st + 1) true;
    count ← Array_get (ext_curve_counts st) curve_index;
    counts ← Array_set (ext_curve_counts st) curve_index (count + 1);
    Some {| dst_to_src_points := pts; dst_selected := sel;
            dst_to_src_curves := dst_to_src_curves st;
            ext_curve_counts := counts; point_offset := point_offset st + 1 |}
  else
    (* Inner-point extruded: we create a new curve made of two points located
       at the same position.  Only one of them is selected so that the other
       one remains stuck to the curve. *)
    Some {| dst_to_src_points := dst_to_src_points st ++ [src_point_index; src_point_index];
            dst_selected := dst_selected st ++ [false; true];
            dst_to_src_curves := dst_to_src_curves st ++ [curve_index];
            ext_curve_counts := ext_curve_counts st ++ [2];
            point_offset := point_offset st |}.

(** The body of the loop over the source curves. *)
Definition extrude_curve (points_by_curve : list Z) (src_cyclic : VArray bool)
    (points_to_extrude : IndexMask) (st : ExtrudeState) (curve_index : Z)
  : option ExtrudeState :=
  curve_points ← OffsetIndices_get points_by_curve curve_index;
  let curve_points_to_extrude := IndexMask_slice_content points_to_extrude curve_points in
  curve_cyclic ← VArray_get src_cyclic curve_index;
  foldlM (extrude_point curve_index curve_points curve_cyclic) st curve_points_to_extrude.

(** [offset_indices::copy_group_sizes(offsets, mask, sizes)] over all curves. *)
Definition copy_group_sizes (offsets : list Z) (range : IndexRange) : option (list Z) :=
  mapM (λ i, size <$> OffsetIndices_get offsets i) (IndexRange_to_list range).

Definition extrude_grease_pencil_curves (src : CurvesGeometry)
    (points_to_extrude : IndexMask) : option CurvesGeometry :=
  let points_by_curve := points_by_curve src in
  let old_curves_num := curves_num src in
  let old_points_num := points_num src in
  dst_curve_counts ← copy_group_sizes points_by_curve (curves_range src);
  let src_cyclic := cyclic src in
  (* Point offset keeps track of the points inserted. *)
  st ← foldlM (extrude_curve points_by_curve src_cyclic points_to_extrude)
        {| dst_to_src_points :=
             fill_index_range (Array_uninitialized uninitialized old_points_num);
           dst_selected := replicate (Z.to_nat old_points_num) false;
           dst_to_src_curves :=
             fill_index_range (Array_uninitialized uninitialized old_curves_num);
           ext_curve_counts := dst_curve_counts;
           point_offset := 0 |}
        (IndexRange_to_list (curves_range src));
  let new_points_num := Z.of_nat (length (dst_to_src_points st)) in
  let new_curves_num := Z.of_nat (length (dst_to_src_curves st)) in
  let dst := CurvesGeometry_new uninitialized new_points_num new_curves_num in
  (* Setup curve offsets, based on the number of points in each curve. *)
  let new_curve_offsets := curve_offsets dst in
  new_curve_offsets ←
    array_utils_copy (ext_curve_counts st) new_curve_offsets
      (Span_drop_back (Z.of_nat (length new_curve_offsets)) 1);
  let dst := set_curve_offsets (accumulate_counts_to_offsets new_curve_offsets) dst in
  (* Attributes. *)
  dst ← gather_attributes src Curve [] (dst_to_src_curves st) dst;
  dst ← gather_attributes src Point [] (dst_to_src_points st) dst;
  (* Selection attribute. *)
  let dst :=
    set_domain_data Point (<[".selection" := VBool <$> dst_selected st]> (point_data dst)) dst in
  (* Cyclic attribute : newly created curves cannot be cyclic.
     NOTE: if the cyclic attribute is single and false, it can be kept this way. *)
  dst ←
    (if default true (VArray_get_if_single src_cyclic) then
       let span := cyclic_for_write dst in
       let view := Span_drop_front (Z.of_nat (length span)) old_curves_num in
       span ← Span_write span (start view) (replicate (Z.to_nat (size view)) false);
       Some (store_cyclic span dst)
     else Some dst);
  Some (update_curve_types dst).

End geometry.

End greasepencil.


(* ===================================================================== *)
(** * Grease Pencil edit operators                                       *)
(* ===================================================================== *)

Module operators.
Import BLI bke greasepencil.

(** ** The world the operators act on *)

(** Return values of an operator's [exec] callback. *)
Inductive OperatorStatus := OPERATOR_FINISHED | OPERATOR_CANCELLED.

(** Flags are kept as the list of the names that are or-ed together. *)
Inductive RecalcFlag := ID_RECALC_TRANSFORM | ID_RECALC_GEOMETRY | ID_RECALC_SYNC_TO_EVAL.
Inductive NotifierFlag :=
| NC_GEOM | NC_GPENCIL | NC_OBJECT | NC_SPACE
| ND_DATA | ND_DRAW | ND_SPACE_VIEW3D
| NA_EDITED.

#[global] Instance RecalcFlag_eq_dec : EqDecision RecalcFlag.
Proof. solve_decision. Defined.
#[global] Instance NotifierFlag_eq_dec : EqDecision NotifierFlag.
Proof. solve_decision. Defined.

(** The data-blocks an operator tags or names in a notifier. *)
Inductive IDRef :=
| id_grease_pencil        (** the Grease Pencil data of the active object *)
| id_grease_pencil_dst (n : nat)  (** the data of the n-th object created by "separate" *)
| id_object
| id_scene.

#[global] Instance IDRef_eq_dec : EqDecision IDRef.
Proof. solve_decision. Defined.

(** Where a drawing lives: in the drawing array of the edited Grease Pencil
    data, or in a frame inserted in a destination layer or object. *)
Inductive DrawingRef :=
| drawing_of (index : nat)
| drawing_dst (object : option nat) (layer_index : Z) (frame_number : Z).

#[global] Instance DrawingRef_eq_dec : EqDecision DrawingRef.
Proof. solve_decision. Defined.

(** What an operator does to the world outside its local variables. *)
Inductive Event :=
| DrawingWrite (drawing : DrawingRef)
    (** a mutating call on the strokes of a drawing *)
| TagTopologyChanged (drawing : DrawingRef)
| DEG_id_tag_update (id : IDRef) (flags : list RecalcFlag)
| WM_event_add_notifier (type : list NotifierFlag) (reference : option IDRef)
| BKE_report (message : string)
| WM_cursor_wait (enable : bool)
| RemoveFrames (layer : Z) (frame : Z)
| AddLayer (name : string)
| EnsureLayerInDst (object : nat) (layer_index : Z)
| InsertFrame (object : option nat) (layer_index : Z) (frame_number : Z)
| DuplicateObject (n : nat)
| AssignMaterials (n : nat)
| RemoveUnusedMaterials (object : option nat)
| SetActiveLayer (n : nat)
| SetActcol (value : Z)
| SetCursor
| ClipboardStore
| ClipboardClear
| EnsureMaterial.

(** ** The operator monad *)

(** An operator runs on the drawing array of the edited Grease Pencil data and
    leaves a result, the array after the run, and the events of the run in the
    order in which they happened. *)
Record Outcome (A : Type) := {
  result : A;
  drawings : list CurvesGeometry;
  events : list Event;
}.
Arguments result {A} _.
Arguments drawings {A} _.
Arguments events {A} _.

Record OpM (A : Type) := mkOp { run : list CurvesGeometry → Outcome A }.
Arguments mkOp {A} run.
Arguments run {A} _ _.

#[global] Instance OpM_ret : MRet OpM :=
  λ A x, mkOp (λ d, {| result := x; drawings := d; events := [] |}).
#[global] Instance OpM_bind : MBind OpM :=
  λ A B f m,
    mkOp (λ d, let r := run m d in
               let r' := run (f (result r)) (drawings r) in
               {| result := result r'; drawings := drawings r';
                  events := events r ++ events r' |}).

Definition emit (e : Event) : OpM unit :=
  mkOp (λ d, {| result := tt; drawings := d; events := [e] |}).

(** A range-based [for] (or [threading::parallel_for_each], taken in the order
    of the container) whose body updates the local state [s]. *)
Fixpoint foreach {A S : Type} (l : list A) (body : A → S → OpM S) (s : S) : OpM S :=
  match l with
  | [] => mret s
  | x :: l => s ← body x s; foreach l body s
  end.

Definition when (b : bool) (m : OpM unit) : OpM unit := if b then m else mret tt.

(** Modelled from the spec: [MutableDrawingInfo] (ED_grease_pencil.hh) is not
    part of the sources; its [drawing] member is a reference to a drawing of
    the edited data, kept here as the index of that drawing. *)
Record MutableDrawingInfo := {
  drawing : nat;
  layer_index : Z;
  frame_number : Z;
}.

(** [info.drawing.strokes()] and [info.drawing.strokes_for_write()]: the
    geometry behind the reference. *)
Definition strokes (info : MutableDrawingInfo) : OpM CurvesGeometry :=
  mkOp (λ d, {| result := default CurvesGeometry_default (d !! drawing info);
                drawings := d; events := [] |}).

(** A mutating call on the strokes of [info.drawing] that leaves them as
    [curves]. *)
Definition write_strokes (info : MutableDrawingInfo) (curves : CurvesGeometry) : OpM unit :=
  mkOp (λ d, {| result := tt; drawings := <[drawing info := curves]> d;
                events := [DrawingWrite (drawing_of (drawing info))] |}).

Definition tag_topology_changed (info : MutableDrawingInfo) : OpM unit :=
  emit (TagTopologyChanged (drawing_of (drawing info))).

Record Object := {
  actcol : Z;
  totcol : Z;
}.

Record Scene := {
  cfra : Z;
  (** [ED_grease_pencil_selection_domain_get(scene->toolsettings)] *)
  selection_domain : AttrDomain;
}.

Record bContext := {
  scene : Scene;
  active_object : Object;
}.

(** ** Attribute access *)

(** Modelled from the spec: [MutableAttributeAccessor] (BKE_attribute.hh),
    [index_mask::masked_fill], [array_utils::invert_booleans],
    [array_utils::booleans_mix_calc] and [bke::curves::fill_points] are not
    part of the sources; the calls the operators make are given below. *)

(** [attributes.lookup_for_write_span(name)]: the attribute is looked up by
    name alone; the writer knows the domain it was found on. *)
Definition lookup_for_write_span (curves : CurvesGeometry) (name : string)
  : option (AttrDomain * list AttrValue) :=
  match point_data curves !! name with
  | Some values => Some (Point, values)
  | None => match curve_data curves !! name with
            | Some values => Some (Curve, values)
            | None => None
            end
  end.

(** [writer.finish()] after the span was filled with [values]. *)
Definition store_span (domain : AttrDomain) (name : string) (values : list AttrValue)
    (curves : CurvesGeometry) : CurvesGeometry :=
  set_domain_data domain (<[name := values]> (domain_data domain curves)) curves.

(** [attributes.lookup_or_add_for_write_span<int>(name, domain)]: the stored
    array, or a new zero-filled one of the size of the domain. *)
Definition lookup_or_add_for_write_span_int (curves : CurvesGeometry) (name : string)
    (domain : AttrDomain) : list AttrValue :=
  match domain_data domain curves !! name with
  | Some values => values
  | None => replicate (Z.to_nat (domain_size domain curves)) (VInt 0)
  end.

Definition lookup_or_add_for_write_span_int8 (curves : CurvesGeometry) (name : string)
    (domain : AttrDomain) : list AttrValue :=
  match domain_data domain curves !! name with
  | Some values => values
  | None => replicate (Z.to_nat (domain_size domain curves)) (VInt8 0)
  end.

Definition as_int (v : AttrValue) : option Z :=
  match v with VInt i => Some i | _ => None end.

(** [attributes.lookup_or_default<int>(name, domain, default)]. *)
Definition lookup_or_default_int (curves : CurvesGeometry) (name : string)
    (domain : AttrDomain) (default_value : Z) : VArray Z :=
  match domain_data domain curves !! name ≫= mapM as_int with
  | Some values => ForSpan values
  | None => ForSingle default_value (domain_size domain curves)
  end.

(** [index_mask::masked_fill(span, value, mask)]. *)
Definition masked_fill {A : Type} (span : list A) (value : A) (mask : IndexMask) : list A :=
  foldl (λ span i, if decide (0 ≤ i) then <[Z.to_nat i := value]> span else span) span mask.

(** [array_utils::invert_booleans(span, mask)]. *)
Definition invert_booleans_masked (span : list bool) (mask : IndexMask) : list bool :=
  foldl (λ span i,
           match Array_get span i with
           | Some b => <[Z.to_nat i := negb b]> span
           | None => span
           end) span mask.

(** [array_utils::booleans_mix_calc(varray) == BooleanMix::AllFalse]. *)
Definition booleans_all_false (v : VArray bool) : bool :=
  match v with
  | ForSingle value n => negb value || bool_decide (n ≤ 0)
  | ForSpan values => forallb negb values
  end.

(** [bke::curves::fill_points(points_by_curve, curve_selection, value, dst)]. *)
Definition fill_points {A : Type} (points_by_curve : list Z) (curve_selection : IndexMask)
    (value : A) (dst : list A) : list A :=
  foldl (λ dst curve_i,
           match OffsetIndices_get points_by_curve curve_i with
           | Some points => masked_fill dst value (IndexRange_to_list points)
           | None => dst
           end) dst curve_selection.

(** The point indices of the curves of a mask. *)
Definition points_of_curves (points_by_curve : list Z) (curve_selection : IndexMask) : list Z :=
  curve_selection ≫= λ curve_i,
    match OffsetIndices_get points_by_curve curve_i with
    | Some points => IndexRange_to_list points
    | None => []
    end.

(** ** The editor and geometry libraries *)

(** Modelled from the spec: the functions below belong to the editor and
    geometry libraries (ED_grease_pencil.hh, ED_curves.hh, BKE_curves.hh,
    BKE_grease_pencil.hh, GEO_*.hh) and are not part of the sources; the
    operators are written against this interface.  A layer is named by its
    index.  The layer tree, on which [retrieve_editable_drawings] depends, is
    not changed between the call and the use of its result. *)
Class Library := {
  (** Unspecified contents of freshly allocated [int] arrays. *)
  uninitialized : nat → Z;

  retrieve_editable_drawings : Scene → list MutableDrawingInfo;
  retrieve_editable_drawings_from_layer : Scene → Z → list MutableDrawingInfo;
  (** [retrieve_visible_drawings(scene, grease_pencil, false)]: the indices of
      the visible drawings. *)
  retrieve_visible_drawings : Scene → list nat;
  retrieve_editable_and_selected_strokes : Object → CurvesGeometry → Z → IndexMask;
  retrieve_editable_and_selected_points : Object → CurvesGeometry → Z → IndexMask;
  retrieve_editable_and_selected_elements
    : Object → CurvesGeometry → Z → AttrDomain → IndexMask;
  retrieve_editable_points : Object → CurvesGeometry → Z → IndexMask;
  retrieve_editable_strokes : Object → CurvesGeometry → Z → IndexMask;
  retrieve_editable_strokes_by_material : Object → CurvesGeometry → Z → IndexMask;
  retrieve_selected_curves : CurvesGeometry → IndexMask;
  retrieve_selected_points : CurvesGeometry → IndexMask;
  has_anything_selected : CurvesGeometry → bool;
  (** [ed::curves::ensure_selection_attribute(curves, selection_domain,
      CD_PROP_BOOL)], [fill_selection_false] on its span and [finish()]: the
      geometry after the three calls. *)
  ensure_selection_false : AttrDomain → CurvesGeometry → CurvesGeometry;

  update_curve_types : CurvesGeometry → CurvesGeometry;
  remove_attributes_based_on_types : CurvesGeometry → CurvesGeometry;
  remove_points : CurvesGeometry → IndexMask → CurvesGeometry;
  remove_curves : CurvesGeometry → IndexMask → CurvesGeometry;
  reverse_curves : CurvesGeometry → IndexMask → CurvesGeometry;
  duplicate_curves : CurvesGeometry → IndexMask → CurvesGeometry;
  duplicate_points : CurvesGeometry → IndexMask → CurvesGeometry;
  subdivide_curves : CurvesGeometry → IndexMask → VArray Z → CurvesGeometry;
  reorder_curves_geometry : CurvesGeometry → list Z → CurvesGeometry;
  curves_merge_by_distance : CurvesGeometry → float → IndexMask → CurvesGeometry;
  convert_curves : CurvesGeometry → IndexMask → Z → bool → CurvesGeometry;
  curves_copy_curve_selection : CurvesGeometry → IndexMask → CurvesGeometry;
  curves_copy_point_selection : CurvesGeometry → IndexMask → CurvesGeometry;
  join_geometries : list CurvesGeometry → CurvesGeometry;

  (** [geometry::smooth_curve_attribute(curves_to_smooth, points_by_curve,
      point_selection, cyclic, iterations, influence, smooth_ends, keep_shape,
      attribute_data)]: the span after the call. *)
  smooth_curve_attribute
    : IndexMask → list Z → VArray bool → VArray bool → Z → float → bool → bool →
      list AttrValue → list AttrValue;

  (** Floating-point computations. *)
  float_le : float → float → bool;
  float_mul : float → float → float;
  float3_sub : AttrValue → AttrValue → AttrValue;
  float3_add : AttrValue → AttrValue → AttrValue;
  ramer_douglas_peucker_simplify
    : IndexRange → float → (Z → Z → Z → float) → list bool → Z * list bool;
  dist_function_positions : CurvesGeometry → Z → Z → Z → float;
  dist_function_positions_and_radii : CurvesGeometry → Z → Z → Z → float;
  (** The transforms of the snapping operators between layer and world
      space: a position of a layer snapped to the grid, and the cursor in the
      space of a layer. *)
  snap_position_to_grid : Z → AttrValue → AttrValue;
  cursor_layer : Z → AttrValue;

  (** The layer tree of the Grease Pencil data. *)
  active_layer : option Z;
  layers : list Z;
  layer_is_editable : Z → bool;
  layer_is_locked : Z → bool;
  layer_is_selected : Z → bool;
  start_frame_at : Z → Z → option Z;
  remove_frames : Z → Z → bool;
  (** [find_node_by_name(name)] when it finds a layer; the first argument tells
      whether the layer was just added. *)
  find_layer_by_name : bool → string → option Z;
  has_drawing_at : Z → Z → bool;
  (** [get_editable_drawing_at(layer, frame)]: the index of the drawing. *)
  get_editable_drawing_at : Z → Z → option nat;
  (** [ensure_active_keyframe(scene, grease_pencil, inserted_keyframe)]: whether
      there is a frame to draw on, and whether it was inserted. *)
  ensure_active_keyframe : option bool;

  (** Materials: [BKE_libblock_find_name(bmain, ID_MA, name)],
      [BKE_object_material_index_get(object, ma)] and
      [BKE_object_material_slot_used(object, slot)]. *)
  find_material : string → option nat;
  object_material_index_get : Object → nat → Z;
  object_material_slot_used : Z → bool;

  (** The defaults of [Drawing::radii_for_write()] and
      [Drawing::opacities_for_write()]. *)
  default_radius : float;
  default_opacity : float;

  (** The values of [GP_STROKE_CAP_ROUND], [GP_STROKE_CAP_FLAT],
      [GP_STROKE_CAP_TYPE_ROUND] and [GP_STROKE_CAP_TYPE_FLAT], declared in
      headers that are not part of the sources. *)
  GP_STROKE_CAP_ROUND : Z;
  GP_STROKE_CAP_FLAT : Z;
  GP_STROKE_CAP_TYPE_ROUND : Z;
  GP_STROKE_CAP_TYPE_FLAT : Z;

  (** The clipboard is a global that outlives the operators: what it holds
      when the operator starts, and the result of
      [clipboard_materials_remap(bmain, object)]. *)
  clipboard_curves : CurvesGeometry;
  clipboard_material_remap : list Z;
}.

(** ** The [exec] callbacks *)

Section exec.

Context {library : Library}.
Variable C : bContext.

(** The update and notification that ends most operators. *)
Definition tag_and_notify : OpM unit :=
  emit (DEG_id_tag_update id_grease_pencil [ID_RECALC_GEOMETRY]);;
  emit (WM_event_add_notifier [NC_GEOM; ND_DATA] (Some id_grease_pencil)).

(** *** Smooth Stroke Operator *)

Record SmoothProperties := {
  iterations : Z;
  factor : float;
  keep_shape : bool;
  smooth_ends : bool;
  smooth_position : bool;
  smooth_radius : bool;
  smooth_opacity : bool;
}.

(** [lookup_for_write_span(name)], [smooth_curve_attribute] on the span and
    [finish()], for one attribute of the strokes of a drawing. *)
Definition smooth_attribute (op : SmoothProperties) (name : string) (keep_shape : bool)
    (strokes : IndexMask) (points_by_curve : list Z) (point_selection cyclic : VArray bool)
    (curves : CurvesGeometry) : CurvesGeometry :=
  match lookup_for_write_span curves name with
  | Some (domain, span) =>
      store_span domain name
        (smooth_curve_attribute strokes points_by_curve point_selection cyclic
           (iterations op) (factor op) (smooth_ends op) keep_shape span)
        curves
  | None => curves
  end.

(** Modelled from the spec: [Drawing::opacities()] and [Drawing::radii()]
    (BKE_grease_pencil.hh) are not part of the sources: the point attributes
    "opacity" and "radius", a single default value when not stored. *)
Definition attribute_is_span (curves : CurvesGeometry) (name : string) : bool :=
  bool_decide (is_Some (point_data curves !! name)).

(** The body run for every editable drawing. *)
Definition smooth_drawing (op : SmoothProperties) (info : MutableDrawingInfo)
    (changed : bool) : OpM bool :=
  curves ← strokes info;
  if decide (points_num curves = 0) then mret changed else
  let strokes :=
    retrieve_editable_and_selected_strokes (active_object C) curves (layer_index info) in
  if IndexMask_is_empty strokes then mret changed else
  let points_by_curve := points_by_curve curves in
  let cyclic := cyclic curves in
  let point_selection := lookup_or_default_bool curves ".selection" Point true in
  '(curves, changed) ←
    (if smooth_position op then
       let curves := smooth_attribute op "position" (keep_shape op)
                       strokes points_by_curve point_selection cyclic curves in
       write_strokes info curves;;
       mret (curves, true)
     else mret (curves, changed));
  '(curves, changed) ←
    (if smooth_opacity op && attribute_is_span curves "opacity" then
       let curves := smooth_attribute op "opacity" false
                       strokes points_by_curve point_selection cyclic curves in
       write_strokes info curves;;
       mret (curves, true)
     else mret (curves, changed));
  '(curves, changed) ←
    (if smooth_radius op && attribute_is_span curves "radius" then
       let curves := smooth_attribute op "radius" false
                       strokes points_by_curve point_selection cyclic curves in
       write_strokes info curves;;
       mret (curves, true)
     else mret (curves, changed));
  mret changed.

Definition grease_pencil_stroke_smooth_exec (op : SmoothProperties) : OpM OperatorStatus :=
  if negb (smooth_position op || smooth_radius op || smooth_opacity op) then
    (* There's nothing to be smoothed, return. *)
    mret OPERATOR_FINISHED
  else
  let drawings := retrieve_editable_drawings (scene C) in
  changed ← foreach drawings (smooth_drawing op) false;
  when changed tag_and_notify;;
  mret OPERATOR_FINISHED.

(** *** Simplify Stroke Operator *)

Definition stroke_simplify (points : IndexRange) (cyclic : bool) (epsilon : float)
    (dist_function : Z → Z → Z → float) (points_to_delete : list bool)
  : Z * list bool :=
  let curve_selection := default [] (Span_slice points_to_delete points) in
  if negb (bool_decide (true ∈ curve_selection)) then (0, points_to_delete) else
  let is_last_segment_selected :=
    default false (head curve_selection) && default false (last curve_selection) in
  let selection_ranges := find_all_ranges curve_selection true in
  let '(total_points_to_delete, points_to_delete) :=
    foldl (λ '(total, points_to_delete) range,
             let '(n, points_to_delete) :=
               ramer_douglas_peucker_simplify (IndexRange_shift range (start points))
                 epsilon dist_function points_to_delete in
             (total + n, points_to_delete))
      (0, points_to_delete) selection_ranges in
  (* For cyclic curves, simplify the last segment. *)
  if cyclic && bool_decide (2 < size points) && is_last_segment_selected then
    let dist := dist_function (IndexRange_last points 1) (IndexRange_first points)
                  (IndexRange_last points 0) in
    if float_le dist epsilon then
      (total_points_to_delete + 1,
       default points_to_delete (Array_set points_to_delete (IndexRange_last points 0) true))
    else (total_points_to_delete, points_to_delete)
  else (total_points_to_delete, points_to_delete).

(** Modelled from the spec: [IndexMask::from_bools] is not part of the
    sources: the indices at which the array holds [true]. *)
Definition IndexMask_from_bools (bools : list bool) : IndexMask :=
  filter (λ i, bools !! Z.to_nat i = Some true) (IndexRange_to_list (index_range bools)).

Definition simplify_drawing (epsilon : float) (info : MutableDrawingInfo) (changed : bool)
  : OpM bool :=
  curves ← strokes info;
  if decide (points_num curves = 0) then mret changed else
  let strokes :=
    retrieve_editable_and_selected_strokes (active_object C) curves (layer_index info) in
  if IndexMask_is_empty strokes then mret changed else
  let radii_is_single := negb (attribute_is_span curves "radius") in
  let cyclic := cyclic curves in
  let points_by_curve := points_by_curve curves in
  (* Mark all points in the editable curves to be deleted. *)
  let points_to_delete :=
    fill_points points_by_curve strokes true
      (replicate (Z.to_nat (points_num curves)) false) in
  let dist_function :=
    if radii_is_single then dist_function_positions curves
    else dist_function_positions_and_radii curves in
  let '(total_points_to_delete, points_to_delete) :=
    foldl (λ '(total, points_to_delete) curve_i,
             let points := default {| start := 0; size := 0 |}
                             (OffsetIndices_get points_by_curve curve_i) in
             let '(n, points_to_delete) :=
               stroke_simplify points (default false (VArray_get cyclic curve_i))
                 epsilon dist_function points_to_delete in
             (total + n, points_to_delete))
      (0, points_to_delete) strokes in
  if decide (0 < total_points_to_delete) then
    write_strokes info (remove_points curves (IndexMask_from_bools points_to_delete));;
    tag_topology_changed info;;
    mret true
  else mret changed.

Definition grease_pencil_stroke_simplify_exec (epsilon : float) : OpM OperatorStatus :=
  let drawings := retrieve_editable_drawings (scene C) in
  changed ← foreach drawings (simplify_drawing epsilon) false;
  when changed tag_and_notify;;
  mret OPERATOR_FINISHED.

(** *** Delete Operator *)

Definition delete_drawing (selection_domain : AttrDomain) (info : MutableDrawingInfo)
    (changed : bool) : OpM bool :=
  curves ← strokes info;
  let elements :=
    retrieve_editable_and_selected_elements (active_object C) curves (layer_index info)
      selection_domain in
  if IndexMask_is_empty elements then mret changed else
  match selection_domain with
  | Curve => write_strokes info (remove_curves curves elements)
  | Point =>
      write_strokes info
        (default curves
           (remove_points_and_split uninitialized update_curve_types
              remove_attributes_based_on_types curves elements))
  | _ => mret tt
  end;;
  tag_topology_changed info;;
  mret true.

Definition grease_pencil_delete_exec : OpM OperatorStatus :=
  let selection_domain := selection_domain (scene C) in
  let drawings := retrieve_editable_drawings (scene C) in
  changed ← foreach drawings (delete_drawing selection_domain) false;
  when changed tag_and_notify;;
  mret OPERATOR_FINISHED.

(** *** Dissolve Points Operator *)

Inductive DissolveMode :=
| DISSOLVE_POINTS    (** Dissolve all selected points. *)
| DISSOLVE_BETWEEN   (** Dissolve between selected points. *)
| DISSOLVE_UNSELECT. (** Dissolve unselected points. *)

#[global] Instance DissolveMode_eq_dec : EqDecision DissolveMode.
Proof. solve_decision. Defined.

(** [span.slice(range).fill(value)]. *)
Definition fill_range {A : Type} (span : list A) (range : IndexRange) (value : A) : list A :=
  masked_fill span value (IndexRange_to_list range).

(** The body of the loop over the curves in [get_points_to_dissolve]. *)
Definition dissolve_curve (mode : DissolveMode) (points_by_curve : list Z)
    (points_to_keep : list bool) (curve_i : Z) : list bool :=
  let points := default {| start := 0; size := 0 |}
                  (OffsetIndices_get points_by_curve curve_i) in
  let curve_selection := default [] (Span_slice points_to_keep points) in
  (* The unselected curves should not be dissolved. *)
  if negb (bool_decide (true ∈ curve_selection)) then fill_range points_to_keep points true
  else
  (* `between` is just `unselect` but with the first and last segments not
     getting dissolved. *)
  if negb (bool_decide (mode = DISSOLVE_BETWEEN)) then points_to_keep else
  let deselection_ranges := find_all_ranges curve_selection false in
  match head deselection_ranges, last deselection_ranges with
  | Some first, Some last =>
      let first_range := IndexRange_shift first (IndexRange_first points) in
      let last_range := IndexRange_shift last (IndexRange_first points) in
      (* Ranges should only be fill if the first/last point matches the
         start/end point of the segment. *)
      let points_to_keep :=
        if decide (IndexRange_first first_range = IndexRange_first points)
        then fill_range points_to_keep first_range true else points_to_keep in
      if decide (IndexRange_last last_range 0 = IndexRange_last points 0)
      then fill_range points_to_keep last_range true else points_to_keep
  | _, _ => points_to_keep
  end.

Definition get_points_to_dissolve (curves : CurvesGeometry) (mask : IndexMask)
    (mode : DissolveMode) : OpM (list bool) :=
  let selection := lookup_or_default_bool curves ".selection" Point true in
  (* [selection.materialize(mask, points_to_dissolve)] *)
  let points_to_dissolve :=
    foldl (λ span i,
             match VArray_get selection i with
             | Some b => if decide (0 ≤ i) then <[Z.to_nat i := b]> span else span
             | None => span
             end)
      (replicate (Z.to_nat (points_num curves)) false) mask in
  if decide (mode = DISSOLVE_POINTS) then mret points_to_dissolve else
  (* Both `between` and `unselect` have the unselected point being the ones
     dissolved so we need to invert. *)
  let points_by_curve := points_by_curve curves in
  let points_to_keep :=
    foldl (dissolve_curve mode points_by_curve) points_to_dissolve
      (IndexRange_to_list (curves_range curves)) in
  mret (negb <$> points_to_keep).

Definition dissolve_drawing (mode : DissolveMode) (info : MutableDrawingInfo)
    (changed : bool) : OpM bool :=
  curves ← strokes info;
  if decide (points_num curves = 0) then mret changed else
  let points :=
    retrieve_editable_and_selected_points (active_object C) curves (layer_index info) in
  if IndexMask_is_empty points then mret changed else
  points_to_dissolve ← get_points_to_dissolve curves points mode;
  if bool_decide (true ∈ points_to_dissolve) then
    write_strokes info (remove_points curves (IndexMask_from_bools points_to_dissolve));;
    tag_topology_changed info;;
    mret true
  else mret changed.

Definition grease_pencil_dissolve_exec (mode : DissolveMode) : OpM OperatorStatus :=
  let drawings := retrieve_editable_drawings (scene C) in
  changed ← foreach drawings (dissolve_drawing mode) false;
  when changed tag_and_notify;;
  mret OPERATOR_FINISHED.

(** *** Delete Frame Operator *)

Inductive DeleteFrameMode :=
| ACTIVE_FRAME  (** Delete the active frame for the current layer. *)
| ALL_FRAMES.   (** Delete the active frames for all layers. *)

Definition delete_frame_of_layer (current_frame : Z) (layer : Z) (changed : bool) : OpM bool :=
  if layer_is_editable layer then
    match start_frame_at layer current_frame with
    | Some frame =>
        emit (RemoveFrames layer frame);;
        mret (changed || remove_frames layer frame)
    | None => mret changed
    end
  else mret changed.

Definition grease_pencil_delete_frame_exec (mode : DeleteFrameMode) : OpM OperatorStatus :=
  let current_frame := cfra (scene C) in
  changed ←
    match mode, active_layer with
    | ACTIVE_FRAME, Some layer => delete_frame_of_layer current_frame layer false
    | ACTIVE_FRAME, None => mret false
    | ALL_FRAMES, _ => foreach layers (delete_frame_of_layer current_frame) false
    end;
  when changed
    (emit (DEG_id_tag_update id_grease_pencil [ID_RECALC_GEOMETRY]);;
     emit (WM_event_add_notifier [NC_GEOM; ND_DATA; NA_EDITED] (Some id_grease_pencil));;
     emit (WM_event_add_notifier [NC_GPENCIL; NA_EDITED] None));;
  mret OPERATOR_FINISHED.

(** *** Stroke Material Set Operator *)

Definition material_set_drawing (material_index : Z) (info : MutableDrawingInfo) (_ : unit)
  : OpM unit :=
  curves ← strokes info;
  let strokes :=
    retrieve_editable_and_selected_strokes (active_object C) curves (layer_index info) in
  if IndexMask_is_empty strokes then mret tt else
  let materials := lookup_or_add_for_write_span_int curves "material_index" Curve in
  let materials := masked_fill materials (VInt material_index) strokes in
  write_strokes info (store_span Curve "material_index" materials curves).

Definition grease_pencil_stroke_material_set_exec (name : string) : OpM OperatorStatus :=
  let object := active_object C in
  let material_index := actcol object - 1 in
  match
    (if decide (name ≠ "") then
       match find_material name with
       | None => None
       | Some ma => Some (object_material_index_get object ma)
       end
     else Some material_index)
  with
  | None =>
      emit (BKE_report "Material could not be found");;
      mret OPERATOR_CANCELLED
  | Some material_index =>
      if decide (material_index = -1) then mret OPERATOR_CANCELLED else
      let drawings := retrieve_editable_drawings (scene C) in
      foreach drawings (material_set_drawing material_index) tt;;
      emit (DEG_id_tag_update id_grease_pencil [ID_RECALC_GEOMETRY]);;
      emit (WM_event_add_notifier [NC_GEOM; ND_DATA; NA_EDITED] (Some id_grease_pencil));;
      mret OPERATOR_FINISHED
  end.

(** *** Cyclical Set Operator *)

Inductive CyclicalMode :=
| CLOSE   (** Sets all strokes to cycle. *)
| OPEN    (** Sets all strokes to not cycle. *)
| TOGGLE. (** Switches the cyclic state of the strokes. *)

#[global] Instance CyclicalMode_eq_dec : EqDecision CyclicalMode.
Proof. solve_decision. Defined.

Definition cyclical_set_drawing (mode : CyclicalMode) (info : MutableDrawingInfo)
    (changed : bool) : OpM bool :=
  curves ← strokes info;
  if bool_decide (mode = OPEN) && negb (bool_decide (is_Some (curve_data curves !! "cyclic")))
  then (* Avoid creating unneeded attribute. *) mret changed else
  let strokes :=
    retrieve_editable_and_selected_strokes (active_object C) curves (layer_index info) in
  if IndexMask_is_empty strokes then mret changed else
  let cyclic := cyclic_for_write curves in
  let cyclic :=
    match mode with
    | CLOSE => masked_fill cyclic true strokes
    | OPEN => masked_fill cyclic false strokes
    | TOGGLE => invert_booleans_masked cyclic strokes
    end in
  let curves := store_cyclic cyclic curves in
  (* Remove the attribute if it is empty. *)
  let curves :=
    if negb (bool_decide (mode = CLOSE)) && booleans_all_false (bke.cyclic curves)
    then set_domain_data Curve (delete "cyclic" (curve_data curves)) curves
    else curves in
  write_strokes info curves;;
  mret true.

Definition grease_pencil_cyclical_set_exec (mode : CyclicalMode) : OpM OperatorStatus :=
  let drawings := retrieve_editable_drawings (scene C) in
  changed ← foreach drawings (cyclical_set_drawing mode) false;
  when changed tag_and_notify;;
  mret OPERATOR_FINISHED.

(** *** Set Active Material Operator *)

(** The loop stops at the first drawing with selected strokes; the local
    state says whether that drawing was found. *)
Definition set_active_material_drawing (info : MutableDrawingInfo) (found : bool)
  : OpM bool :=
  if found then mret found else
  curves ← strokes info;
  let strokes :=
    retrieve_editable_and_selected_strokes (active_object C) curves (layer_index info) in
  if IndexMask_is_empty strokes then mret false else
  let materials := lookup_or_default_int curves "material_index" Curve 0 in
  emit (SetActcol (default 0 (head strokes ≫= VArray_get materials) + 1));;
  mret true.

Definition grease_pencil_set_active_material_exec : OpM OperatorStatus :=
  if decide (totcol (active_object C) = 0) then mret OPERATOR_CANCELLED else
  let drawings := retrieve_editable_drawings (scene C) in
  foreach drawings set_active_material_drawing false;;
  emit (WM_event_add_notifier [NC_GEOM; ND_DATA; NA_EDITED] (Some id_grease_pencil));;
  mret OPERATOR_FINISHED.

(** *** Set Uniform Thickness and Opacity Operators *)

(** Modelled from the spec: [Drawing::radii_for_write()] and
    [Drawing::opacities_for_write()] are not part of the sources: the spans of
    the point attributes "radius" and "opacity", created with [default_value]
    when not stored. *)
Definition point_floats_for_write (curves : CurvesGeometry) (name : string)
    (default_value : float) : list AttrValue :=
  match point_data curves !! name with
  | Some values => values
  | None => replicate (Z.to_nat (points_num curves)) (VFloat default_value)
  end.

Definition set_uniform_drawing (name : string) (default_value value : float)
    (info : MutableDrawingInfo) (changed : bool) : OpM bool :=
  curves ← strokes info;
  let strokes :=
    retrieve_editable_and_selected_strokes (active_object C) curves (layer_index info) in
  if IndexMask_is_empty strokes then mret changed else
  let points_by_curve := points_by_curve curves in
  let span := point_floats_for_write curves name default_value in
  let span := fill_points points_by_curve strokes (VFloat value) span in
  write_strokes info (store_span Point name span curves);;
  mret true.

(** 0.5f *)
Definition float_half : float := 0x3F000000.

Definition grease_pencil_set_uniform_thickness_exec (thickness : float) : OpM OperatorStatus :=
  (* Radius is half of the thickness. *)
  let radius := float_mul thickness float_half in
  let drawings := retrieve_editable_drawings (scene C) in
  changed ← foreach drawings (set_uniform_drawing "radius" default_radius radius) false;
  when changed tag_and_notify;;
  mret OPERATOR_FINISHED.

Definition grease_pencil_set_uniform_opacity_exec (opacity : float) : OpM OperatorStatus :=
  let drawings := retrieve_editable_drawings (scene C) in
  changed ← foreach drawings (set_uniform_drawing "opacity" default_opacity opacity) false;
  when changed tag_and_notify;;
  mret OPERATOR_FINISHED.

(** *** Switch Direction Operator *)

Definition switch_direction_drawing (info : MutableDrawingInfo) (changed : bool) : OpM bool :=
  curves ← strokes info;
  let strokes :=
    retrieve_editable_and_selected_strokes (active_object C) curves (layer_index info) in
  if IndexMask_is_empty strokes then mret changed else
  (* Switch stroke direction. *)
  write_strokes info (reverse_curves curves strokes);;
  mret true.

Definition grease_pencil_stroke_switch_direction_exec : OpM OperatorStatus :=
  let drawings := retrieve_editable_drawings (scene C) in
  changed ← foreach drawings switch_direction_drawing false;
  when changed tag_and_notify;;
  mret OPERATOR_FINISHED.

(** *** Set Curve Caps Operator *)

Inductive CapsMode :=
| CAPS_FLAT   (** Switches both to Flat. *)
| CAPS_START  (** Change only start. *)
| CAPS_END    (** Change only end. *)
| CAPS_ROUND. (** Switches both to default rounded. *)

Definition toggle_caps (caps : list AttrValue) (strokes : IndexMask) : list AttrValue :=
  foldl (λ caps stroke_i,
           match Array_get caps stroke_i with
           | Some cap =>
               if decide (cap = VInt8 GP_STROKE_CAP_FLAT)
               then <[Z.to_nat stroke_i := VInt8 GP_STROKE_CAP_ROUND]> caps
               else <[Z.to_nat stroke_i := VInt8 GP_STROKE_CAP_FLAT]> caps
           | None => caps
           end) caps strokes.

Definition caps_set_drawing (mode : CapsMode) (info : MutableDrawingInfo) (changed : bool)
  : OpM bool :=
  curves ← strokes info;
  let strokes :=
    retrieve_editable_and_selected_strokes (active_object C) curves (layer_index info) in
  if IndexMask_is_empty strokes then mret changed else
  let curves :=
    match mode with
    | CAPS_ROUND | CAPS_FLAT =>
        let start_caps := lookup_or_add_for_write_span_int8 curves "start_cap" Curve in
        let end_caps := lookup_or_add_for_write_span_int8 curves "end_cap" Curve in
        let flag_set :=
          match mode with
          | CAPS_ROUND => GP_STROKE_CAP_TYPE_ROUND
          | _ => GP_STROKE_CAP_TYPE_FLAT
          end in
        let curves :=
          store_span Curve "start_cap" (masked_fill start_caps (VInt8 flag_set) strokes)
            curves in
        store_span Curve "end_cap" (masked_fill end_caps (VInt8 flag_set) strokes) curves
    | CAPS_START =>
        let caps := lookup_or_add_for_write_span_int8 curves "start_cap" Curve in
        store_span Curve "start_cap" (toggle_caps caps strokes) curves
    | CAPS_END =>
        let caps := lookup_or_add_for_write_span_int8 curves "end_cap" Curve in
        store_span Curve "end_cap" (toggle_caps caps strokes) curves
    end in
  write_strokes info curves;;
  mret true.

Definition grease_pencil_caps_set_exec (mode : CapsMode) : OpM OperatorStatus :=
  let drawings := retrieve_editable_drawings (scene C) in
  changed ← foreach drawings (caps_set_drawing mode) false;
  when changed tag_and_notify;;
  mret OPERATOR_FINISHED.

(** *** Set Active Material (by slot) Operator *)

Definition grease_pencil_set_material_exec (slot : Z) : OpM OperatorStatus :=
  (* Try to get material slot. *)
  if bool_decide (slot < 1) || bool_decide (totcol (active_object C) < slot)
  then mret OPERATOR_CANCELLED else
  (* Set active material. *)
  emit (SetActcol slot);;
  emit (WM_event_add_notifier [NC_GEOM; ND_DATA; NA_EDITED] (Some id_grease_pencil));;
  mret OPERATOR_FINISHED.

(** *** Duplicate Operator *)

Definition duplicate_drawing (selection_domain : AttrDomain) (info : MutableDrawingInfo)
    (changed : bool) : OpM bool :=
  curves ← strokes info;
  let elements :=
    retrieve_editable_and_selected_elements (active_object C) curves (layer_index info)
      selection_domain in
  if IndexMask_is_empty elements then mret changed else
  match selection_domain with
  | Curve => write_strokes info (duplicate_curves curves elements)
  | Point => write_strokes info (duplicate_points curves elements)
  | _ => mret tt
  end;;
  tag_topology_changed info;;
  mret true.

Definition grease_pencil_duplicate_exec : OpM OperatorStatus :=
  let selection_domain := selection_domain (scene C) in
  let drawings := retrieve_editable_drawings (scene C) in
  changed ← foreach drawings (duplicate_drawing selection_domain) false;
  when changed tag_and_notify;;
  mret OPERATOR_FINISHED.

(** *** Clean Loose Points Operator *)

Definition clean_loose_drawing (limit : Z) (info : MutableDrawingInfo) (_ : unit)
  : OpM unit :=
  curves ← strokes info;
  let points_by_curve := points_by_curve curves in
  let editable_strokes :=
    retrieve_editable_strokes (active_object C) curves (layer_index info) in
  let curves_to_delete :=
    filter (λ i, Is_true match OffsetIndices_get points_by_curve i with
                         | Some points => bool_decide (size points ≤ limit)
                         | None => false
                         end) editable_strokes in
  write_strokes info (remove_curves curves curves_to_delete).

Definition grease_pencil_clean_loose_exec (limit : Z) : OpM OperatorStatus :=
  let drawings := retrieve_editable_drawings (scene C) in
  foreach drawings (clean_loose_drawing limit) tt;;
  tag_and_notify;;
  mret OPERATOR_FINISHED.

(** *** Stroke Subdivide Operator *)

(** The cuts registered for one curve when only the segments between
    selected points are cut. *)
Definition subdivide_curve_cuts (cuts : Z) (points_by_curve : list Z)
    (selection cyclic : VArray bool) (use_cuts : list Z) (curve : Z) : list Z :=
  let points := default {| start := 0; size := 0 |} (OffsetIndices_get points_by_curve curve) in
  (* No need to loop to the last point since the cut is registered on the
     point before the segment. *)
  let use_cuts :=
    foldl (λ use_cuts point,
             (* The point itself should be selected. *)
             if negb (default false (VArray_get selection point)) then use_cuts else
             (* If the next point in the curve is selected, then cut this segment. *)
             if default false (VArray_get selection (point + 1))
             then default use_cuts (Array_set use_cuts point cuts)
             else use_cuts)
      use_cuts (IndexRange_to_list (IndexRange_drop_back points 1)) in
  (* Check for cyclic and selection. *)
  if default false (VArray_get cyclic curve) then
    let first_point := IndexRange_first points in
    let last_point := IndexRange_last points 0 in
    if default false (VArray_get selection first_point)
       && default false (VArray_get selection last_point)
    then default use_cuts (Array_set use_cuts last_point cuts)
    else use_cuts
  else use_cuts.

Definition subdivide_drawing (cuts : Z) (only_selected : bool) (selection_domain : AttrDomain)
    (info : MutableDrawingInfo) (changed : bool) : OpM bool :=
  curves ← strokes info;
  let strokes :=
    retrieve_editable_and_selected_strokes (active_object C) curves (layer_index info) in
  if IndexMask_is_empty strokes then mret changed else
  vcuts ←
    (if bool_decide (selection_domain = Curve) || negb only_selected then
       (* Subdivide entire selected curve, every stroke subdivides to the same cut. *)
       mret (ForSingle cuts (points_num curves))
     else if bool_decide (selection_domain = Point) then
       (* Subdivide between selected points. *)
       let selection := lookup_or_default_bool curves ".selection" Point true in
       let points_by_curve := points_by_curve curves in
       let cyclic := cyclic curves in
       let use_cuts := replicate (Z.to_nat (points_num curves)) 0 in
       mret (ForSpan
               (foldl (subdivide_curve_cuts cuts points_by_curve selection cyclic) use_cuts
                  (IndexRange_to_list (curves_range curves))))
     else mret (ForSpan []));
  write_strokes info (subdivide_curves curves strokes vcuts);;
  tag_topology_changed info;;
  mret true.

Definition gpencil_stroke_subdivide_exec (cuts : Z) (only_selected : bool)
  : OpM OperatorStatus :=
  let selection_domain := selection_domain (scene C) in
  let drawings := retrieve_editable_drawings (scene C) in
  changed ← foreach drawings (subdivide_drawing cuts only_selected selection_domain) false;
  when changed
    (emit (DEG_id_tag_update id_grease_pencil [ID_RECALC_GEOMETRY]);;
     emit (WM_event_add_notifier [NC_GPENCIL; ND_DATA; NA_EDITED] None));;
  mret OPERATOR_FINISHED.

(** *** Reorder Operator *)

Definition reorder_drawing (direction : ReorderDirection) (info : MutableDrawingInfo)
    (changed : bool) : OpM bool :=
  curves ← strokes info;
  let strokes :=
    retrieve_editable_and_selected_strokes (active_object C) curves (layer_index info) in
  if IndexMask_is_empty strokes then mret changed else
  (* Return if everything is selected. *)
  if decide (IndexMask_size strokes = curves_num curves) then mret changed else
  let indices :=
    default [] (get_reordered_indices uninitialized (curves_range curves) strokes direction) in
  write_strokes info (reorder_curves_geometry curves indices);;
  tag_topology_changed info;;
  mret true.

Definition grease_pencil_stroke_reorder_exec (direction : ReorderDirection)
  : OpM OperatorStatus :=
  let drawings := retrieve_editable_drawings (scene C) in
  changed ← foreach drawings (reorder_drawing direction) false;
  when changed tag_and_notify;;
  mret OPERATOR_FINISHED.

(** *** Move To Layer Operator *)

(** Modelled from the spec: [GreasePencil::insert_frame] is not part of the
    sources: [grease_pencil.insert_frame(layer, frame)] in the edited data adds
    a new drawing at the end of the drawing array. *)
Definition insert_frame (layer : Z) (frame : Z) : OpM MutableDrawingInfo :=
  mkOp (λ d, {| result := {| drawing := length d; layer_index := layer;
                             frame_number := frame |};
                drawings := d ++ [CurvesGeometry_default];
                events := [InsertFrame None layer frame] |}).

Definition move_to_layer_drawing (layer_dst : Z) (info : MutableDrawingInfo) (changed : bool)
  : OpM bool :=
  curves_src ← strokes info;
  let selected_strokes := retrieve_selected_curves curves_src in
  if IndexMask_is_empty selected_strokes then mret changed else
  (if negb (has_drawing_at layer_dst (frame_number info)) then
     (* Move geometry to a new drawing in target layer. *)
     drawing_dst ← insert_frame layer_dst (frame_number info);
     write_strokes drawing_dst (curves_copy_curve_selection curves_src selected_strokes);;
     write_strokes info (remove_curves curves_src selected_strokes);;
     tag_topology_changed drawing_dst
   else
     match get_editable_drawing_at layer_dst (frame_number info) with
     | Some dst =>
         (* Append geometry to drawing in target layer. *)
         let drawing_dst := {| drawing := dst; layer_index := layer_dst;
                               frame_number := frame_number info |} in
         let selected_elems := curves_copy_curve_selection curves_src selected_strokes in
         layer_curves ← strokes drawing_dst;
         write_strokes drawing_dst (join_geometries [selected_elems; layer_curves]);;
         curves_src ← strokes info;
         write_strokes info (remove_curves curves_src selected_strokes);;
         tag_topology_changed drawing_dst
     | None => mret tt
     end);;
  tag_topology_changed info;;
  mret true.

Definition grease_pencil_move_to_layer_exec (target_layer_name : string)
    (add_new_layer : bool) : OpM OperatorStatus :=
  when add_new_layer (emit (AddLayer target_layer_name));;
  match find_layer_by_name add_new_layer target_layer_name with
  | None => emit (BKE_report "There is no layer");; mret OPERATOR_CANCELLED
  | Some layer_dst =>
      if layer_is_locked layer_dst then
        emit (BKE_report "Layer is locked");; mret OPERATOR_CANCELLED
      else
      (* Iterate through all the drawings at current scene frame. *)
      let drawings_src := retrieve_editable_drawings (scene C) in
      changed ← foreach drawings_src (move_to_layer_drawing layer_dst) false;
      when changed
        (emit (DEG_id_tag_update id_grease_pencil [ID_RECALC_TRANSFORM; ID_RECALC_GEOMETRY]);;
         emit (WM_event_add_notifier [NC_GPENCIL; ND_DATA; NA_EDITED] None));;
      mret OPERATOR_FINISHED
  end.

(** *** Stroke Separate Operator *)

Inductive SeparateMode :=
| SELECTED   (* Selected Points/Strokes. *)
| MATERIAL   (* By Material. *)
| LAYER.     (* By Active Layer. *)


(** [duplicate_grease_pencil_object]; the new object is named by [n]. *)
Definition duplicate_grease_pencil_object (n : nat) : OpM nat :=
  emit (DuplicateObject n);; mret n.

(** The drawing inserted in the destination object receives the copied
    strokes. *)
Definition write_dst_drawing (object_dst : nat) (info : MutableDrawingInfo) : OpM unit :=
  emit (EnsureLayerInDst object_dst (layer_index info));;
  emit (InsertFrame (Some object_dst) (layer_index info) (frame_number info));;
  emit (DrawingWrite (drawing_dst (Some object_dst) (layer_index info) (frame_number info))).

Definition separate_selected_drawing (object_dst : nat) (info : MutableDrawingInfo)
    (changed : bool) : OpM bool :=
  curves_src ← strokes info;
  let selected_points := retrieve_selected_points curves_src in
  if IndexMask_is_empty selected_points then mret changed else
  (* Insert Keyframe at current frame/layer; copy strokes to new CurvesGeometry. *)
  write_dst_drawing object_dst info;;
  write_strokes info
    (default curves_src
       (remove_points_and_split uninitialized update_curve_types
          remove_attributes_based_on_types curves_src selected_points));;
  tag_topology_changed info;;
  emit (TagTopologyChanged
          (drawing_dst (Some object_dst) (layer_index info) (frame_number info)));;
  mret true.

Definition grease_pencil_separate_selected : OpM bool :=
  object_dst ← duplicate_grease_pencil_object 0;
  (* Iterate through all the drawings at current scene frame. *)
  let drawings_src := retrieve_editable_drawings (scene C) in
  changed ← foreach drawings_src (separate_selected_drawing object_dst) false;
  when changed
    (emit (SetActiveLayer object_dst);;
     (* Add object materials to target object. *)
     emit (AssignMaterials object_dst);;
     emit (RemoveUnusedMaterials (Some object_dst));;
     emit (DEG_id_tag_update (id_grease_pencil_dst object_dst) [ID_RECALC_GEOMETRY]);;
     emit (WM_event_add_notifier [NC_OBJECT; ND_DRAW] (Some (id_grease_pencil_dst object_dst))));;
  mret changed.

Definition separate_layer_drawing (object_dst : nat) (info : MutableDrawingInfo)
    (changed : bool) : OpM bool :=
  curves_src ← strokes info;
  let strokes := retrieve_editable_strokes (active_object C) curves_src (layer_index info) in
  if IndexMask_is_empty strokes then mret changed else
  (* Add object materials. *)
  emit (AssignMaterials object_dst);;
  emit (InsertFrame (Some object_dst) (layer_index info) (frame_number info));;
  emit (DrawingWrite (drawing_dst (Some object_dst) (layer_index info) (frame_number info)));;
  write_strokes info (remove_curves curves_src strokes);;
  tag_topology_changed info;;
  emit (TagTopologyChanged
          (drawing_dst (Some object_dst) (layer_index info) (frame_number info)));;
  mret true.

Definition separate_layer (layer_i : Z) (changed : bool) : OpM bool :=
  if layer_is_selected layer_i || layer_is_locked layer_i then mret changed else
  object_dst ← duplicate_grease_pencil_object (Z.to_nat layer_i);
  emit (EnsureLayerInDst object_dst layer_i);;
  (* Iterate through all the drawings at current frame. *)
  let drawings_src := retrieve_editable_drawings_from_layer (scene C) layer_i in
  changed ← foreach drawings_src (separate_layer_drawing object_dst) changed;
  emit (RemoveUnusedMaterials (Some object_dst));;
  emit (DEG_id_tag_update (id_grease_pencil_dst object_dst) [ID_RECALC_GEOMETRY]);;
  emit (WM_event_add_notifier [NC_OBJECT; ND_DRAW] (Some (id_grease_pencil_dst object_dst)));;
  mret changed.

Definition grease_pencil_separate_layer : OpM bool :=
  (* Create a new object for each layer. *)
  foreach (IndexRange_to_list (index_range layers)) separate_layer false.

Definition separate_material_drawing (object_dst : nat) (mat_i : Z)
    (info : MutableDrawingInfo) (changed : bool) : OpM bool :=
  curves_src ← strokes info;
  let strokes := retrieve_editable_strokes_by_material (active_object C) curves_src mat_i in
  if IndexMask_is_empty strokes then mret changed else
  write_dst_drawing object_dst info;;
  write_strokes info (remove_curves curves_src strokes);;
  tag_topology_changed info;;
  emit (TagTopologyChanged
          (drawing_dst (Some object_dst) (layer_index info) (frame_number info)));;
  emit (DEG_id_tag_update (id_grease_pencil_dst object_dst) [ID_RECALC_GEOMETRY]);;
  emit (WM_event_add_notifier [NC_OBJECT; ND_DRAW] (Some (id_grease_pencil_dst object_dst)));;
  mret true.

Definition separate_material (mat_i : Z) (changed : bool) : OpM bool :=
  if negb (object_material_slot_used (mat_i + 1)) then mret changed else
  object_dst ← duplicate_grease_pencil_object (Z.to_nat mat_i);
  (* Add object materials. *)
  emit (AssignMaterials object_dst);;
  (* Iterate through all the drawings at current scene frame. *)
  let drawings_src := retrieve_editable_drawings (scene C) in
  changed ← foreach drawings_src (separate_material_drawing object_dst mat_i) changed;
  emit (RemoveUnusedMaterials (Some object_dst));;
  mret changed.

Definition grease_pencil_separate_material : OpM bool :=
  (* Create a new object for each material. *)
  changed ←
    foreach
      (IndexRange_to_list
         (IndexRange_drop_front {| start := 0; size := totcol (active_object C) |} 1))
      separate_material false;
  when changed (emit (RemoveUnusedMaterials None));;
  mret changed.

Definition any_drawing_selected : OpM bool :=
  foreach (retrieve_editable_drawings (scene C))
    (λ info found, curves ← strokes info; mret (found || has_anything_selected curves))
    false.

Definition grease_pencil_separate_exec (mode : SeparateMode) : OpM OperatorStatus :=
  emit (WM_cursor_wait true);;
  result ←
    match mode with
    | SELECTED =>
        (* Cancel if nothing selected. *)
        has_selection ← any_drawing_selected;
        if negb has_selection then
          emit (BKE_report "Nothing selected");; mret None
        else (changed ← grease_pencil_separate_selected; mret (Some changed))
    | MATERIAL =>
        (* Cancel if the object only has one material. *)
        if decide (totcol (active_object C) = 1) then
          emit (BKE_report "The object has only one material");; mret None
        else (changed ← grease_pencil_separate_material; mret (Some changed))
    | LAYER =>
        (* Cancel if the object only has one layer. *)
        if decide (length layers = 1%nat) then
          emit (BKE_report "The object has only one layer");; mret None
        else (changed ← grease_pencil_separate_layer; mret (Some changed))
    end;
  emit (WM_cursor_wait false);;
  match result with
  | None => mret OPERATOR_CANCELLED
  | Some changed =>
      when changed
        (emit (DEG_id_tag_update id_grease_pencil [ID_RECALC_GEOMETRY]);;
         emit (WM_event_add_notifier [NC_GEOM; ND_DATA; NA_EDITED] (Some id_grease_pencil)));;
      mret OPERATOR_FINISHED
  end.

(** *** Copy and Paste Operator *)

(** The selection attribute is asked for on [selection_domain] and filled
    with [false]. *)
Definition deselect_drawing (selection_domain : AttrDomain) (info : MutableDrawingInfo)
    (_ : unit) : OpM unit :=
  curves ← strokes info;
  write_strokes info (ensure_selection_false selection_domain curves).

Definition clipboard_paste_strokes (target_drawing : MutableDrawingInfo) (paste_back : bool)
  : OpM IndexRange :=
  target ← strokes target_drawing;
  (* Get the index range of the pasted curves in the target layer. *)
  let pasted_curves_range :=
    if paste_back then {| start := 0; size := curves_num clipboard_curves |}
    else {| start := curves_num target; size := curves_num clipboard_curves |} in
  (* Append the geometry from the clipboard to the target layer. *)
  let joined :=
    join_geometries (if paste_back then [clipboard_curves; target]
                     else [target; clipboard_curves]) in
  write_strokes target_drawing joined;;
  (* Remap the material indices of the pasted curves to the target object
     material indices. *)
  let material_indices := lookup_or_add_for_write_span_int joined "material_index" Curve in
  let material_indices :=
    foldl (λ span i,
             match (Array_get span i ≫= as_int) ≫= Array_get clipboard_material_remap with
             | Some target_index => <[Z.to_nat i := VInt target_index]> span
             | None => span
             end) material_indices (IndexRange_to_list pasted_curves_range) in
  write_strokes target_drawing (store_span Curve "material_index" material_indices joined);;
  tag_topology_changed target_drawing;;
  mret pasted_curves_range.

Definition grease_pencil_paste_strokes_exec (paste_on_back : bool) : OpM OperatorStatus :=
  let selection_domain := selection_domain (scene C) in
  (* Get active layer in the target object. *)
  match active_layer with
  | None => emit (BKE_report "No active Grease Pencil layer");; mret OPERATOR_CANCELLED
  | Some layer =>
      if negb (layer_is_editable layer) then
        emit (BKE_report "Active layer is locked or hidden");; mret OPERATOR_CANCELLED
      else
      (* Ensure active keyframe. *)
      match ensure_active_keyframe with
      | None => emit (BKE_report "No Grease Pencil frame to draw on");; mret OPERATOR_CANCELLED
      | Some inserted_keyframe =>
          match get_editable_drawing_at layer (cfra (scene C)) with
          | None => mret OPERATOR_CANCELLED
          | Some target =>
              let target_drawing :=
                {| drawing := target; layer_index := layer;
                   frame_number := cfra (scene C) |} in
              (* Deselect everything from editable drawings. *)
              let drawings := retrieve_editable_drawings (scene C) in
              foreach drawings (deselect_drawing selection_domain) tt;;
              emit EnsureMaterial;;
              clipboard_paste_strokes target_drawing paste_on_back;;
              emit (DEG_id_tag_update id_grease_pencil [ID_RECALC_GEOMETRY]);;
              emit (WM_event_add_notifier [NC_GEOM; ND_DATA] (Some id_grease_pencil));;
              when inserted_keyframe
                (emit (WM_event_add_notifier [NC_GPENCIL; NA_EDITED] None));;
              mret OPERATOR_FINISHED
          end
      end
  end.

Definition copy_drawing (selection_domain : AttrDomain) (info : MutableDrawingInfo)
    (st : list CurvesGeometry * Z) : OpM (list CurvesGeometry * Z) :=
  let '(set_of_copied_curves, num_copied) := st in
  curves ← strokes info;
  if decide (curves_num curves = 0) then mret st else
  if negb (has_anything_selected curves) then mret st else
  (* Get a copy of the selected geometry on this layer. *)
  let '(copied_curves, n) :=
    match selection_domain with
    | Curve =>
        let copied := curves_copy_curve_selection curves (retrieve_selected_curves curves) in
        (copied, curves_num copied)
    | Point =>
        let copied := curves_copy_point_selection curves (retrieve_selected_points curves) in
        (copied, points_num copied)
    | _ => (CurvesGeometry_default, 0)
    end in
  (* Add the layer selection to the set of copied curves. *)
  mret (set_of_copied_curves ++ [copied_curves], num_copied + n).

Definition grease_pencil_copy_strokes_exec : OpM OperatorStatus :=
  let selection_domain := selection_domain (scene C) in
  (* Collect all selected strokes/points on all editable layers. *)
  let drawings := retrieve_editable_drawings (scene C) in
  '(set_of_copied_curves, num_copied) ←
    foreach drawings (copy_drawing selection_domain) ([], 0);
  if bool_decide (set_of_copied_curves = []) then
    emit ClipboardClear;; mret OPERATOR_CANCELLED
  else
  (* Merge all copied curves into one CurvesGeometry object and assign it to
     the clipboard. *)
  emit ClipboardStore;;
  (* Store the materials used by the curves in the clipboard. *)
  (* Report the numbers. *)
  match selection_domain with
  | Curve => emit (BKE_report "Copied selected curve(s)")
  | Point => emit (BKE_report "Copied selected point(s)")
  | _ => mret tt
  end;;
  mret OPERATOR_FINISHED.

(** *** Merge Stroke Operator *)

Definition merge_by_distance_drawing (threshold : float) (use_unselected : bool)
    (info : MutableDrawingInfo) (changed : bool) : OpM bool :=
  curves ← strokes info;
  let points :=
    if use_unselected
    then retrieve_editable_points (active_object C) curves (layer_index info)
    else retrieve_editable_and_selected_points (active_object C) curves (layer_index info) in
  if IndexMask_is_empty points then mret changed else
  write_strokes info (curves_merge_by_distance curves threshold points);;
  tag_topology_changed info;;
  mret true.

Definition grease_pencil_stroke_merge_by_distance_exec (threshold : float)
    (use_unselected : bool) : OpM OperatorStatus :=
  let drawings := retrieve_editable_drawings (scene C) in
  changed ← foreach drawings (merge_by_distance_drawing threshold use_unselected) false;
  when changed tag_and_notify;;
  mret OPERATOR_FINISHED.

(** *** Extrude Operator *)

Definition extrude_drawing (info : MutableDrawingInfo) (changed : bool) : OpM bool :=
  curves ← strokes info;
  let points_to_extrude :=
    retrieve_editable_and_selected_points (active_object C) curves (layer_index info) in
  if IndexMask_is_empty points_to_extrude then mret changed else
  write_strokes info
    (default curves
       (extrude_grease_pencil_curves uninitialized update_curve_types curves
          points_to_extrude));;
  tag_topology_changed info;;
  mret true.

Definition grease_pencil_extrude_exec : OpM OperatorStatus :=
  let drawings := retrieve_editable_drawings (scene C) in
  changed ← foreach drawings extrude_drawing false;
  when changed tag_and_notify;;
  mret OPERATOR_FINISHED.

(** *** Snapping Operators *)

(** Modelled from the spec: [CurvesGeometry::positions_for_write()] is not part
    of the sources: the span of the point attribute "position". *)
Definition positions_for_write (curves : CurvesGeometry) : list AttrValue :=
  default [] (point_data curves !! "position").

(** [span[i] = f(span[i])] for every index of the mask. *)
Definition masked_map {A : Type} (f : A → A) (span : list A) (mask : IndexMask) : list A :=
  foldl (λ span i,
           match Array_get span i with
           | Some x => <[Z.to_nat i := f x]> span
           | None => span
           end) span mask.

Definition snap_tags : OpM unit :=
  emit (DEG_id_tag_update id_grease_pencil [ID_RECALC_TRANSFORM; ID_RECALC_GEOMETRY]);;
  emit (DEG_id_tag_update id_object [ID_RECALC_SYNC_TO_EVAL]);;
  emit (WM_event_add_notifier [NC_GPENCIL; ND_DATA; NA_EDITED] None).

Definition snap_to_grid_drawing (info : MutableDrawingInfo) (_ : unit) : OpM unit :=
  curves ← strokes info;
  if decide (curves_num curves = 0) then mret tt else
  if negb (has_anything_selected curves) then mret tt else
  let selected_points := retrieve_selected_points curves in
  let positions := positions_for_write curves in
  let positions :=
    masked_map (snap_position_to_grid (layer_index info)) positions selected_points in
  write_strokes info (store_span Point "position" positions curves);;
  snap_tags.

Definition grease_pencil_snap_to_grid_exec : OpM OperatorStatus :=
  let drawings := retrieve_editable_drawings (scene C) in
  foreach drawings snap_to_grid_drawing tt;;
  mret OPERATOR_FINISHED.

Definition snap_to_cursor_drawing (use_offset : bool) (info : MutableDrawingInfo) (_ : unit)
  : OpM unit :=
  curves ← strokes info;
  if decide (curves_num curves = 0) then mret tt else
  if negb (has_anything_selected curves) then mret tt else
  let selected_points := retrieve_selected_points curves in
  let cursor_layer := cursor_layer (layer_index info) in
  let positions := positions_for_write curves in
  let positions :=
    if use_offset then
      let points_by_curve := points_by_curve curves in
      let selected_curves := retrieve_selected_curves curves in
      foldl (λ positions curve_i,
               let points := default {| start := 0; size := 0 |}
                               (OffsetIndices_get points_by_curve curve_i) in
               (* Offset from first point of the curve. *)
               match Array_get positions (IndexRange_first points) with
               | Some first =>
                   let offset := float3_sub cursor_layer first in
                   masked_map (λ p, float3_add p offset) positions
                     (IndexMask_slice_content selected_points points)
               | None => positions
               end) positions selected_curves
    else
      (* Set all selected positions to the cursor location. *)
      masked_fill positions cursor_layer selected_points in
  write_strokes info (store_span Point "position" positions curves);;
  snap_tags.

Definition grease_pencil_snap_to_cursor_exec (use_offset : bool) : OpM OperatorStatus :=
  let drawings := retrieve_editable_drawings (scene C) in
  foreach drawings (snap_to_cursor_drawing use_offset) tt;;
  mret OPERATOR_FINISHED.

(** [grease_pencil_snap_compute_centroid]: the number of selected points
    decides the result; the centroid and bounds are floating-point sums. *)
Definition grease_pencil_snap_compute_centroid : OpM bool :=
  num_selected ←
    foreach (retrieve_visible_drawings (scene C))
      (λ index num_selected,
         curves ← strokes {| drawing := index; layer_index := 0; frame_number := 0 |};
         if decide (curves_num curves = 0) then mret num_selected else
         if negb (has_anything_selected curves) then mret num_selected else
         mret (num_selected + IndexMask_size (retrieve_selected_points curves)))
      0;
  mret (negb (bool_decide (num_selected = 0))).

Definition grease_pencil_snap_cursor_to_sel_exec : OpM OperatorStatus :=
  found ← grease_pencil_snap_compute_centroid;
  if negb found then mret OPERATOR_FINISHED else
  emit SetCursor;;
  emit (DEG_id_tag_update id_scene [ID_RECALC_SYNC_TO_EVAL]);;
  emit (WM_event_add_notifier [NC_SPACE; ND_SPACE_VIEW3D] None);;
  mret OPERATOR_FINISHED.

(** *** Set Curve Type Operator *)

Definition set_curve_type_drawing (dst_type : Z) (use_handles : bool)
    (info : MutableDrawingInfo) (changed : bool) : OpM bool :=
  curves ← strokes info;
  let strokes :=
    retrieve_editable_and_selected_strokes (active_object C) curves (layer_index info) in
  if IndexMask_is_empty strokes then mret changed else
  write_strokes info (convert_curves curves strokes dst_type use_handles);;
  tag_topology_changed info;;
  mret true.

Definition grease_pencil_set_curve_type_exec (dst_type : Z) (use_handles : bool)
  : OpM OperatorStatus :=
  let drawings := retrieve_editable_drawings (scene C) in
  changed ← foreach drawings (set_curve_type_drawing dst_type use_handles) false;
  when changed tag_and_notify;;
  mret OPERATOR_FINISHED.

End exec.

(** ** Operator types and their registration *)

(** The [exec], [poll] and [invoke] callbacks, by name. *)
Inductive ExecCallback :=
| exec_stroke_smooth | exec_stroke_simplify | exec_delete | exec_dissolve
| exec_delete_frame | exec_stroke_material_set | exec_cyclical_set
| exec_set_active_material | exec_stroke_switch_direction
| exec_set_uniform_thickness | exec_set_uniform_opacity | exec_caps_set
| exec_duplicate | exec_set_material | exec_clean_loose | exec_separate
| exec_stroke_subdivide | exec_stroke_reorder | exec_move_to_layer
| exec_copy_strokes | exec_paste_strokes | exec_stroke_merge_by_distance
| exec_extrude | exec_snap_to_grid | exec_snap_to_cursor | exec_snap_cursor_to_sel
| exec_set_curve_type.

Inductive PollCallback :=
| editable_grease_pencil_poll
| editable_grease_pencil_point_selection_poll
| active_grease_pencil_poll
| active_grease_pencil_layer_poll
| grease_pencil_paste_strokes_poll
| grease_pencil_snap_poll.

Inductive InvokeCallback :=
| WM_menu_invoke
| grease_pencil_clean_loose_invoke
| grease_pencil_move_to_layer_invoke.

Inductive OperatorTypeFlag := OPTYPE_REGISTER | OPTYPE_UNDO.

#[global] Instance ExecCallback_eq_dec : EqDecision ExecCallback.
Proof. solve_decision. Defined.

Record wmOperatorType := {
  name : string;
  idname : string;
  description : string;
  exec : option ExecCallback;
  poll : option PollCallback;
  invoke : option InvokeCallback;
  flag : list OperatorTypeFlag;
  (** the identifiers of the RNA properties defined on [ot->srna] *)
  properties : list string;
}.

(** A freshly allocated operator type, before the [ot] function fills it. *)
Definition wmOperatorType_empty : wmOperatorType :=
  {| name := ""; idname := ""; description := ""; exec := None; poll := None;
     invoke := None; flag := []; properties := [] |}.

Definition GREASE_PENCIL_OT_stroke_smooth (ot : wmOperatorType) : wmOperatorType :=
  {| name := "Smooth Stroke";
     idname := "GREASE_PENCIL_OT_stroke_smooth";
     description := "Smooth selected strokes";
     exec := Some exec_stroke_smooth;
     poll := Some editable_grease_pencil_poll;
     invoke := invoke ot;
     flag := [OPTYPE_REGISTER; OPTYPE_UNDO];
     properties := properties ot ++
       ["iterations"; "factor"; "smooth_ends"; "keep_shape";
        "smooth_position"; "smooth_radius"; "smooth_opacity"] |}.

Definition GREASE_PENCIL_OT_stroke_simplify (ot : wmOperatorType) : wmOperatorType :=
  {| name := "Simplify Stroke";
     idname := "GREASE_PENCIL_OT_stroke_simplify";
     description := "Simplify selected strokes";
     exec := Some exec_stroke_simplify;
     poll := Some editable_grease_pencil_point_selection_poll;
     invoke := invoke ot;
     flag := [OPTYPE_REGISTER; OPTYPE_UNDO];
     properties := properties ot ++ ["factor"] |}.

Definition GREASE_PENCIL_OT_delete (ot : wmOperatorType) : wmOperatorType :=
  {| name := "Delete";
     idname := "GREASE_PENCIL_OT_delete";
     description := "Delete selected strokes or points";
     exec := Some exec_delete;
     poll := Some editable_grease_pencil_poll;
     invoke := invoke ot;
     flag := [OPTYPE_REGISTER; OPTYPE_UNDO];
     properties := properties ot |}.

Definition GREASE_PENCIL_OT_dissolve (ot : wmOperatorType) : wmOperatorType :=
  {| name := "Dissolve";
     idname := "GREASE_PENCIL_OT_dissolve";
     description := "Delete selected points without splitting strokes";
     exec := Some exec_dissolve;
     poll := Some editable_grease_pencil_point_selection_poll;
     invoke := Some WM_menu_invoke;
     flag := [OPTYPE_REGISTER; OPTYPE_UNDO];
     properties := properties ot ++ ["type"] |}.

Definition GREASE_PENCIL_OT_delete_frame (ot : wmOperatorType) : wmOperatorType :=
  {| name := "Delete Frame";
     idname := "GREASE_PENCIL_OT_delete_frame";
     description := "Delete Grease Pencil Frame(s)";
     exec := Some exec_delete_frame;
     poll := Some editable_grease_pencil_poll;
     invoke := Some WM_menu_invoke;
     flag := [OPTYPE_REGISTER; OPTYPE_UNDO];
     properties := properties ot ++ ["type"] |}.

Definition GREASE_PENCIL_OT_stroke_material_set (ot : wmOperatorType) : wmOperatorType :=
  {| name := "Assign Material";
     idname := "GREASE_PENCIL_OT_stroke_material_set";
     description := "Assign the active material slot to the selected strokes";
     exec := Some exec_stroke_material_set;
     poll := Some editable_grease_pencil_poll;
     invoke := invoke ot;
     flag := [OPTYPE_REGISTER; OPTYPE_UNDO];
     properties := properties ot ++ ["material"] |}.

Definition GREASE_PENCIL_OT_cyclical_set (ot : wmOperatorType) : wmOperatorType :=
  {| name := "Set Cyclical State";
     idname := "GREASE_PENCIL_OT_cyclical_set";
     description :=
       "Close or open the selected stroke adding a segment from last to first point";
     exec := Some exec_cyclical_set;
     poll := Some editable_grease_pencil_poll;
     invoke := Some WM_menu_invoke;
     flag := [OPTYPE_REGISTER; OPTYPE_UNDO];
     properties := properties ot ++ ["type"] |}.

Definition GREASE_PENCIL_OT_set_active_material (ot : wmOperatorType) : wmOperatorType :=
  {| name := "Set Active Material";
     idname := "GREASE_PENCIL_OT_set_active_material";
     description := "Set the selected stroke material as the active material";
     exec := Some exec_set_active_material;
     poll := Some editable_grease_pencil_poll;
     invoke := invoke ot;
     flag := [OPTYPE_REGISTER; OPTYPE_UNDO];
     properties := properties ot |}.

Definition GREASE_PENCIL_OT_set_uniform_thickness (ot : wmOperatorType) : wmOperatorType :=
  {| name := "Set Uniform Thickness";
     idname := "GREASE_PENCIL_OT_set_uniform_thickness";
     description := "Set all stroke points to same thickness";
     exec := Some exec_set_uniform_thickness;
     poll := Some editable_grease_pencil_poll;
     invoke := invoke ot;
     flag := [OPTYPE_REGISTER; OPTYPE_UNDO];
     properties := properties ot ++ ["thickness"] |}.

Definition GREASE_PENCIL_OT_set_uniform_opacity (ot : wmOperatorType) : wmOperatorType :=
  {| name := "Set Uniform Opacity";
     idname := "GREASE_PENCIL_OT_set_uniform_opacity";
     description := "Set all stroke points to same opacity";
     exec := Some exec_set_uniform_opacity;
     poll := Some editable_grease_pencil_poll;
     invoke := invoke ot;
     flag := [OPTYPE_REGISTER; OPTYPE_UNDO];
     properties := properties ot ++ ["opacity"] |}.

Definition GREASE_PENCIL_OT_stroke_switch_direction (ot : wmOperatorType) : wmOperatorType :=
  {| name := "Switch Direction";
     idname := "GREASE_PENCIL_OT_stroke_switch_direction";
     description := "Change direction of the points of the selected strokes";
     exec := Some exec_stroke_switch_direction;
     poll := Some editable_grease_pencil_poll;
     invoke := invoke ot;
     flag := [OPTYPE_REGISTER; OPTYPE_UNDO];
     properties := properties ot |}.

Definition GREASE_PENCIL_OT_caps_set (ot : wmOperatorType) : wmOperatorType :=
  {| name := "Set Curve Caps";
     idname := "GREASE_PENCIL_OT_caps_set";
     description := "Change curve caps mode (rounded or flat)";
     exec := Some exec_caps_set;
     poll := Some editable_grease_pencil_poll;
     invoke := Some WM_menu_invoke;
     flag := [OPTYPE_REGISTER; OPTYPE_UNDO];
     properties := properties ot ++ ["type"] |}.

Definition GREASE_PENCIL_OT_set_material (ot : wmOperatorType) : wmOperatorType :=
  {| name := "Set Active Material";
     idname := "GREASE_PENCIL_OT_set_material";
     description := "Set active material";
     exec := Some exec_set_material;
     poll := Some active_grease_pencil_poll;
     invoke := invoke ot;
     flag := [OPTYPE_REGISTER; OPTYPE_UNDO];
     properties := properties ot ++ ["slot"] |}.

Definition GREASE_PENCIL_OT_duplicate (ot : wmOperatorType) : wmOperatorType :=
  {| name := "Duplicate";
     idname := "GREASE_PENCIL_OT_duplicate";
     description := "Duplicate the selected points";
     exec := Some exec_duplicate;
     poll := Some editable_grease_pencil_poll;
     invoke := invoke ot;
     flag := [OPTYPE_REGISTER; OPTYPE_UNDO];
     properties := properties ot |}.

Definition GREASE_PENCIL_OT_clean_loose (ot : wmOperatorType) : wmOperatorType :=
  {| name := "Clean Loose Points";
     idname := "GREASE_PENCIL_OT_clean_loose";
     description := "Remove loose points";
     exec := Some exec_clean_loose;
     poll := Some active_grease_pencil_layer_poll;
     invoke := Some grease_pencil_clean_loose_invoke;
     flag := [OPTYPE_REGISTER; OPTYPE_UNDO];
     properties := properties ot ++ ["limit"] |}.

Definition GREASE_PENCIL_OT_stroke_subdivide (ot : wmOperatorType) : wmOperatorType :=
  {| name := "Subdivide Stroke";
     idname := "GREASE_PENCIL_OT_stroke_subdivide";
     description :=
       "Subdivide between continuous selected points of the stroke adding a point half way between them";
     exec := Some exec_stroke_subdivide;
     poll := Some editable_grease_pencil_poll;
     invoke := invoke ot;
     flag := [OPTYPE_REGISTER; OPTYPE_UNDO];
     properties := properties ot ++ ["number_cuts"; "only_selected"] |}.

Definition GREASE_PENCIL_OT_stroke_reorder (ot : wmOperatorType) : wmOperatorType :=
  {| name := "Reorder";
     idname := "GREASE_PENCIL_OT_reorder";
     description := "Change the display order of the selected strokes";
     exec := Some exec_stroke_reorder;
     poll := Some editable_grease_pencil_poll;
     invoke := invoke ot;
     flag := [OPTYPE_REGISTER; OPTYPE_UNDO];
     properties := properties ot ++ ["direction"] |}.

Definition GREASE_PENCIL_OT_move_to_layer (ot : wmOperatorType) : wmOperatorType :=
  {| name := "Move to Layer";
     idname := "GREASE_PENCIL_OT_move_to_layer";
     description := "Move selected strokes to another layer";
     exec := Some exec_move_to_layer;
     poll := Some editable_grease_pencil_poll;
     invoke := Some grease_pencil_move_to_layer_invoke;
     flag := [OPTYPE_REGISTER; OPTYPE_UNDO];
     properties := properties ot ++ ["target_layer_name"; "add_new_layer"] |}.

Definition GREASE_PENCIL_OT_separate (ot : wmOperatorType) : wmOperatorType :=
  {| name := "Separate";
     idname := "GREASE_PENCIL_OT_separate";
     description := "Separate the selected geometry into a new grease pencil object";
     exec := Some exec_separate;
     poll := Some editable_grease_pencil_poll;
     invoke := Some WM_menu_invoke;
     flag := [OPTYPE_REGISTER; OPTYPE_UNDO];
     properties := properties ot ++ ["mode"] |}.

Definition GREASE_PENCIL_OT_paste (ot : wmOperatorType) : wmOperatorType :=
  {| name := "Paste Strokes";
     idname := "GREASE_PENCIL_OT_paste";
     description :=
       "Paste Grease Pencil points or strokes from the internal clipboard to the active layer";
     exec := Some exec_paste_strokes;
     poll := Some grease_pencil_paste_strokes_poll;
     invoke := invoke ot;
     flag := [OPTYPE_REGISTER; OPTYPE_UNDO];
     properties := properties ot ++ ["paste_back"] |}.

Definition GREASE_PENCIL_OT_copy (ot : wmOperatorType) : wmOperatorType :=
  {| name := "Copy Strokes";
     idname := "GREASE_PENCIL_OT_copy";
     description :=
       "Copy the selected Grease Pencil points or strokes to the internal clipboard";
     exec := Some exec_copy_strokes;
     poll := Some editable_grease_pencil_poll;
     invoke := invoke ot;
     flag := [OPTYPE_REGISTER];
     properties := properties ot |}.

Definition GREASE_PENCIL_OT_stroke_merge_by_distance (ot : wmOperatorType) : wmOperatorType :=
  {| name := "Merge by Distance";
     idname := "GREASE_PENCIL_OT_stroke_merge_by_distance";
     description := "Merge points by distance";
     exec := Some exec_stroke_merge_by_distance;
     poll := Some editable_grease_pencil_poll;
     invoke := invoke ot;
     flag := [OPTYPE_REGISTER; OPTYPE_UNDO];
     properties := properties ot ++ ["threshold"; "use_unselected"] |}.

Definition GREASE_PENCIL_OT_extrude (ot : wmOperatorType) : wmOperatorType :=
  {| name := "Extrude Stroke Points";
     idname := "GREASE_PENCIL_OT_extrude";
     description := "Extrude the selected points";
     exec := Some exec_extrude;
     poll := Some editable_grease_pencil_poll;
     invoke := invoke ot;
     flag := [OPTYPE_REGISTER; OPTYPE_UNDO];
     properties := properties ot |}.

Definition GREASE_PENCIL_OT_snap_to_grid (ot : wmOperatorType) : wmOperatorType :=
  {| name := "Snap Selection to Grid";
     idname := "GREASE_PENCIL_OT_snap_to_grid";
     description := "Snap selected points to the nearest grid points";
     exec := Some exec_snap_to_grid;
     poll := Some grease_pencil_snap_poll;
     invoke := invoke ot;
     flag := [OPTYPE_REGISTER; OPTYPE_UNDO];
     properties := properties ot |}.

Definition GREASE_PENCIL_OT_snap_to_cursor (ot : wmOperatorType) : wmOperatorType :=
  {| name := "Snap Selection to Cursor";
     idname := "GREASE_PENCIL_OT_snap_to_cursor";
     description := "Snap selected points/strokes to the cursor";
     exec := Some exec_snap_to_cursor;
     poll := Some grease_pencil_snap_poll;
     invoke := invoke ot;
     flag := [OPTYPE_REGISTER; OPTYPE_UNDO];
     properties := properties ot ++ ["use_offset"] |}.

Definition GREASE_PENCIL_OT_snap_cursor_to_selected (ot : wmOperatorType) : wmOperatorType :=
  {| name := "Snap Cursor to Selected Points";
     idname := "GREASE_PENCIL_OT_snap_cursor_to_selected";
     description := "Snap cursor to center of selected points";
     exec := Some exec_snap_cursor_to_sel;
     poll := Some grease_pencil_snap_poll;
     invoke := invoke ot;
     flag := [OPTYPE_REGISTER; OPTYPE_UNDO];
     properties := properties ot |}.

Definition GREASE_PENCIL_OT_set_curve_type (ot : wmOperatorType) : wmOperatorType :=
  {| name := "Set Curve Type";
     idname := "GREASE_PENCIL_OT_set_curve_type";
     description := "Set type of selected curves";
     exec := Some exec_set_curve_type;
     poll := Some editable_grease_pencil_poll;
     invoke := Some WM_menu_invoke;
     flag := [OPTYPE_REGISTER; OPTYPE_UNDO];
     properties := properties ot ++ ["type"; "use_handles"] |}.

(** Modelled from the spec: [WM_operatortype_append] (WM_api.hh) is not part of
    the sources: it allocates an operator type, lets [opfunc] fill it and adds
    it to the list of registered operator types. *)
Definition WM_operatortype_append (opfunc : wmOperatorType → wmOperatorType)
    (registry : list wmOperatorType) : list wmOperatorType :=
  registry ++ [opfunc wmOperatorType_empty].

Section registration.

(** [GREASE_PENCIL_OT_stroke_cutter] is defined in another file. *)
Variable GREASE_PENCIL_OT_stroke_cutter : wmOperatorType → wmOperatorType.

Definition ED_operatortypes_grease_pencil_edit (registry : list wmOperatorType)
  : list wmOperatorType :=
  let registry := WM_operatortype_append GREASE_PENCIL_OT_stroke_smooth registry in
  let registry := WM_operatortype_append GREASE_PENCIL_OT_stroke_simplify registry in
  let registry := WM_operatortype_append GREASE_PENCIL_OT_delete registry in
  let registry := WM_operatortype_append GREASE_PENCIL_OT_dissolve registry in
  let registry := WM_operatortype_append GREASE_PENCIL_OT_delete_frame registry in
  let registry := WM_operatortype_append GREASE_PENCIL_OT_stroke_material_set registry in
  let registry := WM_operatortype_append GREASE_PENCIL_OT_cyclical_set registry in
  let registry := WM_operatortype_append GREASE_PENCIL_OT_set_active_material registry in
  let registry := WM_operatortype_append GREASE_PENCIL_OT_stroke_switch_direction registry in
  let registry := WM_operatortype_append GREASE_PENCIL_OT_set_uniform_thickness registry in
  let registry := WM_operatortype_append GREASE_PENCIL_OT_set_uniform_opacity registry in
  let registry := WM_operatortype_append GREASE_PENCIL_OT_caps_set registry in
  let registry := WM_operatortype_append GREASE_PENCIL_OT_duplicate registry in
  let registry := WM_operatortype_append GREASE_PENCIL_OT_set_material registry in
  let registry := WM_operatortype_append GREASE_PENCIL_OT_clean_loose registry in
  let registry := WM_operatortype_append GREASE_PENCIL_OT_separate registry in
  let registry := WM_operatortype_append GREASE_PENCIL_OT_stroke_subdivide registry in
  let registry := WM_operatortype_append GREASE_PENCIL_OT_stroke_reorder registry in
  let registry := WM_operatortype_append GREASE_PENCIL_OT_move_to_layer registry in
  let registry := WM_operatortype_append GREASE_PENCIL_OT_copy registry in
  let registry := WM_operatortype_append GREASE_PENCIL_OT_paste registry in
  let registry := WM_operatortype_append GREASE_PENCIL_OT_stroke_merge_by_distance registry in
  let registry := WM_operatortype_append GREASE_PENCIL_OT_stroke_cutter registry in
  let registry := WM_operatortype_append GREASE_PENCIL_OT_extrude registry in
  let registry := WM_operatortype_append GREASE_PENCIL_OT_snap_to_grid registry in
  let registry := WM_operatortype_append GREASE_PENCIL_OT_snap_to_cursor registry in
  let registry := WM_operatortype_append GREASE_PENCIL_OT_snap_cursor_to_selected registry in
  let registry := WM_operatortype_append GREASE_PENCIL_OT_set_curve_type registry in
  registry.

End registration.

(** ** What a run of an operator shows *)

(** The events by which a run is judged: a mutating call on the strokes of a
    drawing, a change notification, and a tag that asks for the re-evaluation
    of the geometry of the edited Grease Pencil data.  A mutating call is
    logged whatever it stores: [modified] says that the run made such a call,
    not that the drawing differs afterwards. *)
Definition is_drawing_write (e : Event) : bool :=
  match e with DrawingWrite _ => true | _ => false end.

Definition is_notifier (e : Event) : bool :=
  match e with WM_event_add_notifier _ _ => true | _ => false end.

Definition is_geometry_tag (e : Event) : bool :=
  match e with
  | DEG_id_tag_update id_grease_pencil flags => bool_decide (ID_RECALC_GEOMETRY ∈ flags)
  | _ => false
  end.

Definition modified (log : list Event) : bool := existsb is_drawing_write log.
Definition notified (log : list Event) : bool := existsb is_notifier log.
Definition tagged (log : list Event) : bool := existsb is_geometry_tag log.

(** A run announces its modifications when a run that made a mutating call
    on a drawing also sent a notifier and tagged the geometry. *)
Definition announces (log : list Event) : Prop :=
  modified log = true → notified log = true ∧ tagged log = true.

(** A run notifies exactly when it made a mutating call on a drawing. *)
Definition notifies_exactly (log : list Event) : Prop := notified log = modified log.

(** The body of a loop over drawings keeps its flag [changed] exact: it is
    set when, and only when, the body made a mutating call on the drawing; the
    body itself sends no notifier. *)
Definition tracks_changes {A : Type} (body : A → bool → OpM bool) : Prop :=
  ∀ x changed d,
    result (run (body x changed) d) = changed || modified (events (run (body x changed) d))
    ∧ notified (events (run (body x changed) d)) = false.

(** The weaker discipline: the flag is never reset, and a body that made a
    mutating call on a drawing sets it. *)
Definition flags_changes {A : Type} (body : A → bool → OpM bool) : Prop :=
  ∀ x changed d,
    changed || modified (events (run (body x changed) d)) = true →
    result (run (body x changed) d) = true.

(** What the smooth operator may change in a drawing: of the geometry [g]
    before and [g'] after, only the point attributes "position", "radius" and
    "opacity" differ, and only at the points of the strokes of the mask. *)
Definition smoothed_names : list string := ["position"; "radius"; "opacity"].

Record smooth_frame (strokes : IndexMask) (g g' : CurvesGeometry) : Prop := {
  frame_point_num : point_num g' = point_num g;
  frame_curve_num : curve_num g' = curve_num g;
  frame_curve_offsets : curve_offsets g' = curve_offsets g;
  frame_curve_data : curve_data g' = curve_data g;
  frame_vertex_group_names : vertex_group_names g' = vertex_group_names g;
  frame_same_attributes :
    ∀ name, is_Some (point_data g' !! name) ↔ is_Some (point_data g !! name);
  frame_other_attributes :
    ∀ name, name ∉ smoothed_names → point_data g' !! name = point_data g !! name;
  frame_other_points :
    ∀ name values values' p,
      point_data g !! name = Some values →
      point_data g' !! name = Some values' →
      0 ≤ p → p ∉ points_of_curves (points_by_curve g) strokes →
      values' !! Z.to_nat p = values !! Z.to_nat p;
}.

End operators.


(* ===================================================================== *)
(** * A small scene                                                      *)
(* ===================================================================== *)

(** One drawing with two strokes, of five and of two points, and an instance
    of the library in which the second stroke and its points are selected.
    The examples below are run on this scene. *)
Module examples.
Import BLI bke greasepencil operators.

Definition two_strokes : CurvesGeometry :=
  {| point_num := 7; curve_num := 2; curve_offsets := [0; 5; 7];
     point_data :=
       {[ "position" := (λ x, VFloat3 x 0 0) <$> [10; 11; 12; 13; 14; 15; 16];
          "radius" := VFloat <$> [1; 1; 2; 2; 3; 3; 4] ]};
     curve_data :=
       {[ "cyclic" := [VBool true; VBool false];
          "material_index" := [VInt 3; VInt 4] ]};
     vertex_group_names := [] |}.

Definition first_drawing : MutableDrawingInfo :=
  {| drawing := 0; layer_index := 0; frame_number := 1 |}.

Definition all_indices (n : Z) : IndexMask := IndexRange_to_list {| start := 0; size := n |}.

#[local] Instance library : Library := {|
  uninitialized := λ _, -7;
  retrieve_editable_drawings := λ _, [first_drawing];
  retrieve_editable_drawings_from_layer := λ _ _, [first_drawing];
  retrieve_visible_drawings := λ _, [0%nat];
  retrieve_editable_and_selected_strokes := λ _ _ _, [1];
  retrieve_editable_and_selected_points := λ _ _ _, [5; 6];
  retrieve_editable_and_selected_elements :=
    λ _ _ _ domain, match domain with Curve => [1] | _ => [5; 6] end;
  retrieve_editable_points := λ _ curves _, all_indices (points_num curves);
  retrieve_editable_strokes := λ _ curves _, all_indices (curves_num curves);
  retrieve_editable_strokes_by_material := λ _ _ _, [];
  retrieve_selected_curves := λ _, [1];
  retrieve_selected_points := λ _, [5; 6];
  has_anything_selected := λ curves, bool_decide (0 < points_num curves);
  ensure_selection_false :=
    λ domain curves,
      store_span domain ".selection"
        (replicate (Z.to_nat (domain_size domain curves)) (VBool false)) curves;
  update_curve_types := id;
  remove_attributes_based_on_types := id;
  remove_points := λ curves _, curves;
  remove_curves := λ curves _, curves;
  reverse_curves := λ curves _, curves;
  duplicate_curves := λ curves _, curves;
  duplicate_points := λ curves _, curves;
  subdivide_curves := λ curves _ _, curves;
  reorder_curves_geometry := λ curves _, curves;
  curves_merge_by_distance := λ curves _ _, curves;
  convert_curves := λ curves _ _ _, curves;
  curves_copy_curve_selection := λ curves _, curves;
  curves_copy_point_selection := λ curves _, curves;
  join_geometries := λ geometries, default CurvesGeometry_default (head geometries);
  smooth_curve_attribute :=
    λ strokes points_by_curve _ _ _ _ _ _ span,
      fill_points points_by_curve strokes (VFloat 0) span;
  float_le := Z.leb;
  float_mul := Z.mul;
  float3_sub := λ a _, a;
  float3_add := λ a _, a;
  ramer_douglas_peucker_simplify := λ _ _ _ points_to_delete, (0, points_to_delete);
  dist_function_positions := λ _ _ _ _, 0;
  dist_function_positions_and_radii := λ _ _ _ _, 0;
  snap_position_to_grid := λ _ position, position;
  cursor_layer := λ _, VFloat3 0 0 0;
  active_layer := Some 0;
  layers := [0];
  layer_is_editable := λ _, true;
  layer_is_locked := λ _, false;
  layer_is_selected := λ _, false;
  start_frame_at := λ _ frame, Some frame;
  remove_frames := λ _ _, true;
  find_layer_by_name := λ _ _, Some 0;
  has_drawing_at := λ _ _, true;
  get_editable_drawing_at := λ _ _, Some 0%nat;
  ensure_active_keyframe := Some false;
  find_material := λ _, Some 0%nat;
  object_material_index_get := λ _ _, 0;
  object_material_slot_used := λ _, true;
  default_radius := 0;
  default_opacity := 0;
  GP_STROKE_CAP_ROUND := 0;
  GP_STROKE_CAP_FLAT := 1;
  GP_STROKE_CAP_TYPE_ROUND := 0;
  GP_STROKE_CAP_TYPE_FLAT := 1;
  clipboard_curves := two_strokes;
  clipboard_material_remap := [0; 1; 2; 3; 4];
|}.

(** The context of an operator whose tool settings select points, and one
    whose tool settings select strokes. *)
Definition point_context : bContext :=
  {| scene := {| cfra := 1; selection_domain := Point |};
     active_object := {| actcol := 1; totcol := 2 |} |}.


Definition smooth_all : SmoothProperties :=
  {| iterations := 1; factor := 1; keep_shape := false; smooth_ends := false;
     smooth_position := true; smooth_radius := true; smooth_opacity := true |}.

End examples.


(* ===================================================================== *)
(** * Invariants of the loops                                            *)
(* ===================================================================== *)

(** The predicates in which the loops of [extrude_grease_pencil_curves] and
    [remove_points_and_split] are followed. *)
Module invariants.
Import BLI bke greasepencil.

Section extrude.

Variable src : CurvesGeometry.

(** What the loop of [extrude_grease_pencil_curves] keeps true. *)
Record extrude_inv (st : ExtrudeState) : Prop := {
  inv_curves_prefix :
    take (Z.to_nat (curve_num src)) (dst_to_src_curves st)
    = Z.of_nat <$> seq 0 (Z.to_nat (curve_num src));
  inv_curves_length : (Z.to_nat (curve_num src) ≤ length (dst_to_src_curves st))%nat;
  inv_counts_length : length (ext_curve_counts st) = length (dst_to_src_curves st);
  inv_selected_length : length (dst_selected st) = length (dst_to_src_points st);
  inv_offset : 0 ≤ point_offset st;
  inv_points_length :
    point_num src + point_offset st ≤ Z.of_nat (length (dst_to_src_points st));
  inv_points_range : Forall (λ i, 0 ≤ i < point_num src) (dst_to_src_points st);
  inv_curves_range : Forall (λ i, 0 ≤ i < curve_num src) (dst_to_src_curves st);
}.

End extrude.

(** The mask of [remove_points_and_split] as [IndexMask::to_bools] leaves it
    in an array of [n] booleans. *)
Definition mask_bools (mask : IndexMask) (n : nat) : list bool :=
  (λ k : nat, bool_decide (Z.of_nat k ∈ mask)) <$> seq 0 n.

(** The points that are kept among a run of consecutive points. *)
Definition kept (mask : IndexMask) (b c : nat) : list Z :=
  filter (λ i, i ∉ mask) (Z.of_nat <$> seq b c).

(** The positions, counted from [i], at which [span] holds [value]. *)
Fixpoint positions_of (value : bool) (span : list bool) (i : Z) : list Z :=
  match span with
  | [] => []
  | b :: span => (if decide (b = value) then [i] else []) ++ positions_of value span (i + 1)
  end.

Section split.

(** [J] is the destination array as allocated; [W] is what has been
    written to its front so far. *)
Variable J : list Z.

Definition written_state (W : list Z) (st : SplitState) : Prop :=
  dst_to_src_point st = W ++ drop (length W) J
  ∧ curr_dst_point_id st = Z.of_nat (length W).

End split.

Definition same_curves (st st' : SplitState) : Prop :=
  dst_curve_counts st' = dst_curve_counts st
  ∧ dst_to_src_curve st' = dst_to_src_curve st
  ∧ dst_cyclic st' = dst_cyclic st.

Definition shifted (points : IndexRange) (r : IndexRange) : list Z :=
  IndexRange_to_list (IndexRange_shift r (IndexRange_first points)).

(** What the loop over the kept ranges writes, from range [rest] on. *)
Definition emitted (points : IndexRange) (ranges rest : list IndexRange) (joined : bool)
  : list Z :=
  concat (shifted points <$> rest)
  ++ (if joined then match rest with
                     | [] => []
                     | _ => from_option (shifted points) [] (head ranges)
                     end
      else []).

Section split_curves.

Variable curves : CurvesGeometry.

(** What the loop over the curves keeps true of the arrays it appends to. *)
Record curves_inv (st : SplitState) : Prop := {
  inv_counts : length (dst_curve_counts st) = length (dst_to_src_curve st);
  inv_cyclic : length (dst_cyclic st) = length (dst_to_src_curve st);
  inv_src_curves : Forall (λ c, 0 ≤ c < curve_num curves) (dst_to_src_curve st);
}.

End split_curves.

End invariants.


(* ===================================================================== *)
(** * Bookkeeping of the geometry loops                                  *)
(* ===================================================================== *)

(** The quantities in which the results of [extrude_grease_pencil_curves] and
    [remove_points_and_split] are counted. *)
Module bookkeeping.
Import BLI bke greasepencil.

(** The number of elements in groups of the given sizes. *)
Definition total (counts : list Z) : Z := foldr Z.add 0 counts.

(** The points that the loop of [extrude_grease_pencil_curves] visits, curve
    after curve. *)
Definition extruded_points (src : CurvesGeometry) (points_to_extrude : IndexMask) : list Z :=
  IndexRange_to_list (curves_range src) ≫= λ curve_index,
    match OffsetIndices_get (points_by_curve src) curve_index with
    | Some curve_points => IndexMask_slice_content points_to_extrude curve_points
    | None => []
    end.

(** The state in which that loop starts. *)
Definition extrude_start (uninitialized : nat → Z) (src : CurvesGeometry)
    (dst_curve_counts : list Z) : ExtrudeState :=
  {| dst_to_src_points :=
       fill_index_range (Array_uninitialized uninitialized (points_num src));
     dst_selected := replicate (Z.to_nat (points_num src)) false;
     dst_to_src_curves :=
       fill_index_range (Array_uninitialized uninitialized (curves_num src));
     ext_curve_counts := dst_curve_counts;
     point_offset := 0 |}.

(** The number of cells of a boolean array that hold [true]. *)
Definition count_true (span : list bool) : nat := length (filter (λ b, b = true) span).

(** What the loop of [extrude_grease_pencil_curves] keeps true of its arrays
    once it has visited the points [done]: the counts add up to the number
    of points; every visited point has added one point, or two points and a
    curve; a selected point is a copy of a visited point. *)
Record extrude_account (src : CurvesGeometry) (points_to_extrude : IndexMask)
    (done : list Z) (st : ExtrudeState) : Prop := {
  acc_total : total (ext_curve_counts st) = Z.of_nat (length (dst_to_src_points st));
  acc_counts : Forall (λ c, 0 ≤ c) (ext_curve_counts st);
  acc_points :
    Z.of_nat (length (dst_to_src_points st))
    = point_num src + Z.of_nat (length done)
      + (Z.of_nat (length (dst_to_src_curves st)) - curve_num src);
  acc_curves :
    Z.of_nat (length (dst_to_src_curves st)) ≤ curve_num src + Z.of_nat (length done);
  acc_selected :
    Forall2 (λ (b : bool) p, b = true → p ∈ done) (dst_selected st) (dst_to_src_points st);
  acc_count_true : count_true (dst_selected st) = length done;
  acc_done : Forall (λ p, p ∈ points_to_extrude) done;
}.

(** What the loop of [remove_points_and_split] keeps true of its arrays: the
    counts of the curves written so far add up to the number of points
    written; no such curve is empty; and a curve marked cyclic comes from a
    cyclic curve none of whose points is deleted. *)
Record split_account (curves : CurvesGeometry) (points_to_delete : list bool)
    (st : SplitState) : Prop := {
  sacc_total : total (dst_curve_counts st) = curr_dst_point_id st;
  sacc_counts : Forall (λ c, 0 < c) (dst_curve_counts st);
  sacc_cyclic :
    Forall2
      (λ curve_i (is_cyclic : bool),
         is_cyclic = true →
         VArray_get (cyclic curves) curve_i = Some true
         ∧ ∃ points slice,
             OffsetIndices_get (points_by_curve curves) curve_i = Some points
             ∧ Span_slice points_to_delete points = Some slice
             ∧ Forall (λ b, b = false) slice)
      (dst_to_src_curve st) (dst_cyclic st);
}.

End bookkeeping.

(* ===================================================================== *)
(** * The drawings an operator may write                                 *)
(* ===================================================================== *)

Module frames.
Import bke operators.

(** A procedure is confined to the drawings [targets] when, run on any
    drawing array, it keeps the number of drawings and leaves every drawing
    outside [targets] as it was. *)
Definition confined {A : Type} (targets : list nat) (m : OpM A) : Prop :=
  ∀ d : list CurvesGeometry,
    length (drawings (run m d)) = length d
    ∧ ∀ i : nat, i ∉ targets → drawings (run m d) !! i = d !! i.

(** A procedure is quiet when it makes no mutating call on the strokes of a
    drawing, leaves the drawing array as it was, and sends no notifier and
    no tag for re-evaluation of the geometry. *)
Definition quiet {A : Type} (m : OpM A) (d : list CurvesGeometry) : Prop :=
  drawings (run m d) = d
  ∧ modified (events (run m d)) = false
  ∧ notified (events (run m d)) = false
  ∧ tagged (events (run m d)) = false.

(** A procedure logs its writes when a run that made no mutating call on
    the strokes of a drawing leaves the drawing array as it was. *)
Definition logs_writes {A : Type} (m : OpM A) : Prop :=
  ∀ d : list CurvesGeometry,
    modified (events (run m d)) = false → drawings (run m d) = d.

(** Of the geometry [g] before and [g'] after, nothing differs but the point
    attribute [name]; and the same for a curve attribute. *)
Record only_point_attribute (name : string) (g g' : CurvesGeometry) : Prop := {
  opa_point_num : point_num g' = point_num g;
  opa_curve_num : curve_num g' = curve_num g;
  opa_curve_offsets : curve_offsets g' = curve_offsets g;
  opa_vertex_group_names : vertex_group_names g' = vertex_group_names g;
  opa_curve_data : curve_data g' = curve_data g;
  opa_point_data :
    ∀ other, other ≠ name → point_data g' !! other = point_data g !! other;
}.

Record only_curve_attribute (name : string) (g g' : CurvesGeometry) : Prop := {
  oca_point_num : point_num g' = point_num g;
  oca_curve_num : curve_num g' = curve_num g;
  oca_curve_offsets : curve_offsets g' = curve_offsets g;
  oca_vertex_group_names : vertex_group_names g' = vertex_group_names g;
  oca_point_data : point_data g' = point_data g;
  oca_curve_data :
    ∀ other, other ≠ name → curve_data g' !! other = curve_data g !! other;
}.

End frames.


(* ===================================================================== *)
(** * Properties                                                         *)
(* ===================================================================== *)

Import invariants.

(* ===================================================================== *)
(** * The render-graph copy node                                         *)
(* ===================================================================== *)

(** C1. For every [create_info], [build_links] declares exactly two resource
    dependencies: the source buffer is appended to the inputs as a transfer
    read, the destination image is appended to the outputs as a transfer write
    in layout [VK_IMAGE_LAYOUT_TRANSFER_DST_OPTIMAL] with the aspect mask of
    [create_info.region.imageSubresource]; the stamp of the image increases
    and no buffer stamp changes. *)
Theorem build_links_declares_read_and_write
    (resources : render_graph.VKResourceStateTracker)
    (node_links : render_graph.VKRenderGraphNodeLinks)
    (create_info : render_graph.CreateInfo) :
  let result := render_graph.build_links resources node_links create_info in
  let src := render_graph.src_buffer create_info in
  let dst := render_graph.dst_image create_info in
  render_graph.inputs result.2
  = render_graph.inputs node_links ++
    [ {| render_graph.resource :=
           {| render_graph.handle := render_graph.BufferResource src;
              render_graph.stamp := render_graph.buffer_stamp resources src |};
         render_graph.vk_access_flags := render_graph.VK_ACCESS_TRANSFER_READ_BIT;
         render_graph.vk_image_layout := render_graph.VK_IMAGE_LAYOUT_UNDEFINED;
         render_graph.vk_image_aspect := render_graph.VK_IMAGE_ASPECT_NONE |} ]
  ∧ render_graph.outputs result.2
    = render_graph.outputs node_links ++
      [ {| render_graph.resource :=
             {| render_graph.handle := render_graph.ImageResource dst;
                render_graph.stamp := render_graph.image_stamp resources dst |};
           render_graph.vk_access_flags := render_graph.VK_ACCESS_TRANSFER_WRITE_BIT;
           render_graph.vk_image_layout := render_graph.VK_IMAGE_LAYOUT_TRANSFER_DST_OPTIMAL;
           render_graph.vk_image_aspect :=
             render_graph.aspectMask
               (render_graph.imageSubresource (render_graph.region create_info)) |} ]
  ∧ (length (render_graph.inputs result.2) + length (render_graph.outputs result.2)
     = length (render_graph.inputs node_links)
       + length (render_graph.outputs node_links) + 2)%nat
  ∧ render_graph.image_stamp result.1 dst = render_graph.image_stamp resources dst + 1
  ∧ (∀ image, image ≠ dst →
       render_graph.image_stamp result.1 image = render_graph.image_stamp resources image)
  ∧ (∀ buffer,
       render_graph.buffer_stamp result.1 buffer = render_graph.buffer_stamp resources buffer).
Proof.
  cbn. repeat split.
  - rewrite !length_app. cbn. lia.
  - unfold render_graph.image_stamp at 1. cbn. by rewrite lookup_insert_eq.
  - intros image Hne. unfold render_graph.image_stamp at 1. cbn.
    by rewrite lookup_insert_ne.
Qed.

(** C2. The image layout that [build_links] declares for the write of the
    destination image is the layout that [build_commands] passes to
    [copy_buffer_to_image], for every node data value; [build_commands]
    records exactly one copy command, with one region. *)
Theorem build_commands_consistent_with_links
    (resources : render_graph.VKResourceStateTracker)
    (node_links : render_graph.VKRenderGraphNodeLinks)
    (command_buffer : render_graph.VKCommandBufferInterface)
    (data : render_graph.Data) :
  ∃ layout link,
    render_graph.build_commands command_buffer data
    = command_buffer ++
      [ render_graph.CmdCopyBufferToImage (render_graph.src_buffer data)
          (render_graph.dst_image data) layout 1 [render_graph.region data] ]
    ∧ last (render_graph.outputs (render_graph.build_links resources node_links data).2)
      = Some link
    ∧ render_graph.handle (render_graph.resource link)
      = render_graph.ImageResource (render_graph.dst_image data)
    ∧ render_graph.vk_image_layout link = layout
    ∧ layout = render_graph.VK_IMAGE_LAYOUT_TRANSFER_DST_OPTIMAL.
Proof.
  eexists _, _. split; [reflexivity|]. cbn. rewrite last_snoc. done.
Qed.

(* ===================================================================== *)
(** * The PLY exporter                                                   *)
(* ===================================================================== *)

(** C3. For every export parameter set, [exporter_main] selects an ASCII file
    buffer when [ascii_format] is true and a binary file buffer otherwise, and
    writes to that buffer in this order: header, vertices, faces, edges, and
    then closes the file. *)
Theorem exporter_main_buffer_and_order (export_params : ply.PLYExportParams) :
  ply.buffer_class (ply.exporter_main export_params)
  = (if ply.ascii_format export_params then ply.FileBufferAscii else ply.FileBufferBinary)
  ∧ ply.buffer_path (ply.exporter_main export_params) = ply.filepath export_params
  ∧ ply.buffer_ops (ply.exporter_main export_params)
    = [ply.op_write_header; ply.op_write_vertices; ply.op_write_faces;
       ply.op_write_edges; ply.op_close_file].
Proof.
  unfold ply.exporter_main. destruct (ply.ascii_format export_params); done.
Qed.

(* ===================================================================== *)
(** * Facts about the base containers                                    *)
(* ===================================================================== *)

Section BLI_facts.
Import BLI.
Context {A : Type}.
Implicit Types (a : list A) (i j : Z).

Lemma Array_get_Some a i x :
  Array_get a i = Some x ↔ 0 ≤ i ∧ a !! Z.to_nat i = Some x.
Proof. unfold Array_get. case_decide; [tauto | split; [done | lia]]. Qed.

Lemma Array_get_is_Some a i :
  0 ≤ i < Z.of_nat (length a) → is_Some (Array_get a i).
Proof.
  intros Hi. unfold Array_get. rewrite decide_True by lia.
  apply lookup_lt_is_Some. lia.
Qed.

Lemma Array_get_of_nat a (k : nat) : Array_get a (Z.of_nat k) = a !! k.
Proof. unfold Array_get. rewrite decide_True by lia. by rewrite Nat2Z.id. Qed.

Lemma Array_set_Some a i x a' :
  Array_set a i x = Some a' ↔
  0 ≤ i < Z.of_nat (length a) ∧ a' = <[Z.to_nat i := x]> a.
Proof.
  unfold Array_set. case_decide.
  - split; [intros [= <-]; done | intros [_ ->]; done].
  - split; [done | tauto].
Qed.

Lemma foldlM_invariant {B : Type} (P : B → Prop) (f : B → A → option B) (l : list A) b :
  (∀ b x, x ∈ l → P b → ∃ b', f b x = Some b' ∧ P b') →
  P b → ∃ b', foldlM f b l = Some b' ∧ P b'.
Proof.
  revert b. induction l as [|x l IH]; intros b Hstep Hb; simpl.
  - eauto.
  - destruct (Hstep b x) as (b' & -> & Hb'); [left | done |]. simpl.
    apply IH; [|done]. intros b0 y Hy. apply Hstep. by right.
Qed.

Lemma foldlM_app {B : Type} (f : B → A → option B) (l1 l2 : list A) b :
  foldlM f b (l1 ++ l2) = foldlM f b l1 ≫= λ b', foldlM f b' l2.
Proof.
  revert b. induction l1 as [|x l1 IH]; intros b; simpl; [done|].
  destruct (f b x) as [b'|]; simpl; [apply IH | done].
Qed.

(** Exchanging two cells permutes the array. *)
Lemma std_swap_Permutation a i j :
  0 ≤ i < Z.of_nat (length a) → 0 ≤ j < Z.of_nat (length a) →
  ∃ a', std_swap a i j = Some a' ∧ a' ≡ₚ a ∧ length a' = length a.
Proof.
  intros Hi Hj. unfold std_swap.
  destruct (Array_get_is_Some a i Hi) as [x Hx].
  destruct (Array_get_is_Some a j Hj) as [y Hy].
  rewrite Hx, Hy. simpl.
  unfold Array_set. rewrite decide_True by done. simpl.
  rewrite decide_True by (rewrite length_insert; done).
  apply Array_get_Some in Hx as [_ Hx]. apply Array_get_Some in Hy as [_ Hy].
  eexists; split; [done|]. split; [|by rewrite !length_insert].
  set (n := Z.to_nat i) in *. set (m := Z.to_nat j) in *.
  assert (n < length a)%nat by lia. assert (m < length a)%nat by lia.
  apply Permutation_inj. split; [by rewrite !length_insert|].
  exists (λ k, if decide (k = n) then m else if decide (k = m) then n else k).
  split.
  - intros k1 k2. repeat case_decide; lia.
  - intros k. destruct (decide (k = m)) as [->|Hkm].
    + rewrite list_lookup_insert_eq by (rewrite length_insert; lia).
      repeat case_decide; subst; congruence.
    + rewrite list_lookup_insert_ne by done.
      destruct (decide (k = n)) as [->|Hkn].
      * rewrite list_lookup_insert_eq by lia. repeat case_decide; congruence.
      * rewrite list_lookup_insert_ne by done. repeat case_decide; congruence.
Qed.

Lemma Span_write_Some a s (values : list A) :
  0 ≤ s → s + Z.of_nat (length values) ≤ Z.of_nat (length a) →
  Span_write a s values
  = Some (take (Z.to_nat s) a ++ values ++ drop (Z.to_nat s + length values) a).
Proof. intros. unfold Span_write. by rewrite decide_True by lia. Qed.

End BLI_facts.

Section IndexRange_facts.
Import BLI.

Lemma IndexRange_to_list_length r :
  length (IndexRange_to_list r) = Z.to_nat (size r).
Proof. unfold IndexRange_to_list. by rewrite length_fmap, length_seq. Qed.

Lemma elem_of_IndexRange_to_list r i :
  i ∈ IndexRange_to_list r ↔ start r ≤ i < start r + size r.
Proof.
  unfold IndexRange_to_list. rewrite list_elem_of_fmap. split.
  - intros (k & -> & Hk). apply elem_of_seq in Hk. lia.
  - intros Hi. exists (Z.to_nat (i - start r)). split; [lia|].
    apply elem_of_seq. lia.
Qed.

Lemma NoDup_IndexRange_to_list r : NoDup (IndexRange_to_list r).
Proof.
  unfold IndexRange_to_list. apply NoDup_fmap_2; [|apply NoDup_seq].
  intros k1 k2. lia.
Qed.

Lemma IndexRange_to_list_lookup r (k : nat) :
  (k < Z.to_nat (size r))%nat →
  IndexRange_to_list r !! k = Some (start r + Z.of_nat k).
Proof.
  intros Hk. unfold IndexRange_to_list. rewrite list_lookup_fmap.
  by rewrite lookup_seq_lt.
Qed.

Lemma IndexMask_wf_NoDup mask : IndexMask_wf mask → NoDup mask.
Proof.
  intros [_ Hs]. induction Hs as [|x l Hs IH Hx]; constructor; [|done].
  intros Hin. rewrite Forall_forall in Hx. specialize (Hx _ Hin). lia.
Qed.

(** In a strictly increasing mask, the index at position [p] is at least
    [p] above the first one. *)
Lemma sorted_lookup_ge (mask : list Z) lo :
  StronglySorted Z.lt mask → Forall (λ i, lo ≤ i) mask →
  ∀ (p : nat) c, mask !! p = Some c → lo + Z.of_nat p ≤ c.
Proof.
  intros Hs. revert lo. induction Hs as [|x l Hs IH Hx]; intros lo Hlo p c Hp.
  - done.
  - apply Forall_cons in Hlo as [Hx0 Hlo]. destruct p as [|p]; simpl in Hp.
    + simplify_eq. lia.
    + specialize (IH (lo + 1)). 
      assert (lo + 1 + Z.of_nat p ≤ c); [|lia].
      apply IH; [|done]. eapply Forall_impl; [exact Hx|]. simpl. lia.
Qed.

(** ... and at least as far below the bound as there are indices after it. *)
Lemma sorted_lookup_le (mask : list Z) hi :
  StronglySorted Z.lt mask → Forall (λ i, i < hi) mask →
  ∀ (p : nat) c, mask !! p = Some c → c + Z.of_nat (length mask - p) ≤ hi.
Proof.
  intros Hs. induction Hs as [|x l Hs IH Hx]; intros Hhi p c Hp.
  - done.
  - apply Forall_cons in Hhi as [Hx0 Hhi]. destruct p as [|p]; simpl in Hp.
    + simplify_eq. simpl. destruct l as [|y l]; simpl; [lia|].
      specialize (IH Hhi 0%nat y eq_refl). simpl in IH.
      apply Forall_cons in Hx as [Hxy _]. lia.
    + specialize (IH Hhi p c Hp). simpl. lia.
Qed.

End IndexRange_facts.

Section reorder_facts.
Import BLI bke greasepencil.

Lemma Array_uninitialized_length {A : Type} (junk : nat → A) n :
  length (Array_uninitialized junk n) = Z.to_nat n.
Proof. unfold Array_uninitialized. by rewrite length_fmap, length_seq. Qed.

Lemma fill_index_range_to_list {A : Type} (a : list A) :
  fill_index_range a = IndexRange_to_list (index_range a).
Proof.
  unfold fill_index_range, IndexRange_to_list, index_range. simpl.
  by rewrite Nat2Z.id.
Qed.

(** Writing [A] through [take_front] and then [B] through [take_back] fills
    an array of [|A| + |B|] cells with [A ++ B]. *)
Lemma to_indices_front_back (A B a : list Z) :
  length a = (length A + length B)%nat →
  (a' ← IndexMask_to_indices A a
          (Span_take_front (Z.of_nat (length a)) (IndexMask_size A));
   IndexMask_to_indices B a'
     (Span_take_back (Z.of_nat (length a)) (IndexMask_size B)))
  = Some (A ++ B).
Proof.
  intros Hlen. unfold IndexMask_to_indices, Span_take_front, Span_take_back,
    IndexMask_size. simpl.
  rewrite decide_True by lia.
  rewrite Span_write_Some by lia. simpl.
  rewrite decide_True by lia.
  rewrite Span_write_Some.
  - f_equal.
    replace (Z.to_nat (Z.of_nat (length a) - Z.of_nat (length a) `min` Z.of_nat (length B)))
      with (length A) by lia.
    rewrite take_app_length.
    rewrite drop_ge; [by rewrite app_nil_r|].
    rewrite length_app, length_drop. lia.
  - lia.
  - rewrite length_app, length_drop. lia.
Qed.

Lemma selected_complement_Permutation (selected : IndexMask) universe :
  IndexMask_wf selected →
  Forall (λ i, start universe ≤ i < start universe + size universe) selected →
  selected ++ IndexMask_complement selected universe ≡ₚ IndexRange_to_list universe.
Proof.
  intros Hwf Hsub. unfold IndexMask_complement.
  rewrite <- (filter_app_complement (λ i, i ∈ selected) (IndexRange_to_list universe)) at 2.
  apply Permutation_app_tail. symmetry.
  apply NoDup_Permutation.
  - apply NoDup_filter, NoDup_IndexRange_to_list.
  - by apply IndexMask_wf_NoDup.
  - intros i. rewrite list_elem_of_filter, elem_of_IndexRange_to_list.
    rewrite Forall_forall in Hsub. split; [by intros [? _]|]. intros Hi. split; [done|].
    by apply Hsub.
Qed.

End reorder_facts.

(** C8. For every universe range [[0, n)], every index mask [selected] that is
    a subset of the universe, and each of the four reorder directions,
    [get_reordered_indices] returns an array of length [n] that is a
    permutation of the indices [0 .. n-1]. *)
Theorem get_reordered_indices_permutation
    (uninitialized : nat → Z) (n : nat) (selected : BLI.IndexMask)
    (direction : greasepencil.ReorderDirection) :
  BLI.IndexMask_wf selected →
  Forall (λ i, i < Z.of_nat n) selected →
  ∃ indices,
    greasepencil.get_reordered_indices uninitialized
      {| BLI.start := 0; BLI.size := Z.of_nat n |} selected direction = Some indices
    ∧ length indices = n
    ∧ indices ≡ₚ Z.of_nat <$> seq 0 n.
Proof.
  intros Hwf Hlt. pose proof Hwf as [Hnn Hsorted].
  set (universe := {| BLI.start := 0; BLI.size := Z.of_nat n |}).
  assert (HU : BLI.IndexRange_to_list universe = Z.of_nat <$> seq 0 n).
  { unfold BLI.IndexRange_to_list. simpl. by rewrite Nat2Z.id. }
  rewrite <- HU.
  assert (Hsub : Forall (λ i, BLI.start universe ≤ i
                              < BLI.start universe + BLI.size universe) selected).
  { rewrite Forall_forall in Hnn, Hlt |- *. intros i Hi. simpl.
    specialize (Hnn i Hi). specialize (Hlt i Hi). lia. }
  pose proof (selected_complement_Permutation selected universe Hwf Hsub) as Hperm.
  assert (HlenU : length (BLI.IndexRange_to_list universe) = n).
  { rewrite IndexRange_to_list_length. simpl. lia. }
  assert (Hlens : (length selected
                   + length (BLI.IndexMask_complement selected universe))%nat = n).
  { rewrite <- length_app, Hperm. done. }
  unfold greasepencil.get_reordered_indices.
  destruct direction;
    repeat (case_decide; try (exfalso; intuition discriminate)).
  - (* TOP *)
    rewrite to_indices_front_back
      by (rewrite Array_uninitialized_length; simpl; lia).
    eexists; split; [done|]. split.
    + rewrite length_app. lia.
    + rewrite <- Hperm. apply Permutation_app_comm.
  - (* UP *)
    set (k := length selected).
    assert (Hsel : BLI.IndexMask_to_indices selected
              (BLI.Array_uninitialized uninitialized (BLI.IndexMask_size selected))
              (BLI.index_range
                 (BLI.Array_uninitialized uninitialized (BLI.IndexMask_size selected)))
            = Some selected).
    { unfold BLI.IndexMask_to_indices, BLI.index_range, BLI.IndexMask_size. simpl.
      rewrite Array_uninitialized_length.
      rewrite decide_True by lia.
      rewrite Span_write_Some by (rewrite ?Array_uninitialized_length; lia).
      simpl. rewrite drop_ge by (rewrite Array_uninitialized_length; lia).
      by rewrite app_nil_r. }
    rewrite Hsel. cbn [mbind option_bind].
    rewrite fill_index_range_to_list.
    assert (Hidx : BLI.index_range (BLI.Array_uninitialized uninitialized (BLI.size universe))
                   = universe).
    { unfold BLI.index_range. rewrite Array_uninitialized_length. simpl.
      unfold universe. f_equal. lia. }
    rewrite Hidx.
    apply (foldlM_invariant
      (λ indices : list Z,
         length indices = n ∧ indices ≡ₚ BLI.IndexRange_to_list universe)).
    + intros indices i Hi [Hl Hp].
      apply elem_of_IndexRange_to_list in Hi. simpl in Hi.
      set (pos := BLI.IndexRange_last (BLI.index_range selected) i).
      assert (Hpos : pos = Z.of_nat (length selected) - 1 - i)
        by (unfold pos, BLI.IndexRange_last, BLI.index_range; simpl; lia).
      destruct (Array_get_is_Some selected pos) as [curve_i Hc]; [lia|].
      rewrite Hc. cbn [mbind option_bind].
      apply Array_get_Some in Hc as [_ Hc].
      assert (Hlast : BLI.IndexRange_last universe i = Z.of_nat n - 1 - i)
        by (unfold BLI.IndexRange_last; simpl; lia).
      rewrite Hlast.
      pose proof (sorted_lookup_le selected (Z.of_nat n) Hsorted Hlt _ _ Hc) as Hle.
      pose proof (sorted_lookup_ge selected 0 Hsorted Hnn _ _ Hc) as Hge.
      case_decide as Hne.
      * destruct (std_swap_Permutation indices curve_i (curve_i + 1))
          as (a' & -> & Hp' & Hl'); [lia | lia |].
        eexists; split; [done|]. split; [lia | by rewrite Hp'].
      * eexists; split; [done|]. done.
    + split; [|done]. rewrite IndexRange_to_list_length. simpl. lia.
  - (* DOWN *)
    rewrite fill_index_range_to_list.
    assert (Hidx : BLI.index_range (BLI.Array_uninitialized uninitialized (BLI.size universe))
                   = universe).
    { unfold BLI.index_range. rewrite Array_uninitialized_length. simpl.
      unfold universe. f_equal. lia. }
    rewrite Hidx.
    unfold BLI.foreach_index_optimized.
    assert (Hgen : ∀ (mask : list Z) (pos : Z) (indices : list Z),
      0 ≤ pos → StronglySorted Z.lt mask →
      Forall (λ i, pos ≤ i) mask → Forall (λ i, i < Z.of_nat n) mask →
      indices ≡ₚ BLI.IndexRange_to_list universe → length indices = n →
      ∃ r, BLI.foreach_index_pos
             (λ curve_i pos indices,
                if decide (curve_i ≠ pos)
                then BLI.std_swap indices curve_i (curve_i - 1)
                else Some indices) mask pos indices = Some r
           ∧ length r = n ∧ r ≡ₚ BLI.IndexRange_to_list universe).
    { clear. intros mask. induction mask as [|i mask IH];
        intros pos indices Hpos Hs Hge Hlt Hp Hl; simpl.
      - eauto.
      - apply Forall_cons in Hge as [Hi Hge]. apply Forall_cons in Hlt as [Hin Hlt].
        apply StronglySorted_inv in Hs as [Hs Hall].
        assert (Hge' : Forall (λ j, pos + 1 ≤ j) mask).
        { eapply Forall_impl; [exact Hall|]. simpl. lia. }
        case_decide as Hne.
        + destruct (std_swap_Permutation indices i (i - 1))
            as (a' & -> & Hp' & Hl'); [lia | lia |]. simpl.
          apply IH; try done; [lia | by rewrite Hp' | lia].
        + simpl. apply IH; try done. lia. }
    apply Hgen; done.
  - (* BOTTOM *)
    rewrite to_indices_front_back
      by (rewrite Array_uninitialized_length; simpl; lia).
    eexists; split; [done|]. split.
    + rewrite length_app. lia.
    + done.
Qed.

Section geometry_facts.
Import BLI bke.

Lemma StronglySorted_le_lookup (l : list Z) (i j : nat) x y :
  StronglySorted Z.le l → l !! i = Some x → l !! j = Some y → (i ≤ j)%nat → x ≤ y.
Proof.
  intros Hs. revert i j. induction Hs as [|z l Hs IH Hz]; intros i j Hi Hj Hij.
  - done.
  - destruct i as [|i], j as [|j]; simpl in *; simplify_eq; try lia.
    + rewrite Forall_forall in Hz. apply Hz. by eapply list_elem_of_lookup_2.
    + eapply IH; eauto. lia.
Qed.

Lemma wf_points_by_curve curves i :
  CurvesGeometry_wf curves → 0 ≤ i < curve_num curves →
  ∃ b e,
    curve_offsets curves !! Z.to_nat i = Some b
    ∧ curve_offsets curves !! S (Z.to_nat i) = Some e
    ∧ 0 ≤ b ∧ b ≤ e ∧ e ≤ point_num curves
    ∧ OffsetIndices_get (points_by_curve curves) i = Some {| start := b; size := e - b |}.
Proof.
  intros Hwf Hi.
  pose proof (wf_offsets_length _ Hwf ltac:(lia)) as Hlen.
  pose proof (wf_offsets_first _ Hwf ltac:(lia)) as Hfirst.
  pose proof (wf_offsets_last _ Hwf ltac:(lia)) as Hlast.
  pose proof (wf_offsets_sorted _ Hwf) as Hs.
  destruct (lookup_lt_is_Some_2 (curve_offsets curves) (Z.to_nat i)) as [b Hb]; [lia|].
  destruct (lookup_lt_is_Some_2 (curve_offsets curves) (S (Z.to_nat i))) as [e He]; [lia|].
  exists b, e. rewrite head_lookup in Hfirst. rewrite last_lookup in Hlast.
  repeat split; try done.
  - eapply (StronglySorted_le_lookup _ 0 (Z.to_nat i)); eauto. lia.
  - eapply (StronglySorted_le_lookup _ (Z.to_nat i) (S (Z.to_nat i))); eauto.
  - eapply (StronglySorted_le_lookup _ (S (Z.to_nat i))); eauto. lia.
  - unfold OffsetIndices_get, points_by_curve, Array_get.
    rewrite !decide_True by lia. rewrite Hb. simpl.
    replace (Z.to_nat (i + 1)) with (S (Z.to_nat i)) by lia. by rewrite He.
Qed.

Lemma gather_Some {A : Type} (src : list A) indices :
  Forall (λ i, 0 ≤ i < Z.of_nat (length src)) indices →
  ∃ r, gather src indices = Some r ∧ length r = length indices.
Proof.
  intros Hi. unfold gather.
  destruct (mapM (Array_get src) indices) as [r|] eqn:Hr.
  - exists r. split; [done|]. symmetry. by eapply length_mapM.
  - exfalso. assert (is_Some (mapM (Array_get src) indices)) as [? ?]; [|congruence].
    apply mapM_is_Some. eapply Forall_impl; [exact Hi|].
    intros i ?. by apply Array_get_is_Some.
Qed.

Lemma gather_lookup {A : Type} (src : list A) indices r (k : nat) i :
  gather src indices = Some r → indices !! k = Some i →
  0 ≤ i ∧ r !! k = src !! Z.to_nat i.
Proof.
  unfold gather. intros Hr Hk. apply mapM_Some in Hr.
  destruct (Forall2_lookup_l _ _ _ _ _ Hr Hk) as (y & Hy & Hget).
  apply Array_get_Some in Hget as [? Hget]. split; [done|]. congruence.
Qed.

Lemma gather_total_Some {A : Type} (src : list A) indices r :
  gather src indices = Some r → gather_total src indices = r.
Proof. unfold gather_total. by intros ->. Qed.

(** Reading an array through a partial conversion commutes with gathering. *)
Lemma mapM_gather {A B : Type} (f : A → option B) (src : list A) src' indices r :
  mapM f src = Some src' → gather src indices = Some r →
  ∃ r', gather src' indices = Some r' ∧ mapM f r = Some r'.
Proof.
  intros Hsrc Hr. apply mapM_Some in Hsrc.
  destruct (gather_Some src' indices) as (r' & Hr' & Hlen').
  { rewrite Forall_forall. intros i Hi.
    apply list_elem_of_lookup in Hi as [k Hk].
    destruct (gather_lookup _ _ _ _ _ Hr Hk) as [? Hsome].
    assert (is_Some (r !! k)) as Hrk.
    { apply lookup_lt_is_Some. apply mapM_Some in Hr.
      rewrite <- (Forall2_length _ _ _ Hr). by eapply lookup_lt_Some. }
    rewrite Hsome in Hrk. apply lookup_lt_is_Some in Hrk.
    rewrite <- (Forall2_length _ _ _ Hsrc). lia. }
  exists r'. split; [done|]. apply mapM_Some.
  apply Forall2_same_length_lookup. split.
  - rewrite Hlen'. apply mapM_Some in Hr. by rewrite <- (Forall2_length _ _ _ Hr).
  - intros k x y Hx Hy.
    assert (is_Some (indices !! k)) as [i Hi].
    { apply lookup_lt_is_Some. rewrite <- Hlen'. by eapply lookup_lt_Some. }
    destruct (gather_lookup _ _ _ _ _ Hr Hi) as [? Hx'].
    destruct (gather_lookup _ _ _ _ _ Hr' Hi) as [? Hy'].
    rewrite Hx in Hx'. rewrite Hy in Hy'. symmetry in Hx', Hy'.
    exact (Forall2_lookup_lr _ _ _ _ _ _ Hsrc Hx' Hy').
Qed.

Lemma as_bools_fmap (l : list bool) : as_bools (VBool <$> l) = Some l.
Proof.
  unfold as_bools. apply mapM_Some. apply Forall2_fmap_l.
  apply Forall2_same_length_lookup. split; [done|].
  intros k x y Hx Hy. simpl. congruence.
Qed.

Lemma gather_attributes_Some src domain skip indices dst :
  map_Forall (λ _ values, Z.of_nat (length values) = domain_size domain src)
    (domain_data domain src) →
  Forall (λ i, 0 ≤ i < domain_size domain src) indices →
  gather_attributes src domain skip indices dst
  = Some (set_domain_data domain
            ((λ values, gather_total values indices)
               <$> filter (λ kv, kv.1 ∉ skip) (domain_data domain src)
             ∪ domain_data domain dst) dst).
Proof.
  intros Hdata Hidx. unfold gather_attributes.
  rewrite decide_True; [done|].
  intros name values Hv. apply map_lookup_filter_Some in Hv as [Hv _].
  specialize (Hdata name values Hv). simpl in Hdata.
  destruct (gather_Some values indices) as (r & -> & _); [|done].
  by rewrite Hdata.
Qed.

Lemma cyclic_stored curves values l :
  curve_data curves !! "cyclic" = Some values → as_bools values = Some l →
  cyclic curves = ForSpan l.
Proof.
  intros Hv Hl. unfold cyclic, lookup_or_default_bool. cbn [domain_data].
  rewrite Hv. cbn [mbind option_bind]. by rewrite Hl.
Qed.

Lemma cyclic_absent curves :
  curve_data curves !! "cyclic" = None →
  cyclic curves = ForSingle false (curve_num curves).
Proof.
  intros Hv. unfold cyclic, lookup_or_default_bool. cbn [domain_data].
  by rewrite Hv.
Qed.

Lemma cyclic_for_write_stored curves values l :
  curve_data curves !! "cyclic" = Some values → as_bools values = Some l →
  cyclic_for_write curves = l.
Proof.
  intros Hv Hl. unfold cyclic_for_write. rewrite Hv. cbn [mbind option_bind].
  by rewrite Hl.
Qed.

Lemma cyclic_for_write_absent curves :
  curve_data curves !! "cyclic" = None →
  cyclic_for_write curves = replicate (Z.to_nat (curve_num curves)) false.
Proof. intros Hv. unfold cyclic_for_write. by rewrite Hv. Qed.

Lemma cyclic_store_cyclic span curves : cyclic (store_cyclic span curves) = ForSpan span.
Proof.
  apply cyclic_stored with (values := VBool <$> span).
  - unfold store_cyclic. cbn [set_domain_data curve_data]. apply lookup_insert_eq.
  - apply as_bools_fmap.
Qed.

Lemma wf_cyclic_get curves i :
  CurvesGeometry_wf curves → 0 ≤ i < curve_num curves →
  is_Some (VArray_get (cyclic curves) i).
Proof.
  intros Hwf Hi.
  destruct (curve_data curves !! "cyclic") as [values|] eqn:Hv.
  - destruct (wf_cyclic _ Hwf _ Hv) as [l Hl].
    rewrite (cyclic_stored _ _ _ Hv Hl). cbn [VArray_get].
    apply Array_get_is_Some. rewrite <- (length_mapM _ _ _ Hl).
    by rewrite (wf_curve_data _ Hwf _ _ Hv).
  - rewrite (cyclic_absent _ Hv). cbn [VArray_get]. by rewrite decide_True.
Qed.

End geometry_facts.

Section extrude_facts.
Import BLI bke greasepencil.

Variable src : CurvesGeometry.
Hypothesis src_wf : CurvesGeometry_wf src.

Lemma Vector_insert_Some {A : Type} (v : list A) i x :
  0 ≤ i ≤ Z.of_nat (length v) →
  Vector_insert v i x = Some (take (Z.to_nat i) v ++ x :: drop (Z.to_nat i) v).
Proof. intros. unfold Vector_insert. by rewrite decide_True. Qed.

Lemma length_insert_at {A : Type} (v : list A) (n : nat) x :
  length (take n v ++ x :: drop n v) = S (length v).
Proof.
  rewrite length_app. simpl. rewrite length_take, length_drop. lia.
Qed.

Lemma extrude_point_inv curve_index curve_points curve_cyclic st src_point_index :
  0 ≤ curve_index < curve_num src →
  0 ≤ src_point_index < point_num src →
  extrude_inv src st →
  ∃ st', extrude_point curve_index curve_points curve_cyclic st src_point_index = Some st'
         ∧ extrude_inv src st'.
Proof.
  intros Hc Hp [H1 H2 H3 H4 H5 H6 H7 H8]. unfold extrude_point.
  assert (Hins : ∀ d, 0 ≤ d ≤ 1 →
    ∃ st', (pts ← Vector_insert (dst_to_src_points st)
                    (src_point_index + point_offset st + d) src_point_index;
            sel ← Vector_insert (dst_selected st)
                    (src_point_index + point_offset st + d) true;
            count ← Array_get (ext_curve_counts st) curve_index;
            counts ← Array_set (ext_curve_counts st) curve_index (count + 1);
            Some {| dst_to_src_points := pts; dst_selected := sel;
                    dst_to_src_curves := dst_to_src_curves st;
                    ext_curve_counts := counts;
                    point_offset := point_offset st + 1 |}) = Some st'
           ∧ extrude_inv src st').
  { intros d Hd.
    rewrite !Vector_insert_Some by lia. cbn [mbind option_bind].
    destruct (Array_get_is_Some (ext_curve_counts st) curve_index) as [count ->]; [lia|].
    cbn [mbind option_bind]. unfold Array_set. rewrite decide_True by lia.
    cbn [mbind option_bind]. eexists; split; [done|].
    constructor; simpl; try done.
    - by rewrite length_insert.
    - by rewrite !length_insert_at, H4.
    - lia.
    - rewrite length_insert_at. lia.
    - apply Forall_app. split; [by apply Forall_take|].
      apply Forall_cons. split; [done|]. by apply Forall_drop. }
  destruct (negb curve_cyclic && bool_decide (src_point_index = IndexRange_first curve_points)).
  { specialize (Hins 0 ltac:(lia)). by rewrite !Z.add_0_r in Hins. }
  destruct (negb curve_cyclic && bool_decide (src_point_index = IndexRange_last curve_points 0)).
  { apply (Hins 1). lia. }
  eexists; split; [done|]. constructor; simpl; try done.
  - by rewrite take_app_le.
  - rewrite length_app. lia.
  - rewrite !length_app. simpl. lia.
  - rewrite !length_app. simpl. lia.
  - rewrite length_app. simpl. lia.
  - apply Forall_app. split; [done|]. repeat constructor; lia.
  - apply Forall_app. split; [done|]. repeat constructor; lia.
Qed.

Lemma extrude_curve_inv points_to_extrude st curve_index :
  0 ≤ curve_index < curve_num src →
  extrude_inv src st →
  ∃ st', extrude_curve (points_by_curve src) (cyclic src) points_to_extrude st curve_index
         = Some st'
         ∧ extrude_inv src st'.
Proof.
  intros Hc Hinv. unfold extrude_curve.
  destruct (wf_points_by_curve src curve_index src_wf Hc)
    as (b & e & _ & _ & Hb & Hbe & He & ->).
  cbn [mbind option_bind].
  destruct (wf_cyclic_get src curve_index src_wf Hc) as [curve_cyclic ->].
  cbn [mbind option_bind].
  apply (foldlM_invariant (extrude_inv src)); [|done].
  intros st0 p Hp Hst0. apply extrude_point_inv; [done| |done].
  unfold IndexMask_slice_content in Hp.
  apply list_elem_of_filter in Hp as [Hp _]. simpl in Hp. lia.
Qed.

Lemma copy_group_sizes_Some :
  ∃ counts, copy_group_sizes (points_by_curve src) (curves_range src) = Some counts
            ∧ length counts = Z.to_nat (curve_num src).
Proof.
  unfold copy_group_sizes.
  destruct (mapM (λ i, size <$> OffsetIndices_get (points_by_curve src) i)
              (IndexRange_to_list (curves_range src))) as [counts|] eqn:Hm.
  - exists counts. split; [done|].
    rewrite <- (length_mapM _ _ _ Hm), IndexRange_to_list_length. done.
  - exfalso.
    assert (is_Some (mapM (λ i, size <$> OffsetIndices_get (points_by_curve src) i)
              (IndexRange_to_list (curves_range src)))) as [? ?]; [|congruence].
    apply mapM_is_Some. rewrite Forall_forall. intros i Hi.
    apply elem_of_IndexRange_to_list in Hi. simpl in Hi.
    destruct (wf_points_by_curve src i src_wf ltac:(lia))
      as (b & e & _ & _ & _ & _ & _ & Hget).
    unfold compose. by rewrite Hget.
Qed.

End extrude_facts.

Section extrude_result.
Import BLI bke greasepencil.

Lemma filter_skip_nil (m : gmap string (list AttrValue)) :
  filter (λ kv : string * list AttrValue, kv.1 ∉ []) m = m.
Proof. apply map_filter_id. intros i x _. simpl. apply not_elem_of_nil. Qed.

Lemma new_offsets_copy (junk : nat → Z) point_num new_curves_num (counts : list Z) :
  Z.of_nat (length counts) = new_curves_num →
  is_Some (array_utils_copy counts
             (curve_offsets (CurvesGeometry_new junk point_num new_curves_num))
             (Span_drop_back
                (Z.of_nat (length (curve_offsets
                                     (CurvesGeometry_new junk point_num new_curves_num)))) 1)).
Proof.
  intros Hlen. unfold array_utils_copy, CurvesGeometry_new, Span_drop_back.
  cbn [curve_offsets size start].
  destruct (decide (0 < new_curves_num)).
  - rewrite Array_uninitialized_length. rewrite decide_True by lia.
    rewrite Span_write_Some; [done | lia |].
    rewrite Array_uninitialized_length. lia.
  - cbn [length]. rewrite decide_True by lia.
    rewrite Span_write_Some; [done | lia |]. cbn [length]. lia.
Qed.

End extrude_result.

(** C10. For every source curves geometry and every extruded-point mask, all
    curves that [extrude_grease_pencil_curves] adds beyond the original curve
    count have their cyclic flag false in the result, while the cyclic flags
    of the original curves are preserved. *)
Theorem extrude_new_curves_not_cyclic
    (uninitialized : nat → Z) (update_curve_types : bke.CurvesGeometry → bke.CurvesGeometry)
    (src : bke.CurvesGeometry) (points_to_extrude : BLI.IndexMask) :
  (∀ g, bke.curve_data (update_curve_types g) = bke.curve_data g
        ∧ bke.curve_num (update_curve_types g) = bke.curve_num g) →
  bke.CurvesGeometry_wf src →
  ∃ dst,
    greasepencil.extrude_grease_pencil_curves uninitialized update_curve_types
      src points_to_extrude = Some dst
    ∧ bke.curves_num src ≤ bke.curves_num dst
    ∧ (∀ i, 0 ≤ i < bke.curves_num src →
            BLI.VArray_get (bke.cyclic dst) i = BLI.VArray_get (bke.cyclic src) i)
    ∧ (∀ i, bke.curves_num src ≤ i < bke.curves_num dst →
            BLI.VArray_get (bke.cyclic dst) i = Some false).
Proof.
  intros Hupd Hwf. unfold greasepencil.extrude_grease_pencil_curves.
  destruct (copy_group_sizes_Some src Hwf) as (counts & -> & Hcounts).
  cbn [mbind option_bind].
  pose proof (bke.wf_curve_num _ Hwf) as Hcn. pose proof (bke.wf_point_num _ Hwf) as Hpn.
  edestruct (foldlM_invariant (extrude_inv src)
               (greasepencil.extrude_curve (bke.points_by_curve src) (bke.cyclic src)
                  points_to_extrude)
               (BLI.IndexRange_to_list (bke.curves_range src)))
    as (st & -> & Hinv).
  { intros st0 i Hi Hst0. apply elem_of_IndexRange_to_list in Hi. simpl in Hi.
    apply extrude_curve_inv; [done | lia | done]. }
  { unfold bke.curves_num, bke.points_num. constructor; simpl.
    - unfold BLI.fill_index_range. rewrite Array_uninitialized_length.
      apply take_ge. rewrite length_fmap, length_seq. lia.
    - unfold BLI.fill_index_range. rewrite length_fmap, length_seq.
      rewrite Array_uninitialized_length. lia.
    - unfold BLI.fill_index_range. rewrite length_fmap, length_seq.
      rewrite Array_uninitialized_length. lia.
    - unfold BLI.fill_index_range. rewrite length_fmap, length_seq.
      rewrite Array_uninitialized_length, length_replicate. lia.
    - lia.
    - unfold BLI.fill_index_range. rewrite length_fmap, length_seq.
      rewrite Array_uninitialized_length. lia.
    - unfold BLI.fill_index_range. rewrite Array_uninitialized_length.
      rewrite Forall_fmap, Forall_forall. intros k Hk. apply elem_of_seq in Hk.
      simpl. lia.
    - unfold BLI.fill_index_range. rewrite Array_uninitialized_length.
      rewrite Forall_fmap, Forall_forall. intros k Hk. apply elem_of_seq in Hk.
      simpl. lia. }
  cbn [mbind option_bind].
  destruct Hinv as [Hprefix Hclen Hcounts' _ _ _ Hprange Hcrange].
  set (new_points_num := Z.of_nat (length (greasepencil.dst_to_src_points st))).
  set (new_curves_num := Z.of_nat (length (greasepencil.dst_to_src_curves st))).
  destruct (new_offsets_copy uninitialized new_points_num new_curves_num
              (greasepencil.ext_curve_counts st)) as [offs ->]; [lia|].
  cbn [mbind option_bind].
  rewrite gather_attributes_Some by (try apply (bke.wf_curve_data _ Hwf); done).
  cbn [mbind option_bind].
  rewrite gather_attributes_Some by (try apply (bke.wf_point_data _ Hwf); done).
  cbn [mbind option_bind]. cbv zeta.
  set (idx := greasepencil.dst_to_src_curves st) in *.
  set (dst3 := bke.set_domain_data bke.Point (<[".selection" := _]> _) _).
  assert (Hcd3 : bke.curve_data dst3
                 = (λ values, bke.gather_total values idx) <$> bke.curve_data src).
  { unfold dst3. simpl. by rewrite filter_skip_nil, (right_id_L ∅ (∪)). }
  assert (Hcn3 : bke.curve_num dst3 = new_curves_num) by done.
  clearbody dst3.
  unfold bke.curves_num in *.
  destruct (bke.curve_data src !! "cyclic") as [values|] eqn:Hcyc.
  - (* The source stores the attribute. *)
    destruct (bke.wf_cyclic _ Hwf _ Hcyc) as [l Hl].
    assert (Hlen_l : length l = Z.to_nat (bke.curve_num src)).
    { rewrite <- (length_mapM _ _ _ Hl).
      pose proof (bke.wf_curve_data _ Hwf _ _ Hcyc) as Hv. simpl in Hv. lia. }
    destruct (gather_Some values idx) as (values' & Hvalues' & Hlen').
    { rewrite (bke.wf_curve_data _ Hwf _ _ Hcyc). done. }
    destruct (mapM_gather _ _ _ _ _ Hl Hvalues') as (l' & Hl' & Hbools').
    assert (Hlen_l' : length l' = length idx).
    { rewrite <- (length_mapM _ _ _ Hbools'). done. }
    rewrite (cyclic_stored _ _ _ Hcyc Hl). cbn [BLI.VArray_get_if_single default].
    rewrite (cyclic_for_write_stored dst3 values' l').
    2:{ rewrite Hcd3, lookup_fmap, Hcyc. simpl.
        by rewrite (gather_total_Some _ _ _ Hvalues'). }
    2:{ done. }
    unfold bke.Span_drop_front. cbn [BLI.start BLI.size].
    rewrite Span_write_Some; [| lia | rewrite length_replicate; lia].
    cbn [mbind option_bind].
    eexists. split; [done|].
    match goal with |- context [update_curve_types ?g] =>
      destruct (Hupd g) as [Hcd Hcnum];
      assert (Hfinal : bke.cyclic (update_curve_types g) = bke.cyclic g)
    end.
    { unfold bke.cyclic, bke.lookup_or_default_bool. cbn [bke.domain_data bke.domain_size].
      by rewrite Hcd, Hcnum. }
    rewrite Hfinal, cyclic_store_cyclic, Hcnum.
    unfold bke.store_cyclic. cbn [bke.set_domain_data bke.curve_num]. rewrite Hcn3.
    unfold new_curves_num.
    split; [lia|]. split.
    + intros i Hi. cbn [BLI.VArray_get]. unfold BLI.Array_get. rewrite decide_True by lia.
      rewrite lookup_app_l by (rewrite length_take; lia).
      rewrite lookup_take_lt by lia.
      assert (Hidx_i : idx !! Z.to_nat i = Some i).
      { rewrite <- (lookup_take_lt _ (Z.to_nat (bke.curve_num src))) by lia.
        rewrite Hprefix, list_lookup_fmap, lookup_seq_lt by lia. simpl. f_equal. lia. }
      destruct (gather_lookup _ _ _ _ _ Hl' Hidx_i) as [_ ->].
      by rewrite decide_True by lia.
    + intros i Hi. cbn [BLI.VArray_get]. unfold BLI.Array_get. rewrite decide_True by lia.
      rewrite lookup_app_r by (rewrite length_take; lia).
      rewrite length_take.
      rewrite lookup_app_l by (rewrite length_replicate; lia).
      apply lookup_replicate_2. lia.
  - (* The attribute is not stored: every curve is not cyclic. *)
    rewrite (cyclic_absent _ Hcyc). cbn [BLI.VArray_get_if_single default].
    cbn [mbind option_bind].
    eexists. split; [done|].
    destruct (Hupd dst3) as [Hcd Hcnum].
    rewrite (cyclic_absent (update_curve_types dst3))
      by (by rewrite Hcd, Hcd3, lookup_fmap, Hcyc).
    rewrite Hcnum, Hcn3. unfold new_curves_num.
    split; [lia|]. split.
    + intros i Hi. cbn [BLI.VArray_get]. rewrite !decide_True by lia. done.
    + intros i Hi. cbn [BLI.VArray_get]. rewrite decide_True by lia. done.
Qed.

Section split_facts.
Import BLI bke greasepencil.

(** ** [IndexMask::to_bools] *)

Lemma to_bools_fold (mask : IndexMask) (b0 : list bool) :
  Forall (λ i, 0 ≤ i < Z.of_nat (length b0)) mask →
  ∃ b', foldlM (λ bools i, Array_set bools i true) b0 mask = Some b'
        ∧ length b' = length b0
        ∧ ∀ (k : nat) x, b0 !! k = Some x →
            b' !! k = Some (x || bool_decide (Z.of_nat k ∈ mask)).
Proof.
  revert b0. induction mask as [|i mask IH]; intros b0 Hm; cbn [foldlM].
  - exists b0. split; [done|]. split; [done|]. intros k x ->.
    rewrite bool_decide_eq_false_2 by apply not_elem_of_nil. by rewrite orb_false_r.
  - apply Forall_cons in Hm as [Hi Hm].
    assert (Hset : Array_set b0 i true = Some (<[Z.to_nat i := true]> b0))
      by (unfold Array_set; by rewrite decide_True).
    cbv beta. rewrite Hset. cbn [mbind option_bind].
    destruct (IH (<[Z.to_nat i := true]> b0)) as (b' & -> & Hlen & Hb').
    { by rewrite length_insert. }
    exists b'. split; [done|]. rewrite length_insert in Hlen. split; [done|].
    intros k x Hk. destruct (decide (k = Z.to_nat i)) as [->|Hne].
    + rewrite (Hb' _ true).
      * rewrite (bool_decide_eq_true_2 (Z.of_nat (Z.to_nat i) ∈ i :: mask)).
        -- by rewrite orb_true_r.
        -- rewrite Z2Nat.id by lia. left.
      * apply list_lookup_insert_eq. lia.
    + rewrite (Hb' _ x) by (by rewrite list_lookup_insert_ne).
      f_equal. f_equal. apply bool_decide_ext. rewrite elem_of_cons.
      split; [tauto|]. intros [Heq|?]; [lia|done].
Qed.

Lemma to_bools_Some (mask : IndexMask) (n : nat) :
  Forall (λ i, 0 ≤ i < Z.of_nat n) mask →
  IndexMask_to_bools mask (replicate n false) = Some (mask_bools mask n).
Proof.
  intros Hm. unfold IndexMask_to_bools. rewrite length_replicate.
  destruct (to_bools_fold mask (replicate n false)) as (b' & -> & Hlen & Hb').
  { by rewrite length_replicate. }
  f_equal. rewrite length_replicate in Hlen.
  apply list_eq. intros k. unfold mask_bools. rewrite list_lookup_fmap.
  destruct (decide (k < n)%nat) as [Hk|Hk].
  - rewrite (Hb' k false) by (by apply lookup_replicate_2).
    by rewrite lookup_seq_lt.
  - rewrite lookup_seq_ge by lia. apply lookup_ge_None. lia.
Qed.

Lemma mask_bools_take_drop (mask : IndexMask) (n b c : nat) :
  (b + c ≤ n)%nat →
  take c (drop b (mask_bools mask n))
  = (λ k : nat, bool_decide (Z.of_nat k ∈ mask)) <$> seq b c.
Proof.
  intros Hbc. unfold mask_bools. rewrite <- fmap_drop, <- fmap_take.
  f_equal. rewrite drop_seq, take_seq. simpl. f_equal. lia.
Qed.

Lemma kept_app mask (b c1 c2 : nat) :
  kept mask b (c1 + c2) = kept mask b c1 ++ kept mask (b + c1) c2.
Proof. unfold kept. by rewrite seq_app, fmap_app, filter_app. Qed.

Lemma Span_count_mask_bools mask (n : nat) :
  Span_count false (mask_bools mask n) = Z.of_nat (length (kept mask 0 n)).
Proof.
  unfold Span_count, mask_bools, kept. f_equal.
  induction (seq 0 n) as [|s l IH]; [done|].
  rewrite !fmap_cons, !filter_cons.
  destruct (decide (Z.of_nat s ∈ mask)) as [Hin|Hin].
  - rewrite (bool_decide_eq_true_2 _ Hin).
    rewrite decide_False by done. by rewrite decide_False by tauto.
  - rewrite (bool_decide_eq_false_2 _ Hin).
    rewrite decide_True by done. rewrite decide_True by done.
    cbn [length]. by rewrite IH.
Qed.

(** ** [find_all_ranges] *)

Lemma IndexRange_to_list_snoc s len :
  0 ≤ len →
  IndexRange_to_list {| start := s; size := len + 1 |}
  = IndexRange_to_list {| start := s; size := len |} ++ [s + len].
Proof.
  intros Hlen. unfold IndexRange_to_list. simpl.
  replace (Z.to_nat (len + 1)) with (Z.to_nat len + 1)%nat by lia.
  rewrite seq_app, fmap_app. simpl. do 3 f_equal. lia.
Qed.

Lemma find_all_ranges_from_concat value span i len :
  0 ≤ len →
  concat (IndexRange_to_list <$> find_all_ranges_from value span i len)
  = IndexRange_to_list {| start := i - len; size := len |} ++ positions_of value span i.
Proof.
  revert i len. induction span as [|b span IH]; intros i len Hlen; simpl.
  - rewrite app_nil_r. case_decide; simpl.
    + by rewrite app_nil_r.
    + replace len with 0 by lia. done.
  - destruct (decide (b = value)) as [->|Hne].
    + rewrite IH by lia. replace (i + 1 - (len + 1)) with (i - len) by lia.
      rewrite IndexRange_to_list_snoc by done. rewrite <- app_assoc. simpl.
      do 3 f_equal. lia.
    + rewrite fmap_app, concat_app, IH by lia. simpl.
      f_equal. case_decide; simpl.
      * by rewrite app_nil_r.
      * replace len with 0 by lia. done.
Qed.

Lemma find_all_ranges_from_shift value span i len b :
  find_all_ranges_from value span (i + b) len
  = (λ r, IndexRange_shift r b) <$> find_all_ranges_from value span i len.
Proof.
  revert i len. induction span as [|x span IH]; intros i len; simpl.
  - case_decide; simpl; [|done]. unfold IndexRange_from_end_size, IndexRange_shift.
    simpl. do 2 f_equal. lia.
  - case_decide.
    + replace (i + b + 1) with (i + 1 + b) by lia. apply IH.
    + rewrite fmap_app. replace (i + b + 1) with (i + 1 + b) by lia. rewrite IH.
      f_equal. case_decide; simpl; [|done].
      unfold IndexRange_from_end_size, IndexRange_shift. simpl. do 2 f_equal. lia.
Qed.

Lemma positions_of_mask_bools mask (s c : nat) :
  positions_of false ((λ k : nat, bool_decide (Z.of_nat k ∈ mask)) <$> seq s c) (Z.of_nat s)
  = kept mask s c.
Proof.
  unfold kept. revert s. induction c as [|c IH]; intros s; [done|].
  cbn [seq]. rewrite !fmap_cons, filter_cons. cbn [positions_of].
  replace (Z.of_nat s + 1) with (Z.of_nat (S s)) by lia.
  rewrite IH. destruct (decide (Z.of_nat s ∈ mask)) as [Hin|Hin].
  - rewrite (bool_decide_eq_true_2 _ Hin). rewrite decide_False by done.
    by rewrite decide_False by tauto.
  - rewrite (bool_decide_eq_false_2 _ Hin). rewrite decide_True by done.
    by rewrite decide_True by done.
Qed.

(** The kept ranges of the points [b .. b+c) of a curve, shifted to the
    curve, enumerate the kept points of the curve. *)
Lemma ranges_to_keep_concat mask (n b c : nat) :
  (b + c ≤ n)%nat →
  concat ((λ r, IndexRange_to_list (IndexRange_shift r (Z.of_nat b)))
            <$> find_all_ranges (take c (drop b (mask_bools mask n))) false)
  = kept mask b c.
Proof.
  intros Hbc. rewrite mask_bools_take_drop by done.
  unfold find_all_ranges.
  rewrite (list_fmap_compose (λ r, IndexRange_shift r (Z.of_nat b)) IndexRange_to_list).
  rewrite <- find_all_ranges_from_shift. simpl.
  rewrite find_all_ranges_from_concat by lia. simpl.
  apply positions_of_mask_bools.
Qed.

End split_facts.

Section split_loop.
Import BLI bke greasepencil.

(** [J] is the destination array as allocated; [W] is what has been
    written to its front so far. *)
Variable J : list Z.

Lemma write_list_spec (R : list Z) : ∀ W st,
  written_state J W st → (length W + length R ≤ length J)%nat →
  ∃ st',
    foldlM
      (λ st src_point,
         a ← Array_set (dst_to_src_point st) (curr_dst_point_id st) src_point;
         Some {| curr_dst_point_id := curr_dst_point_id st + 1;
                 dst_to_src_point := a;
                 dst_curve_counts := dst_curve_counts st;
                 dst_to_src_curve := dst_to_src_curve st;
                 dst_cyclic := dst_cyclic st |}) st R = Some st'
    ∧ written_state J (W ++ R) st' ∧ same_curves st st'.
Proof.
  induction R as [|x R IH]; intros W st [HW Hc] Hcap; cbn [foldlM].
  - exists st. rewrite app_nil_r. by repeat split.
  - cbn [length] in Hcap.
    assert (Hset : Array_set (dst_to_src_point st) (curr_dst_point_id st) x
                   = Some ((W ++ [x]) ++ drop (length (W ++ [x])) J)).
    { unfold Array_set. rewrite HW, Hc.
      rewrite decide_True by (rewrite length_app, length_drop; lia).
      f_equal. rewrite Nat2Z.id.
      rewrite insert_app_r_alt by lia. rewrite Nat.sub_diag.
      destruct (lookup_lt_is_Some_2 J (length W)) as [y Hy]; [lia|].
      rewrite (drop_S _ _ _ Hy). cbn [list_insert].
      rewrite <- app_assoc. cbn [app]. rewrite length_app. cbn [length].
      by replace (length W + 1)%nat with (S (length W)) by lia. }
    cbv beta. rewrite Hset. cbn [mbind option_bind].
    destruct (IH (W ++ [x])
      {| curr_dst_point_id := curr_dst_point_id st + 1;
         dst_to_src_point := (W ++ [x]) ++ drop (length (W ++ [x])) J;
         dst_curve_counts := dst_curve_counts st;
         dst_to_src_curve := dst_to_src_curve st;
         dst_cyclic := dst_cyclic st |}) as (st' & Hst' & Hw' & Hs').
    { split; [done|]. cbn [curr_dst_point_id].
      rewrite Hc, length_app. cbn [length]. lia. }
    { rewrite length_app. cbn [length]. lia. }
    exists st'. rewrite <- app_assoc in Hw'.
    split; [exact Hst'|]. split; [exact Hw'|]. exact Hs'.
Qed.

Lemma write_src_points_spec range W st :
  written_state J W st →
  (length W + length (IndexRange_to_list range) ≤ length J)%nat →
  ∃ st', write_src_points range st = Some st'
         ∧ written_state J (W ++ IndexRange_to_list range) st' ∧ same_curves st st'.
Proof. apply write_list_spec. Qed.

Lemma IndexRange_to_list_cons s c :
  0 ≤ c →
  IndexRange_to_list {| start := s; size := c + 1 |}
  = s :: IndexRange_to_list {| start := s + 1; size := c |}.
Proof.
  intros Hc. unfold IndexRange_to_list. cbn [start size].
  replace (Z.to_nat (c + 1)) with (S (Z.to_nat c)) by lia.
  cbn [seq]. rewrite fmap_cons. f_equal; [lia|].
  rewrite <- fmap_S_seq, <- list_fmap_compose.
  apply list_fmap_ext. intros _ k _. simpl. lia.
Qed.

Lemma split_ranges_spec curve_i points ranges joined is_cyclic : ∀ rest pre W st,
  ranges = pre ++ rest →
  written_state J W st →
  (length W + length (emitted points ranges rest joined) ≤ length J)%nat →
  ∃ st',
    foldlM (split_range curve_i points ranges joined is_cyclic) st
      (IndexRange_to_list {| start := Z.of_nat (length pre);
                             size := Z.of_nat (length rest) |}) = Some st'
    ∧ written_state J (W ++ emitted points ranges rest joined) st'
    ∧ length (dst_curve_counts st') = (length (dst_curve_counts st) + length rest)%nat
    ∧ dst_to_src_curve st' = dst_to_src_curve st ++ replicate (length rest) curve_i
    ∧ length (dst_cyclic st') = (length (dst_cyclic st) + length rest)%nat.
Proof.
  induction rest as [|r rest IH]; intros pre W st Hranges HW Hcap.
  - exists st.
    assert (Hem : emitted points ranges [] joined = []) by (by destruct joined).
    rewrite Hem, app_nil_r. cbn [length replicate]. rewrite app_nil_r.
    split; [done|]. split; [done|]. split; [lia|]. split; [done|]. lia.
  - cbn [length]. rewrite Nat2Z.inj_succ, <- Z.add_1_r.
    rewrite IndexRange_to_list_cons by lia. cbn [foldlM].
    set (F := foldlM (split_range curve_i points ranges joined is_cyclic)).
    unfold split_range. cbv beta zeta.
    assert (Hget : Array_get ranges (Z.of_nat (length pre)) = Some r).
    { rewrite Array_get_of_nat, Hranges. by rewrite list_lookup_middle. }
    rewrite Hget. cbn [mbind option_bind].
    assert (Hlast : bool_decide (Z.of_nat (length pre)
                                 = IndexRange_last (index_range ranges) 0)
                    = bool_decide (rest = [])).
    { apply bool_decide_ext. unfold IndexRange_last, index_range. cbn [start size].
      rewrite Hranges, length_app. cbn [length].
      destruct rest; cbn [length]; split; intros; try done; lia. }
    rewrite Hlast.
    unfold emitted in Hcap. cbn [fmap list_fmap concat] in Hcap.
    rewrite !length_app in Hcap.
    destruct (write_src_points_spec (IndexRange_shift r (IndexRange_first points)) W st)
      as (st1 & -> & HW1 & (Hs1a & Hs1b & Hs1c)); [done | unfold shifted in Hcap; lia |].
    cbn [mbind option_bind].
    destruct (joined && bool_decide (rest = [])) eqn:Hj.
    + (* the last range of a self-joined curve: append the first range *)
      apply andb_true_iff in Hj as [-> Hrest]. apply bool_decide_eq_true in Hrest.
      subst rest. cbn [IndexRange_first index_range start].
      assert (is_Some (head ranges)) as [f Hf].
      { rewrite Hranges. destruct pre; cbn; eauto. }
      assert (Hget0 : Array_get ranges 0 = Some f).
      { change 0 with (Z.of_nat 0). rewrite Array_get_of_nat. by rewrite <- head_lookup. }
      rewrite Hget0. cbn [mbind option_bind].
      rewrite Hf in Hcap. cbn in Hcap. rewrite ?app_nil_r, ?length_app in Hcap.
      destruct (write_src_points_spec (IndexRange_shift f (IndexRange_first points))
                  (W ++ IndexRange_to_list (IndexRange_shift r (IndexRange_first points))) st1)
        as (st2 & -> & HW2 & (Hs2a & Hs2b & Hs2c)).
      { done. }
      { rewrite length_app. unfold shifted in Hcap. cbn in Hcap. lia. }
      cbn [mbind option_bind length]. unfold F.
      replace (IndexRange_to_list _) with (@nil Z) by done.
      cbn [foldlM]. eexists. split; [done|]. cbn.
      unfold emitted. rewrite Hf. cbn. rewrite app_nil_r.
      rewrite <- app_assoc in HW2. unfold shifted.
      repeat split.
      * apply HW2.
      * apply HW2.
      * rewrite length_app, Hs2a, Hs1a. cbn. lia.
      * by rewrite Hs2b, Hs1b.
      * rewrite length_app, Hs2c, Hs1c. cbn. lia.
    + cbn [mbind option_bind].
      assert (Hem : emitted points ranges (r :: rest) joined
                    = shifted points r ++ emitted points ranges rest joined).
      { unfold emitted. cbn [fmap list_fmap concat]. rewrite <- app_assoc.
        do 2 f_equal. destruct joined; [|done].
        destruct rest; [|done]. by rewrite bool_decide_eq_true_2 in Hj. }
      destruct (IH (pre ++ [r]) (W ++ shifted points r)
        {| curr_dst_point_id := curr_dst_point_id st1;
           dst_to_src_point := dst_to_src_point st1;
           dst_curve_counts := dst_curve_counts st1 ++ [size r];
           dst_to_src_curve := dst_to_src_curve st1 ++ [curve_i];
           dst_cyclic := dst_cyclic st1 ++ [is_cyclic] |})
        as (st' & Hst' & HW' & Hc1 & Hc2 & Hc3).
      { by rewrite <- app_assoc. }
      { split; cbn [dst_to_src_point curr_dst_point_id]; apply HW1. }
      { rewrite length_app. unfold emitted. rewrite !length_app.
        unfold shifted in *.
        destruct joined; [|cbn in *; lia].
        destruct rest; [by rewrite bool_decide_eq_true_2 in Hj|]. lia. }
      rewrite length_app in Hst'. cbn [length] in Hst'.
      replace (Z.of_nat (length pre) + 1) with (Z.of_nat (length pre + 1)) by lia.
      unfold F. rewrite Hst'. eexists. split; [done|]. rewrite Hem, app_assoc.
      cbn in Hc1, Hc2, Hc3.
      repeat split.
      * apply HW'.
      * apply HW'.
      * rewrite Hc1, length_app, Hs1a. cbn. lia.
      * rewrite Hc2, Hs1b, <- app_assoc. done.
      * rewrite Hc3, length_app, Hs1c. cbn. lia.
Qed.

End split_loop.

Section split_curves.
Import BLI bke greasepencil.

Variable curves : CurvesGeometry.
Hypothesis curves_wf : CurvesGeometry_wf curves.
Variable mask : IndexMask.
Variable n : nat.
Hypothesis Hn : point_num curves = Z.of_nat n.
Variable J : list Z.
Hypothesis HJ : length J = length (kept mask 0 n).

Lemma mask_bools_length : length (mask_bools mask n) = n.
Proof. unfold mask_bools. by rewrite length_fmap, length_seq. Qed.

Lemma split_curve_spec curve_i b e W st :
  0 ≤ curve_i < curve_num curves →
  OffsetIndices_get (points_by_curve curves) curve_i = Some {| start := b; size := e - b |} →
  0 ≤ b → b ≤ e → e ≤ Z.of_nat n →
  written_state J W st →
  (length W + length (kept mask (Z.to_nat b) (Z.to_nat (e - b))) ≤ length J)%nat →
  curves_inv curves st →
  ∃ st' E,
    split_curve (points_by_curve curves) (cyclic curves) (mask_bools mask n) st curve_i
    = Some st'
    ∧ written_state J (W ++ E) st'
    ∧ E ≡ₚ kept mask (Z.to_nat b) (Z.to_nat (e - b))
    ∧ curves_inv curves st'.
Proof.
  intros Hi Hget Hb Hbe He HW Hcap [Hc1 Hc2 Hc3].
  unfold split_curve. rewrite Hget. cbn [mbind option_bind].
  unfold Span_slice. cbn [start size].
  rewrite decide_True by (rewrite mask_bools_length; lia).
  cbn [mbind option_bind].
  destruct (wf_cyclic_get curves curve_i curves_wf Hi) as [curve_cyclic ->].
  cbn [mbind option_bind].
  pose proof (ranges_to_keep_concat mask n (Z.to_nat b) (Z.to_nat (e - b)) ltac:(lia))
    as Hconcat.
  rewrite Z2Nat.id in Hconcat by lia.
  set (ranges := find_all_ranges _ false) in *.
  set (points := {| start := b; size := e - b |}) in *.
  change (λ r, IndexRange_to_list (IndexRange_shift r b)) with (shifted points) in Hconcat.
  destruct (decide (ranges = [])) as [Hnil|Hnil].
  { exists st, []. rewrite app_nil_r. split; [done|]. split; [done|].
    split; [|done]. rewrite <- Hconcat, Hnil. done. }
  destruct ranges as [|f rest] eqn:Hranges; [done|]. rewrite <- Hranges in *.
  assert (is_Some (last ranges)) as [l Hl].
  { rewrite Hranges, last_cons. destruct (last rest); eauto. }
  rewrite Hl. replace (head ranges) with (Some f) by (by rewrite Hranges).
  cbn [mbind option_bind].
  set (is_last_segment_selected := _ && bool_decide (IndexRange_last l 0 = _)).
  set (is_cyclic := bool_decide (length ranges = 1%nat) && is_last_segment_selected).
  destruct (is_last_segment_selected && bool_decide (length ranges ≠ 1%nat)) eqn:Hj.
  - (* self-joined: the first range is written after the last one *)
    apply andb_true_iff in Hj as [_ Hlen]. apply bool_decide_eq_true in Hlen.
    assert (Hrest : rest ≠ []). { intros ->. by rewrite Hranges in Hlen. }
    assert (Hem : emitted points ranges rest true
                  = concat (shifted points <$> rest) ++ shifted points f).
    { unfold emitted. rewrite Hranges. by destruct rest. }
    assert (Hperm : emitted points ranges rest true
                    ≡ₚ kept mask (Z.to_nat b) (Z.to_nat (e - b))).
    { rewrite Hem, <- Hconcat, Hranges. cbn [fmap list_fmap concat].
      apply Permutation_app_comm. }
    replace (IndexRange_drop_front (index_range ranges) 1)
      with {| start := Z.of_nat (length [f]); size := Z.of_nat (length rest) |}.
    2:{ unfold IndexRange_drop_front, index_range. cbn [start size].
        rewrite Hranges. cbn [length]. f_equal; lia. }
    destruct (split_ranges_spec J curve_i points ranges true is_cyclic rest [f] W st)
      as (st' & -> & HW' & Hl1 & Hl2 & Hl3); [done | done | by rewrite Hperm |].
    exists st', (emitted points ranges rest true).
    split; [done|]. split; [done|]. split; [done|].
    constructor.
    + rewrite Hl1, Hl2, length_app, length_replicate. lia.
    + rewrite Hl3, Hl2, length_app, length_replicate. lia.
    + rewrite Hl2. apply Forall_app. split; [done|]. by apply Forall_replicate.
  - assert (Hem : emitted points ranges ranges false
                  = kept mask (Z.to_nat b) (Z.to_nat (e - b))).
    { unfold emitted. by rewrite app_nil_r. }
    replace (IndexRange_drop_front (index_range ranges) 0)
      with {| start := Z.of_nat (length (@nil IndexRange));
              size := Z.of_nat (length ranges) |}.
    2:{ unfold IndexRange_drop_front, index_range. cbn [start size length].
        f_equal; lia. }
    destruct (split_ranges_spec J curve_i points ranges false is_cyclic ranges [] W st)
      as (st' & -> & HW' & Hl1 & Hl2 & Hl3); [done | done | by rewrite Hem |].
    exists st', (emitted points ranges ranges false).
    split; [done|]. split; [done|]. split; [by rewrite Hem|].
    constructor.
    + rewrite Hl1, Hl2, length_app, length_replicate. lia.
    + rewrite Hl3, Hl2, length_app, length_replicate. lia.
    + rewrite Hl2. apply Forall_app. split; [done|]. by apply Forall_replicate.
Qed.

Lemma kept_prefix_length (e : nat) :
  (e ≤ n)%nat → (length (kept mask 0 e) ≤ length (kept mask 0 n))%nat.
Proof.
  intros He. pose proof (kept_app mask 0 e (n - e)) as Happ.
  replace (e + (n - e))%nat with n in Happ by lia.
  rewrite Happ, length_app. lia.
Qed.

Lemma split_loop_spec (k : nat) : ∀ (i : nat) st W b,
  (i + k ≤ Z.to_nat (curve_num curves))%nat →
  curve_offsets curves !! i = Some b →
  written_state J W st →
  W ≡ₚ kept mask 0 (Z.to_nat b) →
  curves_inv curves st →
  ∃ st' W' b',
    foldlM (split_curve (points_by_curve curves) (cyclic curves) (mask_bools mask n)) st
      (IndexRange_to_list {| start := Z.of_nat i; size := Z.of_nat k |}) = Some st'
    ∧ curve_offsets curves !! (i + k)%nat = Some b'
    ∧ written_state J W' st'
    ∧ W' ≡ₚ kept mask 0 (Z.to_nat b')
    ∧ curves_inv curves st'.
Proof.
  induction k as [|k IH]; intros i st W b Hik Hb HW HWp Hinv.
  - exists st, W, b. rewrite Nat.add_0_r.
    split; [reflexivity|]. split; [exact Hb|]. split; [exact HW|].
    split; [exact HWp | exact Hinv].
  - rewrite Nat2Z.inj_succ, <- Z.add_1_r.
    rewrite IndexRange_to_list_cons by lia. cbn [foldlM].
    destruct (wf_points_by_curve curves (Z.of_nat i) curves_wf ltac:(lia))
      as (b1 & e & Hb1 & He1 & Hb0 & Hbe & He & Hget).
    rewrite Nat2Z.id in Hb1, He1. assert (b1 = b) as -> by congruence.
    rewrite Hn in He.
    assert (Hkapp : kept mask 0 (Z.to_nat e)
                    = kept mask 0 (Z.to_nat b) ++ kept mask (Z.to_nat b) (Z.to_nat (e - b))).
    { rewrite <- kept_app. f_equal. lia. }
    destruct (split_curve_spec (Z.of_nat i) b e W st) as (st1 & E & -> & HW1 & HE & Hinv1);
      try done; [lia | |].
    { pose proof (kept_prefix_length (Z.to_nat e) ltac:(lia)) as Hle.
      rewrite Hkapp, length_app in Hle. rewrite HWp, HJ. lia. }
    cbn [mbind option_bind].
    destruct (IH (S i) st1 (W ++ E) e) as (st' & W' & b' & Hst' & Hb' & HW' & HWp' & Hinv');
      try done; [lia | by rewrite Hkapp, HWp, HE |].
    exists st', W', b'.
    replace (Z.of_nat i + 1) with (Z.of_nat (S i)) by lia.
    rewrite Hst'. replace (i + S k)%nat with (S i + k)%nat by lia. done.
Qed.

End split_curves.

Section split_result.
Import BLI bke greasepencil.

Lemma complement_kept mask (n : nat) :
  IndexMask_complement mask {| start := 0; size := Z.of_nat n |} = kept mask 0 n.
Proof.
  unfold IndexMask_complement, kept, IndexRange_to_list. cbn [start size].
  by rewrite Nat2Z.id.
Qed.

Lemma elem_of_kept mask (b c : nat) p :
  p ∈ kept mask b c ↔ (p ∉ mask) ∧ Z.of_nat b ≤ p < Z.of_nat (b + c).
Proof.
  unfold kept. rewrite list_elem_of_filter, list_elem_of_fmap.
  split.
  - intros [? (k & -> & Hk)]. apply elem_of_seq in Hk. split; [done|lia].
  - intros [? Hp]. split; [done|]. exists (Z.to_nat p). split; [lia|].
    apply elem_of_seq. lia.
Qed.

Lemma lookup_skipped {A B : Type} (f : A → B) (m : gmap string A) (name : string) :
  (f <$> filter (λ kv : string * A, kv.1 ∉ [name]) m ∪ ∅) !! name = None.
Proof.
  rewrite (right_id_L ∅ (∪)), lookup_fmap.
  rewrite map_lookup_filter_None_2; [done|].
  right. intros x _. simpl. intros Hn. apply Hn. left.
Qed.

End split_result.

(* ===================================================================== *)
(** * Runs of the operators                                              *)
(* ===================================================================== *)

Section runs.
Import operators.

Lemma result_bind {A B} (m : OpM A) (f : A → OpM B) d :
  result (run (m ≫= f) d) = result (run (f (result (run m d))) (drawings (run m d))).
Proof. reflexivity. Qed.

Lemma events_bind {A B} (m : OpM A) (f : A → OpM B) d :
  events (run (m ≫= f) d)
  = events (run m d) ++ events (run (f (result (run m d))) (drawings (run m d))).
Proof. reflexivity. Qed.

Lemma drawings_bind {A B} (m : OpM A) (f : A → OpM B) d :
  drawings (run (m ≫= f) d) = drawings (run (f (result (run m d))) (drawings (run m d))).
Proof. reflexivity. Qed.

Lemma result_ret {A} (x : A) d : result (run (mret x) d) = x.
Proof. reflexivity. Qed.
Lemma events_ret {A} (x : A) d : events (run (mret x) d) = [].
Proof. reflexivity. Qed.
Lemma drawings_ret {A} (x : A) d : drawings (run (mret x) d) = d.
Proof. reflexivity. Qed.

Lemma events_emit e d : events (run (emit e) d) = [e].
Proof. reflexivity. Qed.
Lemma drawings_emit e d : drawings (run (emit e) d) = d.
Proof. reflexivity. Qed.

Lemma result_strokes info d :
  result (run (strokes info) d) = default bke.CurvesGeometry_default (d !! drawing info).
Proof. reflexivity. Qed.
Lemma events_strokes info d : events (run (strokes info) d) = [].
Proof. reflexivity. Qed.
Lemma drawings_strokes info d : drawings (run (strokes info) d) = d.
Proof. reflexivity. Qed.

Lemma events_write_strokes info curves d :
  events (run (write_strokes info curves) d) = [DrawingWrite (drawing_of (drawing info))].
Proof. reflexivity. Qed.
Lemma drawings_write_strokes info curves d :
  drawings (run (write_strokes info curves) d) = <[drawing info := curves]> d.
Proof. reflexivity. Qed.

Lemma events_insert_frame layer frame d :
  events (run (insert_frame layer frame) d) = [InsertFrame None layer frame].
Proof. reflexivity. Qed.

Lemma foreach_cons {A S} (x : A) l (body : A → S → OpM S) s :
  foreach (x :: l) body s = body x s ≫= foreach l body.
Proof. reflexivity. Qed.

Lemma modified_app l1 l2 : modified (l1 ++ l2) = modified l1 || modified l2.
Proof. apply existsb_app. Qed.
Lemma notified_app l1 l2 : notified (l1 ++ l2) = notified l1 || notified l2.
Proof. apply existsb_app. Qed.
Lemma tagged_app l1 l2 : tagged (l1 ++ l2) = tagged l1 || tagged l2.
Proof. apply existsb_app. Qed.

(** A property of logs that holds of the empty log and of the concatenation
    of two logs that have it holds of a loop whose bodies have it. *)
Lemma foreach_events_closed {A S} (Q : list Event → Prop) (body : A → S → OpM S) :
  Q [] → (∀ l1 l2, Q l1 → Q l2 → Q (l1 ++ l2)) →
  (∀ x s d, Q (events (run (body x s) d))) →
  ∀ l s d, Q (events (run (foreach l body s) d)).
Proof.
  intros Hnil Happ Hbody l. induction l as [|x l IH]; intros s d.
  - exact Hnil.
  - rewrite foreach_cons, events_bind. apply Happ; [apply Hbody | apply IH].
Qed.

Lemma foreach_tracks_changes {A} (body : A → bool → OpM bool) :
  tracks_changes body →
  ∀ l changed d,
    result (run (foreach l body changed) d)
    = changed || modified (events (run (foreach l body changed) d))
    ∧ notified (events (run (foreach l body changed) d)) = false.
Proof.
  intros Hbody l. induction l as [|x l IH]; intros changed d.
  - cbn. by rewrite orb_false_r.
  - rewrite foreach_cons, result_bind, events_bind, modified_app, notified_app.
    destruct (Hbody x changed d) as [Hr Hn].
    destruct (IH (result (run (body x changed) d)) (drawings (run (body x changed) d)))
      as [Hr' Hn'].
    rewrite Hr', Hn, Hn', Hr, orb_assoc. done.
Qed.

Lemma foreach_flags_changes {A} (body : A → bool → OpM bool) :
  flags_changes body →
  ∀ l changed d,
    changed || modified (events (run (foreach l body changed) d)) = true →
    result (run (foreach l body changed) d) = true.
Proof.
  intros Hbody l. induction l as [|x l IH]; intros changed d.
  - cbn. by rewrite orb_false_r.
  - rewrite foreach_cons, result_bind, events_bind, modified_app, orb_assoc.
    intros [H|H]%orb_true_iff; apply IH.
    + by rewrite (Hbody _ _ _ H).
    + rewrite H. apply orb_true_r.
Qed.

Lemma tracks_flags_changes {A} (body : A → bool → OpM bool) :
  tracks_changes body → flags_changes body.
Proof. intros H x changed d. by destruct (H x changed d) as [-> _]. Qed.

End runs.

(** Symbolic execution of a run: the result and the events of a composed
    operator are those of its parts; a conditional is decided by cases. *)
Ltac run_rewrite :=
  match goal with
  | |- context [operators.result (operators.run (?m ≫= ?f) ?d)] =>
      rewrite (result_bind m f d)
  | |- context [operators.events (operators.run (?m ≫= ?f) ?d)] =>
      rewrite (events_bind m f d)
  | |- context [operators.drawings (operators.run (?m ≫= ?f) ?d)] =>
      rewrite (drawings_bind m f d)
  | |- context [operators.result (operators.run (mret ?x) ?d)] =>
      rewrite (result_ret x d)
  | |- context [operators.events (operators.run (mret ?x) ?d)] =>
      rewrite (events_ret x d)
  | |- context [operators.drawings (operators.run (mret ?x) ?d)] =>
      rewrite (drawings_ret x d)
  | |- context [operators.events (operators.run (operators.emit ?e) ?d)] =>
      rewrite (events_emit e d)
  | |- context [operators.drawings (operators.run (operators.emit ?e) ?d)] =>
      rewrite (drawings_emit e d)
  | |- context [operators.result (operators.run (operators.strokes ?i) ?d)] =>
      rewrite (result_strokes i d)
  | |- context [operators.events (operators.run (operators.strokes ?i) ?d)] =>
      rewrite (events_strokes i d)
  | |- context [operators.drawings (operators.run (operators.strokes ?i) ?d)] =>
      rewrite (drawings_strokes i d)
  | |- context [operators.events (operators.run (operators.write_strokes ?i ?c) ?d)] =>
      rewrite (events_write_strokes i c d)
  | |- context [operators.drawings (operators.run (operators.write_strokes ?i ?c) ?d)] =>
      rewrite (drawings_write_strokes i c d)
  | |- context [operators.events (operators.run (operators.insert_frame ?l ?f) ?d)] =>
      rewrite (events_insert_frame l f d)
  | _ => progress cbv beta iota zeta
  end.

Ltac run_step :=
  first
  [ run_rewrite
  | progress unfold operators.when, operators.tag_and_notify, operators.tag_topology_changed,
      operators.snap_tags, operators.write_dst_drawing,
      operators.duplicate_grease_pencil_object, operators.get_points_to_dissolve
  | match goal with
    | |- context [operators.run (match ?x with _ => _ end) _] =>
        lazymatch x with
        | context [operators.run (match _ with _ => _ end) _] => fail
        | _ => destruct x eqn:?
        end
    end ].

Ltac run_all := repeat run_step.

Ltac log_done :=
  unfold operators.announces;
  rewrite ?modified_app, ?notified_app, ?tagged_app;
  cbn [operators.modified operators.notified operators.tagged existsb
       operators.is_drawing_write operators.is_notifier operators.is_geometry_tag app];
  rewrite ?orb_true_r, ?orb_false_r;
  try done.

(** ** Operators that loop over the drawings with the flag [changed] *)

Section changed_loops.
Import operators.
Context {library : Library}.
Variable C : bContext.

Lemma smooth_drawing_tracks op : tracks_changes (smooth_drawing C op).
Proof.
  intros info changed d. unfold smooth_drawing. run_all; log_done.
Qed.

Lemma simplify_drawing_tracks epsilon : tracks_changes (simplify_drawing C epsilon).
Proof.
  intros info changed d. unfold simplify_drawing. run_all; log_done.
Qed.

Lemma delete_drawing_tracks domain :
  domain = bke.Point ∨ domain = bke.Curve → tracks_changes (delete_drawing C domain).
Proof.
  intros [-> | ->] info changed d; unfold delete_drawing; run_all; log_done.
Qed.

Lemma delete_drawing_flags domain : flags_changes (delete_drawing C domain).
Proof.
  intros info changed d. unfold delete_drawing. run_all; log_done.
Qed.

Lemma dissolve_drawing_tracks mode : tracks_changes (dissolve_drawing C mode).
Proof.
  intros info changed d. unfold dissolve_drawing. run_all; log_done.
Qed.

Lemma cyclical_set_drawing_tracks mode : tracks_changes (cyclical_set_drawing C mode).
Proof.
  intros info changed d. unfold cyclical_set_drawing. run_all; log_done.
Qed.

Lemma set_uniform_drawing_tracks name default_value value :
  tracks_changes (set_uniform_drawing C name default_value value).
Proof.
  intros info changed d. unfold set_uniform_drawing. run_all; log_done.
Qed.

Lemma switch_direction_drawing_tracks : tracks_changes (switch_direction_drawing C).
Proof.
  intros info changed d. unfold switch_direction_drawing. run_all; log_done.
Qed.

Lemma caps_set_drawing_tracks mode : tracks_changes (caps_set_drawing C mode).
Proof.
  intros info changed d. unfold caps_set_drawing. run_all; log_done.
Qed.

Lemma duplicate_drawing_flags domain : flags_changes (duplicate_drawing C domain).
Proof.
  intros info changed d. unfold duplicate_drawing. run_all; log_done.
Qed.

Lemma subdivide_drawing_tracks cuts only_selected domain :
  tracks_changes (subdivide_drawing C cuts only_selected domain).
Proof.
  intros info changed d. unfold subdivide_drawing. run_all; log_done.
Qed.

Lemma reorder_drawing_tracks direction : tracks_changes (reorder_drawing C direction).
Proof.
  intros info changed d. unfold reorder_drawing. run_all; log_done.
Qed.

Lemma merge_by_distance_drawing_tracks threshold use_unselected :
  tracks_changes (merge_by_distance_drawing C threshold use_unselected).
Proof.
  intros info changed d. unfold merge_by_distance_drawing. run_all; log_done.
Qed.

Lemma extrude_drawing_tracks : tracks_changes (extrude_drawing C).
Proof.
  intros info changed d. unfold extrude_drawing. run_all; log_done.
Qed.

Lemma set_curve_type_drawing_tracks dst_type use_handles :
  tracks_changes (set_curve_type_drawing C dst_type use_handles).
Proof.
  intros info changed d. unfold set_curve_type_drawing. run_all; log_done.
Qed.

(** The end of most operators: the loop over the drawings, then the tag and
    the notifier when the loop changed something. *)
Lemma changed_then_notify (loop : OpM bool) (notify : OpM unit) d :
  (result (run loop d) = modified (events (run loop d))
   ∧ notified (events (run loop d)) = false) →
  (∀ d', modified (events (run notify d')) = false
         ∧ notified (events (run notify d')) = true
         ∧ tagged (events (run notify d')) = true) →
  let r := run (changed ← loop; when changed notify;; mret OPERATOR_FINISHED) d in
  notifies_exactly (events r) ∧ announces (events r).
Proof.
  intros [Hr Hn] Hnotify r. subst r. unfold notifies_exactly, announces.
  rewrite !events_bind, !modified_app, !notified_app, !tagged_app, Hn, Hr.
  destruct (modified (events (run loop d))); cbn [when].
  - destruct (Hnotify (drawings (run loop d))) as (-> & -> & ->).
    cbn. by rewrite !orb_true_r.
  - cbn. done.
Qed.

Lemma tag_and_notify_events d :
  modified (events (run tag_and_notify d)) = false
  ∧ notified (events (run tag_and_notify d)) = true
  ∧ tagged (events (run tag_and_notify d)) = true.
Proof. done. Qed.

Lemma foreach_tracks_from_false {A} (body : A → bool → OpM bool) l d :
  tracks_changes body →
  result (run (foreach l body false) d) = modified (events (run (foreach l body false) d))
  ∧ notified (events (run (foreach l body false) d)) = false.
Proof. intros H. apply (foreach_tracks_changes body H l false d). Qed.

Lemma grease_pencil_stroke_simplify_exec_notifies epsilon d :
  notifies_exactly (events (run (grease_pencil_stroke_simplify_exec C epsilon) d))
  ∧ announces (events (run (grease_pencil_stroke_simplify_exec C epsilon) d)).
Proof.
  apply changed_then_notify; [|done].
  apply foreach_tracks_from_false, simplify_drawing_tracks.
Qed.

Lemma grease_pencil_delete_exec_notifies d :
  selection_domain (scene C) = bke.Point ∨ selection_domain (scene C) = bke.Curve →
  notifies_exactly (events (run (grease_pencil_delete_exec C) d)).
Proof.
  intros Hdomain.
  apply changed_then_notify; [by apply foreach_tracks_from_false, delete_drawing_tracks | done].
Qed.

Lemma grease_pencil_dissolve_exec_notifies mode d :
  notifies_exactly (events (run (grease_pencil_dissolve_exec C mode) d))
  ∧ announces (events (run (grease_pencil_dissolve_exec C mode) d)).
Proof.
  apply changed_then_notify; [|done].
  apply foreach_tracks_from_false, dissolve_drawing_tracks.
Qed.

Lemma grease_pencil_cyclical_set_exec_notifies mode d :
  notifies_exactly (events (run (grease_pencil_cyclical_set_exec C mode) d))
  ∧ announces (events (run (grease_pencil_cyclical_set_exec C mode) d)).
Proof.
  apply changed_then_notify; [|done].
  apply foreach_tracks_from_false, cyclical_set_drawing_tracks.
Qed.

Lemma grease_pencil_set_uniform_thickness_exec_notifies thickness d :
  notifies_exactly (events (run (grease_pencil_set_uniform_thickness_exec C thickness) d))
  ∧ announces (events (run (grease_pencil_set_uniform_thickness_exec C thickness) d)).
Proof.
  apply changed_then_notify; [|done].
  apply foreach_tracks_from_false, set_uniform_drawing_tracks.
Qed.

Lemma grease_pencil_set_uniform_opacity_exec_notifies opacity d :
  notifies_exactly (events (run (grease_pencil_set_uniform_opacity_exec C opacity) d))
  ∧ announces (events (run (grease_pencil_set_uniform_opacity_exec C opacity) d)).
Proof.
  apply changed_then_notify; [|done].
  apply foreach_tracks_from_false, set_uniform_drawing_tracks.
Qed.

Lemma grease_pencil_stroke_switch_direction_exec_notifies d :
  notifies_exactly (events (run (grease_pencil_stroke_switch_direction_exec C) d))
  ∧ announces (events (run (grease_pencil_stroke_switch_direction_exec C) d)).
Proof.
  apply changed_then_notify; [|done].
  apply foreach_tracks_from_false, switch_direction_drawing_tracks.
Qed.

Lemma grease_pencil_caps_set_exec_notifies mode d :
  notifies_exactly (events (run (grease_pencil_caps_set_exec C mode) d))
  ∧ announces (events (run (grease_pencil_caps_set_exec C mode) d)).
Proof.
  apply changed_then_notify; [|done].
  apply foreach_tracks_from_false, caps_set_drawing_tracks.
Qed.

Lemma gpencil_stroke_subdivide_exec_notifies cuts only_selected d :
  notifies_exactly (events (run (gpencil_stroke_subdivide_exec C cuts only_selected) d))
  ∧ announces (events (run (gpencil_stroke_subdivide_exec C cuts only_selected) d)).
Proof.
  apply changed_then_notify; [|done].
  apply foreach_tracks_from_false, subdivide_drawing_tracks.
Qed.

Lemma grease_pencil_stroke_reorder_exec_notifies direction d :
  notifies_exactly (events (run (grease_pencil_stroke_reorder_exec C direction) d))
  ∧ announces (events (run (grease_pencil_stroke_reorder_exec C direction) d)).
Proof.
  apply changed_then_notify; [|done].
  apply foreach_tracks_from_false, reorder_drawing_tracks.
Qed.

Lemma grease_pencil_stroke_merge_by_distance_exec_notifies threshold use_unselected d :
  notifies_exactly
    (events (run (grease_pencil_stroke_merge_by_distance_exec C threshold use_unselected) d))
  ∧ announces
      (events (run (grease_pencil_stroke_merge_by_distance_exec C threshold use_unselected) d)).
Proof.
  apply changed_then_notify; [|done].
  apply foreach_tracks_from_false, merge_by_distance_drawing_tracks.
Qed.

Lemma grease_pencil_extrude_exec_notifies d :
  notifies_exactly (events (run (grease_pencil_extrude_exec C) d))
  ∧ announces (events (run (grease_pencil_extrude_exec C) d)).
Proof.
  apply changed_then_notify; [|done].
  apply foreach_tracks_from_false, extrude_drawing_tracks.
Qed.

Lemma grease_pencil_set_curve_type_exec_notifies dst_type use_handles d :
  notifies_exactly (events (run (grease_pencil_set_curve_type_exec C dst_type use_handles) d))
  ∧ announces (events (run (grease_pencil_set_curve_type_exec C dst_type use_handles) d)).
Proof.
  apply changed_then_notify; [|done].
  apply foreach_tracks_from_false, set_curve_type_drawing_tracks.
Qed.

Lemma grease_pencil_stroke_smooth_exec_notifies op d :
  notifies_exactly (events (run (grease_pencil_stroke_smooth_exec C op) d))
  ∧ announces (events (run (grease_pencil_stroke_smooth_exec C op) d)).
Proof.
  unfold grease_pencil_stroke_smooth_exec.
  destruct (negb _); [done|].
  apply changed_then_notify; [|done].
  apply foreach_tracks_from_false, smooth_drawing_tracks.
Qed.

End changed_loops.

(** ** The other operators *)

Section other_operators.
Import operators.
Context {library : Library}.
Variable C : bContext.

Lemma unmodified_announces log : modified log = false → announces log.
Proof. unfold announces. by intros ->. Qed.

Lemma announces_app l1 l2 : announces l1 → announces l2 → announces (l1 ++ l2).
Proof.
  unfold announces. rewrite modified_app, notified_app, tagged_app.
  intros H1 H2 [H|H]%orb_true_iff.
  - destruct (H1 H) as [-> ->]. done.
  - destruct (H2 H) as [-> ->]. by rewrite !orb_true_r.
Qed.

Lemma foreach_unmodified {A S} (body : A → S → OpM S) :
  (∀ x s d, modified (events (run (body x s) d)) = false) →
  ∀ l s d, modified (events (run (foreach l body s) d)) = false.
Proof.
  intros H. apply (foreach_events_closed (λ log, modified log = false)); [done| |done].
  intros l1 l2 H1 H2. by rewrite modified_app, H1, H2.
Qed.

Lemma foreach_announces {A S} (body : A → S → OpM S) :
  (∀ x s d, announces (events (run (body x s) d))) →
  ∀ l s d, announces (events (run (foreach l body s) d)).
Proof.
  intros H. apply (foreach_events_closed announces); [done|apply announces_app|done].
Qed.

Lemma grease_pencil_stroke_material_set_exec_announces name d :
  announces (events (run (grease_pencil_stroke_material_set_exec C name) d)).
Proof.
  unfold grease_pencil_stroke_material_set_exec. run_all; log_done.
Qed.

Lemma grease_pencil_clean_loose_exec_announces limit d :
  announces (events (run (grease_pencil_clean_loose_exec C limit) d)).
Proof.
  unfold grease_pencil_clean_loose_exec. run_all; log_done.
Qed.

Lemma grease_pencil_paste_strokes_exec_announces paste_on_back d :
  announces (events (run (grease_pencil_paste_strokes_exec C paste_on_back) d)).
Proof.
  unfold grease_pencil_paste_strokes_exec. run_all; log_done.
Qed.

(** Operators that modify no drawing. *)
Lemma grease_pencil_delete_frame_exec_unmodified mode d :
  modified (events (run (grease_pencil_delete_frame_exec C mode) d)) = false.
Proof.
  assert (∀ current_frame layer changed d',
            modified (events (run (delete_frame_of_layer current_frame layer changed) d'))
            = false) as Hbody.
  { intros. unfold delete_frame_of_layer. run_all; log_done. }
  unfold grease_pencil_delete_frame_exec. run_all; log_done;
    rewrite ?foreach_unmodified by apply Hbody; rewrite ?Hbody; done.
Qed.

Lemma grease_pencil_set_active_material_exec_unmodified d :
  modified (events (run (grease_pencil_set_active_material_exec C) d)) = false.
Proof.
  unfold grease_pencil_set_active_material_exec. run_all; log_done.
  rewrite foreach_unmodified; [done|].
  intros. unfold set_active_material_drawing. run_all; log_done.
Qed.

Lemma grease_pencil_set_material_exec_unmodified slot d :
  modified (events (run (grease_pencil_set_material_exec C slot) d)) = false.
Proof.
  unfold grease_pencil_set_material_exec. run_all; log_done.
Qed.

Lemma grease_pencil_copy_strokes_exec_unmodified d :
  modified (events (run (grease_pencil_copy_strokes_exec C) d)) = false.
Proof.
  assert (∀ l s d', modified (events (run (foreach l
            (copy_drawing (selection_domain (scene C))) s) d')) = false) as Hloop.
  { apply foreach_unmodified. intros x [copied n] d'.
    unfold copy_drawing. run_all; log_done. }
  unfold grease_pencil_copy_strokes_exec. run_all; log_done; by rewrite Hloop.
Qed.

Lemma grease_pencil_snap_cursor_to_sel_exec_unmodified d :
  modified (events (run (grease_pencil_snap_cursor_to_sel_exec C) d)) = false.
Proof.
  assert (∀ d', modified (events (run (grease_pencil_snap_compute_centroid C) d')) = false)
    as Hcentroid.
  { intros. unfold grease_pencil_snap_compute_centroid. run_all; log_done.
    rewrite foreach_unmodified; [done|]. intros. run_all; log_done. }
  unfold grease_pencil_snap_cursor_to_sel_exec. run_all; log_done; by rewrite Hcentroid.
Qed.

(** The snapping operators tag and notify for every drawing they modify. *)
Lemma grease_pencil_snap_to_grid_exec_announces d :
  announces (events (run (grease_pencil_snap_to_grid_exec C) d)).
Proof.
  unfold grease_pencil_snap_to_grid_exec. rewrite events_bind, events_ret, app_nil_r.
  apply foreach_announces. intros. unfold snap_to_grid_drawing. run_all; log_done.
Qed.

Lemma grease_pencil_snap_to_cursor_exec_announces use_offset d :
  announces (events (run (grease_pencil_snap_to_cursor_exec C use_offset) d)).
Proof.
  unfold grease_pencil_snap_to_cursor_exec. rewrite events_bind, events_ret, app_nil_r.
  apply foreach_announces. intros. unfold snap_to_cursor_drawing. run_all; log_done.
Qed.

(** Operators whose flag [changed] is set by every modification. *)
Lemma flagged_then_notify (loop : OpM bool) (notify : OpM unit) d :
  (modified (events (run loop d)) = true → result (run loop d) = true) →
  (∀ d', notified (events (run notify d')) = true
         ∧ tagged (events (run notify d')) = true) →
  announces (events (run (changed ← loop; when changed notify;; mret OPERATOR_FINISHED) d)).
Proof.
  intros Hloop Hnotify. unfold announces.
  rewrite !events_bind, !modified_app, !notified_app, !tagged_app.
  destruct (modified (events (run loop d))) eqn:Hm.
  - rewrite Hloop by done. cbn [when].
    destruct (Hnotify (drawings (run loop d))) as (-> & ->). by rewrite !orb_true_r.
  - destruct (result (run loop d)); cbn [when].
    + destruct (Hnotify (drawings (run loop d))) as (-> & ->). by rewrite !orb_true_r.
    + cbn. done.
Qed.

Lemma grease_pencil_delete_exec_announces d :
  announces (events (run (grease_pencil_delete_exec C) d)).
Proof.
  apply flagged_then_notify; [|done].
  intros H. apply (foreach_flags_changes _ (delete_drawing_flags C _)). exact H.
Qed.

Lemma grease_pencil_duplicate_exec_announces d :
  announces (events (run (grease_pencil_duplicate_exec C) d)).
Proof.
  apply flagged_then_notify; [|done].
  intros H. apply (foreach_flags_changes _ (duplicate_drawing_flags C _)). exact H.
Qed.

Lemma move_to_layer_drawing_flags layer_dst : flags_changes (move_to_layer_drawing layer_dst).
Proof.
  intros info changed d. unfold move_to_layer_drawing. run_all; log_done.
Qed.

Lemma grease_pencil_move_to_layer_exec_announces target_layer_name add_new_layer d :
  announces (events (run (grease_pencil_move_to_layer_exec C target_layer_name
                            add_new_layer) d)).
Proof.
  unfold grease_pencil_move_to_layer_exec.
  rewrite events_bind. apply announces_app.
  { apply unmodified_announces. run_all; log_done. }
  destruct (find_layer_by_name _ _); [|run_all; log_done].
  destruct (layer_is_locked _); [run_all; log_done|].
  apply flagged_then_notify; [|done].
  intros H. apply (foreach_flags_changes _ (move_to_layer_drawing_flags _)).
  by rewrite H.
Qed.

End other_operators.

(** ** The separate operator *)

Section separate.
Import operators.
Context {library : Library}.
Variable C : bContext.

Lemma separate_selected_drawing_flags object_dst :
  flags_changes (separate_selected_drawing object_dst).
Proof. intros info changed d. unfold separate_selected_drawing. run_all; log_done. Qed.

Lemma separate_layer_drawing_flags object_dst :
  flags_changes (separate_layer_drawing C object_dst).
Proof. intros info changed d. unfold separate_layer_drawing. run_all; log_done. Qed.

Lemma separate_material_drawing_flags object_dst mat_i :
  flags_changes (separate_material_drawing C object_dst mat_i).
Proof. intros info changed d. unfold separate_material_drawing. run_all; log_done. Qed.

Lemma separate_layer_flags : flags_changes (separate_layer C).
Proof.
  intros layer_i changed d. unfold separate_layer.
  destruct (layer_is_selected _ || layer_is_locked _); [run_all; log_done|].
  rewrite !result_bind, !events_bind, !modified_app. cbv beta. rewrite !result_ret.
  cbn [modified existsb events run emit duplicate_grease_pencil_object is_drawing_write
         mbind OpM_bind mret OpM_ret app orb].
  rewrite !orb_false_r. apply foreach_flags_changes, separate_layer_drawing_flags.
Qed.

Lemma separate_material_flags : flags_changes (separate_material C).
Proof.
  intros mat_i changed d. unfold separate_material.
  destruct (negb _); [run_all; log_done|].
  rewrite !result_bind, !events_bind, !modified_app. cbv beta. rewrite !result_ret.
  cbn [modified existsb events run emit duplicate_grease_pencil_object is_drawing_write
         mbind OpM_bind mret OpM_ret app orb].
  rewrite !orb_false_r. apply foreach_flags_changes, separate_material_drawing_flags.
Qed.

Lemma grease_pencil_separate_selected_flags d :
  modified (events (run (grease_pencil_separate_selected C) d)) = true →
  result (run (grease_pencil_separate_selected C) d) = true.
Proof.
  unfold grease_pencil_separate_selected.
  rewrite !result_bind, !events_bind, !modified_app. cbv beta. rewrite !result_ret.
  set (loop := run (foreach _ _ _) _).
  destruct (result loop) eqn:Hr; [done|].
  cbn. rewrite !orb_false_r. intros H. rewrite <- Hr.
  apply (foreach_flags_changes _ (separate_selected_drawing_flags _)). exact H.
Qed.

Lemma grease_pencil_separate_layer_flags d :
  modified (events (run (grease_pencil_separate_layer C) d)) = true →
  result (run (grease_pencil_separate_layer C) d) = true.
Proof.
  intros H. apply (foreach_flags_changes _ separate_layer_flags). exact H.
Qed.

Lemma grease_pencil_separate_material_flags d :
  modified (events (run (grease_pencil_separate_material C) d)) = true →
  result (run (grease_pencil_separate_material C) d) = true.
Proof.
  unfold grease_pencil_separate_material.
  rewrite !result_bind, !events_bind, !modified_app. cbv beta. rewrite !result_ret.
  set (loop := run (foreach _ _ _) _).
  destruct (result loop) eqn:Hr; [done|].
  cbn. rewrite !orb_false_r. intros H. rewrite <- Hr.
  apply (foreach_flags_changes _ separate_material_flags). exact H.
Qed.

Lemma any_drawing_selected_unmodified d :
  modified (events (run (any_drawing_selected C) d)) = false.
Proof.
  apply foreach_unmodified. intros. run_all; log_done.
Qed.

Lemma grease_pencil_separate_exec_announces mode d :
  announces (events (run (grease_pencil_separate_exec C mode) d)).
Proof.
  unfold grease_pencil_separate_exec. rewrite events_bind.
  apply announces_app; [done|]. cbv beta.
  destruct mode; repeat run_rewrite.
  - destruct (result (run (any_drawing_selected C) _)); cbn [negb]; repeat run_rewrite;
      [|log_done; by rewrite any_drawing_selected_unmodified].
    destruct (result (run (grease_pencil_separate_selected C) _)) eqn:Hr;
      cbn [when]; run_all; log_done.
    rewrite any_drawing_selected_unmodified. cbn [orb].
    intros H. apply grease_pencil_separate_selected_flags in H. congruence.
  - destruct (decide _); repeat run_rewrite; [log_done|].
    destruct (result (run (grease_pencil_separate_material C) _)) eqn:Hr;
      cbn [when]; run_all; log_done.
    intros H. apply grease_pencil_separate_material_flags in H. congruence.
  - destruct (decide _); repeat run_rewrite; [log_done|].
    destruct (result (run (grease_pencil_separate_layer C) _)) eqn:Hr;
      cbn [when]; run_all; log_done.
    intros H. apply grease_pencil_separate_layer_flags in H. congruence.
Qed.

End separate.

(* ===================================================================== *)
(** * The frame of the smooth operator                                   *)
(* ===================================================================== *)

Section smooth.
Import BLI bke operators.
Context {library : Library}.
Variable C : bContext.

(** The contract of the library's [smooth_curve_attribute]: it writes only to
    the points of [curves_to_smooth]. *)
Hypothesis smooth_only_strokes :
  ∀ strokes points_by_curve selection cyclic iterations influence ends keep span p,
    0 ≤ p → p ∉ points_of_curves points_by_curve strokes →
    smooth_curve_attribute strokes points_by_curve selection cyclic iterations influence
      ends keep span !! Z.to_nat p
    = span !! Z.to_nat p.

Lemma smooth_frame_refl strokes g : smooth_frame strokes g g.
Proof. constructor; try done. intros. congruence. Qed.

Lemma smooth_attribute_frame op name keep strokes selection cyclic g0 g :
  name ∈ smoothed_names →
  (point_data g !! name = None → curve_data g !! name = None) →
  smooth_frame strokes g0 g →
  smooth_frame strokes g0
    (smooth_attribute op name keep strokes (points_by_curve g0) selection cyclic g).
Proof.
  intros Hname Hpoint Hframe. unfold smooth_attribute, lookup_for_write_span.
  destruct (point_data g !! name) as [span|] eqn:Hspan.
  - destruct Hframe as [Hpn Hcn Hco Hcd Hvg Hsame Hother Hpoints].
    unfold store_span. cbn [domain_data set_domain_data].
    constructor; cbn; try done.
    + intros name'. destruct (decide (name' = name)) as [->|Hne].
      * rewrite lookup_insert_eq. rewrite <- Hsame, Hspan. by split.
      * rewrite lookup_insert_ne by done. apply Hsame.
    + intros name' Hnot. rewrite lookup_insert_ne by congruence.
      by apply Hother.
    + intros name' values values' p Hv Hv' Hp Hout.
      destruct (decide (name' = name)) as [->|Hne].
      * rewrite lookup_insert_eq in Hv'. injection Hv' as <-.
        rewrite smooth_only_strokes by done.
        by apply (Hpoints name).
      * rewrite lookup_insert_ne in Hv' by done.
        by apply (Hpoints name').
  - rewrite (Hpoint eq_refl). done.
Qed.

Lemma insert_default_id (d : list CurvesGeometry) (i : nat) :
  <[i := default CurvesGeometry_default (d !! i)]> d = d.
Proof.
  destruct (d !! i) as [g|] eqn:H; cbn.
  - by apply list_insert_id.
  - apply lookup_ge_None in H. revert i H.
    induction d; intros [|i] ?; cbn in *; try done; try lia.
    f_equal. apply IHd. lia.
Qed.

Lemma smooth_drawing_drawings op info changed d g :
  g = default CurvesGeometry_default (d !! drawing info) →
  curve_data g !! "position" = None →
  ∃ g', <[drawing info := g']> d = drawings (run (smooth_drawing C op info changed) d)
        ∧ smooth_frame
            (retrieve_editable_and_selected_strokes (active_object C) g (layer_index info))
            g g'
        ∧ (retrieve_editable_and_selected_strokes (active_object C) g (layer_index info) = []
           → g' = g)
        ∧ (points_num g = 0 → g' = g).
Proof.
  intros Hg Hposition. unfold smooth_drawing.
  rewrite drawings_bind, result_strokes, drawings_strokes, <- Hg. cbv beta.
  destruct (decide (points_num g = 0)) as [Hzero|Hnonzero].
  { exists g. rewrite drawings_ret, Hg. split; [apply insert_default_id|].
    rewrite <- Hg. split; [apply smooth_frame_refl|done]. }
  destruct (IndexMask_is_empty _) eqn:Hempty.
  { exists g. rewrite drawings_ret, Hg. split; [apply insert_default_id|].
    rewrite <- Hg. split; [apply smooth_frame_refl|done]. }
  run_all.
  all: eexists; split;
    [ rewrite ?list_insert_insert_eq;
      first [reflexivity | rewrite Hg; apply insert_default_id] |].
  all: rewrite <- ?Hg.
  all: split; [|split; [intros Hs; rewrite Hs in Hempty; done|done]].
  all: repeat (apply smooth_attribute_frame;
               [ repeat first [apply list_elem_of_here | apply list_elem_of_further]
               | intros Hnone; try done; exfalso;
                 match goal with
                 | H : _ && attribute_is_span _ _ = true |- _ =>
                     apply andb_true_iff in H as [_ H]; unfold attribute_is_span in H;
                     apply bool_decide_eq_true in H; rewrite Hnone in H; by destruct H
                 end
               | ]);
       try apply smooth_frame_refl.
Qed.

Lemma default_position_absent (d : list CurvesGeometry) (i : nat) :
  (∀ g, d !! i = Some g → curve_data g !! "position" = None) →
  curve_data (default CurvesGeometry_default (d !! i)) !! "position" = None.
Proof. destruct (d !! i); cbn; [auto|done]. Qed.

Lemma smooth_loop_drawings op l changed d :
  NoDup (drawing <$> l) →
  (∀ info g, info ∈ l → d !! drawing info = Some g →
             curve_data g !! "position" = None) →
  let d' := drawings (run (foreach l (smooth_drawing C op) changed) d) in
  length d' = length d
  ∧ (∀ i, i ∉ drawing <$> l → d' !! i = d !! i)
  ∧ (∀ info g, info ∈ l → d !! drawing info = Some g →
       ∃ g', d' !! drawing info = Some g'
             ∧ smooth_frame
                 (retrieve_editable_and_selected_strokes (active_object C) g
                    (layer_index info)) g g'
             ∧ (retrieve_editable_and_selected_strokes (active_object C) g
                  (layer_index info) = [] → g' = g)
             ∧ (points_num g = 0 → g' = g)).
Proof.
  revert changed d. induction l as [|info l IH]; intros changed d Hnodup Hposition; cbn zeta.
  - cbn. split; [done|]. split; [done|]. intros ?? []%elem_of_nil.
  - rewrite foreach_cons, drawings_bind.
    rewrite fmap_cons in Hnodup. apply NoDup_cons in Hnodup as [Hnotin Hnodup].
    destruct (smooth_drawing_drawings op info changed d _ eq_refl) as (g1 & Hd1 & Hframe1).
    { apply default_position_absent. intros g. apply Hposition. left. }
    set (d1 := drawings (run (smooth_drawing C op info changed) d)) in *.
    assert (∀ i, i ≠ drawing info → d1 !! i = d !! i) as Hother.
    { intros i Hi. rewrite <- Hd1. by apply list_lookup_insert_ne. }
    destruct (IH (result (run (smooth_drawing C op info changed) d)) d1 Hnodup)
      as (Hlen & Hout & Hin).
    { intros info' g Hin' Hg. rewrite Hother in Hg.
      - apply (Hposition info'); [by right|done].
      - intros Heq. apply Hnotin. rewrite <- Heq. by apply list_elem_of_fmap_2. }
    split; [|split].
    + rewrite Hlen, <- Hd1. apply length_insert.
    + intros i Hi. rewrite fmap_cons in Hi. apply not_elem_of_cons in Hi as [Hne Hi].
      rewrite Hout by done. by apply Hother.
    + intros info' g [->|Hin']%elem_of_cons Hg.
      * exists g1. rewrite Hout by done. rewrite Hg in Hframe1. cbn in Hframe1.
        split; [|done]. rewrite <- Hd1. apply list_lookup_insert_eq.
        by apply lookup_lt_Some in Hg.
      * apply Hin; [done|]. rewrite Hother; [done|].
        intros Heq. apply Hnotin. rewrite <- Heq. by apply list_elem_of_fmap_2.
Qed.

Lemma drawings_when_tag_and_notify changed d :
  drawings (run (when changed tag_and_notify) d) = d.
Proof. by destruct changed. Qed.

(** C5. The smooth-stroke operator always returns [OPERATOR_FINISHED].  It
    leaves every drawing that [retrieve_editable_drawings] does not return as
    it was; in a drawing that is returned, it changes nothing but the point
    attributes "position", "radius" and "opacity", and these only at the
    points of the strokes of the editable-and-selected stroke mask; a drawing
    whose mask is empty is left unchanged; and when none of [smooth_position],
    [smooth_radius], [smooth_opacity] is enabled, no drawing is changed and
    nothing else happens.  The library's [smooth_curve_attribute] is taken to
    write only to the curves it is given, the editable drawings to be distinct
    drawings, and "position" to be no curve attribute. *)
Theorem smooth_exec_frame (op : SmoothProperties) (d : list CurvesGeometry) :
  NoDup (drawing <$> retrieve_editable_drawings (scene C)) →
  (∀ info g, info ∈ retrieve_editable_drawings (scene C) →
             d !! drawing info = Some g → curve_data g !! "position" = None) →
  let r := run (grease_pencil_stroke_smooth_exec C op) d in
  result r = OPERATOR_FINISHED
  ∧ length (drawings r) = length d
  ∧ (∀ i, i ∉ drawing <$> retrieve_editable_drawings (scene C) → drawings r !! i = d !! i)
  ∧ (∀ info g,
       info ∈ retrieve_editable_drawings (scene C) → d !! drawing info = Some g →
       ∃ g', drawings r !! drawing info = Some g'
             ∧ smooth_frame
                 (retrieve_editable_and_selected_strokes (active_object C) g
                    (layer_index info)) g g'
             ∧ (retrieve_editable_and_selected_strokes (active_object C) g
                  (layer_index info) = [] → g' = g))
  ∧ (smooth_position op = false → smooth_radius op = false → smooth_opacity op = false →
     drawings r = d ∧ events r = []).
Proof.
  intros Hnodup Hposition r. subst r. unfold grease_pencil_stroke_smooth_exec.
  destruct (negb _) eqn:Hflags.
  - cbn. repeat split; try done.
    intros info g Hin Hg. exists g. split; [done|]. split; [apply smooth_frame_refl|done].
  - rewrite result_bind, drawings_bind. cbv beta.
    rewrite result_bind, drawings_bind, result_ret, drawings_ret,
      drawings_when_tag_and_notify.
    destruct (smooth_loop_drawings op (retrieve_editable_drawings (scene C)) false d
                Hnodup Hposition) as (Hlen & Hout & Hin).
    split; [done|]. split; [done|]. split; [done|]. split.
    + intros info g Hinfo Hg. destruct (Hin info g Hinfo Hg) as (g' & ? & ? & ? & ?).
      by exists g'.
    + intros Hp Hr Ho. rewrite Hp, Hr, Ho in Hflags. done.
Qed.

End smooth.

Section attribute_domains.
Import BLI bke operators.
Context {library : Library}.
Variable C : bContext.

Lemma masked_fill_length {A} (span : list A) value mask :
  length (masked_fill span value mask) = length span.
Proof.
  unfold masked_fill. revert span. induction mask as [|i mask IH]; intros span; [done|].
  cbn. rewrite IH. destruct (decide _); [apply length_insert|done].
Qed.

Lemma masked_fill_keeps {A} (span : list A) value mask (k : nat) :
  span !! k = Some value → masked_fill span value mask !! k = Some value.
Proof.
  unfold masked_fill. revert span. induction mask as [|i mask IH]; intros span Hk; [done|].
  cbn. apply IH. destruct (decide _); [|done].
  destruct (decide (k = Z.to_nat i)) as [->|Hne].
  - apply list_lookup_insert_eq. by apply lookup_lt_Some in Hk.
  - by rewrite list_lookup_insert_ne.
Qed.

Lemma masked_fill_lookup {A} (span : list A) value mask i :
  i ∈ mask → 0 ≤ i → (Z.to_nat i < length span)%nat →
  masked_fill span value mask !! Z.to_nat i = Some value.
Proof.
  revert span. induction mask as [|j mask IH]; intros span Hin Hi Hlen.
  { by apply elem_of_nil in Hin. }
  apply elem_of_cons in Hin as [->|Hin].
  - unfold masked_fill. cbn. rewrite decide_True by done.
    apply (masked_fill_keeps _ value mask). by apply list_lookup_insert_eq.
  - unfold masked_fill. cbn. apply IH; [done..|].
    destruct (decide _); [by rewrite length_insert|done].
Qed.


End attribute_domains.

(* ===================================================================== *)
(** * Registration of the operator types                                 *)
(* ===================================================================== *)

Lemma ED_operatortypes_grease_pencil_edit_appends
    (cutter : operators.wmOperatorType → operators.wmOperatorType)
    (registry : list operators.wmOperatorType) :
  operators.ED_operatortypes_grease_pencil_edit cutter registry
  = registry ++
    ((λ opfunc, opfunc operators.wmOperatorType_empty) <$>
    [ operators.GREASE_PENCIL_OT_stroke_smooth;
      operators.GREASE_PENCIL_OT_stroke_simplify;
      operators.GREASE_PENCIL_OT_delete;
      operators.GREASE_PENCIL_OT_dissolve;
      operators.GREASE_PENCIL_OT_delete_frame;
      operators.GREASE_PENCIL_OT_stroke_material_set;
      operators.GREASE_PENCIL_OT_cyclical_set;
      operators.GREASE_PENCIL_OT_set_active_material;
      operators.GREASE_PENCIL_OT_stroke_switch_direction;
      operators.GREASE_PENCIL_OT_set_uniform_thickness;
      operators.GREASE_PENCIL_OT_set_uniform_opacity;
      operators.GREASE_PENCIL_OT_caps_set;
      operators.GREASE_PENCIL_OT_duplicate;
      operators.GREASE_PENCIL_OT_set_material;
      operators.GREASE_PENCIL_OT_clean_loose;
      operators.GREASE_PENCIL_OT_separate;
      operators.GREASE_PENCIL_OT_stroke_subdivide;
      operators.GREASE_PENCIL_OT_stroke_reorder;
      operators.GREASE_PENCIL_OT_move_to_layer;
      operators.GREASE_PENCIL_OT_copy;
      operators.GREASE_PENCIL_OT_paste;
      operators.GREASE_PENCIL_OT_stroke_merge_by_distance;
      cutter;
      operators.GREASE_PENCIL_OT_extrude;
      operators.GREASE_PENCIL_OT_snap_to_grid;
      operators.GREASE_PENCIL_OT_snap_to_cursor;
      operators.GREASE_PENCIL_OT_snap_cursor_to_selected;
      operators.GREASE_PENCIL_OT_set_curve_type ]).
Proof.
  unfold operators.ED_operatortypes_grease_pencil_edit, operators.WM_operatortype_append.
  cbv zeta. rewrite <- !app_assoc. reflexivity.
Qed.

(** C7. [ED_operatortypes_grease_pencil_edit] registers an operator type for
    each of the stroke-editing operations: smooth, simplify, delete, dissolve,
    reorder, separate, snap (to grid, to cursor, cursor to selected), extrude
    and merge-by-distance; each registered type carries the identifier and the
    [exec] callback of its operation. *)
Theorem ED_operatortypes_registers_stroke_operators
    (cutter : operators.wmOperatorType → operators.wmOperatorType)
    (registry : list operators.wmOperatorType) :
  Forall
    (λ '(opfunc, id, callback),
       let ot := opfunc operators.wmOperatorType_empty in
       ot ∈ operators.ED_operatortypes_grease_pencil_edit cutter registry
       ∧ operators.idname ot = id
       ∧ operators.exec ot = Some callback)
    [ (operators.GREASE_PENCIL_OT_stroke_smooth,
       "GREASE_PENCIL_OT_stroke_smooth", operators.exec_stroke_smooth);
      (operators.GREASE_PENCIL_OT_stroke_simplify,
       "GREASE_PENCIL_OT_stroke_simplify", operators.exec_stroke_simplify);
      (operators.GREASE_PENCIL_OT_delete,
       "GREASE_PENCIL_OT_delete", operators.exec_delete);
      (operators.GREASE_PENCIL_OT_dissolve,
       "GREASE_PENCIL_OT_dissolve", operators.exec_dissolve);
      (operators.GREASE_PENCIL_OT_stroke_reorder,
       "GREASE_PENCIL_OT_reorder", operators.exec_stroke_reorder);
      (operators.GREASE_PENCIL_OT_separate,
       "GREASE_PENCIL_OT_separate", operators.exec_separate);
      (operators.GREASE_PENCIL_OT_snap_to_grid,
       "GREASE_PENCIL_OT_snap_to_grid", operators.exec_snap_to_grid);
      (operators.GREASE_PENCIL_OT_snap_to_cursor,
       "GREASE_PENCIL_OT_snap_to_cursor", operators.exec_snap_to_cursor);
      (operators.GREASE_PENCIL_OT_snap_cursor_to_selected,
       "GREASE_PENCIL_OT_snap_cursor_to_selected", operators.exec_snap_cursor_to_sel);
      (operators.GREASE_PENCIL_OT_extrude,
       "GREASE_PENCIL_OT_extrude", operators.exec_extrude);
      (operators.GREASE_PENCIL_OT_stroke_merge_by_distance,
       "GREASE_PENCIL_OT_stroke_merge_by_distance",
       operators.exec_stroke_merge_by_distance) ].
Proof.
  rewrite ED_operatortypes_grease_pencil_edit_appends.
  repeat apply Forall_cons_2; [..|apply Forall_nil_2];
    (split; [|split; reflexivity]);
    apply elem_of_app; right;
    apply (list_elem_of_fmap_2 (λ opfunc, opfunc operators.wmOperatorType_empty));
    repeat (first [apply list_elem_of_here | apply list_elem_of_further]).
Qed.

(* ===================================================================== *)
(** * The theorems on the small scene                                    *)
(* ===================================================================== *)

Lemma masked_fill_other {A} (span : list A) value mask p :
  0 ≤ p → p ∉ mask →
  operators.masked_fill span value mask !! Z.to_nat p = span !! Z.to_nat p.
Proof.
  unfold operators.masked_fill. intros Hp. revert span.
  induction mask as [|i mask IH]; intros span Hnotin; [done|].
  apply not_elem_of_cons in Hnotin as [Hne Hnotin]. cbn. rewrite IH by done.
  destruct (decide _); [|done]. apply list_lookup_insert_ne. lia.
Qed.

Lemma fill_points_other {A} points_by_curve curve_selection (value : A) dst p :
  0 ≤ p → p ∉ operators.points_of_curves points_by_curve curve_selection →
  operators.fill_points points_by_curve curve_selection value dst !! Z.to_nat p
  = dst !! Z.to_nat p.
Proof.
  unfold operators.fill_points, operators.points_of_curves. intros Hp. revert dst.
  induction curve_selection as [|curve_i curves IH]; intros dst Hnotin; [done|].
  cbn in Hnotin. apply not_elem_of_app in Hnotin as [Hhere Hrest].
  cbn. rewrite IH by done.
  destruct (BLI.OffsetIndices_get _ _); [by apply masked_fill_other|done].
Qed.

Lemma two_strokes_wf : bke.CurvesGeometry_wf examples.two_strokes.
Proof.
  constructor; cbn; try done; try lia.
  - repeat constructor; lia.
  - apply (bool_decide_unpack _). vm_compute. exact I.
  - apply (bool_decide_unpack _). vm_compute. exact I.
  - intros values H. vm_compute in H. injection H as <-. by eexists.
Qed.

Lemma get_reordered_indices_permutation_witness :
  BLI.IndexMask_wf [2; 4; 5]
  ∧ ∃ indices,
      greasepencil.get_reordered_indices (λ _, -7)
        {| BLI.start := 0; BLI.size := 10 |} [2; 4; 5] greasepencil.UP = Some indices
      ∧ length indices = 10%nat
      ∧ indices ≡ₚ Z.of_nat <$> seq 0 10.
Proof.
  assert (BLI.IndexMask_wf [2; 4; 5]) as Hwf.
  { split; repeat constructor; lia. }
  split; [exact Hwf|].
  apply (get_reordered_indices_permutation (λ _, -7) 10 [2; 4; 5] greasepencil.UP Hwf).
  repeat constructor; lia.
Defined.

Lemma extrude_new_curves_not_cyclic_witness :
  bke.CurvesGeometry_wf examples.two_strokes
  ∧ ∃ dst,
      greasepencil.extrude_grease_pencil_curves (λ _, -7) id examples.two_strokes [2]
      = Some dst
      ∧ bke.curves_num examples.two_strokes = 2
      ∧ bke.curves_num dst = 3
      ∧ (∀ i, 0 ≤ i < 2 →
              BLI.VArray_get (bke.cyclic dst) i
              = BLI.VArray_get (bke.cyclic examples.two_strokes) i)
      ∧ (∀ i, 2 ≤ i < bke.curves_num dst →
              BLI.VArray_get (bke.cyclic dst) i = Some false).
Proof.
  split; [exact two_strokes_wf|].
  destruct (extrude_new_curves_not_cyclic (λ _, -7) id examples.two_strokes [2])
    as (dst & Hdst & _ & Hold & Hnew).
  - done.
  - exact two_strokes_wf.
  - exists dst. split; [exact Hdst|]. split; [reflexivity|].
    split; [|split; [exact Hold|exact Hnew]].
    vm_compute in Hdst. injection Hdst as <-. reflexivity.
Defined.

Lemma smooth_exec_frame_witness :
  operators.result
    (operators.run
       (operators.grease_pencil_stroke_smooth_exec (library := examples.library)
          examples.point_context examples.smooth_all)
       [examples.two_strokes]) = operators.OPERATOR_FINISHED
  ∧ ∃ g',
      operators.drawings
        (operators.run
           (operators.grease_pencil_stroke_smooth_exec (library := examples.library)
              examples.point_context examples.smooth_all)
           [examples.two_strokes]) = [g']
      ∧ g' ≠ examples.two_strokes
      ∧ operators.smooth_frame [1] examples.two_strokes g'.
Proof.
  destruct (smooth_exec_frame (library := examples.library) examples.point_context
              (λ strokes points_by_curve _ _ _ _ _ _ span p,
                 fill_points_other points_by_curve strokes (bke.VFloat 0) span p)
              examples.smooth_all [examples.two_strokes])
    as (Hresult & Hlength & _ & Hframe & _).
  - cbn. repeat constructor. by intros []%elem_of_nil.
  - intros info g Hinfo Hg. apply list_elem_of_singleton in Hinfo as ->.
    cbn in Hg. injection Hg as <-. reflexivity.
  - split; [exact Hresult|].
    destruct (Hframe examples.first_drawing examples.two_strokes) as (g' & Hg' & Hsmooth & _).
    + apply list_elem_of_here.
    + reflexivity.
    + exists g'. split; [|split; [|exact Hsmooth]].
      * destruct (operators.drawings _) as [|g1 [|]]; cbn in Hlength, Hg'; try discriminate.
        by injection Hg' as ->.
      * vm_compute in Hg'. injection Hg' as <-. discriminate.
Defined.

Import bookkeeping frames.

(* ===================================================================== *)
(** * More on the reorder operator                                       *)
(* ===================================================================== *)

Section reorder_order.
Import BLI bke greasepencil.

(** The array after [std::swap(a[i], a[j])]. *)
Lemma std_swap_Some {A : Type} (a : list A) i j x y :
  0 ≤ i → 0 ≤ j → a !! Z.to_nat i = Some x → a !! Z.to_nat j = Some y →
  std_swap a i j = Some (<[Z.to_nat j := x]> (<[Z.to_nat i := y]> a)).
Proof.
  intros Hi Hj Hx Hy. unfold std_swap.
  assert (Array_get a i = Some x) as -> by (by apply Array_get_Some).
  assert (Array_get a j = Some y) as -> by (by apply Array_get_Some).
  cbn [mbind option_bind].
  apply lookup_lt_Some in Hx, Hy.
  unfold Array_set. rewrite decide_True by lia. cbn [mbind option_bind].
  rewrite decide_True by (rewrite length_insert; lia). done.
Qed.

Variable n : nat.

(** The loop of the [DOWN] branch, from the mask position [pos] on.  The cells
    from [u] on still hold their own index; the cells below [q] are not
    written any more. *)
Lemma reorder_down_loop (rest : list Z) : ∀ (pos q u : Z) (indices : list Z),
  0 ≤ pos → pos ≤ q → (u = q + 1 ∨ (u = q ∧ q = pos)) →
  StronglySorted Z.lt rest → Forall (λ i, u ≤ i < Z.of_nat n) rest →
  length indices = n →
  (∀ t, u ≤ t < Z.of_nat n → indices !! Z.to_nat t = Some t) →
  ∃ r,
    foreach_index_pos
      (λ curve_i pos indices,
         if decide (curve_i ≠ pos) then std_swap indices curve_i (curve_i - 1)
         else Some indices) rest pos indices = Some r
    ∧ length r = n
    ∧ (∀ t, 0 ≤ t < q → r !! Z.to_nat t = indices !! Z.to_nat t)
    ∧ (∀ t, 0 ≤ t → t ∉ rest → t + 1 ∉ rest → r !! Z.to_nat t = indices !! Z.to_nat t)
    ∧ (∀ (p : nat) s, rest !! p = Some s →
         (s = pos + Z.of_nat p → r !! Z.to_nat s = Some s)
         ∧ (s ≠ pos + Z.of_nat p → r !! Z.to_nat (s - 1) = Some s)).
Proof.
  induction rest as [|i rest IH]; intros pos q u indices Hpos Hq Hu Hs Hr Hl Hid.
  - exists indices. cbn. split; [done|]. split; [done|]. split; [done|]. split; [done|].
    intros p s Hp. done.
  - apply StronglySorted_inv in Hs as [Hs Hall].
    apply Forall_cons in Hr as [Hi Hr].
    assert (Hr' : Forall (λ j, i + 1 ≤ j < Z.of_nat n) rest).
    { rewrite Forall_forall in Hall, Hr |- *. intros j Hj.
      specialize (Hall j Hj). specialize (Hr j Hj). lia. }
    cbn [foreach_index_pos].
    destruct (decide (i ≠ pos)) as [Hne|Heq].
    + (* the stroke moves one place down *)
      assert (Hi1 : q ≤ i - 1) by lia.
      destruct (lookup_lt_is_Some_2 indices (Z.to_nat (i - 1))) as [y Hy]; [lia|].
      rewrite (std_swap_Some indices i (i - 1) i y); [|lia|lia|apply Hid; lia|done].
      cbn [mbind option_bind].
      destruct (IH (pos + 1) i (i + 1)
                  (<[Z.to_nat (i - 1) := i]> (<[Z.to_nat i := y]> indices)))
        as (r & Hrun & Hlen & Hkeep & Hout & Hfacts); try done; try lia.
      { by rewrite !length_insert. }
      { intros t Ht. rewrite !list_lookup_insert_ne by lia. apply Hid. lia. }
      exists r. split; [done|]. split; [done|]. split; [|split].
      * intros t Ht. rewrite Hkeep by lia.
        rewrite !list_lookup_insert_ne by lia. done.
      * intros t Ht Ht1 Ht2. apply not_elem_of_cons in Ht1 as [? ?], Ht2 as [? ?].
        rewrite Hout by done. rewrite !list_lookup_insert_ne by lia. done.
      * intros [|p] s Hp; cbn in Hp.
        -- simplify_eq. split; [intros; lia|]. intros _.
           rewrite Hkeep by lia.
           rewrite list_lookup_insert_eq; [done|]. rewrite length_insert. lia.
        -- destruct (Hfacts p s Hp) as [H1 H2].
           split; intros Hsp; [apply H1 | apply H2]; lia.
    + (* the stroke touches the beginning *)
      assert (i = pos) as -> by (destruct (decide (i = pos)); [done | by destruct Heq]).
      destruct (IH (pos + 1) (pos + 1) (pos + 1) indices)
        as (r & Hrun & Hlen & Hkeep & Hout & Hfacts); try done; try lia.
      { intros t Ht. apply Hid. lia. }
      exists r. split; [done|]. split; [done|]. split; [|split].
      * intros t Ht. apply Hkeep. lia.
      * intros t Ht Ht1 Ht2. apply not_elem_of_cons in Ht1 as [? ?], Ht2 as [? ?].
        by apply Hout.
      * intros [|p] s Hp; cbn in Hp.
        -- simplify_eq. split; [|intros; lia]. intros _.
           rewrite Hkeep by lia. apply Hid. lia.
        -- destruct (Hfacts p s Hp) as [H1 H2].
           split; intros Hsp; [apply H1 | apply H2]; lia.
Qed.

(** The loop of the [UP] branch after [j] rounds: [front] holds the selected
    strokes that are still to be visited, from its last one down.  The cells
    up to [u] still hold their own index; the cells above [q] are not written
    any more. *)
Lemma reorder_up_loop (front : list Z) :
  ∀ (back : list Z) (q u : Z) (indices : list Z),
  let j := Z.of_nat (length back) in
  let universe := {| start := 0; size := Z.of_nat n |} in
  q ≤ Z.of_nat n - 1 - j → (u = q - 1 ∨ (u = q ∧ q = Z.of_nat n - 1 - j)) →
  StronglySorted Z.lt front → Forall (λ i, 0 ≤ i ≤ u) front →
  length indices = n →
  (∀ t, 0 ≤ t ≤ u → indices !! Z.to_nat t = Some t) →
  ∃ r,
    foldlM
      (λ indices i,
         let pos := IndexRange_last (index_range (front ++ back)) i in
         curve_i ← Array_get (front ++ back) pos;
         if decide (curve_i ≠ IndexRange_last universe i)
         then std_swap indices curve_i (curve_i + 1)
         else Some indices)
      indices (IndexRange_to_list {| start := j; size := Z.of_nat (length front) |})
    = Some r
    ∧ length r = n
    ∧ (∀ t, q < t < Z.of_nat n → r !! Z.to_nat t = indices !! Z.to_nat t)
    ∧ (∀ t, 0 ≤ t → t ∉ front → t - 1 ∉ front → r !! Z.to_nat t = indices !! Z.to_nat t)
    ∧ (∀ (p : nat) s, front !! p = Some s →
         let i := j + Z.of_nat (length front - 1 - p) in
         (s = Z.of_nat n - 1 - i → r !! Z.to_nat s = Some s)
         ∧ (s ≠ Z.of_nat n - 1 - i → r !! Z.to_nat (s + 1) = Some s)).
Proof.
  induction front as [|s front IH] using rev_ind;
    intros back q u indices j universe Hq Hu Hs Hr Hl Hid;
    assert (Hj0 : 0 ≤ j) by apply Nat2Z.is_nonneg.
  - exists indices. cbn. split; [done|]. split; [done|]. split; [done|]. split; [done|].
    intros p s Hp. done.
  - apply StronglySorted_app in Hs as (Hall & Hs & _).
    apply Forall_app in Hr as [Hr Hi]. rewrite Forall_singleton in Hi.
    assert (Hr' : Forall (λ i, 0 ≤ i ≤ s - 1) front).
    { rewrite Forall_forall in Hr |- *. intros i Hin. specialize (Hr i Hin).
      specialize (Hall i s Hin ltac:(left)). lia. }
    rewrite <- (app_assoc front [s] back). cbn [app].
    rewrite length_app. cbn [length].
    replace (Z.of_nat (length front + 1)) with (Z.of_nat (length front) + 1) by lia.
    rewrite IndexRange_to_list_cons by lia. cbn [foldlM].
    assert (Hget : Array_get (front ++ s :: back)
                     (IndexRange_last (index_range (front ++ s :: back)) j) = Some s).
    { unfold IndexRange_last, index_range. cbn [start size].
      rewrite !length_app. cbn [length]. apply Array_get_Some. split; [lia|].
      replace (Z.to_nat _) with (length front + 0)%nat by lia.
      by rewrite lookup_app_r, Nat.add_comm, Nat.add_sub by lia. }
    rewrite Hget. cbn [mbind option_bind].
    assert (Hlast : IndexRange_last universe j = Z.of_nat n - 1 - j)
      by (unfold IndexRange_last; cbn; lia).
    rewrite Hlast.
    assert (Hj' : j + 1 = Z.of_nat (length (s :: back))) by (cbn [length]; lia).
    destruct (decide (s ≠ Z.of_nat n - 1 - j)) as [Hne|Heq].
    + (* the stroke moves one place up *)
      destruct (lookup_lt_is_Some_2 indices (Z.to_nat (s + 1))) as [y Hy]; [lia|].
      rewrite (std_swap_Some indices s (s + 1) s y); [|lia|lia|apply Hid; lia|done].
      cbn [mbind option_bind].
      destruct (IH (s :: back) s (s - 1)
                  (<[Z.to_nat (s + 1) := s]> (<[Z.to_nat s := y]> indices)))
        as (r & Hrun & Hlen & Hkeep & Hout & Hfacts); try done.
      { cbn [length]. lia. }
      { by left. }
      { by rewrite !length_insert. }
      { intros t Ht. rewrite !list_lookup_insert_ne by lia. apply Hid. lia. }
      exists r. split.
      { rewrite <- Hrun, Hj'. done. }
      split; [done|]. split; [|split].
      * intros t Ht. rewrite Hkeep by lia.
        rewrite !list_lookup_insert_ne by lia. done.
      * intros t Ht Ht1 Ht2. apply not_elem_of_app in Ht1 as [? Ht1], Ht2 as [? Ht2].
        apply not_elem_of_cons in Ht1 as [? _], Ht2 as [? _].
        rewrite Hout by done. rewrite !list_lookup_insert_ne by lia. done.
      * intros p s' Hp. cbn zeta.
        destruct (decide (p = length front)) as [->|Hpne].
        -- rewrite lookup_app_r, Nat.sub_diag in Hp by lia. cbn in Hp. simplify_eq.
           split; [intros; lia|]. intros _.
           rewrite Hkeep by lia.
           rewrite list_lookup_insert_eq; [done|]. rewrite length_insert. lia.
        -- assert (p < length front)%nat.
           { apply lookup_lt_Some in Hp. rewrite length_app in Hp. cbn in Hp. lia. }
           rewrite lookup_app_l in Hp by done.
           destruct (Hfacts p s' Hp) as [H1 H2]. cbn [length] in H1, H2.
           split; intros Hsp; [apply H1 | apply H2]; lia.
    + (* the stroke touches the end *)
      assert (s = Z.of_nat n - 1 - j) as Hsj
        by (destruct (decide (s = Z.of_nat n - 1 - j)); [done | by destruct Heq]).
      destruct (IH (s :: back) (s - 1) (s - 1) indices)
        as (r & Hrun & Hlen & Hkeep & Hout & Hfacts); try done.
      { cbn [length]. lia. }
      { right. cbn [length]. lia. }
      { intros t Ht. apply Hid. lia. }
      exists r. split.
      { rewrite <- Hrun, Hj'. done. }
      split; [done|]. split; [|split].
      * intros t Ht. apply Hkeep. lia.
      * intros t Ht Ht1 Ht2. apply not_elem_of_app in Ht1 as [? _], Ht2 as [? _].
        by apply Hout.
      * intros p s' Hp. cbn zeta.
        destruct (decide (p = length front)) as [->|Hpne].
        -- rewrite lookup_app_r, Nat.sub_diag in Hp by lia. cbn in Hp. simplify_eq.
           split; [|intros; lia]. intros _.
           rewrite Hkeep by lia. apply Hid. lia.
        -- assert (p < length front)%nat.
           { apply lookup_lt_Some in Hp. rewrite length_app in Hp. cbn in Hp. lia. }
           rewrite lookup_app_l in Hp by done.
           destruct (Hfacts p s' Hp) as [H1 H2]. cbn [length] in H1, H2.
           split; intros Hsp; [apply H1 | apply H2]; lia.
Qed.

End reorder_order.

Section reorder_whole.
Import BLI bke greasepencil.

Variable uninitialized : nat → Z.
Variable n : nat.
Variable selected : IndexMask.
Hypothesis selected_wf : IndexMask_wf selected.
Hypothesis selected_lt : Forall (λ i, i < Z.of_nat n) selected.

Lemma identity_lookup (t : Z) :
  0 ≤ t < Z.of_nat n → (Z.of_nat <$> seq 0 n) !! Z.to_nat t = Some t.
Proof.
  intros Ht. rewrite list_lookup_fmap, lookup_seq_lt by lia. cbn. f_equal. lia.
Qed.

Lemma universe_to_list :
  IndexRange_to_list {| start := 0; size := Z.of_nat n |} = Z.of_nat <$> seq 0 n.
Proof. unfold IndexRange_to_list. cbn. by rewrite Nat2Z.id. Qed.

Lemma initialized_indices :
  fill_index_range (Array_uninitialized uninitialized (Z.of_nat n)) = Z.of_nat <$> seq 0 n.
Proof.
  unfold fill_index_range. by rewrite Array_uninitialized_length, Nat2Z.id.
Qed.

Lemma reorder_down_spec :
  ∃ indices,
    get_reordered_indices uninitialized {| start := 0; size := Z.of_nat n |} selected DOWN
    = Some indices
    ∧ length indices = n
    ∧ (∀ t, 0 ≤ t < Z.of_nat n → t ∉ selected → t + 1 ∉ selected →
            indices !! Z.to_nat t = Some t)
    ∧ (∀ (p : nat) s, selected !! p = Some s →
         (s = Z.of_nat p → indices !! Z.to_nat s = Some s)
         ∧ (s ≠ Z.of_nat p → indices !! Z.to_nat (s - 1) = Some s)).
Proof.
  destruct selected_wf as [Hnn Hsorted].
  unfold get_reordered_indices.
  repeat (case_decide; try (exfalso; intuition discriminate)).
  cbn [size]. rewrite initialized_indices. unfold foreach_index_optimized.
  destruct (reorder_down_loop n selected 0 0 0 (Z.of_nat <$> seq 0 n))
    as (r & Hrun & Hlen & _ & Hout & Hfacts); try done.
  - by right.
  - rewrite Forall_forall in Hnn, selected_lt |- *. intros i Hi.
    specialize (Hnn i Hi). specialize (selected_lt i Hi). lia.
  - by rewrite length_fmap, length_seq.
  - intros t Ht. apply identity_lookup. lia.
  - exists r. split; [done|]. split; [done|]. split.
    + intros t Ht Hta Htb. rewrite Hout by (done || lia). by apply identity_lookup.
    + intros p s Hp. destruct (Hfacts p s Hp) as [Hfa Hfb].
      split; intros Hsp; [apply Hfa | apply Hfb]; lia.
Qed.

Lemma reorder_up_spec :
  ∃ indices,
    get_reordered_indices uninitialized {| start := 0; size := Z.of_nat n |} selected UP
    = Some indices
    ∧ length indices = n
    ∧ (∀ t, 0 ≤ t < Z.of_nat n → t ∉ selected → t - 1 ∉ selected →
            indices !! Z.to_nat t = Some t)
    ∧ (∀ (p : nat) s, selected !! p = Some s →
         let above := Z.of_nat (length selected - 1 - p) in
         (s = Z.of_nat n - 1 - above → indices !! Z.to_nat s = Some s)
         ∧ (s ≠ Z.of_nat n - 1 - above → indices !! Z.to_nat (s + 1) = Some s)).
Proof.
  destruct selected_wf as [Hnn Hsorted].
  unfold get_reordered_indices.
  repeat (case_decide; try (exfalso; intuition discriminate)).
  assert (Hsel : IndexMask_to_indices selected
            (Array_uninitialized uninitialized (IndexMask_size selected))
            (index_range (Array_uninitialized uninitialized (IndexMask_size selected)))
          = Some selected).
  { unfold IndexMask_to_indices, index_range, IndexMask_size. cbn [start size].
    rewrite Array_uninitialized_length.
    rewrite decide_True by lia.
    rewrite Span_write_Some by (rewrite ?Array_uninitialized_length; lia).
    cbn. rewrite drop_ge by (rewrite Array_uninitialized_length; lia).
    by rewrite app_nil_r. }
  rewrite Hsel. cbn [mbind option_bind size]. rewrite initialized_indices.
  destruct (reorder_up_loop n selected [] (Z.of_nat n - 1) (Z.of_nat n - 1)
              (Z.of_nat <$> seq 0 n))
    as (r & Hrun & Hlen & _ & Hout & Hfacts); try done.
  - cbn [length]. lia.
  - right. cbn [length]. lia.
  - rewrite Forall_forall in Hnn, selected_lt |- *. intros i Hi.
    specialize (Hnn i Hi). specialize (selected_lt i Hi). lia.
  - by rewrite length_fmap, length_seq.
  - intros t Ht. apply identity_lookup. lia.
  - rewrite app_nil_r in Hrun. cbn [length] in Hrun.
    exists r. split; [exact Hrun|]. split; [done|]. split.
    + intros t Ht Hta Htb. rewrite Hout by (done || lia). by apply identity_lookup.
    + intros p s Hp. destruct (Hfacts p s Hp) as [Hfa Hfb]. cbn [length] in Hfa, Hfb.
      cbn zeta. split; intros Hsp; [apply Hfa | apply Hfb]; lia.
Qed.

Lemma reorder_top_bottom_spec :
  let universe := {| start := 0; size := Z.of_nat n |} in
  let unselected := filter (λ i, i ∉ selected) (Z.of_nat <$> seq 0 n) in
  get_reordered_indices uninitialized universe selected TOP = Some (unselected ++ selected)
  ∧ get_reordered_indices uninitialized universe selected BOTTOM
    = Some (selected ++ unselected).
Proof.
  intros universe unselected.
  destruct selected_wf as [Hnn Hsorted].
  assert (Hsub : Forall (λ i, start universe ≤ i < start universe + size universe) selected).
  { rewrite Forall_forall in Hnn, selected_lt |- *. intros i Hi. cbn.
    specialize (Hnn i Hi). specialize (selected_lt i Hi). lia. }
  pose proof (selected_complement_Permutation selected universe selected_wf Hsub) as Hperm.
  assert (Hc : IndexMask_complement selected universe = unselected).
  { unfold IndexMask_complement, unselected, universe. by rewrite universe_to_list. }
  assert (Hlens : (length selected + length unselected)%nat = n).
  { rewrite <- Hc, <- length_app, Hperm, IndexRange_to_list_length. cbn. lia. }
  unfold get_reordered_indices.
  split; repeat (case_decide; try (exfalso; intuition discriminate)); rewrite Hc.
  - apply to_indices_front_back. rewrite Array_uninitialized_length. cbn. lia.
  - apply to_indices_front_back. rewrite Array_uninitialized_length. cbn. lia.
Qed.

End reorder_whole.

Lemma filter_all {A : Type} (P : A → Prop) `{!∀ x, Decision (P x)} (l : list A) :
  (∀ x, x ∈ l → P x) → filter P l = l.
Proof.
  induction l as [|x l IH]; intros Hall; [done|].
  rewrite filter_cons_True by (apply Hall; left).
  f_equal. apply IH. intros y Hy. apply Hall. by right.
Qed.

Lemma filter_none {A : Type} (P : A → Prop) `{!∀ x, Decision (P x)} (l : list A) :
  (∀ x, x ∈ l → ¬ P x) → filter P l = [].
Proof.
  induction l as [|x l IH]; intros Hall; [done|].
  rewrite filter_cons_False by (apply Hall; left).
  apply IH. intros y Hy. apply Hall. by right.
Qed.

Lemma identity_mask_wf (n : nat) : BLI.IndexMask_wf (Z.of_nat <$> seq 0 n).
Proof.
  split.
  - rewrite Forall_fmap. apply Forall_forall. intros k _. cbn. lia.
  - generalize 0%nat. induction n as [|n IH]; intros b; cbn; constructor; [apply IH|].
    rewrite Forall_fmap. apply Forall_forall. intros k Hk. apply elem_of_seq in Hk. cbn. lia.
Qed.

Lemma identity_mask_lt (n : nat) : Forall (λ i, i < Z.of_nat n) (Z.of_nat <$> seq 0 n).
Proof.
  rewrite Forall_fmap. apply Forall_forall. intros k Hk. apply elem_of_seq in Hk. cbn. lia.
Qed.

(** Reordering around a selection that holds no stroke, or every stroke,
    changes nothing, whatever the direction. *)
Lemma reorder_trivial_selection (uninitialized : nat → Z) (n : nat)
    (selected : BLI.IndexMask) (direction : greasepencil.ReorderDirection) :
  selected = [] ∨ selected = Z.of_nat <$> seq 0 n →
  greasepencil.get_reordered_indices uninitialized
    {| BLI.start := 0; BLI.size := Z.of_nat n |} selected direction
  = Some (Z.of_nat <$> seq 0 n).
Proof.
  intros Hsel.
  assert (Hwf : BLI.IndexMask_wf selected).
  { destruct Hsel as [-> | ->]; [split; constructor | apply identity_mask_wf]. }
  assert (Hlt : Forall (λ i, i < Z.of_nat n) selected).
  { destruct Hsel as [-> | ->]; [constructor | apply identity_mask_lt]. }
  assert (Hident : ∀ indices : list Z, length indices = n →
            (∀ t, 0 ≤ t < Z.of_nat n → indices !! Z.to_nat t = Some t) →
            indices = Z.of_nat <$> seq 0 n).
  { intros indices Hlen Hall. apply list_eq_same_length with n; [|done|].
    - by rewrite length_fmap, length_seq.
    - intros i x y Hi Hx Hy.
      rewrite <- (Nat2Z.id i), Hall in Hx by lia.
      rewrite <- (Nat2Z.id i), identity_lookup in Hy by lia. congruence. }
  destruct direction.
  - (* TOP *)
    destruct (reorder_top_bottom_spec uninitialized n selected Hwf Hlt) as [-> _].
    f_equal. destruct Hsel as [-> | ->].
    + rewrite app_nil_r. apply filter_all. intros i _. apply not_elem_of_nil.
    + rewrite (filter_none (λ i, i ∉ Z.of_nat <$> seq 0 n)); [done|].
      intros i Hi Hn. done.
  - (* UP *)
    destruct (reorder_up_spec uninitialized n selected Hwf Hlt)
      as (indices & -> & Hlen & Hout & Hfacts).
    f_equal. apply Hident; [done|]. intros t Ht. destruct Hsel as [-> | ->].
    + apply Hout; [done | apply not_elem_of_nil | apply not_elem_of_nil].
    + destruct (Hfacts (Z.to_nat t) t) as [Hb _]; [by apply identity_lookup|].
      cbn zeta in Hb. apply Hb. rewrite length_fmap, length_seq. lia.
  - (* DOWN *)
    destruct (reorder_down_spec uninitialized n selected Hwf Hlt)
      as (indices & -> & Hlen & Hout & Hfacts).
    f_equal. apply Hident; [done|]. intros t Ht. destruct Hsel as [-> | ->].
    + apply Hout; [done | apply not_elem_of_nil | apply not_elem_of_nil].
    + destruct (Hfacts (Z.to_nat t) t) as [Hb _]; [by apply identity_lookup|].
      apply Hb. lia.
  - (* BOTTOM *)
    destruct (reorder_top_bottom_spec uninitialized n selected Hwf Hlt) as [_ ->].
    f_equal. destruct Hsel as [-> | ->].
    + cbn [app]. apply filter_all. intros i _. apply not_elem_of_nil.
    + rewrite (filter_none (λ i, i ∉ Z.of_nat <$> seq 0 n)); [by rewrite app_nil_r|].
      intros i Hi Hn. done.
Qed.

(** X1. For a selection inside the universe [[0, n)], [get_reordered_indices]
    with direction TOP returns the unselected strokes followed by the selected
    ones, and with direction BOTTOM the selected strokes followed by the
    unselected ones; inside each group the strokes keep their order. *)
Theorem get_reordered_indices_top_bottom_order
    (uninitialized : nat → Z) (n : nat) (selected : BLI.IndexMask) :
  BLI.IndexMask_wf selected →
  Forall (λ i, i < Z.of_nat n) selected →
  let universe := {| BLI.start := 0; BLI.size := Z.of_nat n |} in
  let unselected := filter (λ i, i ∉ selected) (Z.of_nat <$> seq 0 n) in
  greasepencil.get_reordered_indices uninitialized universe selected greasepencil.TOP
  = Some (unselected ++ selected)
  ∧ greasepencil.get_reordered_indices uninitialized universe selected greasepencil.BOTTOM
    = Some (selected ++ unselected).
Proof. intros Hwf Hlt. by apply reorder_top_bottom_spec. Qed.

Lemma get_reordered_indices_top_bottom_order_witness :
  BLI.IndexMask_wf [2; 4; 5]
  ∧ greasepencil.get_reordered_indices (λ _, -7)
      {| BLI.start := 0; BLI.size := 10 |} [2; 4; 5] greasepencil.TOP
    = Some [0; 1; 3; 6; 7; 8; 9; 2; 4; 5]
  ∧ greasepencil.get_reordered_indices (λ _, -7)
      {| BLI.start := 0; BLI.size := 10 |} [2; 4; 5] greasepencil.BOTTOM
    = Some [2; 4; 5; 0; 1; 3; 6; 7; 8; 9].
Proof.
  assert (BLI.IndexMask_wf [2; 4; 5]) as Hwf.
  { split; repeat constructor; lia. }
  split; [exact Hwf|].
  apply (get_reordered_indices_top_bottom_order (λ _, -7) 10 [2; 4; 5] Hwf).
  repeat constructor; lia.
Defined.

(** X2. With direction DOWN, a selected stroke that is not part of a run of
    selected strokes starting at index 0 ends one place lower, the stroke
    [s] being found at place [s - 1]; a selected stroke of such a run stays
    where it is; and a place [t] such that neither [t] nor [t + 1] is
    selected keeps its stroke. *)
Theorem get_reordered_indices_down_moves
    (uninitialized : nat → Z) (n : nat) (selected : BLI.IndexMask) :
  BLI.IndexMask_wf selected →
  Forall (λ i, i < Z.of_nat n) selected →
  ∃ indices,
    greasepencil.get_reordered_indices uninitialized
      {| BLI.start := 0; BLI.size := Z.of_nat n |} selected greasepencil.DOWN
    = Some indices
    ∧ length indices = n
    ∧ (∀ t, 0 ≤ t < Z.of_nat n → t ∉ selected → t + 1 ∉ selected →
            indices !! Z.to_nat t = Some t)
    ∧ (∀ (p : nat) s, selected !! p = Some s →
         (s = Z.of_nat p → indices !! Z.to_nat s = Some s)
         ∧ (s ≠ Z.of_nat p → indices !! Z.to_nat (s - 1) = Some s)).
Proof. intros Hwf Hlt. by apply reorder_down_spec. Qed.

Lemma get_reordered_indices_down_moves_witness :
  BLI.IndexMask_wf [0; 2; 3]
  ∧ ∃ indices,
      greasepencil.get_reordered_indices (λ _, -7)
        {| BLI.start := 0; BLI.size := 6 |} [0; 2; 3] greasepencil.DOWN
      = Some indices
      ∧ indices !! 0%nat = Some 0 ∧ indices !! 1%nat = Some 2
      ∧ indices !! 2%nat = Some 3 ∧ indices !! 5%nat = Some 5.
Proof.
  assert (BLI.IndexMask_wf [0; 2; 3]) as Hwf.
  { split; repeat constructor; lia. }
  split; [exact Hwf|].
  destruct (get_reordered_indices_down_moves (λ _, -7) 6 [0; 2; 3] Hwf)
    as (indices & Hrun & _ & Hout & Hfacts).
  - repeat constructor; lia.
  - exists indices. split; [exact Hrun|].
    split; [exact (proj1 (Hfacts 0%nat 0 eq_refl) eq_refl)|].
    split; [exact (proj2 (Hfacts 1%nat 2 eq_refl) ltac:(lia))|].
    split; [exact (proj2 (Hfacts 2%nat 3 eq_refl) ltac:(lia))|].
    apply (Hout 5); [lia | |]; intros Hin; repeat (apply elem_of_cons in Hin as [?|Hin]; [lia|]);
      by apply elem_of_nil in Hin.
Defined.

(** X3. With direction UP, a selected stroke that is not part of a run of
    selected strokes ending at the last index ends one place higher, the
    stroke [s] being found at place [s + 1]; a selected stroke of such a run
    stays where it is; and a place [t] such that neither [t] nor [t - 1] is
    selected keeps its stroke. *)
Theorem get_reordered_indices_up_moves
    (uninitialized : nat → Z) (n : nat) (selected : BLI.IndexMask) :
  BLI.IndexMask_wf selected →
  Forall (λ i, i < Z.of_nat n) selected →
  ∃ indices,
    greasepencil.get_reordered_indices uninitialized
      {| BLI.start := 0; BLI.size := Z.of_nat n |} selected greasepencil.UP
    = Some indices
    ∧ length indices = n
    ∧ (∀ t, 0 ≤ t < Z.of_nat n → t ∉ selected → t - 1 ∉ selected →
            indices !! Z.to_nat t = Some t)
    ∧ (∀ (p : nat) s, selected !! p = Some s →
         let above := Z.of_nat (length selected - 1 - p) in
         (s = Z.of_nat n - 1 - above → indices !! Z.to_nat s = Some s)
         ∧ (s ≠ Z.of_nat n - 1 - above → indices !! Z.to_nat (s + 1) = Some s)).
Proof. intros Hwf Hlt. by apply reorder_up_spec. Qed.

Lemma get_reordered_indices_up_moves_witness :
  BLI.IndexMask_wf [1; 2; 5]
  ∧ ∃ indices,
      greasepencil.get_reordered_indices (λ _, -7)
        {| BLI.start := 0; BLI.size := 6 |} [1; 2; 5] greasepencil.UP
      = Some indices
      ∧ indices !! 5%nat = Some 5 ∧ indices !! 3%nat = Some 2
      ∧ indices !! 2%nat = Some 1 ∧ indices !! 0%nat = Some 0.
Proof.
  assert (BLI.IndexMask_wf [1; 2; 5]) as Hwf.
  { split; repeat constructor; lia. }
  split; [exact Hwf|].
  destruct (get_reordered_indices_up_moves (λ _, -7) 6 [1; 2; 5] Hwf)
    as (indices & Hrun & _ & Hout & Hfacts).
  - repeat constructor; lia.
  - exists indices. split; [exact Hrun|].
    split; [exact (proj1 (Hfacts 2%nat 5 eq_refl) eq_refl)|].
    split; [exact (proj2 (Hfacts 1%nat 2 eq_refl) ltac:(cbn; lia))|].
    split; [exact (proj2 (Hfacts 0%nat 1 eq_refl) ltac:(cbn; lia))|].
    apply (Hout 0); [lia | |]; intros Hin; repeat (apply elem_of_cons in Hin as [?|Hin]; [lia|]);
      by apply elem_of_nil in Hin.
Defined.

(** X4. When no stroke or every stroke of the universe is selected,
    [get_reordered_indices] returns the identity order for each of the four
    directions: the strokes stay where they are. *)
Theorem get_reordered_indices_trivial_selection
    (uninitialized : nat → Z) (n : nat) (selected : BLI.IndexMask)
    (direction : greasepencil.ReorderDirection) :
  selected = [] ∨ selected = Z.of_nat <$> seq 0 n →
  greasepencil.get_reordered_indices uninitialized
    {| BLI.start := 0; BLI.size := Z.of_nat n |} selected direction
  = Some (Z.of_nat <$> seq 0 n).
Proof. apply reorder_trivial_selection. Qed.

Lemma get_reordered_indices_trivial_selection_witness :
  greasepencil.get_reordered_indices (λ _, -7)
    {| BLI.start := 0; BLI.size := 4 |} [0; 1; 2; 3] greasepencil.UP
  = Some [0; 1; 2; 3].
Proof.
  apply (get_reordered_indices_trivial_selection (λ _, -7) 4 [0; 1; 2; 3] greasepencil.UP).
  right. reflexivity.
Defined.

(* ===================================================================== *)
(** * Loops with a history                                               *)
(* ===================================================================== *)

Section history.
Import BLI.

(** A loop followed with the list of what its rounds have handled. *)
Lemma foldlM_history {A B G : Type} (f : B → A → option B) (g : A → list G)
    (P : list G → B → Prop) (l : list A) : ∀ done b,
  (∀ done b x, x ∈ l → P done b → ∃ b', f b x = Some b' ∧ P (done ++ g x) b') →
  P done b →
  ∃ b', foldlM f b l = Some b' ∧ P (done ++ (l ≫= g)) b'.
Proof.
  induction l as [|x l IH]; intros done b Hstep Hb; cbn [foldlM].
  - exists b. split; [done|]. by rewrite app_nil_r.
  - destruct (Hstep done b x) as (b1 & -> & Hb1); [left | done |].
    cbn [mbind option_bind].
    destruct (IH (done ++ g x) b1) as (b' & Hrun & Hb'); [|done|].
    { intros done' b0 y Hy. apply Hstep. by right. }
    exists b'. split; [done|]. by rewrite bind_cons, app_assoc.
Qed.

Lemma bind_singleton {A : Type} (l : list A) : l ≫= (λ x, [x]) = l.
Proof. induction l as [|x l IH]; [done|]. rewrite bind_cons, IH. done. Qed.

Lemma total_app (c1 c2 : list Z) : total (c1 ++ c2) = total c1 + total c2.
Proof. unfold total. induction c1 as [|x c1 IH]; cbn; lia. Qed.

Lemma total_insert (counts : list Z) (k : nat) (x y : Z) :
  counts !! k = Some x → total (<[k := y]> counts) = total counts - x + y.
Proof.
  unfold total. revert k. induction counts as [|c counts IH]; intros [|k] Hk;
    simpl in Hk; simplify_eq; simpl; [lia|].
  specialize (IH k Hk). simpl in IH. lia.
Qed.

Lemma total_nonneg (counts : list Z) : Forall (λ c, 0 ≤ c) counts → 0 ≤ total counts.
Proof. unfold total. induction 1; cbn; lia. Qed.

(** The offsets computed from counts: as many cells as the array has, the
    first one zero, not decreasing, the last one the total. *)
Lemma accumulate_from_spec (counts : list Z) : ∀ offset last_cell,
  Forall (λ c, 0 ≤ c) counts →
  let offsets := accumulate_from offset (counts ++ [last_cell]) in
  length offsets = S (length counts)
  ∧ head offsets = Some offset
  ∧ last offsets = Some (offset + total counts)
  ∧ StronglySorted Z.le offsets
  ∧ Forall (λ o, offset ≤ o) offsets
  ∧ ∀ (k : nat), (k ≤ length counts)%nat →
      offsets !! k = Some (offset + total (take k counts)).
Proof.
  induction counts as [|c counts IH]; intros offset last_cell Hnn.
  - cbn. split; [done|]. split; [done|]. split; [f_equal; lia|].
    split; [repeat constructor|]. split; [repeat constructor; lia|].
    intros [|k] Hk; [|lia]. cbn. f_equal. lia.
  - apply Forall_cons in Hnn as [Hc Hnn].
    destruct (IH (offset + c) last_cell Hnn) as (Hlen & Hhead & Hlast & Hsorted & Hge & Hlook).
    cbn zeta. cbn [app accumulate_from].
    destruct (counts ++ [last_cell]) as [|c' rest] eqn:Hrest.
    { by destruct counts. }
    rewrite <- Hrest in *. split; [|split; [|split; [|split; [|split]]]].
    + cbn [length]. by rewrite Hlen.
    + done.
    + rewrite last_cons, Hlast. f_equal. unfold total. cbn. fold (total counts). lia.
    + constructor; [done|]. eapply Forall_impl; [exact Hge|]. cbn. lia.
    + constructor; [lia|]. eapply Forall_impl; [exact Hge|]. cbn. lia.
    + intros [|k] Hk; cbn [take lookup list_lookup].
      * cbn. f_equal. lia.
      * cbn in Hk. rewrite Hlook by lia. f_equal. unfold total. cbn. lia.
Qed.

End history.

(* ===================================================================== *)
(** * More on extrude                                                    *)
(* ===================================================================== *)

Section extrude_loop.
Import BLI bke greasepencil.

Variable src : CurvesGeometry.
Hypothesis src_wf : CurvesGeometry_wf src.
Variable points_to_extrude : IndexMask.

(** What one round does to the arrays: a point is inserted in a curve, or
    a curve of two points is added at the end. *)
Lemma extrude_point_cases curve_index curve_points curve_cyclic st p st' :
  extrude_point curve_index curve_points curve_cyclic st p = Some st' →
  (∃ (k : nat) count,
     (k ≤ length (dst_to_src_points st))%nat ∧ (k ≤ length (dst_selected st))%nat
     ∧ 0 ≤ curve_index
     ∧ ext_curve_counts st !! Z.to_nat curve_index = Some count
     ∧ st' = {| dst_to_src_points :=
                  take k (dst_to_src_points st) ++ p :: drop k (dst_to_src_points st);
                dst_selected := take k (dst_selected st) ++ true :: drop k (dst_selected st);
                dst_to_src_curves := dst_to_src_curves st;
                ext_curve_counts := <[Z.to_nat curve_index := count + 1]> (ext_curve_counts st);
                point_offset := point_offset st + 1 |})
  ∨ st' = {| dst_to_src_points := dst_to_src_points st ++ [p; p];
             dst_selected := dst_selected st ++ [false; true];
             dst_to_src_curves := dst_to_src_curves st ++ [curve_index];
             ext_curve_counts := ext_curve_counts st ++ [2];
             point_offset := point_offset st |}.
Proof.
  unfold extrude_point.
  assert (Hins : ∀ i,
    (pts ← Vector_insert (dst_to_src_points st) i p;
     sel ← Vector_insert (dst_selected st) i true;
     count ← Array_get (ext_curve_counts st) curve_index;
     counts ← Array_set (ext_curve_counts st) curve_index (count + 1);
     Some {| dst_to_src_points := pts; dst_selected := sel;
             dst_to_src_curves := dst_to_src_curves st;
             ext_curve_counts := counts;
             point_offset := point_offset st + 1 |}) = Some st' →
    ∃ (k : nat) count,
     (k ≤ length (dst_to_src_points st))%nat ∧ (k ≤ length (dst_selected st))%nat
     ∧ 0 ≤ curve_index
     ∧ ext_curve_counts st !! Z.to_nat curve_index = Some count
     ∧ st' = {| dst_to_src_points :=
                  take k (dst_to_src_points st) ++ p :: drop k (dst_to_src_points st);
                dst_selected := take k (dst_selected st) ++ true :: drop k (dst_selected st);
                dst_to_src_curves := dst_to_src_curves st;
                ext_curve_counts := <[Z.to_nat curve_index := count + 1]> (ext_curve_counts st);
                point_offset := point_offset st + 1 |}).
  { intros i Hrun. unfold Vector_insert in Hrun.
    destruct (decide (0 ≤ i ≤ Z.of_nat (length (dst_to_src_points st)))); [|done].
    cbn [mbind option_bind] in Hrun.
    destruct (decide (0 ≤ i ≤ Z.of_nat (length (dst_selected st)))); [|done].
    cbn [mbind option_bind] in Hrun.
    destruct (Array_get (ext_curve_counts st) curve_index) as [count|] eqn:Hcount; [|done].
    cbn [mbind option_bind] in Hrun.
    destruct (Array_set (ext_curve_counts st) curve_index (count + 1)) as [counts|] eqn:Hset;
      [|done].
    cbn [mbind option_bind] in Hrun.
    apply Array_get_Some in Hcount as [? Hcount].
    apply Array_set_Some in Hset as [_ ->].
    exists (Z.to_nat i), count. split; [lia|]. split; [lia|]. split; [done|].
    split; [done|]. congruence. }
  destruct (negb curve_cyclic && bool_decide (p = IndexRange_first curve_points)).
  { intros Hrun. left. by apply Hins in Hrun. }
  destruct (negb curve_cyclic && bool_decide (p = IndexRange_last curve_points 0)).
  { intros Hrun. left. by apply Hins in Hrun. }
  intros [= <-]. by right.
Qed.

(** The loop over the curves, followed with the points it has visited. *)
Lemma extrude_loop_history (P : list Z → ExtrudeState → Prop) :
  (∀ done st curve_index curve_points curve_cyclic p st',
     0 ≤ curve_index < curve_num src →
     0 ≤ p < point_num src →
     p ∈ points_to_extrude →
     extrude_inv src st → P done st →
     extrude_point curve_index curve_points curve_cyclic st p = Some st' →
     P (done ++ [p]) st') →
  ∀ st0, extrude_inv src st0 → P [] st0 →
  ∃ st,
    foldlM (extrude_curve (points_by_curve src) (cyclic src) points_to_extrude) st0
      (IndexRange_to_list (curves_range src)) = Some st
    ∧ extrude_inv src st
    ∧ P (extruded_points src points_to_extrude) st.
Proof.
  intros Hstep st0 Hinv0 HP0.
  destruct (foldlM_history
              (extrude_curve (points_by_curve src) (cyclic src) points_to_extrude)
              (λ curve_index,
                 match OffsetIndices_get (points_by_curve src) curve_index with
                 | Some curve_points => IndexMask_slice_content points_to_extrude curve_points
                 | None => []
                 end)
              (λ done st, extrude_inv src st ∧ P done st)
              (IndexRange_to_list (curves_range src)) [] st0)
    as (st & Hrun & Hinv & HP); [|done|].
  - intros done st curve_index Hc [Hinv HP].
    apply elem_of_IndexRange_to_list in Hc. cbn [curves_range start size] in Hc.
    assert (Hc' : 0 ≤ curve_index < curve_num src) by lia.
    unfold extrude_curve.
    destruct (wf_points_by_curve src curve_index src_wf Hc')
      as (b & e & _ & _ & Hb & Hbe & He & ->).
    cbn [mbind option_bind].
    destruct (wf_cyclic_get src curve_index src_wf Hc') as [curve_cyclic ->].
    cbn [mbind option_bind].
    set (curve_points := {| start := b; size := e - b |}).
    destruct (foldlM_history
                (extrude_point curve_index curve_points curve_cyclic)
                (λ p, [p])
                (λ done st, extrude_inv src st ∧ P done st)
                (IndexMask_slice_content points_to_extrude curve_points) done st)
      as (st' & Hrun' & Hinv' & HP'); [|done|].
    + intros done' st1 p Hp [Hinv1 HP1].
      apply list_elem_of_filter in Hp as [Hp Hin]. unfold curve_points in Hp.
      cbn [start size] in Hp.
      destruct (extrude_point_inv src curve_index curve_points curve_cyclic st1 p)
        as (st2 & Hrun2 & Hinv2); [done | lia | done |].
      exists st2. split; [done|]. split; [done|].
      eapply Hstep; [exact Hc' | lia | exact Hin | exact Hinv1 | exact HP1 | exact Hrun2].
    + exists st'. split; [done|]. split; [done|]. by rewrite bind_singleton in HP'.
  - exists st. done.
Qed.

End extrude_loop.

Section extrude_assembly.
Import BLI bke greasepencil.

Variable uninitialized : nat → Z.
Variable update_curve_types : CurvesGeometry → CurvesGeometry.
Variable src : CurvesGeometry.
Hypothesis src_wf : CurvesGeometry_wf src.
Variable points_to_extrude : IndexMask.

Lemma extrude_start_inv counts :
  length counts = Z.to_nat (curve_num src) →
  extrude_inv src (extrude_start uninitialized src counts).
Proof.
  intros Hcounts.
  pose proof (wf_curve_num _ src_wf) as Hcn. pose proof (wf_point_num _ src_wf) as Hpn.
  unfold extrude_start, curves_num, points_num. constructor; cbn.
  - unfold fill_index_range. rewrite Array_uninitialized_length.
    apply take_ge. rewrite length_fmap, length_seq. lia.
  - unfold fill_index_range. rewrite length_fmap, length_seq.
    rewrite Array_uninitialized_length. lia.
  - unfold fill_index_range. rewrite length_fmap, length_seq.
    rewrite Array_uninitialized_length. lia.
  - unfold fill_index_range. rewrite length_fmap, length_seq.
    rewrite Array_uninitialized_length, length_replicate. lia.
  - lia.
  - unfold fill_index_range. rewrite length_fmap, length_seq.
    rewrite Array_uninitialized_length. lia.
  - unfold fill_index_range. rewrite Array_uninitialized_length.
    rewrite Forall_fmap, Forall_forall. intros k Hk. apply elem_of_seq in Hk.
    cbn. lia.
  - unfold fill_index_range. rewrite Array_uninitialized_length.
    rewrite Forall_fmap, Forall_forall. intros k Hk. apply elem_of_seq in Hk.
    cbn. lia.
Qed.

(** The offsets array after the counts were copied to all its cells but the
    last one. *)
Lemma new_offsets_copied (point_num new_curves_num : Z) (counts : list Z) :
  Z.of_nat (length counts) = new_curves_num →
  ∃ tail,
    array_utils_copy counts
      (curve_offsets (CurvesGeometry_new uninitialized point_num new_curves_num))
      (Span_drop_back
         (Z.of_nat (length (curve_offsets
                              (CurvesGeometry_new uninitialized point_num new_curves_num)))) 1)
    = Some (counts ++ tail)
    ∧ (0 < new_curves_num → length tail = 1%nat)
    ∧ (new_curves_num = 0 → tail = []).
Proof.
  intros Hlen. unfold array_utils_copy, CurvesGeometry_new, Span_drop_back.
  cbn [curve_offsets size start].
  destruct (decide (0 < new_curves_num)).
  - rewrite Array_uninitialized_length. rewrite decide_True by lia.
    rewrite Span_write_Some; [| lia | rewrite Array_uninitialized_length; lia].
    cbn [Z.to_nat take app Nat.add].
    eexists. split; [done|]. split; [|lia]. intros _.
    rewrite length_drop, Array_uninitialized_length. lia.
  - cbn [length]. rewrite decide_True by lia.
    rewrite Span_write_Some; [| lia | cbn [length]; lia].
    exists []. destruct counts; [|cbn in Hlen; lia]. cbn.
    split; [done|]. split; [lia|done].
Qed.

(** What [extrude_grease_pencil_curves] returns, in terms of the state in
    which its loop ends. *)
Lemma extrude_assembled (P : list Z → ExtrudeState → Prop) :
  (∀ done st curve_index curve_points curve_cyclic p st',
     0 ≤ curve_index < curve_num src →
     0 ≤ p < point_num src →
     p ∈ points_to_extrude →
     extrude_inv src st → P done st →
     extrude_point curve_index curve_points curve_cyclic st p = Some st' →
     P (done ++ [p]) st') →
  (∀ counts,
     copy_group_sizes (points_by_curve src) (curves_range src) = Some counts →
     P [] (extrude_start uninitialized src counts)) →
  ∃ st g tail,
    extrude_grease_pencil_curves uninitialized update_curve_types src points_to_extrude
    = Some (update_curve_types g)
    ∧ extrude_inv src st
    ∧ P (extruded_points src points_to_extrude) st
    ∧ point_num g = Z.of_nat (length (dst_to_src_points st))
    ∧ curve_num g = Z.of_nat (length (dst_to_src_curves st))
    ∧ curve_offsets g = accumulate_counts_to_offsets (ext_curve_counts st ++ tail)
    ∧ (0 < curve_num g → length tail = 1%nat)
    ∧ (curve_num g = 0 → tail = [])
    ∧ point_data g
      = <[".selection" := VBool <$> dst_selected st]>
          ((λ values, gather_total values (dst_to_src_points st)) <$> point_data src)
    ∧ (match curve_data src !! "cyclic" ≫= as_bools with
       | Some l =>
           curve_data g
           = <["cyclic" :=
                 VBool <$> (take (Z.to_nat (curve_num src))
                              (gather_total l (dst_to_src_curves st))
                            ++ replicate (length (dst_to_src_curves st)
                                          - Z.to_nat (curve_num src)) false)]>
               ((λ values, gather_total values (dst_to_src_curves st)) <$> curve_data src)
       | None =>
           curve_data g
           = (λ values, gather_total values (dst_to_src_curves st)) <$> curve_data src
       end).
Proof.
  intros Hstep Hstart. unfold extrude_grease_pencil_curves.
  destruct (copy_group_sizes_Some src src_wf) as (counts & Hcopy & Hcounts).
  rewrite Hcopy. cbn [mbind option_bind].
  pose proof (wf_curve_num _ src_wf) as Hcn. pose proof (wf_point_num _ src_wf) as Hpn.
  destruct (extrude_loop_history src src_wf points_to_extrude P Hstep
              (extrude_start uninitialized src counts))
    as (st & Hrun & Hinv & HP); [by apply extrude_start_inv | by apply Hstart |].
  unfold extrude_start in Hrun. rewrite Hrun. cbn [mbind option_bind].
  pose proof Hinv as [Hprefix Hclen Hcounts' Hsel _ _ Hprange Hcrange].
  set (new_points_num := Z.of_nat (length (dst_to_src_points st))).
  set (new_curves_num := Z.of_nat (length (dst_to_src_curves st))).
  destruct (new_offsets_copied new_points_num new_curves_num (ext_curve_counts st))
    as (tail & -> & Htail1 & Htail0); [lia|].
  cbn [mbind option_bind].
  rewrite gather_attributes_Some by (try apply (wf_curve_data _ src_wf); done).
  cbn [mbind option_bind].
  rewrite gather_attributes_Some by (try apply (wf_point_data _ src_wf); done).
  cbn [mbind option_bind]. cbv zeta.
  set (idx := dst_to_src_curves st) in *.
  set (dst3 := set_domain_data Point (<[".selection" := _]> _) _).
  assert (Hcd3 : curve_data dst3 = (λ values, gather_total values idx) <$> curve_data src).
  { unfold dst3. cbn. by rewrite filter_skip_nil, (right_id_L ∅ (∪)). }
  assert (Hpd3 : point_data dst3
                 = <[".selection" := VBool <$> dst_selected st]>
                     ((λ values, gather_total values (dst_to_src_points st))
                        <$> point_data src)).
  { unfold dst3. cbn. by rewrite filter_skip_nil, (right_id_L ∅ (∪)). }
  assert (Hcn3 : curve_num dst3 = new_curves_num) by done.
  assert (Hpn3 : point_num dst3 = new_points_num) by done.
  assert (Hoff3 : curve_offsets dst3
                  = accumulate_counts_to_offsets (ext_curve_counts st ++ tail)) by done.
  clearbody dst3.
  unfold curves_num in *.
  destruct (curve_data src !! "cyclic") as [values|] eqn:Hcyc; cbn [mbind option_bind].
  - (* The source stores the attribute. *)
    destruct (wf_cyclic _ src_wf _ Hcyc) as [l Hl]. rewrite Hl.
    assert (Hlen_l : length l = Z.to_nat (curve_num src)).
    { rewrite <- (length_mapM _ _ _ Hl).
      pose proof (wf_curve_data _ src_wf _ _ Hcyc) as Hv. cbn in Hv. lia. }
    destruct (gather_Some values idx) as (values' & Hvalues' & Hlen').
    { rewrite (wf_curve_data _ src_wf _ _ Hcyc). done. }
    destruct (mapM_gather _ _ _ _ _ Hl Hvalues') as (l' & Hl' & Hbools').
    assert (Hlen_l' : length l' = length idx).
    { rewrite <- (length_mapM _ _ _ Hbools'). done. }
    rewrite (cyclic_stored _ _ _ Hcyc Hl). cbn [VArray_get_if_single default].
    rewrite (cyclic_for_write_stored dst3 values' l').
    2:{ rewrite Hcd3, lookup_fmap, Hcyc. cbn.
        by rewrite (gather_total_Some _ _ _ Hvalues'). }
    2:{ done. }
    unfold Span_drop_front. cbn [start size].
    rewrite Span_write_Some; [| lia | rewrite length_replicate; lia].
    cbn [mbind option_bind].
    eexists st, _, tail. split; [done|]. split; [done|]. split; [done|].
    unfold store_cyclic. cbn [set_domain_data point_num curve_num curve_offsets
                               point_data curve_data].
    split; [done|]. split; [done|]. split; [done|]. split; [by rewrite Hcn3 in *|].
    split; [by rewrite Hcn3 in *|]. split; [done|].
    rewrite Hcd3. subst idx.
    rewrite (gather_total_Some _ _ _ Hl').
    rewrite drop_ge by (rewrite length_replicate; lia). rewrite app_nil_r.
    do 4 f_equal. lia.
  - (* The attribute is not stored. *)
    rewrite (cyclic_absent _ Hcyc). cbn [VArray_get_if_single default].
    cbn [mbind option_bind].
    exists st, dst3, tail. split; [done|]. split; [done|]. split; [done|].
    split; [done|]. split; [done|]. split; [done|]. split; [by rewrite Hcn3 in *|].
    split; [by rewrite Hcn3 in *|]. done.
Qed.

End extrude_assembly.

Section extrude_account.
Import BLI bke greasepencil.

Variable uninitialized : nat → Z.
Variable src : CurvesGeometry.
Hypothesis src_wf : CurvesGeometry_wf src.
Variable points_to_extrude : IndexMask.

Lemma count_true_app (s1 s2 : list bool) :
  count_true (s1 ++ s2) = (count_true s1 + count_true s2)%nat.
Proof. unfold count_true. by rewrite filter_app, length_app. Qed.

Lemma count_true_insert_at (k : nat) (sel : list bool) :
  count_true (take k sel ++ true :: drop k sel) = S (count_true sel).
Proof.
  rewrite <- (take_drop k sel) at 3. rewrite !count_true_app.
  unfold count_true at 2. rewrite filter_cons_True by done. cbn [length].
  fold (count_true (drop k sel)). lia.
Qed.

Lemma count_true_replicate_false (n : nat) : count_true (replicate n false) = 0%nat.
Proof.
  unfold count_true. induction n as [|n IH]; [done|]. cbn [replicate].
  by rewrite filter_cons_False.
Qed.

(** The sizes of the groups of well-formed offsets add up, group after
    group, to the offsets themselves. *)
Lemma copy_group_sizes_total counts :
  copy_group_sizes (points_by_curve src) (curves_range src) = Some counts →
  length counts = Z.to_nat (curve_num src)
  ∧ Forall (λ c, 0 ≤ c) counts
  ∧ (∀ (k : nat) o, (k ≤ length counts)%nat → curve_offsets src !! k = Some o →
       0 < curve_num src → total (take k counts) = o)
  ∧ total counts = point_num src.
Proof.
  intros Hcopy. unfold copy_group_sizes in Hcopy.
  pose proof (length_mapM _ _ _ Hcopy) as Hlen.
  rewrite IndexRange_to_list_length in Hlen. cbn [curves_range size] in Hlen.
  apply mapM_Some in Hcopy.
  assert (Hsize : ∀ (k : nat) c, counts !! k = Some c →
            ∃ b e, curve_offsets src !! k = Some b ∧ curve_offsets src !! S k = Some e
                   ∧ b ≤ e ∧ c = e - b).
  { intros k c Hk.
    destruct (Forall2_lookup_r _ _ _ _ _ Hcopy Hk) as (i & Hi & Hget).
    assert (k < Z.to_nat (curve_num src))%nat as Hklt.
    { apply lookup_lt_Some in Hk. lia. }
    rewrite IndexRange_to_list_lookup in Hi by done. cbn in Hi. simplify_eq.
    destruct (wf_points_by_curve src (Z.of_nat k) src_wf ltac:(lia))
      as (b & e & Hb & He & _ & Hbe & _ & Hget').
    rewrite Nat2Z.id in Hb, He. rewrite Z.add_0_l, Hget' in Hget. cbn in Hget. simplify_eq.
    exists b, e. done. }
  assert (Hpre : ∀ (k : nat) o, (k ≤ length counts)%nat → curve_offsets src !! k = Some o →
            0 < curve_num src → total (take k counts) = o).
  { intros k. induction k as [|k IH]; intros o Hk Ho Hpos.
    - pose proof (wf_offsets_first _ src_wf Hpos) as Hfirst.
      rewrite head_lookup in Hfirst. rewrite take_0. unfold total. cbn. congruence.
    - destruct (lookup_lt_is_Some_2 counts k) as [c Hc]; [lia|].
      destruct (Hsize k c Hc) as (b & e & Hb & He & Hbe & ->).
      rewrite (take_S_r _ _ _ Hc), total_app, (IH b) by (done || lia).
      unfold total. cbn. simplify_eq. lia. }
  split; [lia|]. split; [|split; [done|]].
  - apply Forall_forall. intros c Hc. apply list_elem_of_lookup in Hc as [k Hk].
    destruct (Hsize k c Hk) as (b & e & _ & _ & Hbe & ->). lia.
  - destruct (decide (0 < curve_num src)) as [Hpos|Hzero].
    + pose proof (wf_offsets_last _ src_wf Hpos) as Hlast.
      pose proof (wf_offsets_length _ src_wf Hpos) as Hoff.
      rewrite last_lookup in Hlast.
      replace (pred (length (curve_offsets src))) with (length counts) in Hlast by lia.
      rewrite <- (Hpre (length counts) (point_num src)); [|lia|done|done].
      by rewrite firstn_all.
    + pose proof (wf_curve_num _ src_wf). pose proof (wf_no_curves _ src_wf ltac:(lia)) as ->.
      destruct counts; [done|]. cbn in Hlen. lia.
Qed.

Lemma extrude_account_start counts :
  copy_group_sizes (points_by_curve src) (curves_range src) = Some counts →
  extrude_account src points_to_extrude [] (extrude_start uninitialized src counts).
Proof.
  intros Hcopy.
  destruct (copy_group_sizes_total counts Hcopy) as (Hlen & Hnn & _ & Htotal).
  pose proof (wf_curve_num _ src_wf) as Hcn. pose proof (wf_point_num _ src_wf) as Hpn.
  unfold extrude_start, points_num, curves_num. constructor; cbn [ext_curve_counts
    dst_to_src_points dst_to_src_curves dst_selected length].
  - unfold fill_index_range. rewrite length_fmap, length_seq, Array_uninitialized_length. lia.
  - done.
  - unfold fill_index_range. rewrite !length_fmap, !length_seq, !Array_uninitialized_length.
    lia.
  - unfold fill_index_range. rewrite !length_fmap, !length_seq, !Array_uninitialized_length.
    lia.
  - apply Forall2_same_length_lookup. split.
    + unfold fill_index_range.
      by rewrite length_replicate, length_fmap, length_seq, Array_uninitialized_length.
    + intros k b p Hb _ ->. apply lookup_replicate in Hb as [? _]. done.
  - apply count_true_replicate_false.
  - constructor.
Qed.

Lemma extrude_account_step done st curve_index curve_points curve_cyclic p st' :
  0 ≤ curve_index < curve_num src →
  0 ≤ p < point_num src →
  p ∈ points_to_extrude →
  extrude_inv src st → extrude_account src points_to_extrude done st →
  extrude_point curve_index curve_points curve_cyclic st p = Some st' →
  extrude_account src points_to_extrude (done ++ [p]) st'.
Proof.
  intros Hc Hp Hin Hinv [H1 H2 H3 H4 H5 H6 H7] Hrun.
  assert (Hmono : Forall2 (λ (b : bool) q, b = true → q ∈ done ++ [p])
                    (dst_selected st) (dst_to_src_points st)).
  { eapply Forall2_impl; [exact H5|]. intros b q Hb Ht. apply elem_of_app. left. by apply Hb. }
  apply extrude_point_cases in Hrun
    as [(k & count & Hk1 & Hk2 & Hc0 & Hcount & ->) | ->];
    constructor; cbn [ext_curve_counts dst_to_src_points dst_to_src_curves dst_selected].
  - rewrite (total_insert _ _ count) by done. rewrite length_insert_at. lia.
  - apply Forall_insert; [done|]. rewrite Forall_forall in H2.
    specialize (H2 count (list_elem_of_lookup_2 _ _ _ Hcount)). lia.
  - rewrite length_insert_at, length_app. cbn [length]. lia.
  - rewrite length_app. cbn [length]. lia.
  - apply Forall2_app; [by apply Forall2_take|].
    constructor; [|by apply Forall2_drop]. intros _. apply elem_of_app. right. left.
  - rewrite count_true_insert_at, length_app. cbn [length]. lia.
  - apply Forall_app. split; [done|]. by constructor.
  - rewrite total_app, length_app. unfold total at 2. cbn. lia.
  - apply Forall_app. split; [done|]. repeat constructor. lia.
  - rewrite !length_app. cbn [length]. lia.
  - rewrite !length_app. cbn [length]. lia.
  - apply Forall2_app; [done|]. constructor; [done|]. constructor; [|constructor].
    intros _. apply elem_of_app. right. left.
  - rewrite count_true_app, length_app. change (count_true [false; true]) with 1%nat.
    cbn [length]. lia.
  - apply Forall_app. split; [done|]. by constructor.
Qed.

End extrude_account.

Section extruded_points.
Import BLI bke greasepencil.

(** In an increasing list, the elements of two adjacent intervals are the
    elements of their union, in this order. *)
Lemma filter_interval_app (l : list Z) (a b c : Z) :
  StronglySorted Z.lt l → a ≤ b → b ≤ c →
  filter (λ i, a ≤ i < b) l ++ filter (λ i, b ≤ i < c) l = filter (λ i, a ≤ i < c) l.
Proof.
  intros Hs Hba Hbc. induction Hs as [|x l Hs IH Hx]; [done|].
  destruct (decide (a ≤ x < b)) as [Hab|Hab].
  - rewrite (filter_cons_True (λ i, a ≤ i < b)) by (cbn; done).
    rewrite (filter_cons_False (λ i, b ≤ i < c)) by (cbn; lia).
    rewrite (filter_cons_True (λ i, a ≤ i < c)) by (cbn; lia).
    cbn [app]. by rewrite IH.
  - rewrite (filter_cons_False (λ i, a ≤ i < b)) by (cbn; done).
    destruct (decide (b ≤ x < c)) as [Hbc'|Hbc'].
    + rewrite (filter_cons_True (λ i, b ≤ i < c)) by (cbn; done).
      rewrite (filter_cons_True (λ i, a ≤ i < c)) by (cbn; lia).
      rewrite <- IH.
      rewrite (filter_none (λ i, a ≤ i < b) l); [done|].
      intros y Hy. rewrite Forall_forall in Hx. specialize (Hx y Hy). lia.
    + rewrite (filter_cons_False (λ i, b ≤ i < c)) by (cbn; done).
      rewrite (filter_cons_False (λ i, a ≤ i < c)) by (cbn; lia). done.
Qed.

Variable src : CurvesGeometry.
Hypothesis src_wf : CurvesGeometry_wf src.
Variable points_to_extrude : IndexMask.
Hypothesis mask_wf : IndexMask_wf points_to_extrude.
Hypothesis mask_points : Forall (λ p, p < points_num src) points_to_extrude.

(** The loop visits every point of the mask once, in increasing order. *)
Lemma extruded_points_mask : extruded_points src points_to_extrude = points_to_extrude.
Proof.
  destruct mask_wf as [Hnn Hsorted].
  pose proof (wf_curve_num _ src_wf) as Hcn.
  unfold extruded_points.
  destruct (decide (0 < curve_num src)) as [Hpos|Hzero].
  2:{ pose proof (wf_no_curves _ src_wf ltac:(lia)) as Hp0.
      unfold curves_range. replace (curve_num src) with 0 by lia. cbn.
      destruct points_to_extrude as [|p rest]; [done|].
      apply Forall_cons in Hnn as [? _]. apply Forall_cons in mask_points as [? _].
      unfold points_num in *. lia. }
  assert (Hpre : ∀ (k : nat) o, (k ≤ Z.to_nat (curve_num src))%nat →
            curve_offsets src !! k = Some o →
            IndexRange_to_list {| start := 0; size := Z.of_nat k |} ≫=
              (λ curve_index,
                 match OffsetIndices_get (points_by_curve src) curve_index with
                 | Some curve_points => IndexMask_slice_content points_to_extrude curve_points
                 | None => []
                 end)
            = filter (λ i, 0 ≤ i < o) points_to_extrude).
  { intros k. induction k as [|k IH]; intros o Hk Ho.
    - pose proof (wf_offsets_first _ src_wf Hpos) as Hfirst.
      rewrite head_lookup in Hfirst. assert (o = 0) as -> by congruence.
      cbn. symmetry. apply filter_none. intros; lia.
    - destruct (wf_points_by_curve src (Z.of_nat k) src_wf ltac:(lia))
        as (b & e & Hb & He & Hb0 & Hbe & _ & Hget).
      rewrite Nat2Z.id in Hb, He. assert (e = o) as -> by congruence.
      rewrite Nat2Z.inj_succ, <- Z.add_1_r, IndexRange_to_list_snoc by lia.
      rewrite bind_app, (IH b) by (done || lia).
      cbn [mbind list_bind]. rewrite Z.add_0_l, Hget, app_nil_r.
      unfold IndexMask_slice_content. cbn [start size].
      rewrite (list_filter_iff (λ i, b ≤ i < b + (o - b)) (λ i, b ≤ i < o)) by (intros; lia).
      by apply filter_interval_app. }
  pose proof (wf_offsets_last _ src_wf Hpos) as Hlast.
  pose proof (wf_offsets_length _ src_wf Hpos) as Hoff.
  rewrite last_lookup in Hlast.
  replace (pred (length (curve_offsets src))) with (Z.to_nat (curve_num src)) in Hlast by lia.
  specialize (Hpre (Z.to_nat (curve_num src)) (point_num src) ltac:(lia) Hlast).
  rewrite Z2Nat.id in Hpre by lia. unfold curves_range. rewrite Hpre.
  apply filter_all. intros p Hp. rewrite Forall_forall in Hnn, mask_points.
  specialize (Hnn p Hp). specialize (mask_points p Hp). unfold points_num in *. lia.
Qed.

End extruded_points.

Section extrude_results.
Import BLI bke greasepencil.

Variable uninitialized : nat → Z.
Variable update_curve_types : CurvesGeometry → CurvesGeometry.
Variable src : CurvesGeometry.
Hypothesis src_wf : CurvesGeometry_wf src.
Variable points_to_extrude : IndexMask.

(** The result of extrude together with the account of its loop. *)
Lemma extrude_accounted :
  ∃ st g tail,
    extrude_grease_pencil_curves uninitialized update_curve_types src points_to_extrude
    = Some (update_curve_types g)
    ∧ extrude_inv src st
    ∧ extrude_account src points_to_extrude (extruded_points src points_to_extrude) st
    ∧ point_num g = Z.of_nat (length (dst_to_src_points st))
    ∧ curve_num g = Z.of_nat (length (dst_to_src_curves st))
    ∧ curve_offsets g = accumulate_counts_to_offsets (ext_curve_counts st ++ tail)
    ∧ (0 < curve_num g → length tail = 1%nat)
    ∧ (curve_num g = 0 → tail = [])
    ∧ point_data g
      = <[".selection" := VBool <$> dst_selected st]>
          ((λ values, gather_total values (dst_to_src_points st)) <$> point_data src)
    ∧ (match curve_data src !! "cyclic" ≫= as_bools with
       | Some l =>
           curve_data g
           = <["cyclic" :=
                 VBool <$> (take (Z.to_nat (curve_num src))
                              (gather_total l (dst_to_src_curves st))
                            ++ replicate (length (dst_to_src_curves st)
                                          - Z.to_nat (curve_num src)) false)]>
               ((λ values, gather_total values (dst_to_src_curves st)) <$> curve_data src)
       | None =>
           curve_data g
           = (λ values, gather_total values (dst_to_src_curves st)) <$> curve_data src
       end).
Proof.
  apply (extrude_assembled uninitialized update_curve_types src src_wf points_to_extrude
           (extrude_account src points_to_extrude)).
  - intros done st curve_index curve_points curve_cyclic p st' Hc Hp Hin Hinv Hacc Hrun.
    by eapply extrude_account_step.
  - intros counts Hcopy. by apply extrude_account_start.
Qed.

(** Every extruded point adds one point; the new curves account for the
    other new points. *)
Lemma extrude_counts :
  (∀ g, point_num (update_curve_types g) = point_num g
        ∧ curve_num (update_curve_types g) = curve_num g) →
  IndexMask_wf points_to_extrude →
  Forall (λ p, p < points_num src) points_to_extrude →
  ∃ dst,
    extrude_grease_pencil_curves uninitialized update_curve_types src points_to_extrude
    = Some dst
    ∧ points_num dst
      = points_num src + Z.of_nat (length points_to_extrude)
        + (curves_num dst - curves_num src)
    ∧ curves_num src ≤ curves_num dst
    ∧ curves_num dst ≤ curves_num src + Z.of_nat (length points_to_extrude).
Proof.
  intros Hupd Hwf Hlt.
  destruct extrude_accounted
    as (st & g & tail & Hrun & Hinv & Hacc & Hpn & Hcn & _).
  rewrite (extruded_points_mask src src_wf points_to_extrude Hwf Hlt) in Hacc.
  destruct Hacc as [_ _ Hpoints Hcurves _ _ _].
  pose proof (inv_curves_length _ _ Hinv) as Hlen.
  pose proof (wf_curve_num _ src_wf) as Hnn.
  exists (update_curve_types g). split; [done|].
  destruct (Hupd g) as [Hp Hc]. unfold points_num, curves_num.
  rewrite Hp, Hc, Hpn, Hcn. lia.
Qed.

Lemma gathered_lookup (values : list AttrValue) (indices : list Z) (j : nat) p :
  Forall (λ i, 0 ≤ i < Z.of_nat (length values)) indices →
  indices !! j = Some p →
  gather_total values indices !! j = values !! Z.to_nat p.
Proof.
  intros Hrange Hj.
  destruct (gather_Some values indices Hrange) as (r & Hr & _).
  rewrite (gather_total_Some _ _ _ Hr).
  by destruct (gather_lookup _ _ _ _ _ Hr Hj) as [_ ->].
Qed.

Lemma gathered_length {A : Type} (values : list A) (indices : list Z) :
  Forall (λ i, 0 ≤ i < Z.of_nat (length values)) indices →
  length (gather_total values indices) = length indices.
Proof.
  intros Hrange. destruct (gather_Some values indices Hrange) as (r & Hr & Hlen).
  by rewrite (gather_total_Some _ _ _ Hr).
Qed.

(** The points the result selects are the copies made of the extruded
    points. *)
Lemma extrude_selection :
  (∀ g, point_num (update_curve_types g) = point_num g
        ∧ point_data (update_curve_types g) = point_data g) →
  IndexMask_wf points_to_extrude →
  Forall (λ p, p < points_num src) points_to_extrude →
  ∃ dst selection dst_to_src_points,
    extrude_grease_pencil_curves uninitialized update_curve_types src points_to_extrude
    = Some dst
    ∧ point_data dst !! ".selection" = Some (VBool <$> selection)
    ∧ Z.of_nat (length selection) = points_num dst
    ∧ length dst_to_src_points = length selection
    ∧ length (filter (λ b, b = true) selection) = length points_to_extrude
    ∧ (∀ (j : nat) p, dst_to_src_points !! j = Some p →
         0 ≤ p < points_num src
         ∧ (selection !! j = Some true → p ∈ points_to_extrude))
    ∧ (∀ name values, name ≠ ".selection" → point_data src !! name = Some values →
         ∃ values', point_data dst !! name = Some values'
           ∧ length values' = length selection
           ∧ ∀ (j : nat) p, dst_to_src_points !! j = Some p →
               values' !! j = values !! Z.to_nat p).
Proof.
  intros Hupd Hwf Hlt.
  destruct extrude_accounted
    as (st & g & tail & Hrun & Hinv & Hacc & Hpn & Hcn & _ & _ & _ & Hpd & _).
  rewrite (extruded_points_mask src src_wf points_to_extrude Hwf Hlt) in Hacc.
  destruct Hacc as [_ _ _ _ Hsel Hcount _].
  pose proof (inv_selected_length _ _ Hinv) as Hsl.
  pose proof (inv_points_range _ _ Hinv) as Hpr.
  destruct (Hupd g) as [Hp Hd].
  exists (update_curve_types g), (dst_selected st), (dst_to_src_points st).
  split; [done|]. split; [by rewrite Hd, Hpd, lookup_insert_eq|].
  split; [unfold points_num; rewrite Hp, Hpn; lia|]. split; [done|].
  split; [exact Hcount|]. split.
  - intros j p Hj. split.
    + rewrite Forall_forall in Hpr. apply (Hpr p). by eapply list_elem_of_lookup_2.
    + intros Hs. by apply (Forall2_lookup_lr _ _ _ _ _ _ Hsel Hs Hj).
  - intros name values Hname Hv.
    pose proof (wf_point_data _ src_wf _ _ Hv) as Hlen. cbn in Hlen.
    assert (Hrange : Forall (λ i, 0 ≤ i < Z.of_nat (length values)) (dst_to_src_points st)).
    { by rewrite Hlen. }
    exists (gather_total values (dst_to_src_points st)).
    split; [|split].
    + rewrite Hd, Hpd, lookup_insert_ne by done. by rewrite lookup_fmap, Hv.
    + rewrite gathered_length by done. done.
    + intros j p Hj. by apply gathered_lookup.
Qed.

End extrude_results.

Section well_formed_extrusion.
Import BLI bke greasepencil.

Variable uninitialized : nat → Z.
Variable update_curve_types : CurvesGeometry → CurvesGeometry.
Variable src : CurvesGeometry.
Hypothesis src_wf : CurvesGeometry_wf src.
Variable points_to_extrude : IndexMask.

(** The geometry that extrude assembles is well formed. *)
Lemma extrude_assembled_wf :
  ∃ g,
    extrude_grease_pencil_curves uninitialized update_curve_types src points_to_extrude
    = Some (update_curve_types g)
    ∧ CurvesGeometry_wf g.
Proof.
  destruct (extrude_accounted uninitialized update_curve_types src src_wf points_to_extrude)
    as (st & g & tail & Hrun & Hinv & Hacc & Hpn & Hcn & Hoff & Htail1 & Htail0 & Hpd & Hcd).
  exists g. split; [done|].
  destruct Hacc as [Htotal Hnn _ _ _ _ _].
  destruct Hinv as [_ Hclen Hcounts Hsel _ _ Hprange Hcrange].
  pose proof (wf_curve_num _ src_wf) as Hcn0.
  assert (Hoffsets : 0 < curve_num g →
            length (curve_offsets g) = S (length (ext_curve_counts st))
            ∧ head (curve_offsets g) = Some 0
            ∧ last (curve_offsets g) = Some (point_num g)
            ∧ StronglySorted Z.le (curve_offsets g)).
  { intros Hpos. destruct tail as [|x [|? ?]]; try (specialize (Htail1 Hpos); done).
    rewrite Hoff. unfold accumulate_counts_to_offsets.
    destruct (accumulate_from_spec (ext_curve_counts st) 0 x Hnn)
      as (H1 & H2 & H3 & H4 & _).
    split; [done|]. split; [done|]. split; [|done].
    rewrite H3, Hpn, <- Htotal. done. }
  constructor.
  - lia.
  - lia.
  - intros Hzero. rewrite Hpn, <- Htotal.
    destruct (ext_curve_counts st); [done|]. cbn [length] in Hcounts. lia.
  - intros Hpos. destruct (Hoffsets Hpos) as (H1 & _). lia.
  - intros Hpos. by destruct (Hoffsets Hpos) as (_ & H2 & _).
  - intros Hpos. by destruct (Hoffsets Hpos) as (_ & _ & H3 & _).
  - destruct (decide (0 < curve_num g)) as [Hpos|Hzero].
    + by destruct (Hoffsets Hpos) as (_ & _ & _ & H4).
    + rewrite Hoff, (Htail0 ltac:(lia)).
      destruct (ext_curve_counts st); [constructor|]. cbn [length] in Hcounts. lia.
  - rewrite Hpd. apply map_Forall_insert_2.
    + rewrite length_fmap. lia.
    + apply map_Forall_fmap. intros name values Hv. cbn.
      pose proof (wf_point_data _ src_wf _ _ Hv) as Hlen. cbn in Hlen.
      rewrite gathered_length by (by rewrite Hlen). lia.
  - assert (Hgathered :
      map_Forall (λ _ values, Z.of_nat (length values) = curve_num g)
        ((λ values, gather_total values (dst_to_src_curves st)) <$> curve_data src)).
    { apply map_Forall_fmap. intros name values Hv. cbn.
      pose proof (wf_curve_data _ src_wf _ _ Hv) as Hlen. cbn in Hlen.
      rewrite gathered_length by (by rewrite Hlen). lia. }
    destruct (curve_data src !! "cyclic" ≫= as_bools) as [l|] eqn:Hl; rewrite Hcd; [|done].
    apply map_Forall_insert_2; [|done].
    destruct (curve_data src !! "cyclic") as [values|] eqn:Hv; [|done].
    cbn in Hl.
    pose proof (wf_curve_data _ src_wf _ _ Hv) as Hlen. cbn in Hlen.
    rewrite length_fmap, length_app, length_take, length_replicate.
    rewrite gathered_length.
    2:{ rewrite <- (length_mapM _ _ _ Hl). by rewrite Hlen. }
    lia.
  - intros values Hv.
    destruct (curve_data src !! "cyclic") as [values0|] eqn:Hv0.
    + destruct (wf_cyclic _ src_wf _ Hv0) as [l Hl]. cbn in Hcd. rewrite Hl in Hcd.
      rewrite Hcd, lookup_insert_eq in Hv. simplify_eq.
      rewrite as_bools_fmap. by eexists.
    + cbn in Hcd. rewrite Hcd, lookup_fmap, Hv0 in Hv. done.
Qed.

End well_formed_extrusion.

Section empty_extrusion.
Import BLI bke greasepencil.

Variable uninitialized : nat → Z.
Variable update_curve_types : CurvesGeometry → CurvesGeometry.
Variable src : CurvesGeometry.
Hypothesis src_wf : CurvesGeometry_wf src.

Lemma gather_identity {A B : Type} (values : list A) (junk : list B) :
  length junk = length values →
  gather_total values (fill_index_range junk) = values.
Proof.
  intros Hlen.
  destruct (gather_Some values (fill_index_range junk)) as (r & Hr & Hlenr).
  { unfold fill_index_range. rewrite Forall_fmap, Forall_forall.
    intros k Hk. apply elem_of_seq in Hk. cbn. lia. }
  rewrite (gather_total_Some _ _ _ Hr).
  unfold fill_index_range in *. rewrite length_fmap, length_seq in Hlenr.
  apply list_eq_same_length with (length values); [done | lia |].
  intros k x y Hk Hx Hy.
  assert (Hidx : (Z.of_nat <$> seq 0 (length junk)) !! k = Some (Z.of_nat k)).
  { rewrite list_lookup_fmap, lookup_seq_lt by lia. done. }
  destruct (gather_lookup _ _ _ _ _ Hr Hidx) as [_ Hrk].
  rewrite Nat2Z.id in Hrk. congruence.
Qed.

Lemma as_bools_inv (values : list AttrValue) (l : list bool) :
  as_bools values = Some l → values = VBool <$> l.
Proof.
  unfold as_bools. intros Hl. apply mapM_Some in Hl.
  induction Hl as [|v b vs bs Hv Hvs IHvs]; [done|].
  destruct v; cbn in Hv; by simplify_eq.
Qed.

(** Extruding no point gives back the points and the curves with their
    attributes; the selection is emptied. *)
Lemma extrude_empty_mask_spec :
  ∃ g,
    extrude_grease_pencil_curves uninitialized update_curve_types src []
    = Some (update_curve_types g)
    ∧ point_num g = point_num src
    ∧ curve_num g = curve_num src
    ∧ (0 < curve_num src → curve_offsets g = curve_offsets src)
    ∧ curve_data g = curve_data src
    ∧ point_data g
      = <[".selection" := VBool <$> replicate (Z.to_nat (point_num src)) false]>
          (point_data src).
Proof.
  pose proof (wf_curve_num _ src_wf) as Hcn0. pose proof (wf_point_num _ src_wf) as Hpn0.
  destruct (extrude_assembled uninitialized update_curve_types src src_wf []
              (λ _ st, ∃ counts,
                 copy_group_sizes (points_by_curve src) (curves_range src) = Some counts
                 ∧ st = extrude_start uninitialized src counts))
    as (st & g & tail & Hrun & _ & (counts & Hcopy & ->) & Hpn & Hcn & Hoff & Htail1 & _
        & Hpd & Hcd).
  { intros done st curve_index curve_points curve_cyclic p st' _ _ Hin. by apply elem_of_nil in Hin. }
  { intros counts Hcopy. by exists counts. }
  destruct (copy_group_sizes_total src src_wf counts Hcopy) as (Hlen & Hnn & Hpre & Htotal).
  unfold extrude_start, points_num, curves_num in *.
  cbn [dst_to_src_points dst_to_src_curves dst_selected ext_curve_counts] in *.
  assert (Hlp : length (fill_index_range (Array_uninitialized uninitialized (point_num src)))
                = Z.to_nat (point_num src)).
  { unfold fill_index_range. by rewrite length_fmap, length_seq, Array_uninitialized_length. }
  assert (Hlc : length (fill_index_range (Array_uninitialized uninitialized (curve_num src)))
                = Z.to_nat (curve_num src)).
  { unfold fill_index_range. by rewrite length_fmap, length_seq, Array_uninitialized_length. }
  exists g. split; [done|]. split; [lia|]. split; [lia|]. split; [|split].
  - intros Hpos. rewrite Hoff.
    destruct tail as [|x [|? ?]]; try (specialize (Htail1 ltac:(lia)); done).
    unfold accumulate_counts_to_offsets.
    destruct (accumulate_from_spec counts 0 x Hnn) as (H1 & _ & _ & _ & _ & Hlook).
    pose proof (wf_offsets_length _ src_wf Hpos) as Hol.
    apply list_eq_same_length with (S (length counts)); [lia | done |].
    intros k o o' Hk Ho Ho'. rewrite Hlook in Ho by lia.
    rewrite (Hpre k o') in Ho by (done || lia). by simplify_eq.
  - assert (Hsame : (λ values, gather_total values
                       (fill_index_range (Array_uninitialized uninitialized (curve_num src))))
                    <$> curve_data src = curve_data src).
    { rewrite <- (map_fmap_id (curve_data src)) at 2. apply map_fmap_ext.
      intros name values Hv. cbn. apply gather_identity.
      rewrite Array_uninitialized_length.
      pose proof (wf_curve_data _ src_wf _ _ Hv) as Hl. cbn in Hl. lia. }
    destruct (curve_data src !! "cyclic") as [values|] eqn:Hv; cbn in Hcd.
    + destruct (wf_cyclic _ src_wf _ Hv) as [l Hl]. rewrite Hl in Hcd.
      rewrite Hcd, Hsame, Hlc.
      rewrite gather_identity.
      2:{ rewrite Array_uninitialized_length, <- (length_mapM _ _ _ Hl).
          pose proof (wf_curve_data _ src_wf _ _ Hv) as Hl'. cbn in Hl'. lia. }
      rewrite Nat.sub_diag. cbn [replicate]. rewrite app_nil_r.
      rewrite take_ge.
      2:{ rewrite <- (length_mapM _ _ _ Hl).
          pose proof (wf_curve_data _ src_wf _ _ Hv) as Hl'. cbn in Hl'. lia. }
      apply insert_id. by rewrite <- (as_bools_inv _ _ Hl).
    + by rewrite Hcd, Hsame.
  - rewrite Hpd. f_equal.
    rewrite <- (map_fmap_id (point_data src)) at 2. apply map_fmap_ext.
    intros name values Hv. cbn. apply gather_identity.
    rewrite Array_uninitialized_length.
    pose proof (wf_point_data _ src_wf _ _ Hv) as Hl. cbn in Hl. lia.
Qed.

End empty_extrusion.

(** X5. For a well-formed source and a mask of its points,
    [extrude_grease_pencil_curves] adds one point for every extruded point
    and, besides, one point for every curve it adds: the number of points of
    the result is the number of source points plus the size of the mask plus
    the number of new curves, and there are at most as many new curves as
    extruded points. *)
Theorem extrude_point_and_curve_counts
    (uninitialized : nat → Z) (update_curve_types : bke.CurvesGeometry → bke.CurvesGeometry)
    (src : bke.CurvesGeometry) (points_to_extrude : BLI.IndexMask) :
  (∀ g, bke.point_num (update_curve_types g) = bke.point_num g
        ∧ bke.curve_num (update_curve_types g) = bke.curve_num g) →
  bke.CurvesGeometry_wf src →
  BLI.IndexMask_wf points_to_extrude →
  Forall (λ p, p < bke.points_num src) points_to_extrude →
  ∃ dst,
    greasepencil.extrude_grease_pencil_curves uninitialized update_curve_types src
      points_to_extrude = Some dst
    ∧ bke.points_num dst
      = bke.points_num src + Z.of_nat (length points_to_extrude)
        + (bke.curves_num dst - bke.curves_num src)
    ∧ bke.curves_num src ≤ bke.curves_num dst
    ∧ bke.curves_num dst ≤ bke.curves_num src + Z.of_nat (length points_to_extrude).
Proof. intros Hupd Hwf Hmask Hlt. by apply extrude_counts. Qed.

Lemma extrude_point_and_curve_counts_witness :
  bke.CurvesGeometry_wf examples.two_strokes
  ∧ BLI.IndexMask_wf [0; 2]
  ∧ ∃ dst,
      greasepencil.extrude_grease_pencil_curves (λ _, -7) id examples.two_strokes [0; 2]
      = Some dst
      ∧ bke.points_num dst = 7 + 2 + (bke.curves_num dst - 2)
      ∧ 2 ≤ bke.curves_num dst
      ∧ bke.curves_num dst ≤ 2 + 2.
Proof.
  assert (BLI.IndexMask_wf [0; 2]) as Hwf.
  { split; repeat constructor; lia. }
  split; [exact two_strokes_wf|]. split; [exact Hwf|].
  apply (extrude_point_and_curve_counts (λ _, -7) id examples.two_strokes [0; 2]).
  - done.
  - exact two_strokes_wf.
  - exact Hwf.
  - repeat constructor; cbn; lia.
Defined.

(** X6. [extrude_grease_pencil_curves] returns a well-formed geometry for
    every well-formed source and every mask: the offsets of the result start
    at zero, do not decrease and end at its number of points, and every
    attribute array has the size of its domain; provided
    [update_curve_types], which is called last, keeps a geometry well
    formed. *)
Theorem extrude_well_formed
    (uninitialized : nat → Z) (update_curve_types : bke.CurvesGeometry → bke.CurvesGeometry)
    (src : bke.CurvesGeometry) (points_to_extrude : BLI.IndexMask) :
  (∀ g, bke.CurvesGeometry_wf g → bke.CurvesGeometry_wf (update_curve_types g)) →
  bke.CurvesGeometry_wf src →
  ∃ dst,
    greasepencil.extrude_grease_pencil_curves uninitialized update_curve_types src
      points_to_extrude = Some dst
    ∧ bke.CurvesGeometry_wf dst.
Proof.
  intros Hupd Hwf.
  destruct (extrude_assembled_wf uninitialized update_curve_types src Hwf points_to_extrude)
    as (g & Hrun & Hg).
  exists (update_curve_types g). split; [done|]. by apply Hupd.
Qed.

Lemma extrude_well_formed_witness :
  bke.CurvesGeometry_wf examples.two_strokes
  ∧ ∃ dst,
      greasepencil.extrude_grease_pencil_curves (λ _, -7) id examples.two_strokes [0; 2]
      = Some dst
      ∧ bke.CurvesGeometry_wf dst.
Proof.
  split; [exact two_strokes_wf|].
  apply (extrude_well_formed (λ _, -7) id examples.two_strokes [0; 2]).
  - done.
  - exact two_strokes_wf.
Defined.

(** X7. In the result of [extrude_grease_pencil_curves] the selection
    attribute is stored on the points and selects as many points as were
    extruded; every point of the result is a copy of a source point, a
    selected one the copy of an extruded point, and every other point
    attribute of the source holds at a point of the result the value it had
    at the source point. *)
Theorem extrude_selects_the_copies
    (uninitialized : nat → Z) (update_curve_types : bke.CurvesGeometry → bke.CurvesGeometry)
    (src : bke.CurvesGeometry) (points_to_extrude : BLI.IndexMask) :
  (∀ g, bke.point_num (update_curve_types g) = bke.point_num g
        ∧ bke.point_data (update_curve_types g) = bke.point_data g) →
  bke.CurvesGeometry_wf src →
  BLI.IndexMask_wf points_to_extrude →
  Forall (λ p, p < bke.points_num src) points_to_extrude →
  ∃ dst selection dst_to_src_points,
    greasepencil.extrude_grease_pencil_curves uninitialized update_curve_types src
      points_to_extrude = Some dst
    ∧ bke.point_data dst !! ".selection" = Some (bke.VBool <$> selection)
    ∧ Z.of_nat (length selection) = bke.points_num dst
    ∧ length dst_to_src_points = length selection
    ∧ length (filter (λ b, b = true) selection) = length points_to_extrude
    ∧ (∀ (j : nat) p, dst_to_src_points !! j = Some p →
         0 ≤ p < bke.points_num src
         ∧ (selection !! j = Some true → p ∈ points_to_extrude))
    ∧ (∀ name values, name ≠ ".selection" → bke.point_data src !! name = Some values →
         ∃ values', bke.point_data dst !! name = Some values'
           ∧ length values' = length selection
           ∧ ∀ (j : nat) p, dst_to_src_points !! j = Some p →
               values' !! j = values !! Z.to_nat p).
Proof. intros Hupd Hwf Hmask Hlt. by apply extrude_selection. Qed.

Lemma extrude_selects_the_copies_witness :
  bke.CurvesGeometry_wf examples.two_strokes
  ∧ BLI.IndexMask_wf [0; 2]
  ∧ ∃ dst selection,
      greasepencil.extrude_grease_pencil_curves (λ _, -7) id examples.two_strokes [0; 2]
      = Some dst
      ∧ bke.point_data dst !! ".selection" = Some (bke.VBool <$> selection)
      ∧ length (filter (λ b, b = true) selection) = 2%nat.
Proof.
  assert (BLI.IndexMask_wf [0; 2]) as Hwf.
  { split; repeat constructor; lia. }
  split; [exact two_strokes_wf|]. split; [exact Hwf|].
  destruct (extrude_selects_the_copies (λ _, -7) id examples.two_strokes [0; 2])
    as (dst & selection & pts & Hrun & Hsel & _ & _ & Hcount & _).
  - done.
  - exact two_strokes_wf.
  - exact Hwf.
  - repeat constructor; cbn; lia.
  - exists dst, selection. split; [exact Hrun|]. split; [exact Hsel|exact Hcount].
Defined.

(** X8. With an empty mask, [extrude_grease_pencil_curves] gives back the
    points and the curves of a well-formed source, with the same offsets and
    the same curve and point attributes, except that the selection attribute
    of the points is stored and false everywhere; [update_curve_types] is
    then applied to this geometry. *)
Theorem extrude_nothing
    (uninitialized : nat → Z) (update_curve_types : bke.CurvesGeometry → bke.CurvesGeometry)
    (src : bke.CurvesGeometry) :
  bke.CurvesGeometry_wf src →
  ∃ g,
    greasepencil.extrude_grease_pencil_curves uninitialized update_curve_types src []
    = Some (update_curve_types g)
    ∧ bke.point_num g = bke.point_num src
    ∧ bke.curve_num g = bke.curve_num src
    ∧ (0 < bke.curve_num src → bke.curve_offsets g = bke.curve_offsets src)
    ∧ bke.curve_data g = bke.curve_data src
    ∧ bke.point_data g
      = <[".selection" := bke.VBool <$> replicate (Z.to_nat (bke.point_num src)) false]>
          (bke.point_data src).
Proof. intros Hwf. by apply extrude_empty_mask_spec. Qed.

Lemma extrude_nothing_witness :
  bke.CurvesGeometry_wf examples.two_strokes
  ∧ ∃ g,
      greasepencil.extrude_grease_pencil_curves (λ _, -7) id examples.two_strokes []
      = Some g
      ∧ bke.curve_offsets g = [0; 5; 7]
      ∧ bke.curve_data g = bke.curve_data examples.two_strokes.
Proof.
  split; [exact two_strokes_wf|].
  destruct (extrude_nothing (λ _, -7) id examples.two_strokes two_strokes_wf)
    as (g & Hrun & _ & _ & Hoff & Hcd & _).
  exists g. split; [exact Hrun|]. split; [|exact Hcd].
  apply Hoff. reflexivity.
Defined.

(* ===================================================================== *)
(** * More on [remove_points_and_split]                                  *)
(* ===================================================================== *)

Section split_account.
Import BLI bke greasepencil.

(** What a loop that has ended keeps of a property its rounds keep. *)
Lemma foldlM_preserves {A B : Type} (f : B → A → option B) (P : B → Prop) (l : list A) :
  ∀ b b',
  (∀ b x b', x ∈ l → P b → f b x = Some b' → P b') →
  P b → foldlM f b l = Some b' → P b'.
Proof.
  induction l as [|x l IH]; intros b b' Hstep Hb Hrun; cbn [foldlM] in Hrun.
  - by simplify_eq.
  - destruct (f b x) as [b1|] eqn:Hb1; [|done]. cbn [mbind option_bind] in Hrun.
    apply (IH b1 b'); [|by eapply Hstep; [left|..]|done].
    intros b0 y b0' Hy. apply Hstep. by right.
Qed.

(** The ranges found are not empty. *)
Lemma find_all_ranges_from_sizes value span i len :
  0 ≤ len → Forall (λ r, 0 < size r) (find_all_ranges_from value span i len).
Proof.
  revert i len. induction span as [|b span IH]; intros i len Hlen; cbn [find_all_ranges_from].
  - case_decide; repeat constructor. done.
  - case_decide.
    + apply IH. lia.
    + apply Forall_app. split; [|by apply IH].
      case_decide; repeat constructor. done.
Qed.

Lemma find_all_ranges_sizes span value : Forall (λ r, 0 < size r) (find_all_ranges span value).
Proof. by apply find_all_ranges_from_sizes. Qed.

(** An array all of whose positions hold the value holds nothing else. *)
Lemma positions_of_length value span i :
  (length (positions_of value span i) ≤ length span)%nat
  ∧ (length (positions_of value span i) = length span → Forall (λ b, b = value) span).
Proof.
  revert i. induction span as [|b span IH]; intros i; cbn [positions_of length].
  - split; [lia|]. constructor.
  - destruct (IH (i + 1)) as [Hle Hall]. rewrite length_app.
    case_decide; cbn [length].
    + split; [lia|]. intros Hlen. constructor; [done|]. apply Hall. lia.
    + split; [lia|]. intros Hlen. lia.
Qed.

(** A single kept range that covers the curve: no point of the curve is
    deleted. *)
Lemma whole_range_kept (span : list bool) (r : IndexRange) :
  find_all_ranges span false = [r] →
  IndexRange_first r = 0 → IndexRange_last r 0 = Z.of_nat (length span) - 1 →
  Forall (λ b, b = false) span.
Proof.
  intros Hranges Hfirst Hlast.
  pose proof (find_all_ranges_from_concat false span 0 0 ltac:(lia)) as Hconcat.
  fold (find_all_ranges span false) in Hconcat. rewrite Hranges in Hconcat.
  cbn [fmap list_fmap concat] in Hconcat. rewrite app_nil_r in Hconcat.
  replace (IndexRange_to_list {| start := 0 - 0; size := 0 |}) with (@nil Z) in Hconcat by done.
  cbn [app] in Hconcat.
  apply (proj2 (positions_of_length false span 0)).
  rewrite <- Hconcat, IndexRange_to_list_length.
  unfold IndexRange_first, IndexRange_last in *. lia.
Qed.

Lemma write_src_points_account range st st' :
  write_src_points range st = Some st' →
  curr_dst_point_id st' = curr_dst_point_id st + Z.of_nat (length (IndexRange_to_list range))
  ∧ dst_curve_counts st' = dst_curve_counts st
  ∧ dst_to_src_curve st' = dst_to_src_curve st
  ∧ dst_cyclic st' = dst_cyclic st.
Proof.
  unfold write_src_points. generalize (IndexRange_to_list range). intros R.
  revert st. induction R as [|x R IH]; intros st Hrun; cbn [foldlM] in Hrun.
  - simplify_eq. cbn [length]. split; [lia|done].
  - destruct (Array_set (dst_to_src_point st) (curr_dst_point_id st) x) as [a|]; [|done].
    cbn [mbind option_bind] in Hrun.
    destruct (IH _ Hrun) as (H1 & H2 & H3 & H4).
    cbn [curr_dst_point_id dst_curve_counts dst_to_src_curve dst_cyclic length] in *.
    split; [lia|done].
Qed.

Lemma split_range_account curve_i points ranges joined is_cyclic st range_i st' :
  Forall (λ r, 0 < size r) ranges →
  split_range curve_i points ranges joined is_cyclic st range_i = Some st' →
  ∃ count,
    0 < count
    ∧ curr_dst_point_id st' = curr_dst_point_id st + count
    ∧ dst_curve_counts st' = dst_curve_counts st ++ [count]
    ∧ dst_to_src_curve st' = dst_to_src_curve st ++ [curve_i]
    ∧ dst_cyclic st' = dst_cyclic st ++ [is_cyclic].
Proof.
  intros Hsizes Hrun. unfold split_range in Hrun.
  destruct (Array_get ranges range_i) as [range|] eqn:Hrange; [|done].
  cbn [mbind option_bind] in Hrun.
  assert (Hpos : ∀ r i, Array_get ranges i = Some r → 0 < size r).
  { intros r i Hr. apply Array_get_Some in Hr as [_ Hr].
    rewrite Forall_forall in Hsizes. apply Hsizes. by eapply list_elem_of_lookup_2. }
  pose proof (Hpos _ _ Hrange) as Hsize.
  destruct (write_src_points (IndexRange_shift range (IndexRange_first points)) st)
    as [st1|] eqn:Hst1; [|done].
  cbn [mbind option_bind] in Hrun.
  apply write_src_points_account in Hst1 as (H1 & H2 & H3 & H4).
  rewrite IndexRange_to_list_length in H1. cbn [IndexRange_shift size] in H1.
  destruct (joined && bool_decide (range_i = IndexRange_last (index_range ranges) 0)).
  - destruct (Array_get ranges (IndexRange_first (index_range ranges)))
      as [first_range|] eqn:Hfirst; [|done].
    cbn [mbind option_bind] in Hrun.
    pose proof (Hpos _ _ Hfirst) as Hsize1.
    destruct (write_src_points (IndexRange_shift first_range (IndexRange_first points)) st1)
      as [st2|] eqn:Hst2; [|done].
    cbn [mbind option_bind] in Hrun.
    apply write_src_points_account in Hst2 as (G1 & G2 & G3 & G4).
    rewrite IndexRange_to_list_length in G1. cbn [IndexRange_shift size] in G1.
    simplify_eq. cbn [curr_dst_point_id dst_curve_counts dst_to_src_curve dst_cyclic].
    exists (size range + size first_range).
    split; [lia|]. split; [lia|]. by rewrite G2, G3, G4, H2, H3, H4.
  - cbn [mbind option_bind] in Hrun. simplify_eq.
    cbn [curr_dst_point_id dst_curve_counts dst_to_src_curve dst_cyclic].
    exists (size range). split; [lia|]. split; [lia|]. by rewrite H2, H3, H4.
Qed.

Lemma split_curve_account curves points_to_delete st curve_i st' :
  split_curve (points_by_curve curves) (cyclic curves) points_to_delete st curve_i = Some st' →
  split_account curves points_to_delete st →
  split_account curves points_to_delete st'.
Proof.
  intros Hrun Hacc. unfold split_curve in Hrun.
  destruct (OffsetIndices_get (points_by_curve curves) curve_i) as [points|] eqn:Hpoints;
    [|done].
  cbn [mbind option_bind] in Hrun.
  destruct (Span_slice points_to_delete points) as [slice|] eqn:Hslice; [|done].
  cbn [mbind option_bind] in Hrun.
  destruct (VArray_get (cyclic curves) curve_i) as [curve_cyclic|] eqn:Hcyclic; [|done].
  cbn [mbind option_bind] in Hrun.
  pose proof (find_all_ranges_sizes slice false) as Hsizes.
  set (ranges := find_all_ranges slice false) in *.
  destruct (decide (ranges = [])) as [Hnil|Hnil]; [by simplify_eq|].
  destruct (head ranges) as [first_range|] eqn:Hhead; [|done].
  cbn [mbind option_bind] in Hrun.
  destruct (last ranges) as [last_range|] eqn:Hlast; [|done].
  cbn [mbind option_bind] in Hrun.
  set (is_last_segment_selected :=
         curve_cyclic && bool_decide (IndexRange_first first_range = 0)
         && bool_decide (IndexRange_last last_range 0 = size points - 1)) in *.
  set (is_cyclic := bool_decide (length ranges = 1%nat) && is_last_segment_selected) in *.
  assert (Hwhole : is_cyclic = true →
            VArray_get (cyclic curves) curve_i = Some true
            ∧ ∃ points slice,
                OffsetIndices_get (points_by_curve curves) curve_i = Some points
                ∧ Span_slice points_to_delete points = Some slice
                ∧ Forall (λ b, b = false) slice).
  { intros Hc. unfold is_cyclic, is_last_segment_selected in Hc.
    apply andb_true_iff in Hc as [Hone Hc]. apply andb_true_iff in Hc as [Hc Hl].
    apply andb_true_iff in Hc as [Hcc Hf].
    apply bool_decide_eq_true in Hone, Hf, Hl. subst curve_cyclic.
    split; [done|]. exists points, slice. split; [done|]. split; [done|].
    destruct ranges as [|r [|? ?]] eqn:Hr; try done.
    cbn in Hhead, Hlast. simplify_eq.
    apply (whole_range_kept slice first_range); [done | done |].
    rewrite Hl. unfold Span_slice in Hslice. case_decide; [|done]. simplify_eq.
    rewrite length_take, length_drop. lia. }
  revert Hrun. apply foldlM_preserves; [|done].
  intros st0 range_i st1 _ [A1 A2 A3] Hstep.
  destruct (split_range_account _ _ _ _ _ _ _ _ Hsizes Hstep)
    as (count & Hcount & G1 & G2 & G3 & G4).
  constructor.
  - rewrite G1, G2, total_app. unfold total at 2. cbn. lia.
  - rewrite G2. apply Forall_app. split; [done|]. by repeat constructor.
  - rewrite G3, G4. apply Forall2_app; [done|]. constructor; [exact Hwhole|constructor].
Qed.

End split_account.

Section split_assembly.
Import BLI bke greasepencil.

Variable uninitialized : nat → Z.
Variables update_curve_types remove_attributes_based_on_types : CurvesGeometry → CurvesGeometry.
Variable curves : CurvesGeometry.
Hypothesis curves_wf : CurvesGeometry_wf curves.
Variable mask : IndexMask.
Hypothesis mask_points : Forall (λ i, 0 ≤ i < points_num curves) mask.

(** What [remove_points_and_split] returns when some point is kept, in terms
    of the state in which its loop ends. *)
Lemma split_assembled :
  let n := Z.to_nat (point_num curves) in
  kept mask 0 n ≠ [] →
  ∃ st g tail W,
    remove_points_and_split uninitialized update_curve_types
      remove_attributes_based_on_types curves mask
    = Some (remove_attributes_based_on_types (update_curve_types g))
    ∧ split_account curves (mask_bools mask n) st
    ∧ curves_inv curves st
    ∧ curr_dst_point_id st = Z.of_nat (length W)
    ∧ W ≡ₚ kept mask 0 n
    ∧ point_num g = Z.of_nat (length W)
    ∧ curve_num g = Z.of_nat (length (dst_to_src_curve st))
    ∧ curve_offsets g = accumulate_counts_to_offsets (dst_curve_counts st ++ tail)
    ∧ (0 < curve_num g → length tail = 1%nat)
    ∧ (curve_num g = 0 → tail = [])
    ∧ point_data g = (λ values, gather_total values W) <$> point_data curves
    ∧ curve_data g
      = <["cyclic" := VBool <$> dst_cyclic st]>
          ((λ values, gather_total values (dst_to_src_curve st))
             <$> filter (λ kv, kv.1 ∉ ["cyclic"]) (curve_data curves)).
Proof.
  intros n Hkept. unfold points_num in *.
  pose proof (wf_point_num _ curves_wf) as Hpn.
  assert (Hn : point_num curves = Z.of_nat n) by (unfold n; lia).
  rewrite Hn in mask_points.
  unfold remove_points_and_split, points_num.
  fold n. rewrite to_bools_Some by done. cbn [mbind option_bind].
  rewrite Span_count_mask_bools.
  rewrite decide_False.
  2:{ destruct (kept mask 0 n); [done|]. cbn [length]. lia. }
  assert (Hcurves : 0 < curve_num curves).
  { pose proof (wf_curve_num _ curves_wf). pose proof (wf_no_curves _ curves_wf) as H0.
    destruct (decide (curve_num curves = 0)) as [Hc|]; [|lia].
    specialize (H0 Hc). assert (n = 0%nat) as Hn0 by lia.
    rewrite Hn0 in Hkept. done. }
  set (total_points := Z.of_nat (length (kept mask 0 n))) in *.
  set (J := Array_uninitialized uninitialized total_points).
  assert (HJ : length J = length (kept mask 0 n)).
  { unfold J. rewrite Array_uninitialized_length. unfold total_points. lia. }
  pose proof (wf_offsets_first _ curves_wf Hcurves) as Hfirst. rewrite head_lookup in Hfirst.
  pose proof (wf_offsets_last _ curves_wf Hcurves) as Hlast. rewrite last_lookup in Hlast.
  pose proof (wf_offsets_length _ curves_wf Hcurves) as Hlen.
  set (st0 := {| curr_dst_point_id := 0; dst_to_src_point := J;
                 dst_curve_counts := []; dst_to_src_curve := [];
                 dst_cyclic := [] |}).
  destruct (split_loop_spec curves curves_wf mask n Hn J HJ (Z.to_nat (curve_num curves)) 0
              st0 [] 0)
    as (st & W & b' & Hst & Hb' & [HW HWid] & HWp & Hcinv).
  { lia. }
  { exact Hfirst. }
  { by split. }
  { done. }
  { by constructor. }
  replace (curves_range curves)
    with {| start := Z.of_nat 0; size := Z.of_nat (Z.to_nat (curve_num curves)) |}
    by (unfold curves_range; f_equal; lia).
  assert (Hacc : split_account curves (mask_bools mask n) st).
  { revert Hst. apply foldlM_preserves.
    - intros st1 curve_i st2 _ Hacc1 Hstep. by eapply split_curve_account.
    - constructor; cbn; [done | constructor | constructor]. }
  rewrite Hst. cbn [mbind option_bind].
  pose proof Hcinv as [Hc1 Hc2 Hc3].
  assert (b' = point_num curves) as ->.
  { replace (Init.Nat.pred (length (curve_offsets curves)))
      with (0 + Z.to_nat (curve_num curves))%nat in Hlast by lia. congruence. }
  rewrite Hn, Nat2Z.id in HWp.
  assert (HWlen : length W = length J) by (by rewrite HWp, HJ).
  rewrite drop_ge, app_nil_r in HW by lia.
  destruct (new_offsets_copied uninitialized total_points
              (Z.of_nat (length (dst_to_src_curve st))) (dst_curve_counts st))
    as (tail & Hoffs & Htail1 & Htail0); [lia|].
  assert (HWrange : Forall (λ i, 0 ≤ i < domain_size Point curves) W).
  { rewrite Forall_forall. intros p Hp. rewrite HWp in Hp.
    apply elem_of_kept in Hp. cbn [domain_size]. lia. }
  cbn [BKE_defgroup_copy_list curve_offsets].
  rewrite Hoffs. cbn [mbind option_bind default].
  rewrite gather_attributes_Some by (try apply (wf_curve_data _ curves_wf); done).
  cbn [mbind option_bind].
  set (dst2 := set_domain_data Curve _ _).
  assert (Hcw : cyclic_for_write dst2 = replicate (length (dst_to_src_curve st)) false).
  { rewrite cyclic_for_write_absent.
    - unfold dst2. cbn. by rewrite Nat2Z.id.
    - unfold dst2. cbn [set_domain_data curve_data domain_data].
      apply lookup_skipped. }
  rewrite Hcw. unfold array_utils_copy at 1, index_range. cbn [start size].
  rewrite length_replicate, decide_True by lia.
  rewrite Span_write_Some by (rewrite ?length_replicate; lia).
  cbn [mbind option_bind].
  rewrite gather_attributes_Some by (try apply (wf_point_data _ curves_wf); rewrite ?HW; done).
  cbn [mbind option_bind]. rewrite HW.
  eexists st, _, tail, W. split; [reflexivity|].
  split; [done|]. split; [done|]. split; [done|]. split; [done|].
  cbn [set_domain_data store_cyclic point_num curve_num curve_offsets point_data curve_data
       domain_data].
  assert (Hpn2 : point_num dst2 = total_points) by done.
  assert (Hcn2 : curve_num dst2 = Z.of_nat (length (dst_to_src_curve st))) by done.
  assert (Hoff2 : curve_offsets dst2
                  = accumulate_counts_to_offsets (dst_curve_counts st ++ tail)) by done.
  assert (Hpd2 : point_data dst2 = ∅) by done.
  assert (Hcd2 : curve_data dst2
                 = (λ values, gather_total values (dst_to_src_curve st))
                     <$> filter (λ kv, kv.1 ∉ ["cyclic"]) (curve_data curves)).
  { unfold dst2. cbn. by rewrite (right_id_L ∅ (∪)). }
  clearbody dst2.
  split; [rewrite Hpn2; unfold total_points; lia|].
  split; [done|]. split; [done|]. split; [by rewrite Hcn2|]. split; [by rewrite Hcn2|].
  split.
  - by rewrite Hpd2, filter_skip_nil, (right_id_L ∅ (∪)).
  - rewrite Hcd2. cbn [Z.to_nat Nat.add]. rewrite take_0.
    rewrite drop_ge by (rewrite length_replicate; lia).
    cbn [app]. by rewrite app_nil_r.
Qed.

End split_assembly.

Section split_results.
Import BLI bke greasepencil.

(** Offsets computed from positive counts increase strictly. *)
Lemma accumulate_from_strict (counts : list Z) : ∀ offset last_cell,
  Forall (λ c, 0 < c) counts →
  StronglySorted Z.lt (accumulate_from offset (counts ++ [last_cell]))
  ∧ Forall (λ o, offset ≤ o) (accumulate_from offset (counts ++ [last_cell])).
Proof.
  induction counts as [|c counts IH]; intros offset last_cell Hpos.
  - cbn. split; repeat constructor. lia.
  - apply Forall_cons in Hpos as [Hc Hpos].
    destruct (IH (offset + c) last_cell Hpos) as [Hsorted Hge].
    cbn [app accumulate_from].
    destruct (counts ++ [last_cell]) as [|c' rest] eqn:Hrest.
    { by destruct counts. }
    rewrite <- Hrest in *. split.
    + constructor; [done|]. eapply Forall_impl; [exact Hge|]. cbn. lia.
    + constructor; [lia|]. eapply Forall_impl; [exact Hge|]. cbn. lia.
Qed.

Variable uninitialized : nat → Z.
Variables update_curve_types remove_attributes_based_on_types : CurvesGeometry → CurvesGeometry.
Variable curves : CurvesGeometry.
Hypothesis curves_wf : CurvesGeometry_wf curves.
Variable mask : IndexMask.
Hypothesis mask_points : Forall (λ i, 0 ≤ i < points_num curves) mask.

Lemma default_wf : CurvesGeometry_wf CurvesGeometry_default.
Proof.
  constructor; cbn; try done; try lia. constructor.
Qed.

Lemma split_everything_deleted :
  kept mask 0 (Z.to_nat (point_num curves)) = [] →
  remove_points_and_split uninitialized update_curve_types
    remove_attributes_based_on_types curves mask
  = Some CurvesGeometry_default.
Proof.
  intros Hkept. unfold points_num in *.
  pose proof (wf_point_num _ curves_wf) as Hpn.
  unfold remove_points_and_split, points_num.
  rewrite to_bools_Some.
  2:{ eapply Forall_impl; [exact mask_points|]. cbn. lia. }
  cbn [mbind option_bind].
  rewrite Span_count_mask_bools, Hkept. cbn [length]. by rewrite decide_True.
Qed.

(** The geometry assembled when some point is kept is well formed, and none
    of its curves is empty. *)
Lemma split_assembled_wf :
  kept mask 0 (Z.to_nat (point_num curves)) ≠ [] →
  ∃ g,
    remove_points_and_split uninitialized update_curve_types
      remove_attributes_based_on_types curves mask
    = Some (remove_attributes_based_on_types (update_curve_types g))
    ∧ CurvesGeometry_wf g
    ∧ StronglySorted Z.lt (curve_offsets g).
Proof.
  intros Hkept.
  destruct (split_assembled uninitialized update_curve_types remove_attributes_based_on_types
              curves curves_wf mask mask_points Hkept)
    as (st & g & tail & W & Hrun & Hacc & Hinv & Hcurr & HWp & Hpn & Hcn & Hoff
        & Htail1 & Htail0 & Hpd & Hcd).
  exists g. split; [done|].
  destruct Hacc as [Htotal Hpos _]. destruct Hinv as [Hc1 Hc2 Hc3].
  assert (Hnn : Forall (λ c, 0 ≤ c) (dst_curve_counts st)).
  { eapply Forall_impl; [exact Hpos|]. cbn. lia. }
  assert (HWrange : Forall (λ i, 0 ≤ i < point_num curves) W).
  { rewrite Forall_forall. intros p Hp. rewrite HWp in Hp.
    apply elem_of_kept in Hp. pose proof (wf_point_num _ curves_wf). lia. }
  assert (Hstrict : StronglySorted Z.lt (curve_offsets g)).
  { rewrite Hoff. destruct (decide (0 < curve_num g)) as [Hp|Hz].
    - destruct tail as [|x [|? ?]]; try (specialize (Htail1 Hp); done).
      by apply accumulate_from_strict.
    - rewrite (Htail0 ltac:(lia)).
      destruct (dst_curve_counts st); [constructor|]. cbn [length] in Hc1. lia. }
  split; [|done].
  assert (Hoffsets : 0 < curve_num g →
            length (curve_offsets g) = S (length (dst_curve_counts st))
            ∧ head (curve_offsets g) = Some 0
            ∧ last (curve_offsets g) = Some (point_num g)).
  { intros Hp. destruct tail as [|x [|? ?]]; try (specialize (Htail1 Hp); done).
    rewrite Hoff. unfold accumulate_counts_to_offsets.
    destruct (accumulate_from_spec (dst_curve_counts st) 0 x Hnn)
      as (H1 & H2 & H3 & _).
    split; [done|]. split; [done|]. rewrite H3, Hpn, <- Hcurr, <- Htotal. done. }
  constructor.
  - lia.
  - lia.
  - intros Hzero. rewrite Hpn, <- Hcurr, <- Htotal.
    destruct (dst_curve_counts st); [done|]. cbn [length] in Hc1. lia.
  - intros Hp. destruct (Hoffsets Hp) as (H1 & _). lia.
  - intros Hp. by destruct (Hoffsets Hp) as (_ & H2 & _).
  - intros Hp. by destruct (Hoffsets Hp) as (_ & _ & H3).
  - clear -Hstrict. induction Hstrict as [|x l Hs IH Hx]; constructor; [done|].
    eapply Forall_impl; [exact Hx|]. cbn. lia.
  - rewrite Hpd. apply map_Forall_fmap. intros name values Hv. cbn.
    pose proof (wf_point_data _ curves_wf _ _ Hv) as Hlen. cbn in Hlen.
    rewrite gathered_length by (by rewrite Hlen). lia.
  - rewrite Hcd. apply map_Forall_insert_2.
    + rewrite length_fmap. lia.
    + apply map_Forall_fmap. intros name values Hv. cbn.
      apply map_lookup_filter_Some in Hv as [Hv _].
      pose proof (wf_curve_data _ curves_wf _ _ Hv) as Hlen. cbn in Hlen.
      rewrite gathered_length by (by rewrite Hlen). lia.
  - intros values Hv. rewrite Hcd, lookup_insert_eq in Hv. simplify_eq.
    rewrite as_bools_fmap. by eexists.
Qed.


End split_results.

(** X9. For a well-formed geometry and a mask of its points,
    [remove_points_and_split] returns a well-formed geometry whose offsets
    increase strictly: no curve of the result is empty, also when curves of
    the source are empty or lose all their points; provided
    [update_curve_types] and [remove_attributes_based_on_types], which are
    called last, keep a geometry well formed and leave its offsets. *)
Theorem remove_points_and_split_well_formed
    (uninitialized : nat → Z)
    (update_curve_types remove_attributes_based_on_types
       : bke.CurvesGeometry → bke.CurvesGeometry)
    (curves : bke.CurvesGeometry) (mask : BLI.IndexMask) :
  (∀ g, bke.CurvesGeometry_wf g →
        bke.CurvesGeometry_wf (update_curve_types g)
        ∧ bke.curve_offsets (update_curve_types g) = bke.curve_offsets g) →
  (∀ g, bke.CurvesGeometry_wf g →
        bke.CurvesGeometry_wf (remove_attributes_based_on_types g)
        ∧ bke.curve_offsets (remove_attributes_based_on_types g) = bke.curve_offsets g) →
  bke.CurvesGeometry_wf curves →
  Forall (λ i, 0 ≤ i < bke.points_num curves) mask →
  ∃ dst,
    greasepencil.remove_points_and_split uninitialized update_curve_types
      remove_attributes_based_on_types curves mask = Some dst
    ∧ bke.CurvesGeometry_wf dst
    ∧ StronglySorted Z.lt (bke.curve_offsets dst).
Proof.
  intros Hupd Hrem Hwf Hmask.
  destruct (decide (kept mask 0 (Z.to_nat (bke.point_num curves)) = [])) as [Hnone|Hsome].
  - exists bke.CurvesGeometry_default. split; [by apply split_everything_deleted|].
    split; [apply default_wf | constructor].
  - destruct (split_assembled_wf uninitialized update_curve_types
                remove_attributes_based_on_types curves Hwf mask Hmask Hsome)
      as (g & Hrun & Hg & Hstrict).
    exists (remove_attributes_based_on_types (update_curve_types g)).
    split; [done|].
    destruct (Hupd g Hg) as [Hg1 Ho1].
    destruct (Hrem _ Hg1) as [Hg2 Ho2].
    split; [done|]. by rewrite Ho2, Ho1.
Qed.

Lemma remove_points_and_split_well_formed_witness :
  bke.CurvesGeometry_wf examples.two_strokes
  ∧ ∃ dst,
      greasepencil.remove_points_and_split (λ _, -7) id id examples.two_strokes [2; 5; 6]
      = Some dst
      ∧ bke.CurvesGeometry_wf dst
      ∧ StronglySorted Z.lt (bke.curve_offsets dst).
Proof.
  split; [exact two_strokes_wf|].
  apply (remove_points_and_split_well_formed (λ _, -7) id id examples.two_strokes [2; 5; 6]).
  - done.
  - done.
  - exact two_strokes_wf.
  - repeat constructor; cbn; lia.
Defined.



(** C9. For every curves geometry and every mask of its points,
    [remove_points_and_split] returns a geometry whose point count equals the
    number of source points not in the mask; when the mask covers all points
    it returns the default-constructed geometry; and the points of the result
    are the kept source points, each once.  No attribute is invented: every
    point attribute of the result is one of the source, holding at a point
    the value its source point had.  No attribute is lost: when a point is
    kept, the geometry that the function hands to [update_curve_types] and
    [remove_attributes_based_on_types] has the kept points and every point
    attribute of the source, gathered from the kept points. *)
Theorem remove_points_and_split_kept_points
    (uninitialized : nat → Z)
    (update_curve_types remove_attributes_based_on_types
       : bke.CurvesGeometry → bke.CurvesGeometry)
    (curves : bke.CurvesGeometry) (mask : BLI.IndexMask) :
  (∀ g, bke.point_num (update_curve_types g) = bke.point_num g
        ∧ bke.point_data (update_curve_types g) = bke.point_data g) →
  (∀ g, bke.point_num (remove_attributes_based_on_types g) = bke.point_num g
        ∧ bke.point_data (remove_attributes_based_on_types g) ⊆ bke.point_data g) →
  bke.CurvesGeometry_wf curves →
  Forall (λ i, 0 ≤ i < bke.points_num curves) mask →
  ∃ dst dst_to_src_point,
    greasepencil.remove_points_and_split uninitialized update_curve_types
      remove_attributes_based_on_types curves mask = Some dst
    ∧ bke.points_num dst
      = Z.of_nat (length (BLI.IndexMask_complement mask
                            {| BLI.start := 0; BLI.size := bke.points_num curves |}))
    ∧ ((∀ p, 0 ≤ p < bke.points_num curves → p ∈ mask) →
       dst = bke.CurvesGeometry_default)
    ∧ dst_to_src_point
      ≡ₚ BLI.IndexMask_complement mask
           {| BLI.start := 0; BLI.size := bke.points_num curves |}
    ∧ (∀ name values',
         bke.point_data dst !! name = Some values' →
         ∃ values,
           bke.point_data curves !! name = Some values
           ∧ length values' = length dst_to_src_point
           ∧ ∀ (k : nat) p, dst_to_src_point !! k = Some p →
               values' !! k = values !! Z.to_nat p)
    ∧ ((∃ p, 0 ≤ p < bke.points_num curves ∧ p ∉ mask) →
       ∃ g,
         dst = remove_attributes_based_on_types (update_curve_types g)
         ∧ bke.points_num g = Z.of_nat (length dst_to_src_point)
         ∧ ∀ name values,
             bke.point_data curves !! name = Some values →
             ∃ values',
               bke.point_data g !! name = Some values'
               ∧ length values' = length dst_to_src_point
               ∧ ∀ (k : nat) p, dst_to_src_point !! k = Some p →
                   values' !! k = values !! Z.to_nat p).
Proof.
  intros Hupd Hrem Hwf Hmask.
  pose proof (bke.wf_point_num _ Hwf) as Hpn.
  set (n := Z.to_nat (bke.point_num curves)).
  assert (Hcompl : BLI.IndexMask_complement mask
                     {| BLI.start := 0; BLI.size := bke.points_num curves |}
                   = kept mask 0 n).
  { unfold bke.points_num. replace (bke.point_num curves) with (Z.of_nat n) by (unfold n; lia).
    apply complement_kept. }
  rewrite Hcompl.
  destruct (decide (kept mask 0 n = [])) as [Hnone|Hsome].
  - (* Deleting everything. *)
    exists bke.CurvesGeometry_default, []. rewrite Hnone.
    split; [by apply split_everything_deleted|].
    split; [done|]. split; [done|]. split; [done|]. split; [done|].
    intros (p & Hp & Hnotin). exfalso.
    assert (Hin : p ∈ kept mask 0 n).
    { apply elem_of_kept. split; [done|]. unfold bke.points_num, n in *. lia. }
    rewrite Hnone in Hin. by apply elem_of_nil in Hin.
  - destruct (split_assembled uninitialized update_curve_types
                remove_attributes_based_on_types curves Hwf mask Hmask Hsome)
      as (st & g & tail & W & Hrun & _ & _ & _ & HWp & Hpng & _ & _ & _ & _ & Hpd & _).
    exists (remove_attributes_based_on_types (update_curve_types g)), W.
    destruct (Hupd g) as [Hupd1 Hupd2].
    destruct (Hrem (update_curve_types g)) as [Hrem1 Hrem2].
    assert (HWrange : ∀ values name, bke.point_data curves !! name = Some values →
              Forall (λ i, 0 ≤ i < Z.of_nat (length values)) W).
    { intros values name Hvalues. rewrite Forall_forall. intros p Hp. rewrite HWp in Hp.
      apply elem_of_kept in Hp as [_ Hp].
      pose proof (bke.wf_point_data _ Hwf _ _ Hvalues) as Hlen. cbn in Hlen.
      unfold n in Hp. lia. }
    split; [done|].
    split; [unfold bke.points_num; by rewrite Hrem1, Hupd1, Hpng, HWp|].
    split.
    { intros Hall. exfalso. apply Hsome.
      destruct (kept mask 0 n) as [|p l] eqn:Hk; [done|].
      assert (p ∈ kept mask 0 n) as Hp by (rewrite Hk; left).
      apply elem_of_kept in Hp as [Hp1 Hp2]. exfalso. apply Hp1, Hall.
      unfold bke.points_num, n in *. lia. }
    split; [done|]. split.
    + intros name values' Hv'.
      pose proof (lookup_weaken _ _ _ _ Hv' Hrem2) as Hv5. rewrite Hupd2 in Hv5.
      rewrite Hpd, lookup_fmap in Hv5.
      destruct (bke.point_data curves !! name) as [values|] eqn:Hvalues; [|done].
      cbn in Hv5. injection Hv5 as <-. exists values. split; [done|].
      split; [apply gathered_length; by eapply HWrange|].
      intros k p Hk. apply gathered_lookup; [by eapply HWrange|done].
    + intros _. exists g. split; [done|]. split; [done|].
      intros name values Hvalues. exists (bke.gather_total values W).
      split; [by rewrite Hpd, lookup_fmap, Hvalues|].
      split; [apply gathered_length; by eapply HWrange|].
      intros k p Hk. apply gathered_lookup; [by eapply HWrange|done].
Qed.

Lemma remove_points_and_split_kept_points_witness :
  bke.CurvesGeometry_wf examples.two_strokes
  ∧ ∃ dst dst_to_src_point,
      greasepencil.remove_points_and_split (λ _, -7) id id examples.two_strokes [2; 5]
      = Some dst
      ∧ bke.points_num dst = 5
      ∧ dst_to_src_point ≡ₚ [0; 1; 3; 4; 6]
      ∧ (∀ name values', bke.point_data dst !! name = Some values' →
           ∃ values, bke.point_data examples.two_strokes !! name = Some values
             ∧ length values' = length dst_to_src_point
             ∧ ∀ (k : nat) p, dst_to_src_point !! k = Some p →
                 values' !! k = values !! Z.to_nat p)
      ∧ (∃ values',
           bke.point_data dst !! "position" = Some values'
           ∧ length values' = length dst_to_src_point
           ∧ ∀ (k : nat) p, dst_to_src_point !! k = Some p →
               values' !! k = Some (bke.VFloat3 (10 + p) 0 0))
      ∧ bke.point_data dst !! "position"
        = Some ((λ x, bke.VFloat3 x 0 0) <$> [13; 14; 10; 11; 16]).
Proof.
  split; [exact two_strokes_wf|].
  destruct (remove_points_and_split_kept_points (λ _, -7) id id examples.two_strokes [2; 5])
    as (dst & dst_to_src_point & Hdst & Hnum & _ & Hperm & Hattr & Hall).
  - done.
  - done.
  - exact two_strokes_wf.
  - repeat constructor; cbn; lia.
  - exists dst, dst_to_src_point. split; [exact Hdst|]. split; [exact Hnum|].
    split; [exact Hperm|]. split; [exact Hattr|]. split.
    + destruct Hall as (g & Hg & _ & Hgather).
      { exists 0. split; [cbn; lia|].
        intros Hin. apply elem_of_cons in Hin as [?|Hin]; [done|].
        apply elem_of_cons in Hin as [?|Hin]; [done|]. by apply elem_of_nil in Hin. }
      destruct (Hgather "position" ((λ x, bke.VFloat3 x 0 0) <$> [10; 11; 12; 13; 14; 15; 16]))
        as (values' & Hvalues' & Hlength & Hcells); [reflexivity|].
      exists values'. cbn in Hg. subst dst. split; [exact Hvalues'|]. split; [exact Hlength|].
      intros k p Hk. rewrite (Hcells k p Hk).
      assert (Hperm' : dst_to_src_point ≡ₚ [0; 1; 3; 4; 6]) by exact Hperm.
      assert (Hp : p ∈ [0; 1; 3; 4; 6]).
      { rewrite <- Hperm'. by eapply list_elem_of_lookup_2. }
      do 5 (apply elem_of_cons in Hp as [->|Hp]; [reflexivity|]).
      apply elem_of_nil in Hp. destruct Hp.
    + vm_compute in Hdst. injection Hdst as <-. reflexivity.
Defined.

(* ===================================================================== *)
(** * The cuts of the subdivide operator                                 *)
(* ===================================================================== *)

Section subdivide_cuts.
Import BLI bke operators.

Variable cuts : Z.
Variable points_by_curve : list Z.
Variables selection cyclic : VArray bool.

(** A loop that writes one value to some cells: a cell holds the value when
    a round has written it, and what it held before otherwise. *)
Lemma foldl_write_spec {A : Type} (value : Z) (w : A → nat → bool)
    (f : list Z → A → list Z) (l : list A) :
  (∀ u x (k : nat), f u x !! k = if w x k then (λ _, value) <$> u !! k else u !! k) →
  ∀ u (k : nat),
    foldl f u l !! k = if existsb (λ x, w x k) l then (λ _, value) <$> u !! k else u !! k.
Proof.
  intros Hf. induction l as [|x l IH]; intros u k; cbn [foldl existsb]; [done|].
  rewrite IH, Hf. destruct (w x k); cbn [orb]; [|done].
  destruct (existsb _ l); [|done]. by destruct (u !! k).
Qed.

Lemma write_cell (u : list Z) (i : Z) (k : nat) :
  default u (Array_set u i cuts) !! k
  = if bool_decide (Z.of_nat k = i) then (λ _, cuts) <$> u !! k else u !! k.
Proof.
  unfold Array_set. case_decide as Hi; cbn [default from_option id].
  - destruct (decide (k = Z.to_nat i)) as [->|Hne].
    + rewrite bool_decide_eq_true_2 by lia.
      rewrite list_lookup_insert_eq by lia.
      destruct (lookup_lt_is_Some_2 u (Z.to_nat i)) as [x ->]; [lia|]. done.
    + rewrite bool_decide_eq_false_2 by lia. by rewrite list_lookup_insert_ne.
  - case_bool_decide as Hk; [|done]. rewrite lookup_ge_None_2 by lia. done.
Qed.

(** Whether the loop over the curve registers a cut at point [k]. *)
Lemma subdivide_curve_cuts_spec (use_cuts : list Z) (curve : Z) (k : nat) :
  let points := default {| start := 0; size := 0 |}
                  (OffsetIndices_get points_by_curve curve) in
  let selected p := default false (VArray_get selection p) in
  subdivide_curve_cuts cuts points_by_curve selection cyclic use_cuts curve !! k
  = if bool_decide (IndexRange_first points ≤ Z.of_nat k < IndexRange_last points 0)
       && selected (Z.of_nat k) && selected (Z.of_nat k + 1)
       || default false (VArray_get cyclic curve)
          && selected (IndexRange_first points) && selected (IndexRange_last points 0)
          && bool_decide (Z.of_nat k = IndexRange_last points 0)
    then (λ _, cuts) <$> use_cuts !! k else use_cuts !! k.
Proof.
  intros points selected. unfold subdivide_curve_cuts. fold points.
  set (inner := foldl _ use_cuts _).
  pose (w := λ (point : Z) (j : nat),
               bool_decide (Z.of_nat j = point) && selected point && selected (point + 1)).
  assert (Hinner : inner !! k
                   = if existsb (λ point, w point k)
                          (IndexRange_to_list (IndexRange_drop_back points 1))
                     then (λ _, cuts) <$> use_cuts !! k else use_cuts !! k).
  { unfold inner. apply (foldl_write_spec cuts w).
    intros u point k'. unfold w. fold (selected point). fold (selected (point + 1)).
    destruct (selected point); cbn [negb andb]; [|by rewrite andb_false_r].
    destruct (selected (point + 1)); [|by rewrite andb_false_r].
    rewrite !andb_true_r. apply write_cell. }
  assert (Hex : existsb (λ point, w point k)
                  (IndexRange_to_list (IndexRange_drop_back points 1))
                = bool_decide (IndexRange_first points ≤ Z.of_nat k < IndexRange_last points 0)
                  && selected (Z.of_nat k) && selected (Z.of_nat k + 1)).
  { unfold w. apply eq_true_iff_eq.
    rewrite existsb_exists, !andb_true_iff, bool_decide_eq_true.
    unfold IndexRange_first, IndexRange_last. split.
    - intros (point & Hin & Hc). apply list_elem_of_In, elem_of_IndexRange_to_list in Hin.
      cbn [IndexRange_drop_back start size] in Hin.
      rewrite !andb_true_iff, bool_decide_eq_true in Hc. destruct Hc as [[-> ?] ?].
      repeat split; try done; lia.
    - intros [[Hk ?] ?]. exists (Z.of_nat k). split.
      + apply list_elem_of_In, elem_of_IndexRange_to_list.
        cbn [IndexRange_drop_back start size]. lia.
      + rewrite !andb_true_iff, bool_decide_eq_true. done. }
  rewrite Hex in Hinner. fold (selected (IndexRange_first points)).
  fold (selected (IndexRange_last points 0)).
  destruct (default false (VArray_get cyclic curve)); cbn [andb orb];
    [|by rewrite orb_false_r].
  destruct (selected (IndexRange_first points) && selected (IndexRange_last points 0));
    cbn [andb]; [|by rewrite orb_false_r].
  rewrite write_cell, Hinner.
  destruct (bool_decide (Z.of_nat k = IndexRange_last points 0)).
  - rewrite orb_true_r. by destruct (_ && _ && _), (use_cuts !! k).
  - by rewrite orb_false_r.
Qed.

End subdivide_cuts.

Section subdivide_whole.
Import BLI bke operators.

Lemma default_false_true (o : option bool) : default false o = true ↔ o = Some true.
Proof. destruct o as [[|]|]; cbn; split; congruence. Qed.

(** The cuts registered for a drawing whose points are selected by
    [selection]. *)
Lemma subdivide_cuts_spec (cuts : Z) (curves : CurvesGeometry) (selection : VArray bool) :
  let use_cuts :=
    foldl (subdivide_curve_cuts cuts (points_by_curve curves) selection (cyclic curves))
      (replicate (Z.to_nat (points_num curves)) 0)
      (IndexRange_to_list (curves_range curves)) in
  ∀ (k : nat), (k < Z.to_nat (points_num curves))%nat →
    let selected p := VArray_get selection p = Some true in
    let cut_here :=
      ∃ curve points,
        0 ≤ curve < curves_num curves
        ∧ OffsetIndices_get (points_by_curve curves) curve = Some points
        ∧ selected (Z.of_nat k)
        ∧ (IndexRange_first points ≤ Z.of_nat k < IndexRange_last points 0
           ∧ selected (Z.of_nat k + 1)
           ∨ VArray_get (cyclic curves) curve = Some true
             ∧ Z.of_nat k = IndexRange_last points 0
             ∧ selected (IndexRange_first points)) in
    (cut_here → use_cuts !! k = Some cuts) ∧ (¬ cut_here → use_cuts !! k = Some 0).
Proof.
  intros use_cuts k Hk selected cut_here.
  pose (sel := λ p, default false (VArray_get selection p)).
  pose (w := λ (curve : Z) (j : nat),
    let points := default {| start := 0; size := 0 |}
                    (OffsetIndices_get (points_by_curve curves) curve) in
    bool_decide (IndexRange_first points ≤ Z.of_nat j < IndexRange_last points 0)
    && sel (Z.of_nat j) && sel (Z.of_nat j + 1)
    || default false (VArray_get (cyclic curves) curve)
       && sel (IndexRange_first points) && sel (IndexRange_last points 0)
       && bool_decide (Z.of_nat j = IndexRange_last points 0)).
  assert (Hrun : use_cuts !! k
                 = if existsb (λ curve, w curve k) (IndexRange_to_list (curves_range curves))
                   then Some cuts else Some 0).
  { unfold use_cuts.
    rewrite (foldl_write_spec cuts w).
    - rewrite lookup_replicate_2 by done. done.
    - intros u curve j. apply subdivide_curve_cuts_spec. }
  assert (Hiff : existsb (λ curve, w curve k) (IndexRange_to_list (curves_range curves)) = true
                 ↔ cut_here).
  { rewrite existsb_exists. unfold cut_here, selected. split.
    - intros (curve & Hin & Hw).
      apply list_elem_of_In, elem_of_IndexRange_to_list in Hin.
      cbn [curves_range start size] in Hin. unfold w in Hw. cbn zeta in Hw.
      destruct (OffsetIndices_get (points_by_curve curves) curve) as [points|] eqn:Hpoints.
      + cbn [default from_option id] in Hw. exists curve, points.
        split; [unfold curves_num; lia|]. split; [done|].
        apply orb_true_iff in Hw as [Hw|Hw];
          rewrite !andb_true_iff in Hw; unfold sel in Hw;
          rewrite ?bool_decide_eq_true, ?default_false_true in Hw.
        * destruct Hw as [[? ?] ?]. split; [done|]. by left.
        * destruct Hw as [[[? ?] ?] Hlast]. rewrite Hlast. split; [done|]. by right.
      + exfalso. cbn [default from_option id] in Hw.
        unfold IndexRange_first, IndexRange_last, sel in Hw. cbn [start size] in Hw.
        apply orb_true_iff in Hw as [Hw|Hw]; rewrite !andb_true_iff in Hw.
        * destruct Hw as [[Hw _] _]. apply bool_decide_eq_true in Hw. lia.
        * destruct Hw as [[[_ _] _] Hw]. apply bool_decide_eq_true in Hw. lia.
    - intros (curve & points & Hc & Hpoints & Hsel & Hcase). exists curve. split.
      + apply list_elem_of_In, elem_of_IndexRange_to_list.
        cbn [curves_range start size]. unfold curves_num in Hc. lia.
      + unfold w. cbn zeta. rewrite Hpoints. cbn [default from_option id].
        apply orb_true_iff. unfold sel.
        destruct Hcase as [[Hk1 Hnext] | (Hcyc & Hlast & Hfirst)].
        * left. rewrite !andb_true_iff, bool_decide_eq_true, !default_false_true. done.
        * right. rewrite !andb_true_iff, bool_decide_eq_true, !default_false_true.
          rewrite <- Hlast. done. }
  rewrite Hrun. split.
  - intros Hc. apply Hiff in Hc. by rewrite Hc.
  - intros Hc. destruct (existsb _ _) eqn:Hex; [|done]. exfalso. by apply Hc, Hiff.
Qed.

End subdivide_whole.

(** X11. The cuts that the subdivide operator registers when it cuts between
    selected points: after the loop over the curves, the cell of a point
    holds [cuts] when the point is selected and either it is not the last
    point of its curve and the next point is selected, or it is the last
    point of a cyclic curve whose first point is selected; every other cell
    holds zero.  The cut of a segment is registered on the point before
    it. *)
Theorem subdivide_cuts_between_selected_points
    (cuts : Z) (curves : bke.CurvesGeometry) (selection : BLI.VArray bool) (k : nat) :
  (k < Z.to_nat (bke.points_num curves))%nat →
  let use_cuts :=
    foldl (operators.subdivide_curve_cuts cuts (bke.points_by_curve curves) selection
             (bke.cyclic curves))
      (replicate (Z.to_nat (bke.points_num curves)) 0)
      (BLI.IndexRange_to_list (bke.curves_range curves)) in
  let selected p := BLI.VArray_get selection p = Some true in
  let cut_here :=
    ∃ curve points,
      0 ≤ curve < bke.curves_num curves
      ∧ BLI.OffsetIndices_get (bke.points_by_curve curves) curve = Some points
      ∧ selected (Z.of_nat k)
      ∧ (BLI.IndexRange_first points ≤ Z.of_nat k < BLI.IndexRange_last points 0
         ∧ selected (Z.of_nat k + 1)
         ∨ BLI.VArray_get (bke.cyclic curves) curve = Some true
           ∧ Z.of_nat k = BLI.IndexRange_last points 0
           ∧ selected (BLI.IndexRange_first points)) in
  (cut_here → use_cuts !! k = Some cuts) ∧ (¬ cut_here → use_cuts !! k = Some 0).
Proof. intros Hk. by apply subdivide_cuts_spec. Qed.

Lemma subdivide_cuts_between_selected_points_witness :
  foldl (operators.subdivide_curve_cuts 3 (bke.points_by_curve examples.two_strokes)
           (BLI.ForSpan [true; true; false; false; true; true; true])
           (bke.cyclic examples.two_strokes))
    (replicate (Z.to_nat (bke.points_num examples.two_strokes)) 0)
    (BLI.IndexRange_to_list (bke.curves_range examples.two_strokes))
  !! 4%nat = Some 3.
Proof.
  refine (proj1 (subdivide_cuts_between_selected_points 3 examples.two_strokes
                   (BLI.ForSpan [true; true; false; false; true; true; true]) 4 _) _).
  - vm_compute. lia.
  - exists 0, {| BLI.start := 0; BLI.size := 5 |}.
    split; [vm_compute; split; [discriminate|reflexivity]|].
    split; [reflexivity|]. split; [reflexivity|].
    right. split; [reflexivity|]. split; reflexivity.
Defined.

(* ===================================================================== *)
(** * What the attribute operators write                                 *)
(* ===================================================================== *)

Section masked_writes.
Import BLI bke operators.

(** A loop over a mask that rewrites the cell of each index from what the
    cell holds: the cells of the mask are rewritten once, the others kept. *)
Lemma masked_update_spec {A : Type} (f : A → A) (mask : IndexMask) :
  NoDup mask → ∀ (span : list A),
  let r := foldl (λ span i,
                    match Array_get span i with
                    | Some x => <[Z.to_nat i := f x]> span
                    | None => span
                    end) span mask in
  length r = length span
  ∧ ∀ (k : nat), r !! k = if bool_decide (Z.of_nat k ∈ mask) then f <$> span !! k
                          else span !! k.
Proof.
  intros Hnd. induction Hnd as [|i mask Hi Hnd IH]; intros span; cbn [foldl].
  - split; [done|]. intros k. rewrite bool_decide_eq_false_2; [done|apply not_elem_of_nil].
  - set (span1 := match Array_get span i with
                  | Some x => <[Z.to_nat i := f x]> span
                  | None => span
                  end).
    destruct (IH span1) as [Hlen Hlook].
    assert (Hlen1 : length span1 = length span).
    { unfold span1. destruct (Array_get span i); [apply length_insert|done]. }
    assert (Hlook1 : ∀ k : nat, span1 !! k = if bool_decide (Z.of_nat k = i)
                                             then f <$> span !! k else span !! k).
    { intros k. unfold span1, Array_get. case_decide as H0.
      - destruct (span !! Z.to_nat i) as [x|] eqn:Hx.
        + destruct (decide (k = Z.to_nat i)) as [->|Hne].
          * rewrite bool_decide_eq_true_2 by lia.
            rewrite list_lookup_insert_eq by (by apply lookup_lt_Some in Hx).
            by rewrite Hx.
          * rewrite bool_decide_eq_false_2 by lia. by rewrite list_lookup_insert_ne.
        + case_bool_decide as Hk; [|done].
          replace k with (Z.to_nat i) by lia. by rewrite Hx.
      - rewrite bool_decide_eq_false_2 by lia. done. }
    split; [lia|]. intros k. rewrite Hlook, Hlook1.
    destruct (decide (Z.of_nat k = i)) as [Hk|Hk].
    + rewrite (bool_decide_eq_true_2 (Z.of_nat k = i)) by done.
      rewrite (bool_decide_eq_true_2 (Z.of_nat k ∈ i :: mask)) by (subst; left).
      rewrite bool_decide_eq_false_2 by (by subst). done.
    + rewrite (bool_decide_eq_false_2 (Z.of_nat k = i)) by done.
      destruct (decide (Z.of_nat k ∈ mask)) as [Hin|Hin].
      * rewrite !bool_decide_eq_true_2; [done | by right | done].
      * rewrite !bool_decide_eq_false_2; [done | | done].
        by apply not_elem_of_cons.
Qed.

Lemma invert_booleans_masked_spec (span : list bool) (mask : IndexMask) :
  NoDup mask →
  length (invert_booleans_masked span mask) = length span
  ∧ ∀ (k : nat), invert_booleans_masked span mask !! k
                 = if bool_decide (Z.of_nat k ∈ mask) then negb <$> span !! k else span !! k.
Proof. intros Hnd. by apply (masked_update_spec negb). Qed.

Lemma masked_fill_spec {A : Type} (span : list A) (value : A) (mask : IndexMask) :
  Forall (λ i, 0 ≤ i) mask →
  ∀ (k : nat), masked_fill span value mask !! k
               = if bool_decide (Z.of_nat k ∈ mask) then (λ _, value) <$> span !! k
                 else span !! k.
Proof.
  intros Hnn k. destruct (decide (Z.of_nat k ∈ mask)) as [Hin|Hin].
  - rewrite bool_decide_eq_true_2 by done.
    destruct (span !! k) as [x|] eqn:Hx; cbn.
    + rewrite <- (Nat2Z.id k). apply masked_fill_lookup; [done | lia |].
      rewrite Nat2Z.id. by apply lookup_lt_Some in Hx.
    + apply lookup_ge_None. rewrite masked_fill_length. by apply lookup_ge_None.
  - rewrite bool_decide_eq_false_2 by done.
    rewrite <- (Nat2Z.id k). apply masked_fill_other; [lia|done].
Qed.

End masked_writes.

Section cyclical_facts.
Import BLI bke operators.
Context {library : Library}.
Variable C : bContext.

Lemma cyclic_for_write_length curves :
  CurvesGeometry_wf curves →
  length (cyclic_for_write curves) = Z.to_nat (curve_num curves).
Proof.
  intros Hwf. destruct (curve_data curves !! "cyclic") as [values|] eqn:Hv.
  - destruct (wf_cyclic _ Hwf _ Hv) as [l Hl].
    rewrite (cyclic_for_write_stored _ _ _ Hv Hl), <- (length_mapM _ _ _ Hl).
    pose proof (wf_curve_data _ Hwf _ _ Hv) as Hlen. simpl in Hlen. lia.
  - rewrite (cyclic_for_write_absent _ Hv). apply length_replicate.
Qed.

Lemma cyclic_read curves i :
  CurvesGeometry_wf curves → 0 ≤ i < curve_num curves →
  VArray_get (cyclic curves) i = cyclic_for_write curves !! Z.to_nat i.
Proof.
  intros Hwf Hi. destruct (curve_data curves !! "cyclic") as [values|] eqn:Hv.
  - destruct (wf_cyclic _ Hwf _ Hv) as [l Hl].
    rewrite (cyclic_stored _ _ _ Hv Hl), (cyclic_for_write_stored _ _ _ Hv Hl).
    cbn [VArray_get]. unfold Array_get. by rewrite decide_True by lia.
  - rewrite (cyclic_absent _ Hv), (cyclic_for_write_absent _ Hv). cbn [VArray_get].
    rewrite decide_True by done. symmetry. apply lookup_replicate_2. lia.
Qed.

Lemma cyclic_removed span curves :
  forallb negb span = true → length span = Z.to_nat (curve_num curves) →
  ∀ i, 0 ≤ i < curve_num curves →
    VArray_get (cyclic (set_domain_data Curve (delete "cyclic" (curve_data curves)) curves)) i
    = span !! Z.to_nat i.
Proof.
  intros Hall Hlen i Hi. rewrite cyclic_absent by apply lookup_delete_eq.
  cbn [VArray_get set_domain_data curve_num]. rewrite decide_True by done.
  destruct (lookup_lt_is_Some_2 span (Z.to_nat i)) as [b Hb]; [lia|].
  rewrite Hb. f_equal. rewrite forallb_forall in Hall.
  apply list_elem_of_lookup_2, list_elem_of_In, Hall in Hb. by destruct b.
Qed.

Lemma cyclical_set_drawing_spec mode info changed d g :
  d !! drawing info = Some g → CurvesGeometry_wf g →
  let strokes :=
    retrieve_editable_and_selected_strokes (active_object C) g (layer_index info) in
  IndexMask_wf strokes →
  ∃ g', drawings (run (cyclical_set_drawing C mode info changed) d) !! drawing info = Some g'
    ∧ curve_num g' = curve_num g ∧ point_num g' = point_num g
    ∧ curve_offsets g' = curve_offsets g ∧ point_data g' = point_data g
    ∧ (∀ name, name ≠ "cyclic" → curve_data g' !! name = curve_data g !! name)
    ∧ (∀ i old, 0 ≤ i < curve_num g → VArray_get (cyclic g) i = Some old →
         VArray_get (cyclic g') i
         = Some (if bool_decide (i ∈ strokes)
                 then match mode with CLOSE => true | OPEN => false | TOGGLE => negb old end
                 else old))
    ∧ (strokes ≠ [] →
         if bool_decide (mode = CLOSE) then is_Some (curve_data g' !! "cyclic")
         else (∀ i, 0 ≤ i < curve_num g → VArray_get (cyclic g') i = Some false) →
              curve_data g' !! "cyclic" = None).
Proof.
  intros Hd Hwf strokes [Hnn Hsorted].
  assert (Hnd : NoDup strokes) by (by apply IndexMask_wf_NoDup).
  assert (Hkeep : ∀ i old, 0 ≤ i < curve_num g → VArray_get (cyclic g) i = Some old →
            strokes = [] →
            VArray_get (cyclic g) i
            = Some (if bool_decide (i ∈ strokes)
                    then match mode with CLOSE => true | OPEN => false | TOGGLE => negb old end
                    else old)).
  { intros i old _ -> ->. rewrite bool_decide_eq_false_2; [done|apply not_elem_of_nil]. }
  unfold cyclical_set_drawing. rewrite drawings_bind, result_strokes, drawings_strokes.
  rewrite Hd. cbn [default from_option id]. fold strokes.
  destruct (bool_decide (mode = OPEN)
            && negb (bool_decide (is_Some (curve_data g !! "cyclic")))) eqn:Hskip.
  { rewrite drawings_ret. exists g. apply andb_true_iff in Hskip as [Hm Ha].
    apply bool_decide_eq_true in Hm as ->. apply negb_true_iff, bool_decide_eq_false in Ha.
    assert (Hnone : curve_data g !! "cyclic" = None).
    { destruct (curve_data g !! "cyclic"); [by destruct Ha|done]. }
    repeat split; try done.
    - intros i old Hi Hold. rewrite Hold. rewrite (cyclic_absent _ Hnone) in Hold.
      cbn [VArray_get] in Hold. case_decide; [|done]. simplify_eq.
      by destruct (bool_decide (i ∈ strokes)).
    - intros _. rewrite bool_decide_eq_false_2 by done. done. }
  clear Hskip. unfold IndexMask_is_empty. case_bool_decide as Hempty.
  { rewrite drawings_ret. exists g. repeat split; try done.
    intros i old Hi Hold. by apply Hkeep. }
  set (span := match mode with
               | CLOSE => masked_fill (cyclic_for_write g) true strokes
               | OPEN => masked_fill (cyclic_for_write g) false strokes
               | TOGGLE => invert_booleans_masked (cyclic_for_write g) strokes
               end).
  assert (Hlen : length span = Z.to_nat (curve_num g)).
  { rewrite <- (cyclic_for_write_length g Hwf). unfold span.
    destruct mode; [apply masked_fill_length..|].
    by apply invert_booleans_masked_spec. }
  assert (Hspan : ∀ i old, 0 ≤ i < curve_num g → VArray_get (cyclic g) i = Some old →
            span !! Z.to_nat i
            = Some (if bool_decide (i ∈ strokes)
                    then match mode with CLOSE => true | OPEN => false | TOGGLE => negb old end
                    else old)).
  { intros i old Hi Hold. rewrite (cyclic_read g i Hwf Hi) in Hold. unfold span.
    destruct mode.
    - rewrite masked_fill_spec by done. rewrite Z2Nat.id by lia. rewrite Hold.
      by destruct (bool_decide (i ∈ strokes)).
    - rewrite masked_fill_spec by done. rewrite Z2Nat.id by lia. rewrite Hold.
      by destruct (bool_decide (i ∈ strokes)).
    - destruct (invert_booleans_masked_spec (cyclic_for_write g) strokes Hnd) as [_ ->].
      rewrite Z2Nat.id by lia. rewrite Hold.
      by destruct (bool_decide (i ∈ strokes)). }
  rewrite drawings_bind, drawings_write_strokes, drawings_ret.
  rewrite list_lookup_insert_eq by (by apply lookup_lt_Some in Hd).
  eexists. split; [done|]. rewrite cyclic_store_cyclic. cbn [booleans_all_false].
  destruct (negb (bool_decide (mode = CLOSE)) && forallb negb span) eqn:Hremove.
  - apply andb_true_iff in Hremove as [Hm Hall]. apply negb_true_iff in Hm.
    repeat split; try done.
    + intros name Hname. cbn [set_domain_data curve_data store_cyclic].
      by rewrite lookup_delete_ne, lookup_insert_ne.
    + intros i old Hi Hold.
      rewrite (cyclic_removed span (store_cyclic span g) Hall Hlen i Hi).
      by apply Hspan.
    + intros _. rewrite Hm. intros _. cbn [set_domain_data curve_data].
      apply lookup_delete_eq.
  - repeat split; try done.
    + intros name Hname. cbn [set_domain_data curve_data store_cyclic].
      by rewrite lookup_insert_ne.
    + intros i old Hi Hold. rewrite cyclic_store_cyclic. cbn [VArray_get].
      unfold Array_get. rewrite decide_True by lia. by apply Hspan.
    + intros _. destruct (bool_decide (mode = CLOSE)) eqn:Hm.
      * cbn [set_domain_data curve_data store_cyclic]. rewrite lookup_insert_eq. by eexists.
      * intros Hfalse. exfalso. cbn [negb andb] in Hremove.
        apply not_true_iff_false in Hremove. apply Hremove.
        apply forallb_forall. intros b Hb.
        apply list_elem_of_In, list_elem_of_lookup_1 in Hb as [k Hk].
        assert (Hklt : (k < Z.to_nat (curve_num g))%nat).
        { rewrite <- Hlen. by apply lookup_lt_Some in Hk. }
        specialize (Hfalse (Z.of_nat k) ltac:(lia)).
        rewrite cyclic_store_cyclic in Hfalse. cbn [VArray_get] in Hfalse.
        unfold Array_get in Hfalse. rewrite decide_True, Nat2Z.id in Hfalse by lia.
        rewrite Hk in Hfalse. by simplify_eq.
Qed.

End cyclical_facts.

Section caps_facts.
Import BLI bke operators.
Context {library : Library}.

Lemma toggle_caps_spec (caps : list AttrValue) (strokes : IndexMask) :
  NoDup strokes →
  length (toggle_caps caps strokes) = length caps
  ∧ ∀ (k : nat),
      toggle_caps caps strokes !! k
      = if bool_decide (Z.of_nat k ∈ strokes)
        then (λ cap, if decide (cap = VInt8 GP_STROKE_CAP_FLAT)
                     then VInt8 GP_STROKE_CAP_ROUND else VInt8 GP_STROKE_CAP_FLAT)
             <$> caps !! k
        else caps !! k.
Proof.
  intros Hnd.
  pose (f := λ cap : AttrValue,
               if decide (cap = VInt8 GP_STROKE_CAP_FLAT)
               then VInt8 GP_STROKE_CAP_ROUND else VInt8 GP_STROKE_CAP_FLAT).
  assert (Heq : ∀ caps, toggle_caps caps strokes
                = foldl (λ span i,
                           match Array_get span i with
                           | Some x => <[Z.to_nat i := f x]> span
                           | None => span
                           end) caps strokes).
  { clear. unfold toggle_caps. induction strokes as [|i strokes IH]; intros caps; [done|].
    cbn [foldl]. rewrite IH. f_equal. destruct (Array_get caps i) as [cap|]; [|done].
    unfold f. by destruct (decide (cap = VInt8 GP_STROKE_CAP_FLAT)). }
  rewrite Heq. by apply (masked_update_spec f).
Qed.

Lemma toggle_caps_involutive (caps : list AttrValue) (strokes : IndexMask) :
  GP_STROKE_CAP_ROUND ≠ GP_STROKE_CAP_FLAT → NoDup strokes →
  (∀ i cap, i ∈ strokes → Array_get caps i = Some cap →
            cap = VInt8 GP_STROKE_CAP_ROUND ∨ cap = VInt8 GP_STROKE_CAP_FLAT) →
  toggle_caps (toggle_caps caps strokes) strokes = caps.
Proof.
  intros Hne Hnd Hcaps.
  destruct (toggle_caps_spec caps strokes Hnd) as [Hlen1 Hlook1].
  destruct (toggle_caps_spec (toggle_caps caps strokes) strokes Hnd) as [Hlen2 Hlook2].
  apply list_eq. intros k. rewrite Hlook2, Hlook1.
  case_bool_decide as Hk; [|done].
  destruct (caps !! k) as [cap|] eqn:Hcap; [|done]. cbn.
  assert (Hne' : VInt8 GP_STROKE_CAP_ROUND ≠ VInt8 GP_STROKE_CAP_FLAT).
  { intros [= Heq]. by apply Hne. }
  destruct (Hcaps (Z.of_nat k) cap Hk) as [->| ->].
  - unfold Array_get. rewrite decide_True by lia. by rewrite Nat2Z.id.
  - rewrite (decide_False (P := VInt8 GP_STROKE_CAP_ROUND = VInt8 GP_STROKE_CAP_FLAT)) by done.
    by rewrite decide_True.
  - rewrite (decide_True (P := VInt8 GP_STROKE_CAP_FLAT = VInt8 GP_STROKE_CAP_FLAT)) by done.
    by rewrite decide_False.
Qed.

End caps_facts.

(** X12. What the cyclical-set operator does to one editable drawing: the
    curves of the editable-and-selected stroke mask become cyclic in mode
    CLOSE, not cyclic in mode OPEN and change their state in mode TOGGLE;
    every other curve keeps its state; the number of curves, the offsets,
    the point attributes and the curve attributes other than "cyclic" are
    left as they were. *)
Theorem cyclical_set_drawing_sets_selected_curves
    {library : operators.Library} (C : operators.bContext) (mode : operators.CyclicalMode)
    (info : operators.MutableDrawingInfo) (changed : bool)
    (d : list bke.CurvesGeometry) (g : bke.CurvesGeometry) :
  d !! operators.drawing info = Some g →
  bke.CurvesGeometry_wf g →
  let strokes :=
    operators.retrieve_editable_and_selected_strokes (operators.active_object C) g
      (operators.layer_index info) in
  BLI.IndexMask_wf strokes →
  Forall (λ i, i < bke.curves_num g) strokes →
  ∃ g',
    operators.drawings (operators.run (operators.cyclical_set_drawing C mode info changed) d)
      !! operators.drawing info = Some g'
    ∧ bke.curves_num g' = bke.curves_num g
    ∧ bke.points_num g' = bke.points_num g
    ∧ bke.curve_offsets g' = bke.curve_offsets g
    ∧ bke.point_data g' = bke.point_data g
    ∧ (∀ name, name ≠ "cyclic" → bke.curve_data g' !! name = bke.curve_data g !! name)
    ∧ ∀ i old,
        0 ≤ i < bke.curves_num g →
        BLI.VArray_get (bke.cyclic g) i = Some old →
        BLI.VArray_get (bke.cyclic g') i
        = Some (if bool_decide (i ∈ strokes)
                then match mode with
                     | operators.CLOSE => true
                     | operators.OPEN => false
                     | operators.TOGGLE => negb old
                     end
                else old).
Proof.
  intros Hd Hwf strokes Hmask _.
  destruct (cyclical_set_drawing_spec C mode info changed d g Hd Hwf Hmask)
    as (g' & Hg' & Hcn & Hpn & Hoff & Hpd & Hcd & Hcyc & _).
  exists g'. done.
Qed.

Lemma cyclical_set_drawing_sets_selected_curves_witness :
  ∃ g',
    operators.drawings
      (operators.run
         (operators.cyclical_set_drawing (library := examples.library)
            examples.point_context operators.TOGGLE examples.first_drawing false)
         [examples.two_strokes])
      !! 0%nat = Some g'
    ∧ BLI.VArray_get (bke.cyclic g') 0 = Some true
    ∧ BLI.VArray_get (bke.cyclic g') 1 = Some true.
Proof.
  destruct (cyclical_set_drawing_sets_selected_curves (library := examples.library)
              examples.point_context operators.TOGGLE examples.first_drawing false
              [examples.two_strokes] examples.two_strokes)
    as (g' & Hg' & _ & _ & _ & _ & _ & Hcyc).
  - reflexivity.
  - exact two_strokes_wf.
  - split; repeat constructor; lia.
  - repeat constructor.
  - exists g'. split; [exact Hg'|]. split.
    + apply (Hcyc 0 true); [vm_compute; split; [discriminate|reflexivity] | reflexivity].
    + apply (Hcyc 1 false); [vm_compute; split; [discriminate|reflexivity] | reflexivity].
Defined.

(** X13. The cyclical-set operator leaves no empty "cyclic" attribute behind:
    on a drawing with a non-empty stroke mask, mode CLOSE leaves the
    attribute stored, and modes OPEN and TOGGLE leave it stored only if
    some curve is cyclic afterwards; when no curve is cyclic after the
    change, the attribute is not stored. *)
Theorem cyclical_set_drawing_removes_empty_attribute
    {library : operators.Library} (C : operators.bContext) (mode : operators.CyclicalMode)
    (info : operators.MutableDrawingInfo) (changed : bool)
    (d : list bke.CurvesGeometry) (g : bke.CurvesGeometry) :
  d !! operators.drawing info = Some g →
  bke.CurvesGeometry_wf g →
  let strokes :=
    operators.retrieve_editable_and_selected_strokes (operators.active_object C) g
      (operators.layer_index info) in
  BLI.IndexMask_wf strokes →
  Forall (λ i, i < bke.curves_num g) strokes →
  strokes ≠ [] →
  ∃ g',
    operators.drawings (operators.run (operators.cyclical_set_drawing C mode info changed) d)
      !! operators.drawing info = Some g'
    ∧ (mode = operators.CLOSE → is_Some (bke.curve_data g' !! "cyclic"))
    ∧ (mode ≠ operators.CLOSE →
       (∀ i, 0 ≤ i < bke.curves_num g → BLI.VArray_get (bke.cyclic g') i = Some false) →
       bke.curve_data g' !! "cyclic" = None).
Proof.
  intros Hd Hwf strokes Hmask _ Hne.
  destruct (cyclical_set_drawing_spec C mode info changed d g Hd Hwf Hmask)
    as (g' & Hg' & _ & _ & _ & _ & _ & _ & Hattr).
  exists g'. split; [done|]. specialize (Hattr Hne). split.
  - intros ->. by rewrite bool_decide_eq_true_2 in Hattr.
  - intros Hm. by rewrite bool_decide_eq_false_2 in Hattr.
Qed.

Lemma cyclical_set_drawing_removes_empty_attribute_witness :
  ∃ g',
    operators.drawings
      (operators.run
         (operators.cyclical_set_drawing (library := examples.library)
            examples.point_context operators.CLOSE examples.first_drawing false)
         [examples.two_strokes])
      !! 0%nat = Some g'
    ∧ is_Some (bke.curve_data g' !! "cyclic").
Proof.
  destruct (cyclical_set_drawing_removes_empty_attribute (library := examples.library)
              examples.point_context operators.CLOSE examples.first_drawing false
              [examples.two_strokes] examples.two_strokes)
    as (g' & Hg' & Hclose & _).
  - reflexivity.
  - exact two_strokes_wf.
  - split; repeat constructor; lia.
  - repeat constructor.
  - discriminate.
  - exists g'. split; [exact Hg'|]. apply Hclose. reflexivity.
Defined.

(** X14. [toggle_caps] rewrites the caps of the strokes of the mask and no
    other: a cap of the mask that is flat becomes round, and a cap of the
    mask of any other value becomes flat; the array keeps its length. *)
Theorem toggle_caps_flips_the_caps_of_the_mask
    {library : operators.Library} (caps : list bke.AttrValue) (strokes : BLI.IndexMask) :
  BLI.IndexMask_wf strokes →
  length (operators.toggle_caps caps strokes) = length caps
  ∧ ∀ (k : nat) (cap : bke.AttrValue),
      caps !! k = Some cap →
      operators.toggle_caps caps strokes !! k
      = Some (if bool_decide (Z.of_nat k ∈ strokes)
              then if decide (cap = bke.VInt8 operators.GP_STROKE_CAP_FLAT)
                   then bke.VInt8 operators.GP_STROKE_CAP_ROUND
                   else bke.VInt8 operators.GP_STROKE_CAP_FLAT
              else cap).
Proof.
  intros Hmask. apply IndexMask_wf_NoDup in Hmask.
  destruct (toggle_caps_spec caps strokes Hmask) as [Hlen Hlook].
  split; [done|]. intros k cap Hcap. rewrite Hlook, Hcap.
  by destruct (bool_decide (Z.of_nat k ∈ strokes)).
Qed.

Lemma toggle_caps_flips_the_caps_of_the_mask_witness :
  operators.toggle_caps (library := examples.library)
    [bke.VInt8 1; bke.VInt8 0; bke.VInt8 5] [0; 2] !! 2%nat
  = Some (bke.VInt8 1).
Proof.
  refine (proj2 (toggle_caps_flips_the_caps_of_the_mask (library := examples.library)
                   [bke.VInt8 1; bke.VInt8 0; bke.VInt8 5] [0; 2] _) 2%nat (bke.VInt8 5) _).
  - split; repeat constructor; lia.
  - reflexivity.
Defined.

(** X15. Toggling the caps of the same strokes twice restores them, when
    the caps of the mask are round or flat and the two values differ. *)
Theorem toggle_caps_twice
    {library : operators.Library} (caps : list bke.AttrValue) (strokes : BLI.IndexMask) :
  operators.GP_STROKE_CAP_ROUND ≠ operators.GP_STROKE_CAP_FLAT →
  BLI.IndexMask_wf strokes →
  (∀ i cap, i ∈ strokes → BLI.Array_get caps i = Some cap →
            cap = bke.VInt8 operators.GP_STROKE_CAP_ROUND
            ∨ cap = bke.VInt8 operators.GP_STROKE_CAP_FLAT) →
  operators.toggle_caps (operators.toggle_caps caps strokes) strokes = caps.
Proof.
  intros Hne Hmask Hcaps. apply toggle_caps_involutive; [done | | done].
  by apply IndexMask_wf_NoDup.
Qed.

Lemma toggle_caps_twice_witness :
  operators.toggle_caps (library := examples.library)
    (operators.toggle_caps (library := examples.library)
       [bke.VInt8 1; bke.VInt8 0; bke.VInt8 0] [0; 2]) [0; 2]
  = [bke.VInt8 1; bke.VInt8 0; bke.VInt8 0].
Proof.
  apply (toggle_caps_twice (library := examples.library)).
  - discriminate.
  - split; repeat constructor; lia.
  - intros i cap Hi Hcap.
    apply elem_of_cons in Hi as [->|Hi]; [right; by injection Hcap as <-|].
    apply elem_of_cons in Hi as [->|Hi]; [left; by injection Hcap as <-|].
    by apply elem_of_nil in Hi.
Defined.

(* ===================================================================== *)
(** * The points that the dissolve operator removes                      *)
(* ===================================================================== *)

Section runs_of_a_span.
Import BLI.

Lemma find_all_ranges_from_run (value : bool) (a : nat) (span : list bool) i len :
  find_all_ranges_from value (replicate a value ++ span) i len
  = find_all_ranges_from value span (i + Z.of_nat a) (len + Z.of_nat a).
Proof.
  revert i len. induction a as [|a IH]; intros i len.
  - cbn. by rewrite !Z.add_0_r.
  - cbn [replicate app find_all_ranges_from]. rewrite decide_True by done.
    rewrite IH. f_equal; lia.
Qed.

Lemma find_all_ranges_from_bounds (value : bool) (span : list bool) i len r :
  0 ≤ len →
  r ∈ find_all_ranges_from value span i len →
  i - len ≤ start r ∧ 0 < size r ∧ start r + size r ≤ i + Z.of_nat (length span).
Proof.
  revert i len. induction span as [|b span IH]; intros i len Hlen Hr.
  - cbn in Hr. case_decide; [|by apply elem_of_nil in Hr].
    apply list_elem_of_singleton in Hr as ->. cbn. lia.
  - cbn [find_all_ranges_from] in Hr. case_decide.
    + apply IH in Hr; [|lia]. cbn [length]. lia.
    + apply elem_of_app in Hr as [Hr|Hr].
      * case_decide; [|by apply elem_of_nil in Hr].
        apply list_elem_of_singleton in Hr as ->. cbn. lia.
      * apply IH in Hr; [|lia]. cbn [length]. lia.
Qed.

Lemma find_all_ranges_from_break (value other : bool) (l1 l2 : list bool) i len :
  other ≠ value →
  find_all_ranges_from value (l1 ++ other :: l2) i len
  = find_all_ranges_from value (l1 ++ [other]) i len
    ++ find_all_ranges_from value l2 (i + Z.of_nat (length l1) + 1) 0.
Proof.
  intros Hne. revert i len. induction l1 as [|b l1 IH]; intros i len.
  - cbn [app find_all_ranges_from length]. rewrite !decide_False by done.
    rewrite (decide_False (P := 0 < 0)) by lia. rewrite app_nil_r, Z.add_0_r.
    rewrite (decide_False (P := other = value)) by done. done.
  - cbn [app find_all_ranges_from length]. case_decide.
    + rewrite IH. do 2 f_equal. lia.
    + rewrite IH, app_assoc. do 2 f_equal. lia.
Qed.

Lemma find_all_ranges_from_stop (value other : bool) (l1 : list bool) i len r :
  other ≠ value → 0 ≤ len →
  r ∈ find_all_ranges_from value (l1 ++ [other]) i len →
  start r + size r ≤ i + Z.of_nat (length l1).
Proof.
  intros Hne. revert i len. induction l1 as [|b l1 IH]; intros i len Hlen Hr.
  - cbn [app find_all_ranges_from length] in Hr.
    rewrite (decide_False (P := other = value)) in Hr by done.
    rewrite ?(decide_False (P := 0 < 0)) in Hr by lia. rewrite ?app_nil_r in Hr.
    case_decide; [|by apply elem_of_nil in Hr].
    apply list_elem_of_singleton in Hr as ->. cbn. lia.
  - cbn [app find_all_ranges_from] in Hr. rewrite length_cons, Nat2Z.inj_succ. case_decide.
    + apply IH in Hr; [|lia]. lia.
    + apply elem_of_app in Hr as [Hr|Hr].
      * case_decide; [|by apply elem_of_nil in Hr].
        apply list_elem_of_singleton in Hr as ->. cbn. lia.
      * apply IH in Hr; [|lia]. lia.
Qed.

(** A span that holds [true] starts with a run of [false] that a [true]
    ends, and ends with a run of [false] that a [true] precedes. *)
Lemma first_true_split (s : list bool) :
  true ∈ s → ∃ (a : nat) rest, s = replicate a false ++ true :: rest.
Proof.
  induction s as [|b s IH]; intros Hin; [by apply elem_of_nil in Hin|].
  destruct b.
  - by exists 0%nat, s.
  - apply elem_of_cons in Hin as [?|Hin]; [done|].
    destruct (IH Hin) as (a & rest & ->). by exists (S a), rest.
Qed.

Lemma last_true_split (s : list bool) :
  true ∈ s → ∃ pre (z : nat), s = pre ++ true :: replicate z false.
Proof.
  induction s as [|b s IH] using rev_ind; intros Hin; [by apply elem_of_nil in Hin|].
  destruct b.
  - by exists s, 0%nat.
  - apply elem_of_app in Hin as [Hin|Hin].
    + destruct (IH Hin) as (pre & z & ->). exists pre, (S z).
      rewrite <- app_assoc. cbn [app]. do 2 f_equal.
      change [false] with (replicate 1 false). rewrite <- replicate_add.
      f_equal. lia.
    + by apply list_elem_of_singleton in Hin.
Qed.

(** The first and the last run of [false] of a span that holds [true]. *)
Lemma first_deselection_range (a : nat) (rest : list bool) r :
  head (find_all_ranges (replicate a false ++ true :: rest) false) = Some r →
  if decide (0 < a)%nat then r = {| start := 0; size := Z.of_nat a |} else 0 < start r.
Proof.
  unfold find_all_ranges. rewrite find_all_ranges_from_run.
  cbn [find_all_ranges_from]. rewrite decide_False by done. rewrite !Z.add_0_l.
  intros Hr. destruct (decide (0 < a)%nat) as [Ha|Ha].
  - rewrite decide_True in Hr by lia. cbn in Hr. injection Hr as <-.
    unfold IndexRange_from_end_size. f_equal. lia.
  - rewrite decide_False in Hr by lia. cbn [app] in Hr.
    apply head_Some_elem_of, find_all_ranges_from_bounds in Hr; lia.
Qed.

Lemma last_deselection_range (pre : list bool) (z : nat) r :
  last (find_all_ranges (pre ++ true :: replicate z false) false) = Some r →
  if decide (0 < z)%nat
  then r = {| start := Z.of_nat (length pre) + 1; size := Z.of_nat z |}
  else start r + size r ≤ Z.of_nat (length pre).
Proof.
  unfold find_all_ranges. rewrite find_all_ranges_from_break by done.
  rewrite <- (app_nil_r (replicate z false)), find_all_ranges_from_run.
  cbn [find_all_ranges_from]. rewrite !Z.add_0_l.
  intros Hr. destruct (decide (0 < z)%nat) as [Hz|Hz].
  - rewrite decide_True in Hr by lia. rewrite last_snoc in Hr. injection Hr as <-.
    unfold IndexRange_from_end_size. f_equal. lia.
  - rewrite decide_False in Hr by lia. rewrite app_nil_r in Hr.
    apply last_Some_elem_of, find_all_ranges_from_stop in Hr; [lia | done | lia].
Qed.

Lemma no_deselection_range_first (a : nat) (rest : list bool) :
  find_all_ranges (replicate a false ++ true :: rest) false = [] → a = 0%nat.
Proof.
  unfold find_all_ranges. rewrite find_all_ranges_from_run.
  cbn [find_all_ranges_from]. rewrite decide_False by done. rewrite !Z.add_0_l.
  intros Hnil. apply app_eq_nil in Hnil as [Hnil _].
  case_decide; [done|lia].
Qed.

Lemma no_deselection_range_last (pre : list bool) (z : nat) :
  find_all_ranges (pre ++ true :: replicate z false) false = [] → z = 0%nat.
Proof.
  unfold find_all_ranges. rewrite find_all_ranges_from_break by done.
  rewrite <- (app_nil_r (replicate z false)), find_all_ranges_from_run.
  cbn [find_all_ranges_from]. rewrite !Z.add_0_l.
  intros Hnil. apply app_eq_nil in Hnil as [_ Hnil].
  case_decide; [done|lia].
Qed.

End runs_of_a_span.

Section dissolve_cells.
Import BLI bke operators.

Lemma fill_range_length {A : Type} (u : list A) (r : IndexRange) (v : A) :
  length (fill_range u r v) = length u.
Proof. apply masked_fill_length. Qed.

Lemma fill_range_spec {A : Type} (u : list A) (r : IndexRange) (v : A) (k : nat) :
  0 ≤ start r →
  fill_range u r v !! k
  = if bool_decide (start r ≤ Z.of_nat k < start r + size r)
    then (λ _, v) <$> u !! k else u !! k.
Proof.
  intros Hr. unfold fill_range. rewrite masked_fill_spec.
  - by rewrite (bool_decide_ext _ _ (elem_of_IndexRange_to_list r (Z.of_nat k))).
  - apply Forall_forall. intros i Hi. apply elem_of_IndexRange_to_list in Hi. lia.
Qed.

Lemma Span_slice_facts {A : Type} (u : list A) (r : IndexRange) (s : list A) :
  Span_slice u r = Some s →
  0 ≤ start r ∧ 0 ≤ size r ∧ start r + size r ≤ Z.of_nat (length u)
  ∧ length s = Z.to_nat (size r)
  ∧ ∀ j : nat, (j < length s)%nat → s !! j = u !! (Z.to_nat (start r) + j)%nat.
Proof.
  unfold Span_slice. case_decide as Hr; [|done]. intros [= <-].
  assert (Hlen : length (take (Z.to_nat (size r)) (drop (Z.to_nat (start r)) u))
                 = Z.to_nat (size r)).
  { rewrite length_take, length_drop. lia. }
  repeat split; try lia.
  intros j Hj. rewrite Hlen in Hj. rewrite lookup_take_lt by done. by rewrite lookup_drop.
Qed.

Lemma no_true_before (a : nat) (rest : list bool) (j : nat) :
  true ∉ take (S j) (replicate a false ++ true :: rest) ↔ (j < a)%nat.
Proof.
  split.
  - intros Hnot. destruct (decide (j < a)%nat) as [|Hge]; [done|]. exfalso. apply Hnot.
    apply (list_elem_of_lookup_2 _ a). rewrite lookup_take_lt by lia.
    rewrite lookup_app_r by (rewrite length_replicate; lia).
    rewrite length_replicate, Nat.sub_diag. done.
  - intros Hj Hin. rewrite take_app_le in Hin by (rewrite length_replicate; lia).
    rewrite take_replicate in Hin. by apply elem_of_replicate in Hin as [? _].
Qed.

Lemma no_true_after (pre : list bool) (z : nat) (j : nat) :
  true ∉ drop j (pre ++ true :: replicate z false) ↔ (length pre < j)%nat.
Proof.
  split.
  - intros Hnot. destruct (decide (length pre < j)%nat) as [|Hge]; [done|]. exfalso.
    apply Hnot. apply (list_elem_of_lookup_2 _ (length pre - j)). rewrite lookup_drop.
    replace (j + (length pre - j))%nat with (length pre) by lia.
    rewrite lookup_app_r by lia. by rewrite Nat.sub_diag.
  - intros Hj Hin. rewrite drop_app_ge in Hin by lia.
    destruct (j - length pre)%nat as [|m] eqn:Hm; [lia|]. cbn [drop] in Hin.
    rewrite drop_replicate in Hin. by apply elem_of_replicate in Hin as [? _].
Qed.


(** The cells of [points_to_keep] after the round of one curve, in terms of
    the selection [s] of the curve before the round. *)
Lemma dissolve_curve_cells (mode : DissolveMode) (offsets : list Z) (u : list bool)
    (c : Z) (points : IndexRange) (s : list bool) :
  OffsetIndices_get offsets c = Some points → Span_slice u points = Some s →
  length (dissolve_curve mode offsets u c) = length u
  ∧ ∀ k : nat,
      dissolve_curve mode offsets u c !! k
      = if bool_decide (start points ≤ Z.of_nat k < start points + size points)
        then
          let j := (k - Z.to_nat (start points))%nat in
          Some (if bool_decide (true ∈ s)
                then default false (s !! j)
                     || bool_decide (mode = DISSOLVE_BETWEEN)
                        && (bool_decide (true ∉ take (S j) s)
                            || bool_decide (true ∉ drop j s))
                else true)
        else u !! k.
Proof.
  intros Hpoints Hslice.
  destruct (Span_slice_facts u points s Hslice) as (Hs0 & Hsz & Hfit & Hlen & Hs).
  assert (Hcell : ∀ k : nat, start points ≤ Z.of_nat k < start points + size points →
            u !! k = Some (default false (s !! (k - Z.to_nat (start points))%nat))).
  { intros k Hk. rewrite Hs by lia.
    replace (Z.to_nat (start points) + (k - Z.to_nat (start points)))%nat with k by lia.
    destruct (lookup_lt_is_Some_2 u k) as [b ->]; [lia|done]. }
  unfold dissolve_curve. rewrite Hpoints. cbn [default from_option id].
  rewrite Hslice. cbn [default from_option id].
  destruct (decide (true ∈ s)) as [Htrue|Hnone].
  2:{ rewrite (bool_decide_eq_false_2 (true ∈ s)) by done. cbn [negb].
      split; [apply fill_range_length|]. intros k. rewrite fill_range_spec by done.
      case_bool_decide as Hk; [|done]. cbn zeta. by rewrite (Hcell k Hk). }
  rewrite (bool_decide_eq_true_2 (true ∈ s)) by done. cbn [negb].
  destruct (decide (mode = DISSOLVE_BETWEEN)) as [->|Hmode].
  2:{ rewrite (bool_decide_eq_false_2 (mode = DISSOLVE_BETWEEN)) by done. cbn [negb andb].
      split; [done|]. intros k. case_bool_decide as Hk; [|done]. cbn zeta.
      by rewrite (Hcell k Hk), orb_false_r. }
  rewrite (bool_decide_eq_true_2 (DISSOLVE_BETWEEN = DISSOLVE_BETWEEN)) by done.
  cbn [negb andb].
  destruct (first_true_split s Htrue) as (a & rest & Hfirst).
  destruct (last_true_split s Htrue) as (pre & z & Hlast).
  assert (Hsa : (a < length s)%nat).
  { rewrite Hfirst, length_app, length_replicate. cbn [length]. lia. }
  assert (Hsz' : length s = (length pre + 1 + z)%nat).
  { rewrite Hlast, length_app. cbn [length]. rewrite length_replicate. lia. }
  assert (Hapre : (a ≤ length pre)%nat).
  { destruct (decide (a ≤ length pre)%nat) as [|Hgt]; [done|]. exfalso.
    assert (Ha : s !! a = Some true).
    { rewrite Hfirst, lookup_app_r by (rewrite length_replicate; lia).
      by rewrite length_replicate, Nat.sub_diag. }
    rewrite Hlast, lookup_app_r in Ha by lia.
    destruct (a - length pre)%nat as [|m] eqn:Hm; [lia|]. cbn in Ha.
    apply lookup_replicate in Ha as [? _]. done. }
  (* The two conditional fills, whatever ranges were found. *)
  assert (Hfills : ∀ u2 : list bool,
            (∃ fill_first fill_last : bool,
               (fill_first = true → (0 < a)%nat) ∧ ((0 < a)%nat → fill_first = true)
               ∧ (fill_last = true → (0 < z)%nat) ∧ ((0 < z)%nat → fill_last = true)
               ∧ u2 = (let u1 := if fill_first
                                 then fill_range u {| start := start points;
                                                      size := Z.of_nat a |} true
                                 else u in
                       if fill_last
                       then fill_range u1 {| start := start points + Z.of_nat (length pre) + 1;
                                             size := Z.of_nat z |} true
                       else u1)) →
            length u2 = length u
            ∧ ∀ k : nat,
                u2 !! k
                = if bool_decide (start points ≤ Z.of_nat k < start points + size points)
                  then
                    let j := (k - Z.to_nat (start points))%nat in
                    Some (default false (s !! j)
                          || (bool_decide (true ∉ take (S j) s)
                              || bool_decide (true ∉ drop j s)))
                  else u !! k).
  { intros u2 (fill_first & fill_last & Hf1 & Hf2 & Hl1 & Hl2 & ->). cbn zeta.
    set (u1 := if fill_first then _ else u).
    assert (Hu1len : length u1 = length u).
    { unfold u1. destruct fill_first; [apply fill_range_length|done]. }
    assert (Hu1 : ∀ k : nat,
              u1 !! k = if bool_decide (start points ≤ Z.of_nat k < start points + Z.of_nat a)
                        then (λ _, true) <$> u !! k else u !! k).
    { intros k. unfold u1. destruct fill_first.
      - by rewrite fill_range_spec.
      - rewrite bool_decide_eq_false_2; [done|].
        destruct (decide (0 < a)%nat) as [Ha|Ha]; [by specialize (Hf2 Ha)|lia]. }
    split.
    { destruct fill_last; [by rewrite fill_range_length|done]. }
    intros k.
    assert (Hu2 : (if fill_last
                   then fill_range u1 {| start := start points + Z.of_nat (length pre) + 1;
                                         size := Z.of_nat z |} true
                   else u1) !! k
                  = if bool_decide (start points + Z.of_nat (length pre) + 1 ≤ Z.of_nat k
                                    < start points + Z.of_nat (length pre) + 1 + Z.of_nat z)
                    then (λ _, true) <$> u1 !! k else u1 !! k).
    { destruct fill_last.
      - rewrite fill_range_spec by (cbn; lia). done.
      - rewrite bool_decide_eq_false_2; [done|].
        destruct (decide (0 < z)%nat) as [Hz|Hz]; [by specialize (Hl2 Hz)|lia]. }
    rewrite Hu2, Hu1. clear Hu2 Hu1.
    destruct (decide (start points ≤ Z.of_nat k < start points + size points)) as [Hk|Hk].
    - rewrite (bool_decide_eq_true_2 _ Hk). cbn zeta.
      set (j := (k - Z.to_nat (start points))%nat).
      rewrite (Hcell k Hk). fold j. cbn [fmap option_fmap option_map].
      assert (Hjk : Z.of_nat j = Z.of_nat k - start points) by (unfold j; lia).
      clearbody j.
      assert (Hb : bool_decide (true ∉ take (S j) s) = bool_decide (j < a)%nat).
      { apply bool_decide_ext. rewrite Hfirst at 1. apply no_true_before. }
      assert (He : bool_decide (true ∉ drop j s) = bool_decide (length pre < j)%nat).
      { apply bool_decide_ext. rewrite Hlast at 1. apply no_true_after. }
      rewrite Hb, He.
      destruct (decide (j < a)%nat) as [Hja|Hja];
        destruct (decide (length pre < j)%nat) as [Hjz|Hjz].
      + lia.
      + rewrite (bool_decide_eq_true_2 (j < a)%nat) by done.
        rewrite (bool_decide_eq_false_2 (length pre < j)%nat) by done.
        rewrite orb_true_r.
        rewrite bool_decide_eq_false_2 by lia. rewrite bool_decide_eq_true_2 by lia. done.
      + rewrite (bool_decide_eq_false_2 (j < a)%nat) by done.
        rewrite (bool_decide_eq_true_2 (length pre < j)%nat) by done.
        rewrite orb_true_r.
        rewrite bool_decide_eq_true_2 by lia. rewrite bool_decide_eq_false_2 by lia. done.
      + rewrite (bool_decide_eq_false_2 (j < a)%nat) by done.
        rewrite (bool_decide_eq_false_2 (length pre < j)%nat) by done.
        rewrite !orb_false_r.
        rewrite bool_decide_eq_false_2 by lia. rewrite bool_decide_eq_false_2 by lia. done.
    - rewrite (bool_decide_eq_false_2 _ Hk).
      rewrite bool_decide_eq_false_2 by lia. rewrite bool_decide_eq_false_2 by lia. done. }
  set (ranges := find_all_ranges s false).
  destruct (head ranges) as [first|] eqn:Hhead.
  - destruct (last ranges) as [last_range|] eqn:Hlast_range.
    2:{ apply last_None in Hlast_range. by rewrite Hlast_range in Hhead. }
    apply Hfills.
    pose proof (first_deselection_range a rest first) as Hfirst_range.
    pose proof (last_deselection_range pre z last_range) as Hlast_range'.
    rewrite <- Hfirst in Hfirst_range. rewrite <- Hlast in Hlast_range'.
    specialize (Hfirst_range Hhead). specialize (Hlast_range' Hlast_range).
    exists (bool_decide (0 < a)%nat), (bool_decide (0 < z)%nat).
    split; [apply bool_decide_eq_true_1|]. split; [apply bool_decide_eq_true_2|].
    split; [apply bool_decide_eq_true_1|]. split; [apply bool_decide_eq_true_2|].
    cbn zeta. unfold IndexRange_first, IndexRange_last, IndexRange_shift. cbn [start size].
    destruct (decide (0 < a)%nat) as [Ha|Ha]; destruct (decide (0 < z)%nat) as [Hz|Hz].
    + subst first last_range. cbn [start size].
      rewrite (bool_decide_eq_true_2 (0 < a)%nat), (bool_decide_eq_true_2 (0 < z)%nat) by done.
      repeat case_decide; try lia. f_equal. f_equal. lia.
    + subst first. cbn [start size].
      rewrite (bool_decide_eq_true_2 (0 < a)%nat), (bool_decide_eq_false_2 (0 < z)%nat) by done.
      repeat case_decide; try lia. done.
    + subst last_range. cbn [start size].
      rewrite (bool_decide_eq_false_2 (0 < a)%nat), (bool_decide_eq_true_2 (0 < z)%nat) by done.
      repeat case_decide; try lia. f_equal. f_equal. lia.
    + rewrite (bool_decide_eq_false_2 (0 < a)%nat), (bool_decide_eq_false_2 (0 < z)%nat) by done.
      repeat case_decide; try lia. done.
  - apply Hfills. exists false, false.
    assert (Hnil : ranges = []) by (by destruct ranges).
    pose proof (no_deselection_range_first a rest) as Ha.
    pose proof (no_deselection_range_last pre z) as Hz.
    rewrite <- Hfirst in Ha. rewrite <- Hlast in Hz.
    specialize (Ha Hnil). specialize (Hz Hnil).
    repeat split; try done; lia.
Qed.

End dissolve_cells.

Section dissolve_loop.
Import BLI bke operators.

(** [selection.materialize(mask, points_to_dissolve)] on an array of
    [false]. *)
Lemma materialize_spec (selection : VArray bool) (mask : IndexMask) (n : nat) :
  let r := foldl (λ span i,
                    match VArray_get selection i with
                    | Some b => if decide (0 ≤ i) then <[Z.to_nat i := b]> span else span
                    | None => span
                    end) (replicate n false) mask in
  length r = n
  ∧ ∀ k : nat, (k < n)%nat →
      r !! k = Some (bool_decide (Z.of_nat k ∈ mask
                                  ∧ VArray_get selection (Z.of_nat k) = Some true)).
Proof.
  induction mask as [|i mask IH] using rev_ind; cbn zeta.
  - cbn [foldl]. split; [apply length_replicate|]. intros k Hk.
    rewrite lookup_replicate_2 by done. f_equal.
  - rewrite foldl_app. cbn [foldl]. cbn zeta in IH. destruct IH as [Hlen Hlook].
    set (r := foldl _ (replicate n false) mask) in *.
    assert (Hin : ∀ k : nat, Z.of_nat k ≠ i →
              bool_decide (Z.of_nat k ∈ mask ++ [i]
                           ∧ VArray_get selection (Z.of_nat k) = Some true)
              = bool_decide (Z.of_nat k ∈ mask
                             ∧ VArray_get selection (Z.of_nat k) = Some true)).
    { intros k Hk. apply bool_decide_ext. rewrite elem_of_app, list_elem_of_singleton.
      tauto. }
    destruct (VArray_get selection i) as [b|] eqn:Hb.
    + case_decide as Hi.
      * split; [by rewrite length_insert|]. intros k Hk.
        destruct (decide (k = Z.to_nat i)) as [->|Hne].
        -- rewrite list_lookup_insert_eq by lia. f_equal. rewrite Z2Nat.id by done.
           rewrite Hb. destruct b.
           ++ symmetry. apply bool_decide_eq_true_2. split; [|done].
              apply elem_of_app. right. by apply list_elem_of_singleton.
           ++ symmetry. apply bool_decide_eq_false_2. by intros [_ ?].
        -- rewrite list_lookup_insert_ne by done. rewrite Hin by lia. by apply Hlook.
      * split; [done|]. intros k Hk. rewrite Hin by lia. by apply Hlook.
    + split; [done|]. intros k Hk. rewrite Hlook by done. f_equal.
      apply bool_decide_ext. rewrite elem_of_app, list_elem_of_singleton.
      split; [tauto|]. intros [[Hm| ->] Hsel]; [done|]. by rewrite Hb in Hsel.
Qed.

Lemma Span_slice_ext {A : Type} (u w : list A) (r : IndexRange) :
  length w = length u →
  (∀ k : nat, start r ≤ Z.of_nat k < start r + size r → w !! k = u !! k) →
  Span_slice w r = Span_slice u r.
Proof.
  intros Hlen Hsame. unfold Span_slice. rewrite Hlen.
  case_decide as Hr; [|done]. f_equal. apply list_eq. intros j.
  destruct (decide (j < Z.to_nat (size r))%nat) as [Hj|Hj].
  - rewrite !lookup_take_lt by done. rewrite !lookup_drop. apply Hsame. lia.
  - rewrite !lookup_take_ge by lia. done.
Qed.

Variable mode : DissolveMode.
Variable curves : CurvesGeometry.
Hypothesis curves_wf : CurvesGeometry_wf curves.

(** The rounds of the loop over the curves are independent: a round reads
    and writes the cells of its own curve only. *)
Lemma dissolve_loop_cells (u : list bool) :
  length u = Z.to_nat (points_num curves) →
  ∀ n : nat, Z.of_nat n ≤ curves_num curves →
  let w := foldl (dissolve_curve mode (points_by_curve curves)) u
             (IndexRange_to_list {| start := 0; size := Z.of_nat n |}) in
  length w = length u
  ∧ (∀ c points (k : nat),
       Z.of_nat n ≤ c < curves_num curves →
       OffsetIndices_get (points_by_curve curves) c = Some points →
       start points ≤ Z.of_nat k →
       w !! k = u !! k)
  ∧ ∀ c points s (k : nat),
      0 ≤ c < Z.of_nat n →
      OffsetIndices_get (points_by_curve curves) c = Some points →
      Span_slice u points = Some s →
      start points ≤ Z.of_nat k < start points + size points →
      w !! k
      = dissolve_curve mode (points_by_curve curves) u c !! k.
Proof.
  intros Hu n. induction n as [|n IH]; intros Hn; cbn zeta.
  - cbn [foldl]. split; [done|]. split; [done|]. intros; lia.
  - replace (Z.of_nat (S n)) with (Z.of_nat n + 1) by lia.
    rewrite IndexRange_to_list_snoc by lia. rewrite foldl_app. cbn [foldl]. rewrite Z.add_0_l.
    destruct (IH ltac:(lia)) as (Hlen & Hrest & Hdone). clear IH.
    set (w := foldl _ u _) in *.
    destruct (wf_points_by_curve curves (Z.of_nat n) curves_wf ltac:(unfold curves_num in Hn; lia))
      as (b & e & Hb & He & Hb0 & Hbe & Hen & Hpoints).
    assert (Hslice_u : is_Some (Span_slice u {| start := b; size := e - b |})).
    { unfold Span_slice. cbn [start size]. rewrite decide_True; [done|].
      unfold points_num in Hu. lia. }
    destruct Hslice_u as [s Hs].
    assert (Hslice_w : Span_slice w {| start := b; size := e - b |} = Some s).
    { rewrite <- Hs. apply Span_slice_ext; [done|]. cbn [start size]. intros k Hk.
      apply (Hrest (Z.of_nat n) {| start := b; size := e - b |}); [|done|cbn; lia].
      unfold curves_num in *. lia. }
    destruct (dissolve_curve_cells mode (points_by_curve curves) w (Z.of_nat n) _ s
                Hpoints Hslice_w) as [Hlen' Hcells].
    destruct (dissolve_curve_cells mode (points_by_curve curves) u (Z.of_nat n) _ s
                Hpoints Hs) as [_ Hcells_u].
    cbn [start size] in Hcells, Hcells_u.
    split; [lia|]. split.
    + intros c points k Hc Hpts Hk. rewrite Hcells.
      destruct (wf_points_by_curve curves c curves_wf ltac:(unfold curves_num in Hc; lia))
        as (b' & e' & Hb' & He' & _ & _ & _ & Hpoints').
      rewrite Hpts in Hpoints'. injection Hpoints' as ->. cbn [start] in Hk.
      assert (e ≤ b').
      { apply (StronglySorted_le_lookup (curve_offsets curves) (S (Z.to_nat (Z.of_nat n)))
                 (Z.to_nat c)); [by apply wf_offsets_sorted|done|done|lia]. }
      rewrite bool_decide_eq_false_2 by lia.
      apply (Hrest c {| start := b'; size := e' - b' |}); [lia|done|done].
    + intros c points s' k Hc Hpts Hs' Hk.
      destruct (decide (c = Z.of_nat n)) as [->|Hne].
      * rewrite Hpts in Hpoints. injection Hpoints as ->. cbn [start size] in Hk.
        rewrite Hcells, Hcells_u. by rewrite !(bool_decide_eq_true_2 _ Hk).
      * rewrite Hcells.
        destruct (wf_points_by_curve curves c curves_wf ltac:(unfold curves_num in Hn; lia))
          as (b' & e' & Hb' & He' & _ & _ & _ & Hpoints').
        rewrite Hpts in Hpoints'. injection Hpoints' as ->. cbn [start size] in Hk.
        assert (e' ≤ b).
        { apply (StronglySorted_le_lookup (curve_offsets curves) (S (Z.to_nat c))
                   (Z.to_nat (Z.of_nat n))); [by apply wf_offsets_sorted|done|done|lia]. }
        rewrite bool_decide_eq_false_2 by lia.
        apply (Hdone c {| start := b'; size := e' - b' |} s'); [lia|done|done|done].
Qed.

End dissolve_loop.

Section dissolve_result.
Import BLI bke operators.

Lemma true_in_slice (u : list bool) (points : IndexRange) (s : list bool)
    (sel : Z → Prop) `{!∀ q, Decision (sel q)} :
  Span_slice u points = Some s →
  (∀ k : nat, (k < length u)%nat → u !! k = Some (bool_decide (sel (Z.of_nat k)))) →
  ∀ lo hi : nat, (hi ≤ length s)%nat →
    (∃ j : nat, (lo ≤ j < hi)%nat ∧ s !! j = Some true)
    ↔ ∃ q, start points + Z.of_nat lo ≤ q < start points + Z.of_nat hi ∧ sel q.
Proof.
  intros Hslice Hu lo hi Hhi.
  destruct (Span_slice_facts u points s Hslice) as (Hs0 & Hsz & Hfit & Hlen & Hs).
  split.
  - intros (j & Hj & Htrue). exists (start points + Z.of_nat j). split; [lia|].
    rewrite Hs, Hu in Htrue by lia. injection Htrue as Htrue.
    apply bool_decide_eq_true in Htrue.
    by replace (Z.of_nat (Z.to_nat (start points) + j)) with (start points + Z.of_nat j)
      in Htrue by lia.
  - intros (q & Hq & Hsel). exists (Z.to_nat (q - start points)). split; [lia|].
    rewrite Hs, Hu by lia. f_equal. apply bool_decide_eq_true_2.
    by replace (Z.of_nat (Z.to_nat (start points) + Z.to_nat (q - start points))) with q
      by lia.
Qed.

Lemma elem_of_true (l : list bool) : true ∈ l ↔ ∃ j : nat, l !! j = Some true.
Proof. apply list_elem_of_lookup. Qed.

Variable curves : CurvesGeometry.
Hypothesis curves_wf : CurvesGeometry_wf curves.
Variable mask : IndexMask.

(** Which points [get_points_to_dissolve] marks, by the mode. *)
Lemma get_points_to_dissolve_spec (mode : DissolveMode) (d : list CurvesGeometry) :
  let selection := lookup_or_default_bool curves ".selection" Point true in
  let selected q := q ∈ mask ∧ VArray_get selection q = Some true in
  let r := result (run (get_points_to_dissolve curves mask mode) d) in
  length r = Z.to_nat (points_num curves)
  ∧ ∀ c points p,
      0 ≤ c < curves_num curves →
      OffsetIndices_get (points_by_curve curves) c = Some points →
      IndexRange_first points ≤ p ≤ IndexRange_last points 0 →
      (r !! Z.to_nat p = Some true
       ↔ match mode with
         | DISSOLVE_POINTS => selected p
         | DISSOLVE_BETWEEN =>
             ¬ selected p
             ∧ (∃ q, IndexRange_first points ≤ q < p ∧ selected q)
             ∧ (∃ q, p < q ≤ IndexRange_last points 0 ∧ selected q)
         | DISSOLVE_UNSELECT =>
             ¬ selected p
             ∧ ∃ q, IndexRange_first points ≤ q ≤ IndexRange_last points 0 ∧ selected q
         end).
Proof.
  intros selection selected r.
  destruct (materialize_spec selection mask (Z.to_nat (points_num curves))) as [Hulen Hu].
  cbn zeta in Hulen, Hu.
  unfold r, get_points_to_dissolve. cbv zeta. fold selection.
  set (u := foldl _ (replicate (Z.to_nat (points_num curves)) false) mask) in *.
  assert (Hrange : ∀ c points p,
            0 ≤ c < curves_num curves →
            OffsetIndices_get (points_by_curve curves) c = Some points →
            IndexRange_first points ≤ p ≤ IndexRange_last points 0 →
            0 ≤ start points ∧ 0 ≤ size points
            ∧ start points + size points ≤ points_num curves
            ∧ start points ≤ p < start points + size points).
  { intros c points p Hc Hpoints Hp.
    destruct (wf_points_by_curve curves c curves_wf Hc)
      as (b & e & _ & _ & Hb0 & Hbe & Hen & Hpoints').
    rewrite Hpoints in Hpoints'. injection Hpoints' as ->.
    unfold IndexRange_first, IndexRange_last in Hp. cbn [start size] in *.
    unfold points_num. lia. }
  destruct (decide (mode = DISSOLVE_POINTS)) as [->|Hmode].
  { rewrite result_ret. split; [done|]. intros c points p Hc Hpoints Hp.
    destruct (Hrange c points p Hc Hpoints Hp) as (Hs0 & Hsz & Hfit & Hin).
    rewrite Hu by lia. rewrite Z2Nat.id by lia. split.
    - intros [= Htrue]. by apply bool_decide_eq_true in Htrue.
    - intros Hsel. f_equal. by apply bool_decide_eq_true_2. }
  rewrite result_ret.
  destruct (dissolve_loop_cells mode curves curves_wf u Hulen (Z.to_nat (curves_num curves)))
    as (Hwlen & _ & Hw).
  { pose proof (wf_curve_num _ curves_wf). unfold curves_num. lia. }
  cbn zeta in Hwlen, Hw. rewrite Z2Nat.id in Hw, Hwlen
    by (pose proof (wf_curve_num _ curves_wf); unfold curves_num; lia).
  change {| start := 0; size := curves_num curves |} with (curves_range curves) in Hw, Hwlen.
  set (w := foldl _ u (IndexRange_to_list (curves_range curves))) in *.
  split; [by rewrite length_fmap, Hwlen|].
  intros c points p Hc Hpoints Hp.
  destruct (Hrange c points p Hc Hpoints Hp) as (Hs0 & Hsz & Hfit & Hin).
  assert (Hslice : is_Some (Span_slice u points)).
  { unfold Span_slice. rewrite decide_True; [done|]. lia. }
  destruct Hslice as [s Hs].
  destruct (Span_slice_facts u points s Hs) as (_ & _ & _ & Hslen & Hscells).
  set (k := Z.to_nat p).
  assert (Hk : start points ≤ Z.of_nat k < start points + size points) by (unfold k; lia).
  rewrite list_lookup_fmap, (Hw c points s k Hc Hpoints Hs Hk).
  destruct (dissolve_curve_cells mode (points_by_curve curves) u c points s Hpoints Hs)
    as [_ ->].
  rewrite (bool_decide_eq_true_2 _ Hk). cbn zeta. cbn [fmap option_fmap option_map].
  set (j := (k - Z.to_nat (start points))%nat).
  assert (Hj : (j < length s)%nat) by (unfold j; lia).
  assert (Hpj : p = start points + Z.of_nat j) by (unfold j, k; lia).
  assert (Hu' : ∀ k0 : nat, (k0 < length u)%nat →
            u !! k0 = Some (bool_decide (selected (Z.of_nat k0)))).
  { intros k0 Hk0. apply Hu. lia. }
  pose proof (true_in_slice u points s selected Hs Hu') as Hseg.
  assert (Hsj : s !! j = Some (bool_decide (selected p))).
  { rewrite Hscells, Hu' by lia.
    by replace (Z.of_nat (Z.to_nat (start points) + j)) with p by lia. }
  assert (Hany : true ∈ s
                 ↔ ∃ q, IndexRange_first points ≤ q ≤ IndexRange_last points 0 ∧ selected q).
  { rewrite elem_of_true. unfold IndexRange_first, IndexRange_last. split.
    - intros (i & Hi). destruct (proj1 (Hseg 0%nat (length s) ltac:(lia))) as (q & Hq & Hsel).
      { exists i. split; [|done]. apply lookup_lt_Some in Hi. lia. }
      exists q. split; [lia|done].
    - intros (q & Hq & Hsel).
      destruct (proj2 (Hseg 0%nat (length s) ltac:(lia))) as (i & _ & Hi).
      { exists q. split; [lia|done]. }
      by exists i. }
  assert (Hbefore : true ∈ take (S j) s
                    ↔ ∃ q, IndexRange_first points ≤ q ≤ p ∧ selected q).
  { rewrite elem_of_true. unfold IndexRange_first. split.
    - intros (i & Hi). apply lookup_take_Some in Hi as [Hi Hij].
      destruct (proj1 (Hseg 0%nat (S j) ltac:(lia))) as (q & Hq & Hsel).
      { exists i. split; [lia|done]. }
      exists q. split; [lia|done].
    - intros (q & Hq & Hsel).
      destruct (proj2 (Hseg 0%nat (S j) ltac:(lia))) as (i & Hij & Hi).
      { exists q. split; [lia|done]. }
      exists i. apply lookup_take_Some. split; [done|lia]. }
  assert (Hafter : true ∈ drop j s
                   ↔ ∃ q, p ≤ q ≤ IndexRange_last points 0 ∧ selected q).
  { rewrite elem_of_true. unfold IndexRange_last. split.
    - intros (i & Hi). rewrite lookup_drop in Hi.
      destruct (proj1 (Hseg j (length s) ltac:(lia))) as (q & Hq & Hsel).
      { exists (j + i)%nat. split; [|done]. apply lookup_lt_Some in Hi. lia. }
      exists q. split; [lia|done].
    - intros (q & Hq & Hsel).
      destruct (proj2 (Hseg j (length s) ltac:(lia))) as (i & Hij & Hi).
      { exists q. split; [lia|done]. }
      exists (i - j)%nat. rewrite lookup_drop.
      by replace (j + (i - j))%nat with i by lia. }
  rewrite Hsj. cbn [default from_option id].
  clearbody j k w u. clear Hw Hu Hu' Hseg Hscells.
  destruct mode; [done| |].
  - rewrite (bool_decide_eq_true_2 (DISSOLVE_BETWEEN = DISSOLVE_BETWEEN)) by done.
    cbn [andb]. split.
    + intros [= Hcell]. apply negb_true_iff in Hcell.
      destruct (bool_decide (true ∈ s)) eqn:Hts; [|done].
      apply orb_false_iff in Hcell as [Hp' Hcell].
      apply orb_false_iff in Hcell as [Hb Ha].
      apply bool_decide_eq_false in Hp', Hb, Ha.
      assert (Hb' : true ∈ take (S j) s) by (by destruct (decide (true ∈ take (S j) s))).
      assert (Ha' : true ∈ drop j s) by (by destruct (decide (true ∈ drop j s))).
      apply Hbefore in Hb' as (q1 & Hq1 & Hsel1). apply Hafter in Ha' as (q2 & Hq2 & Hsel2).
      split; [done|]. split.
      * exists q1. split; [|done]. destruct (decide (q1 = p)) as [->|]; [done|lia].
      * exists q2. split; [|done]. destruct (decide (q2 = p)) as [->|]; [done|lia].
    + intros (Hp' & (q1 & Hq1 & Hsel1) & (q2 & Hq2 & Hsel2)). f_equal.
      apply negb_true_iff.
      rewrite (bool_decide_eq_true_2 (true ∈ s)).
      2:{ apply Hany. exists q1. split; [|done]. unfold IndexRange_last in *. lia. }
      rewrite (bool_decide_eq_false_2 (selected p)) by done. cbn [orb].
      apply orb_false_iff. split; apply bool_decide_eq_false_2; intros Hnot; apply Hnot.
      * apply Hbefore. exists q1. split; [lia|done].
      * apply Hafter. exists q2. split; [lia|done].
  - rewrite (bool_decide_eq_false_2 (DISSOLVE_UNSELECT = DISSOLVE_BETWEEN)) by done.
    cbn [andb]. rewrite orb_false_r. split.
    + intros [= Hcell]. apply negb_true_iff in Hcell.
      destruct (bool_decide (true ∈ s)) eqn:Hts; [|done].
      apply bool_decide_eq_true in Hts. apply bool_decide_eq_false in Hcell.
      split; [done|]. by apply Hany.
    + intros (Hp' & Hq). f_equal. apply negb_true_iff.
      rewrite (bool_decide_eq_true_2 (true ∈ s)) by (by apply Hany).
      by apply bool_decide_eq_false_2.
Qed.

End dissolve_result.

(** X16. In mode POINTS, [get_points_to_dissolve] marks the points of the
    mask whose selection is true, and no other point; the array has one
    cell for each point. *)
Theorem get_points_to_dissolve_points
    (curves : bke.CurvesGeometry) (mask : BLI.IndexMask) (d : list bke.CurvesGeometry)
    (p : Z) :
  bke.CurvesGeometry_wf curves →
  Forall (λ i, 0 ≤ i < bke.points_num curves) mask →
  0 ≤ p < bke.points_num curves →
  let selection := bke.lookup_or_default_bool curves ".selection" bke.Point true in
  let points_to_dissolve :=
    operators.result
      (operators.run
         (operators.get_points_to_dissolve curves mask operators.DISSOLVE_POINTS) d) in
  length points_to_dissolve = Z.to_nat (bke.points_num curves)
  ∧ (points_to_dissolve !! Z.to_nat p = Some true
     ↔ p ∈ mask ∧ BLI.VArray_get selection p = Some true).
Proof.
  intros Hwf _ Hp selection points_to_dissolve.
  destruct (get_points_to_dissolve_spec curves Hwf mask operators.DISSOLVE_POINTS d)
    as [Hlen Hcells].
  split; [done|].
  (* The curve of the point. *)
  assert (Hcurve : ∃ c points,
            0 ≤ c < bke.curves_num curves
            ∧ BLI.OffsetIndices_get (bke.points_by_curve curves) c = Some points
            ∧ BLI.IndexRange_first points ≤ p ≤ BLI.IndexRange_last points 0).
  { assert (Hn : 0 < bke.curve_num curves).
    { pose proof (bke.wf_curve_num _ Hwf). pose proof (bke.wf_no_curves _ Hwf).
      unfold bke.points_num in Hp. lia. }
    assert (Hsearch : ∀ n : nat, Z.of_nat n ≤ bke.curve_num curves →
              (∃ c points,
                 0 ≤ c < Z.of_nat n
                 ∧ BLI.OffsetIndices_get (bke.points_by_curve curves) c = Some points
                 ∧ BLI.IndexRange_first points ≤ p ≤ BLI.IndexRange_last points 0)
              ∨ ∃ o, bke.curve_offsets curves !! n = Some o ∧ o ≤ p).
    { induction n as [|n IH]; intros Hle.
      - right. exists 0. pose proof (bke.wf_offsets_first _ Hwf Hn) as H0.
        rewrite head_lookup in H0. split; [done|lia].
      - destruct (IH ltac:(lia)) as [(c & points & Hc & Hpts & Hin)|(o & Ho & Hop)].
        + left. exists c, points. split; [lia|done].
        + destruct (wf_points_by_curve curves (Z.of_nat n) Hwf ltac:(lia))
            as (b & e & Hb & He & _ & _ & _ & Hpts).
          rewrite Nat2Z.id in Hb, He. rewrite Hb in Ho. injection Ho as ->.
          destruct (decide (p < e)) as [Hlt|Hge].
          * left. exists (Z.of_nat n), {| BLI.start := o; BLI.size := e - o |}.
            split; [lia|]. split; [done|].
            unfold BLI.IndexRange_first, BLI.IndexRange_last. cbn. lia.
          * right. exists e. split; [done|lia]. }
    destruct (Hsearch (Z.to_nat (bke.curve_num curves)) ltac:(lia))
      as [(c & points & Hc & Hpts & Hin)|(o & Ho & Hop)].
    - exists c, points. unfold bke.curves_num. split; [lia|done].
    - pose proof (bke.wf_offsets_last _ Hwf Hn) as Hlast.
      pose proof (bke.wf_offsets_length _ Hwf Hn) as Hlen'.
      rewrite last_lookup in Hlast.
      replace (Init.Nat.pred (length (bke.curve_offsets curves)))
        with (Z.to_nat (bke.curve_num curves)) in Hlast by lia.
      rewrite Hlast in Ho. injection Ho as <-. unfold bke.points_num in Hp. lia. }
  destruct Hcurve as (c & points & Hc & Hpts & Hin).
  exact (Hcells c points p Hc Hpts Hin).
Qed.

Lemma get_points_to_dissolve_points_witness :
  operators.result
    (operators.run
       (operators.get_points_to_dissolve examples.two_strokes [0; 2; 5]
          operators.DISSOLVE_POINTS) [])
  !! 2%nat = Some true.
Proof.
  refine (proj2 (proj2 (get_points_to_dissolve_points examples.two_strokes [0; 2; 5] [] 2
                          two_strokes_wf _ _)) _).
  - repeat constructor; cbn; lia.
  - cbn. lia.
  - split; [|reflexivity]. apply elem_of_cons. right. apply elem_of_cons. by left.
Defined.

(** X17. In mode UNSELECT, [get_points_to_dissolve] marks a point exactly
    when the point is not selected and its curve has a selected point:
    the unselected points of the curves that are touched are dissolved, and
    a curve without a selected point loses nothing.  A point counts as
    selected when it is in the mask and its selection is true. *)
Theorem get_points_to_dissolve_unselect
    (curves : bke.CurvesGeometry) (mask : BLI.IndexMask) (d : list bke.CurvesGeometry)
    (c : Z) (points : BLI.IndexRange) (p : Z) :
  bke.CurvesGeometry_wf curves →
  Forall (λ i, 0 ≤ i < bke.points_num curves) mask →
  0 ≤ c < bke.curves_num curves →
  BLI.OffsetIndices_get (bke.points_by_curve curves) c = Some points →
  BLI.IndexRange_first points ≤ p ≤ BLI.IndexRange_last points 0 →
  let selection := bke.lookup_or_default_bool curves ".selection" bke.Point true in
  let selected q := q ∈ mask ∧ BLI.VArray_get selection q = Some true in
  let points_to_dissolve :=
    operators.result
      (operators.run
         (operators.get_points_to_dissolve curves mask operators.DISSOLVE_UNSELECT) d) in
  points_to_dissolve !! Z.to_nat p = Some true
  ↔ ¬ selected p
    ∧ ∃ q, BLI.IndexRange_first points ≤ q ≤ BLI.IndexRange_last points 0 ∧ selected q.
Proof.
  intros Hwf _ Hc Hpts Hin selection selected points_to_dissolve.
  destruct (get_points_to_dissolve_spec curves Hwf mask operators.DISSOLVE_UNSELECT d)
    as [_ Hcells].
  exact (Hcells c points p Hc Hpts Hin).
Qed.

Lemma get_points_to_dissolve_unselect_witness :
  operators.result
    (operators.run
       (operators.get_points_to_dissolve examples.two_strokes [1; 3]
          operators.DISSOLVE_UNSELECT) [])
  !! 4%nat = Some true
  ∧ operators.result
      (operators.run
         (operators.get_points_to_dissolve examples.two_strokes [1; 3]
            operators.DISSOLVE_UNSELECT) [])
    !! 5%nat ≠ Some true.
Proof.
  assert (Hmask : Forall (λ i, 0 ≤ i < bke.points_num examples.two_strokes) [1; 3]).
  { repeat constructor; cbn; lia. }
  split.
  - refine (proj2 (get_points_to_dissolve_unselect examples.two_strokes [1; 3] [] 0
                     {| BLI.start := 0; BLI.size := 5 |} 4 two_strokes_wf Hmask _ _ _) _).
    + vm_compute. split; [discriminate|reflexivity].
    + reflexivity.
    + vm_compute. split; discriminate.
    + split.
      * intros [Hin _]. apply elem_of_cons in Hin as [?|Hin]; [done|].
        apply elem_of_cons in Hin as [?|Hin]; [done|]. by apply elem_of_nil in Hin.
      * exists 1. split; [vm_compute; split; discriminate|]. split; [by left|reflexivity].
  - intros Htrue.
    destruct (proj1 (get_points_to_dissolve_unselect examples.two_strokes [1; 3] [] 1
                       {| BLI.start := 5; BLI.size := 2 |} 5 two_strokes_wf Hmask
                       ltac:(vm_compute; split; [discriminate|reflexivity]) eq_refl
                       ltac:(vm_compute; split; discriminate)) Htrue)
      as (_ & q & Hq & Hin & _).
    unfold BLI.IndexRange_first, BLI.IndexRange_last in Hq. cbn in Hq.
    apply elem_of_cons in Hin as [->|Hin]; [lia|].
    apply elem_of_cons in Hin as [->|Hin]; [lia|]. by apply elem_of_nil in Hin.
Defined.

(** X18. In mode BETWEEN, [get_points_to_dissolve] marks a point exactly
    when the point is not selected and its curve has a selected point
    before it and a selected point after it: only the unselected points
    between the first and the last selected point of a curve are
    dissolved. *)
Theorem get_points_to_dissolve_between
    (curves : bke.CurvesGeometry) (mask : BLI.IndexMask) (d : list bke.CurvesGeometry)
    (c : Z) (points : BLI.IndexRange) (p : Z) :
  bke.CurvesGeometry_wf curves →
  Forall (λ i, 0 ≤ i < bke.points_num curves) mask →
  0 ≤ c < bke.curves_num curves →
  BLI.OffsetIndices_get (bke.points_by_curve curves) c = Some points →
  BLI.IndexRange_first points ≤ p ≤ BLI.IndexRange_last points 0 →
  let selection := bke.lookup_or_default_bool curves ".selection" bke.Point true in
  let selected q := q ∈ mask ∧ BLI.VArray_get selection q = Some true in
  let points_to_dissolve :=
    operators.result
      (operators.run
         (operators.get_points_to_dissolve curves mask operators.DISSOLVE_BETWEEN) d) in
  points_to_dissolve !! Z.to_nat p = Some true
  ↔ ¬ selected p
    ∧ (∃ q, BLI.IndexRange_first points ≤ q < p ∧ selected q)
    ∧ (∃ q, p < q ≤ BLI.IndexRange_last points 0 ∧ selected q).
Proof.
  intros Hwf _ Hc Hpts Hin selection selected points_to_dissolve.
  destruct (get_points_to_dissolve_spec curves Hwf mask operators.DISSOLVE_BETWEEN d)
    as [_ Hcells].
  exact (Hcells c points p Hc Hpts Hin).
Qed.

Lemma get_points_to_dissolve_between_witness :
  operators.result
    (operators.run
       (operators.get_points_to_dissolve examples.two_strokes [1; 3]
          operators.DISSOLVE_BETWEEN) [])
  !! 2%nat = Some true
  ∧ operators.result
      (operators.run
         (operators.get_points_to_dissolve examples.two_strokes [1; 3]
            operators.DISSOLVE_BETWEEN) [])
    !! 4%nat ≠ Some true.
Proof.
  assert (Hmask : Forall (λ i, 0 ≤ i < bke.points_num examples.two_strokes) [1; 3]).
  { repeat constructor; cbn; lia. }
  split.
  - refine (proj2 (get_points_to_dissolve_between examples.two_strokes [1; 3] [] 0
                     {| BLI.start := 0; BLI.size := 5 |} 2 two_strokes_wf Hmask _ _ _) _).
    + vm_compute. split; [discriminate|reflexivity].
    + reflexivity.
    + vm_compute. split; discriminate.
    + split; [|split].
      * intros [Hin _]. apply elem_of_cons in Hin as [?|Hin]; [done|].
        apply elem_of_cons in Hin as [?|Hin]; [done|]. by apply elem_of_nil in Hin.
      * exists 1. split; [vm_compute; split; [discriminate|reflexivity]|].
        split; [by left|reflexivity].
      * exists 3. split; [vm_compute; split; [reflexivity|discriminate]|].
        split; [right; by left|reflexivity].
  - intros Htrue.
    destruct (proj1 (get_points_to_dissolve_between examples.two_strokes [1; 3] [] 0
                       {| BLI.start := 0; BLI.size := 5 |} 4 two_strokes_wf Hmask
                       ltac:(vm_compute; split; [discriminate|reflexivity]) eq_refl
                       ltac:(vm_compute; split; discriminate)) Htrue)
      as (_ & _ & q & Hq & Hin & _).
    unfold BLI.IndexRange_last in Hq. cbn in Hq.
    apply elem_of_cons in Hin as [->|Hin]; [lia|].
    apply elem_of_cons in Hin as [->|Hin]; [lia|]. by apply elem_of_nil in Hin.
Defined.

(* ===================================================================== *)
(** * The drawings that the operators write                              *)
(* ===================================================================== *)

Section confinement.
Import BLI bke operators.

Lemma confined_ret {A} targets (x : A) : confined targets (mret x).
Proof. intros d. by rewrite drawings_ret. Qed.

Lemma confined_emit targets e : confined targets (emit e).
Proof. intros d. by rewrite drawings_emit. Qed.

Lemma confined_strokes targets info : confined targets (strokes info).
Proof. intros d. by rewrite drawings_strokes. Qed.

Lemma confined_write_strokes targets info curves :
  drawing info ∈ targets → confined targets (write_strokes info curves).
Proof.
  intros Hin d. rewrite drawings_write_strokes. split; [apply length_insert|].
  intros i Hi. apply list_lookup_insert_ne. by intros <-.
Qed.

Lemma confined_bind {A B} targets (m : OpM A) (f : A → OpM B) :
  confined targets m → (∀ x, confined targets (f x)) → confined targets (m ≫= f).
Proof.
  intros Hm Hf d. rewrite drawings_bind.
  destruct (Hm d) as [Hlen Hout].
  destruct (Hf (result (run m d)) (drawings (run m d))) as [Hlen' Hout'].
  split; [by rewrite Hlen'|]. intros i Hi. by rewrite Hout', Hout.
Qed.

Lemma confined_mono {A} targets targets' (m : OpM A) :
  targets ⊆ targets' → confined targets m → confined targets' m.
Proof.
  intros Hsub Hm d. destruct (Hm d) as [Hlen Hout]. split; [done|].
  intros i Hi. apply Hout. intros Hin. by apply Hi, Hsub.
Qed.

Lemma confined_foreach {A S} targets (l : list A) (body : A → S → OpM S) :
  (∀ x s, x ∈ l → confined targets (body x s)) →
  ∀ s, confined targets (foreach l body s).
Proof.
  induction l as [|x l IH]; intros Hbody s.
  - apply confined_ret.
  - cbn [foreach]. apply confined_bind.
    + apply Hbody. left.
    + intros s'. apply IH. intros y s'' Hy. apply Hbody. by right.
Qed.

Lemma confined_when targets (b : bool) (m : OpM unit) :
  confined targets m → confined targets (when b m).
Proof. intros Hm. destruct b; [done|apply confined_ret]. Qed.

(** A loop over drawings whose rounds write their own drawing only. *)
Lemma confined_drawings_loop {S} (l : list MutableDrawingInfo)
    (body : MutableDrawingInfo → S → OpM S) :
  (∀ info s, confined [drawing info] (body info s)) →
  ∀ s, confined (drawing <$> l) (foreach l body s).
Proof.
  intros Hbody. apply confined_foreach. intros info s Hin.
  apply (confined_mono [drawing info]); [|apply Hbody].
  intros i Hi. apply list_elem_of_singleton in Hi as ->. by apply list_elem_of_fmap_2.
Qed.

End confinement.

(** The procedures of the operators are taken apart into their calls; a
    procedure that is none of the calls of the monad is unfolded. *)
Ltac proc_head m := lazymatch m with ?f _ => proc_head f | _ => m end.

Ltac confined_step :=
  lazymatch goal with
  | |- confined _ (mret _) => apply confined_ret
  | |- confined _ (operators.emit _) => apply confined_emit
  | |- confined _ (operators.strokes _) => apply confined_strokes
  | |- confined _ (operators.write_strokes _ _) =>
      apply confined_write_strokes; apply list_elem_of_here
  | |- confined _ (operators.when _ _) => apply confined_when
  | |- confined _ (operators.foreach _ _ _) =>
      apply confined_drawings_loop; intros ? ?
  | |- confined _ (_ ≫= _) => apply confined_bind; [|intros ?]
  | |- confined _ (if ?c then _ else _) => destruct c
  | |- confined _ (match ?x with _ => _ end) => destruct x
  | |- confined _ (let _ := _ in _) => cbv zeta
  | |- confined _ ((λ _, _) _) => cbv beta
  | |- confined _ ?m => let h := proc_head m in is_const h; progress unfold h
  end.

Ltac confined_solve := repeat confined_step.

Section confined_operators.
Import BLI bke operators.
Context {library : Library}.
Variable C : bContext.

Lemma grease_pencil_stroke_smooth_exec_confined op :
  confined (drawing <$> retrieve_editable_drawings (scene C))
    (grease_pencil_stroke_smooth_exec C op).
Proof. confined_solve. Qed.

Lemma grease_pencil_stroke_simplify_exec_confined epsilon :
  confined (drawing <$> retrieve_editable_drawings (scene C))
    (grease_pencil_stroke_simplify_exec C epsilon).
Proof. confined_solve. Qed.

Lemma grease_pencil_delete_exec_confined :
  confined (drawing <$> retrieve_editable_drawings (scene C))
    (grease_pencil_delete_exec C).
Proof. confined_solve. Qed.

Lemma grease_pencil_dissolve_exec_confined mode :
  confined (drawing <$> retrieve_editable_drawings (scene C))
    (grease_pencil_dissolve_exec C mode).
Proof. confined_solve. Qed.

Lemma grease_pencil_stroke_material_set_exec_confined name :
  confined (drawing <$> retrieve_editable_drawings (scene C))
    (grease_pencil_stroke_material_set_exec C name).
Proof. confined_solve. Qed.

Lemma grease_pencil_cyclical_set_exec_confined mode :
  confined (drawing <$> retrieve_editable_drawings (scene C))
    (grease_pencil_cyclical_set_exec C mode).
Proof. confined_solve. Qed.

Lemma grease_pencil_set_uniform_thickness_exec_confined thickness :
  confined (drawing <$> retrieve_editable_drawings (scene C))
    (grease_pencil_set_uniform_thickness_exec C thickness).
Proof. confined_solve. Qed.

Lemma grease_pencil_set_uniform_opacity_exec_confined opacity :
  confined (drawing <$> retrieve_editable_drawings (scene C))
    (grease_pencil_set_uniform_opacity_exec C opacity).
Proof. confined_solve. Qed.

Lemma grease_pencil_stroke_switch_direction_exec_confined :
  confined (drawing <$> retrieve_editable_drawings (scene C))
    (grease_pencil_stroke_switch_direction_exec C).
Proof. confined_solve. Qed.

Lemma grease_pencil_caps_set_exec_confined mode :
  confined (drawing <$> retrieve_editable_drawings (scene C))
    (grease_pencil_caps_set_exec C mode).
Proof. confined_solve. Qed.

Lemma grease_pencil_duplicate_exec_confined :
  confined (drawing <$> retrieve_editable_drawings (scene C))
    (grease_pencil_duplicate_exec C).
Proof. confined_solve. Qed.

Lemma grease_pencil_clean_loose_exec_confined limit :
  confined (drawing <$> retrieve_editable_drawings (scene C))
    (grease_pencil_clean_loose_exec C limit).
Proof. confined_solve. Qed.

Lemma gpencil_stroke_subdivide_exec_confined cuts only_selected :
  confined (drawing <$> retrieve_editable_drawings (scene C))
    (gpencil_stroke_subdivide_exec C cuts only_selected).
Proof. confined_solve. Qed.

Lemma grease_pencil_stroke_reorder_exec_confined direction :
  confined (drawing <$> retrieve_editable_drawings (scene C))
    (grease_pencil_stroke_reorder_exec C direction).
Proof. confined_solve. Qed.

Lemma grease_pencil_stroke_merge_by_distance_exec_confined threshold use_unselected :
  confined (drawing <$> retrieve_editable_drawings (scene C))
    (grease_pencil_stroke_merge_by_distance_exec C threshold use_unselected).
Proof. confined_solve. Qed.

Lemma grease_pencil_extrude_exec_confined :
  confined (drawing <$> retrieve_editable_drawings (scene C))
    (grease_pencil_extrude_exec C).
Proof. confined_solve. Qed.

Lemma grease_pencil_snap_to_grid_exec_confined :
  confined (drawing <$> retrieve_editable_drawings (scene C))
    (grease_pencil_snap_to_grid_exec C).
Proof. confined_solve. Qed.

Lemma grease_pencil_snap_to_cursor_exec_confined use_offset :
  confined (drawing <$> retrieve_editable_drawings (scene C))
    (grease_pencil_snap_to_cursor_exec C use_offset).
Proof. confined_solve. Qed.

Lemma grease_pencil_set_curve_type_exec_confined dst_type use_handles :
  confined (drawing <$> retrieve_editable_drawings (scene C))
    (grease_pencil_set_curve_type_exec C dst_type use_handles).
Proof. confined_solve. Qed.

End confined_operators.

(* ===================================================================== *)
(** * Changes of the drawing array are logged                            *)
(* ===================================================================== *)

Section logged_writes.
Import BLI bke operators.

Lemma logs_ret {A} (x : A) : logs_writes (mret x).
Proof. intros d _. apply drawings_ret. Qed.

Lemma logs_emit e : logs_writes (emit e).
Proof. intros d _. apply drawings_emit. Qed.

Lemma logs_strokes info : logs_writes (strokes info).
Proof. intros d _. apply drawings_strokes. Qed.

Lemma logs_write_strokes info curves : logs_writes (write_strokes info curves).
Proof. intros d Hlog. by rewrite events_write_strokes in Hlog. Qed.

Lemma logs_bind {A B} (m : OpM A) (f : A → OpM B) :
  logs_writes m → (∀ x, logs_writes (f x)) → logs_writes (m ≫= f).
Proof.
  intros Hm Hf d. rewrite events_bind, drawings_bind, modified_app.
  intros [H1 H2]%orb_false_iff. rewrite (Hm d H1) in H2 |- *. by apply Hf.
Qed.

Lemma logs_foreach {A S} (l : list A) (body : A → S → OpM S) :
  (∀ x s, logs_writes (body x s)) → ∀ s, logs_writes (foreach l body s).
Proof.
  intros Hbody. induction l as [|x l IH]; intros s.
  - apply logs_ret.
  - cbn [foreach]. apply logs_bind; [apply Hbody|apply IH].
Qed.

Lemma logs_when (b : bool) (m : OpM unit) : logs_writes m → logs_writes (when b m).
Proof. intros Hm. destruct b; [done|apply logs_ret]. Qed.

(** A new drawing is written as soon as it is inserted. *)
Lemma logs_insert_frame_written {B} layer frame (k : MutableDrawingInfo → OpM B) :
  (∀ drawing_dst d, modified (events (run (k drawing_dst) d)) = true) →
  logs_writes (insert_frame layer frame ≫= k).
Proof.
  intros Hk d. rewrite events_bind, modified_app, Hk, orb_true_r. done.
Qed.

End logged_writes.

Ltac logs_step :=
  lazymatch goal with
  | |- logs_writes (mret _) => apply logs_ret
  | |- logs_writes (operators.emit _) => apply logs_emit
  | |- logs_writes (operators.strokes _) => apply logs_strokes
  | |- logs_writes (operators.write_strokes _ _) => apply logs_write_strokes
  | |- logs_writes (operators.when _ _) => apply logs_when
  | |- logs_writes (operators.foreach _ _ _) => apply logs_foreach; intros ? ?
  | |- logs_writes (operators.insert_frame _ _ ≫= _) =>
      apply logs_insert_frame_written; intros ? ?;
      rewrite events_bind, events_write_strokes; reflexivity
  | |- logs_writes (_ ≫= _) => apply logs_bind; [|intros ?]
  | |- logs_writes (if ?c then _ else _) => destruct c
  | |- logs_writes (match ?x with _ => _ end) => destruct x
  | |- logs_writes (let _ := _ in _) => cbv zeta
  | |- logs_writes ((λ _, _) _) => cbv beta
  | |- logs_writes ?m => let h := proc_head m in is_const h; progress unfold h
  end.

Ltac logs_solve := repeat logs_step.

Section logged_operators.
Import BLI bke operators.
Context {library : Library}.
Variable C : bContext.

Lemma grease_pencil_stroke_smooth_exec_logs_writes op :
  logs_writes (grease_pencil_stroke_smooth_exec C op).
Proof. logs_solve. Qed.

Lemma grease_pencil_stroke_simplify_exec_logs_writes epsilon :
  logs_writes (grease_pencil_stroke_simplify_exec C epsilon).
Proof. logs_solve. Qed.

Lemma grease_pencil_delete_exec_logs_writes :
  logs_writes (grease_pencil_delete_exec C).
Proof. logs_solve. Qed.

Lemma grease_pencil_dissolve_exec_logs_writes mode :
  logs_writes (grease_pencil_dissolve_exec C mode).
Proof. logs_solve. Qed.

Lemma grease_pencil_delete_frame_exec_logs_writes mode :
  logs_writes (grease_pencil_delete_frame_exec C mode).
Proof. logs_solve. Qed.

Lemma grease_pencil_stroke_material_set_exec_logs_writes name :
  logs_writes (grease_pencil_stroke_material_set_exec C name).
Proof. logs_solve. Qed.

Lemma grease_pencil_cyclical_set_exec_logs_writes mode :
  logs_writes (grease_pencil_cyclical_set_exec C mode).
Proof. logs_solve. Qed.

Lemma grease_pencil_set_active_material_exec_logs_writes :
  logs_writes (grease_pencil_set_active_material_exec C).
Proof. logs_solve. Qed.

Lemma grease_pencil_set_uniform_thickness_exec_logs_writes thickness :
  logs_writes (grease_pencil_set_uniform_thickness_exec C thickness).
Proof. logs_solve. Qed.

Lemma grease_pencil_set_uniform_opacity_exec_logs_writes opacity :
  logs_writes (grease_pencil_set_uniform_opacity_exec C opacity).
Proof. logs_solve. Qed.

Lemma grease_pencil_stroke_switch_direction_exec_logs_writes :
  logs_writes (grease_pencil_stroke_switch_direction_exec C).
Proof. logs_solve. Qed.

Lemma grease_pencil_caps_set_exec_logs_writes mode :
  logs_writes (grease_pencil_caps_set_exec C mode).
Proof. logs_solve. Qed.

Lemma grease_pencil_set_material_exec_logs_writes slot :
  logs_writes (grease_pencil_set_material_exec C slot).
Proof. logs_solve. Qed.

Lemma grease_pencil_duplicate_exec_logs_writes :
  logs_writes (grease_pencil_duplicate_exec C).
Proof. logs_solve. Qed.

Lemma grease_pencil_clean_loose_exec_logs_writes limit :
  logs_writes (grease_pencil_clean_loose_exec C limit).
Proof. logs_solve. Qed.

Lemma gpencil_stroke_subdivide_exec_logs_writes cuts only_selected :
  logs_writes (gpencil_stroke_subdivide_exec C cuts only_selected).
Proof. logs_solve. Qed.

Lemma grease_pencil_stroke_reorder_exec_logs_writes direction :
  logs_writes (grease_pencil_stroke_reorder_exec C direction).
Proof. logs_solve. Qed.

Lemma grease_pencil_move_to_layer_exec_logs_writes target_layer_name add_new_layer :
  logs_writes (grease_pencil_move_to_layer_exec C target_layer_name add_new_layer).
Proof. logs_solve. Qed.

Lemma grease_pencil_separate_exec_logs_writes mode :
  logs_writes (grease_pencil_separate_exec C mode).
Proof. logs_solve. Qed.

Lemma grease_pencil_paste_strokes_exec_logs_writes paste_on_back :
  logs_writes (grease_pencil_paste_strokes_exec C paste_on_back).
Proof. logs_solve. Qed.

Lemma grease_pencil_copy_strokes_exec_logs_writes :
  logs_writes (grease_pencil_copy_strokes_exec C).
Proof. logs_solve. Qed.

Lemma grease_pencil_stroke_merge_by_distance_exec_logs_writes threshold use_unselected :
  logs_writes (grease_pencil_stroke_merge_by_distance_exec C threshold use_unselected).
Proof. logs_solve. Qed.

Lemma grease_pencil_extrude_exec_logs_writes :
  logs_writes (grease_pencil_extrude_exec C).
Proof. logs_solve. Qed.

Lemma grease_pencil_snap_to_grid_exec_logs_writes :
  logs_writes (grease_pencil_snap_to_grid_exec C).
Proof. logs_solve. Qed.

Lemma grease_pencil_snap_to_cursor_exec_logs_writes use_offset :
  logs_writes (grease_pencil_snap_to_cursor_exec C use_offset).
Proof. logs_solve. Qed.

Lemma grease_pencil_snap_cursor_to_sel_exec_logs_writes :
  logs_writes (grease_pencil_snap_cursor_to_sel_exec C).
Proof. logs_solve. Qed.

Lemma grease_pencil_set_curve_type_exec_logs_writes dst_type use_handles :
  logs_writes (grease_pencil_set_curve_type_exec C dst_type use_handles).
Proof. logs_solve. Qed.

End logged_operators.

(* ===================================================================== *)
(** * Notification of changes                                            *)
(* ===================================================================== *)

Section notification.
Import operators.
Context {library : Library}.
Variable C : bContext.

(** A run that logs its writes and announces its modifications sends the
    notifier and the tag whenever the drawing array has changed. *)
Lemma changed_drawings_announced (exec : OpM OperatorStatus) (d : list bke.CurvesGeometry) :
  logs_writes exec → announces (events (run exec d)) →
  (drawings (run exec d) ≠ d → modified (events (run exec d)) = true)
  ∧ (drawings (run exec d) ≠ d →
     notified (events (run exec d)) = true ∧ tagged (events (run exec d)) = true)
  ∧ announces (events (run exec d)).
Proof.
  intros Hlogs Hannounces.
  assert (Hmodified : drawings (run exec d) ≠ d → modified (events (run exec d)) = true).
  { intros Hchanged. destruct (modified (events (run exec d))) eqn:Hm; [done|].
    exfalso. by apply Hchanged, Hlogs. }
  split; [done|]. split; [|done]. intros Hchanged. by apply Hannounces, Hmodified.
Qed.

(** C4, as amended.  Every [exec] function of the stroke-editing operators,
    run on any drawing array and with any operator properties, sends a change
    notifier ([WM_event_add_notifier]) and tags the geometry for re-evaluation
    ([DEG_id_tag_update] with [ID_RECALC_GEOMETRY]) whenever the drawing array
    after the run differs from the array before it, and more generally
    whenever it made a mutating call on the strokes of a drawing; a change of
    the array always comes with such a call.  The smooth, simplify, dissolve,
    cyclical-set, switch-direction, subdivide, reorder, merge-by-distance and
    extrude operators send a notifier only if they made a mutating call, and
    so does the delete operator when the selection domain of the tool
    settings is the point or the curve domain; the call need not change the
    drawing. *)
Theorem exec_notifies_when_drawing_modified
    (op : SmoothProperties) (epsilon : bke.float) (dissolve_mode : DissolveMode)
    (delete_frame_mode : DeleteFrameMode) (material_name : string)
    (cyclical_mode : CyclicalMode) (thickness opacity : bke.float) (caps_mode : CapsMode)
    (slot limit cuts : Z) (only_selected : bool) (direction : greasepencil.ReorderDirection)
    (target_layer_name : string) (add_new_layer : bool) (separate_mode : SeparateMode)
    (paste_on_back : bool) (threshold : bke.float) (use_unselected use_offset : bool)
    (dst_type : Z) (use_handles : bool) (d : list bke.CurvesGeometry) :
  Forall (λ exec : OpM OperatorStatus,
            (drawings (run exec d) ≠ d → modified (events (run exec d)) = true)
            ∧ (drawings (run exec d) ≠ d →
               notified (events (run exec d)) = true ∧ tagged (events (run exec d)) = true)
            ∧ announces (events (run exec d)))
    [ grease_pencil_stroke_smooth_exec C op;
      grease_pencil_stroke_simplify_exec C epsilon;
      grease_pencil_delete_exec C;
      grease_pencil_dissolve_exec C dissolve_mode;
      grease_pencil_delete_frame_exec C delete_frame_mode;
      grease_pencil_stroke_material_set_exec C material_name;
      grease_pencil_cyclical_set_exec C cyclical_mode;
      grease_pencil_set_active_material_exec C;
      grease_pencil_set_uniform_thickness_exec C thickness;
      grease_pencil_set_uniform_opacity_exec C opacity;
      grease_pencil_stroke_switch_direction_exec C;
      grease_pencil_caps_set_exec C caps_mode;
      grease_pencil_set_material_exec C slot;
      grease_pencil_duplicate_exec C;
      grease_pencil_clean_loose_exec C limit;
      gpencil_stroke_subdivide_exec C cuts only_selected;
      grease_pencil_stroke_reorder_exec C direction;
      grease_pencil_move_to_layer_exec C target_layer_name add_new_layer;
      grease_pencil_separate_exec C separate_mode;
      grease_pencil_paste_strokes_exec C paste_on_back;
      grease_pencil_copy_strokes_exec C;
      grease_pencil_stroke_merge_by_distance_exec C threshold use_unselected;
      grease_pencil_extrude_exec C;
      grease_pencil_snap_to_grid_exec C;
      grease_pencil_snap_to_cursor_exec C use_offset;
      grease_pencil_snap_cursor_to_sel_exec C;
      grease_pencil_set_curve_type_exec C dst_type use_handles ]
  ∧ Forall (λ exec : OpM OperatorStatus, notifies_exactly (events (run exec d)))
      [ grease_pencil_stroke_smooth_exec C op;
        grease_pencil_stroke_simplify_exec C epsilon;
        grease_pencil_dissolve_exec C dissolve_mode;
        grease_pencil_cyclical_set_exec C cyclical_mode;
        grease_pencil_stroke_switch_direction_exec C;
        gpencil_stroke_subdivide_exec C cuts only_selected;
        grease_pencil_stroke_reorder_exec C direction;
        grease_pencil_stroke_merge_by_distance_exec C threshold use_unselected;
        grease_pencil_extrude_exec C ]
  ∧ (selection_domain (scene C) = bke.Point ∨ selection_domain (scene C) = bke.Curve →
     notifies_exactly (events (run (grease_pencil_delete_exec C) d))).
Proof.
  split; [|split].
  - repeat apply Forall_cons_2; [..|apply Forall_nil_2].
    + apply changed_drawings_announced; [apply grease_pencil_stroke_smooth_exec_logs_writes|].
      apply grease_pencil_stroke_smooth_exec_notifies.
    + apply changed_drawings_announced; [apply grease_pencil_stroke_simplify_exec_logs_writes|].
      apply grease_pencil_stroke_simplify_exec_notifies.
    + apply changed_drawings_announced; [apply grease_pencil_delete_exec_logs_writes|].
      apply grease_pencil_delete_exec_announces.
    + apply changed_drawings_announced; [apply grease_pencil_dissolve_exec_logs_writes|].
      apply grease_pencil_dissolve_exec_notifies.
    + apply changed_drawings_announced; [apply grease_pencil_delete_frame_exec_logs_writes|].
      apply unmodified_announces, grease_pencil_delete_frame_exec_unmodified.
    + apply changed_drawings_announced; [apply grease_pencil_stroke_material_set_exec_logs_writes|].
      apply grease_pencil_stroke_material_set_exec_announces.
    + apply changed_drawings_announced; [apply grease_pencil_cyclical_set_exec_logs_writes|].
      apply grease_pencil_cyclical_set_exec_notifies.
    + apply changed_drawings_announced; [apply grease_pencil_set_active_material_exec_logs_writes|].
      apply unmodified_announces, grease_pencil_set_active_material_exec_unmodified.
    + apply changed_drawings_announced; [apply grease_pencil_set_uniform_thickness_exec_logs_writes|].
      apply grease_pencil_set_uniform_thickness_exec_notifies.
    + apply changed_drawings_announced; [apply grease_pencil_set_uniform_opacity_exec_logs_writes|].
      apply grease_pencil_set_uniform_opacity_exec_notifies.
    + apply changed_drawings_announced; [apply grease_pencil_stroke_switch_direction_exec_logs_writes|].
      apply grease_pencil_stroke_switch_direction_exec_notifies.
    + apply changed_drawings_announced; [apply grease_pencil_caps_set_exec_logs_writes|].
      apply grease_pencil_caps_set_exec_notifies.
    + apply changed_drawings_announced; [apply grease_pencil_set_material_exec_logs_writes|].
      apply unmodified_announces, grease_pencil_set_material_exec_unmodified.
    + apply changed_drawings_announced; [apply grease_pencil_duplicate_exec_logs_writes|].
      apply grease_pencil_duplicate_exec_announces.
    + apply changed_drawings_announced; [apply grease_pencil_clean_loose_exec_logs_writes|].
      apply grease_pencil_clean_loose_exec_announces.
    + apply changed_drawings_announced; [apply gpencil_stroke_subdivide_exec_logs_writes|].
      apply gpencil_stroke_subdivide_exec_notifies.
    + apply changed_drawings_announced; [apply grease_pencil_stroke_reorder_exec_logs_writes|].
      apply grease_pencil_stroke_reorder_exec_notifies.
    + apply changed_drawings_announced; [apply grease_pencil_move_to_layer_exec_logs_writes|].
      apply grease_pencil_move_to_layer_exec_announces.
    + apply changed_drawings_announced; [apply grease_pencil_separate_exec_logs_writes|].
      apply grease_pencil_separate_exec_announces.
    + apply changed_drawings_announced; [apply grease_pencil_paste_strokes_exec_logs_writes|].
      apply grease_pencil_paste_strokes_exec_announces.
    + apply changed_drawings_announced; [apply grease_pencil_copy_strokes_exec_logs_writes|].
      apply unmodified_announces, grease_pencil_copy_strokes_exec_unmodified.
    + apply changed_drawings_announced; [apply grease_pencil_stroke_merge_by_distance_exec_logs_writes|].
      apply grease_pencil_stroke_merge_by_distance_exec_notifies.
    + apply changed_drawings_announced; [apply grease_pencil_extrude_exec_logs_writes|].
      apply grease_pencil_extrude_exec_notifies.
    + apply changed_drawings_announced; [apply grease_pencil_snap_to_grid_exec_logs_writes|].
      apply grease_pencil_snap_to_grid_exec_announces.
    + apply changed_drawings_announced; [apply grease_pencil_snap_to_cursor_exec_logs_writes|].
      apply grease_pencil_snap_to_cursor_exec_announces.
    + apply changed_drawings_announced; [apply grease_pencil_snap_cursor_to_sel_exec_logs_writes|].
      apply unmodified_announces, grease_pencil_snap_cursor_to_sel_exec_unmodified.
    + apply changed_drawings_announced; [apply grease_pencil_set_curve_type_exec_logs_writes|].
      apply grease_pencil_set_curve_type_exec_notifies.
  - repeat apply Forall_cons_2; [..|apply Forall_nil_2].
    + apply grease_pencil_stroke_smooth_exec_notifies.
    + apply grease_pencil_stroke_simplify_exec_notifies.
    + apply grease_pencil_dissolve_exec_notifies.
    + apply grease_pencil_cyclical_set_exec_notifies.
    + apply grease_pencil_stroke_switch_direction_exec_notifies.
    + apply gpencil_stroke_subdivide_exec_notifies.
    + apply grease_pencil_stroke_reorder_exec_notifies.
    + apply grease_pencil_stroke_merge_by_distance_exec_notifies.
    + apply grease_pencil_extrude_exec_notifies.
  - apply grease_pencil_delete_exec_notifies.
Qed.

End notification.

(** C4, as stated, fails in its only-if half: the cyclical-set operator in
    mode OPEN, run over a stroke that is already open, writes [false] over
    [false], keeps the attribute because another stroke is cyclic, and sends
    the notifier although no drawing has changed. *)
Lemma cyclical_set_notifies_unchanged_drawing :
  operators.drawings
    (operators.run
       (operators.grease_pencil_cyclical_set_exec (library := examples.library)
          examples.point_context operators.OPEN)
       [examples.two_strokes])
  = [examples.two_strokes]
  ∧ operators.notified
      (operators.events
         (operators.run
            (operators.grease_pencil_cyclical_set_exec (library := examples.library)
               examples.point_context operators.OPEN)
            [examples.two_strokes]))
    = true.
Proof. split; vm_compute; reflexivity. Qed.

Lemma exec_notifies_when_drawing_modified_witness :
  operators.drawings
    (operators.run
       (operators.grease_pencil_stroke_smooth_exec (library := examples.library)
          examples.point_context examples.smooth_all)
       [examples.two_strokes])
  ≠ [examples.two_strokes]
  ∧ operators.notified
      (operators.events
         (operators.run
            (operators.grease_pencil_stroke_smooth_exec (library := examples.library)
               examples.point_context examples.smooth_all)
            [examples.two_strokes])) = true
  ∧ operators.tagged
      (operators.events
         (operators.run
            (operators.grease_pencil_stroke_smooth_exec (library := examples.library)
               examples.point_context examples.smooth_all)
            [examples.two_strokes])) = true
  ∧ operators.notifies_exactly
      (operators.events
         (operators.run
            (operators.grease_pencil_delete_exec (library := examples.library)
               examples.point_context)
            [examples.two_strokes])).
Proof.
  destruct (exec_notifies_when_drawing_modified (library := examples.library)
              examples.point_context examples.smooth_all 0 operators.DISSOLVE_POINTS
              operators.ACTIVE_FRAME "" operators.CLOSE 0 0 operators.CAPS_FLAT 1 1 1 false
              greasepencil.TOP "" false operators.SELECTED false 0 false false 0 false
              [examples.two_strokes]) as (Hall & _ & Hdelete).
  apply Forall_cons_1 in Hall as [(_ & Hsmooth & _) _].
  assert (Hchanged : operators.drawings
            (operators.run
               (operators.grease_pencil_stroke_smooth_exec (library := examples.library)
                  examples.point_context examples.smooth_all)
               [examples.two_strokes])
          ≠ [examples.two_strokes]).
  { vm_compute. discriminate. }
  split; [exact Hchanged|].
  destruct (Hsmooth Hchanged) as [Hnotified Htagged].
  split; [exact Hnotified|]. split; [exact Htagged|].
  apply Hdelete. left. reflexivity.
Defined.

(* ===================================================================== *)
(** * Procedures that only read                                          *)
(* ===================================================================== *)

Section quiet_procedures.
Import BLI bke operators.

Lemma quiet_ret {A} (x : A) d : quiet (mret x) d.
Proof. by repeat split. Qed.

Lemma quiet_strokes info d : quiet (strokes info) d.
Proof. by repeat split. Qed.

Lemma quiet_emit e d :
  is_drawing_write e = false → is_notifier e = false → is_geometry_tag e = false →
  quiet (emit e) d.
Proof.
  intros Hw Hn Ht. unfold quiet. rewrite drawings_emit, events_emit.
  cbn [modified notified tagged existsb]. by rewrite Hw, Hn, Ht.
Qed.

Lemma quiet_bind {A B} (m : OpM A) (f : A → OpM B) d :
  quiet m d → (∀ x, quiet (f x) d) → quiet (m ≫= f) d.
Proof.
  intros (Hd & Hw & Hn & Ht) Hf. unfold quiet.
  rewrite drawings_bind, events_bind, modified_app, notified_app, tagged_app.
  rewrite Hd, Hw, Hn, Ht. cbn [orb]. apply Hf.
Qed.

Lemma quiet_foreach {A S} (l : list A) (body : A → S → OpM S) d :
  (∀ x s, quiet (body x s) d) → ∀ s, quiet (foreach l body s) d.
Proof.
  intros Hbody. induction l as [|x l IH]; intros s.
  - apply quiet_ret.
  - cbn [foreach]. apply quiet_bind; [apply Hbody|apply IH].
Qed.

End quiet_procedures.

Ltac quiet_step :=
  lazymatch goal with
  | |- quiet (mret _) _ => apply quiet_ret
  | |- quiet (operators.strokes _) _ => apply quiet_strokes
  | |- quiet (operators.emit _) _ => apply quiet_emit; reflexivity
  | |- quiet (operators.foreach _ _ _) _ => apply quiet_foreach; intros ? ?
  | |- quiet (_ ≫= _) _ => apply quiet_bind; [|intros ?]
  | |- quiet (if ?c then _ else _) _ => destruct c
  | |- quiet (match ?x with _ => _ end) _ => destruct x
  | |- quiet (let _ := _ in _) _ => cbv zeta
  | |- quiet ((λ _, _) _) _ => cbv beta
  | |- quiet ?m _ => let h := proc_head m in is_const h; progress unfold h
  end.

(** Unfolds the operator that is run. *)
Ltac unfold_operator :=
  match goal with
  | |- context [operators.run ?m _] =>
      let h := proc_head m in
      lazymatch h with
      | @mbind => fail
      | @mret => fail
      | operators.emit => fail
      | operators.strokes => fail
      | operators.write_strokes => fail
      | operators.insert_frame => fail
      | @operators.foreach => fail
      | _ => is_const h; progress unfold h
      end
  end.

Section quiet_loops.
Import BLI bke operators.
Context {library : Library}.
Variable C : bContext.

Lemma any_drawing_selected_quiet d : quiet (any_drawing_selected C) d.
Proof. repeat quiet_step. Qed.

Lemma copy_loop_quiet l st d :
  quiet (foreach l (copy_drawing (selection_domain (scene C))) st) d.
Proof. repeat quiet_step. Qed.

End quiet_loops.

(** X19. The operators that loop over the editable drawings write no other
    drawing: run on any drawing array, each of them keeps the number of
    drawings and leaves every drawing that [retrieve_editable_drawings] does
    not return as it was. *)
Theorem operators_write_editable_drawings_only
    {library : operators.Library} (C : operators.bContext)
    (op : operators.SmoothProperties) (epsilon : bke.float)
    (dissolve_mode : operators.DissolveMode) (material_name : string)
    (cyclical_mode : operators.CyclicalMode) (thickness opacity : bke.float)
    (caps_mode : operators.CapsMode) (limit cuts : Z) (only_selected : bool)
    (direction : greasepencil.ReorderDirection) (threshold : bke.float)
    (use_unselected use_offset : bool) (dst_type : Z) (use_handles : bool) :
  Forall (λ exec : operators.OpM operators.OperatorStatus,
            ∀ d : list bke.CurvesGeometry,
              length (operators.drawings (operators.run exec d)) = length d
              ∧ ∀ i : nat,
                  i ∉ operators.drawing
                        <$> operators.retrieve_editable_drawings (operators.scene C) →
                  operators.drawings (operators.run exec d) !! i = d !! i)
    [ operators.grease_pencil_stroke_smooth_exec C op;
      operators.grease_pencil_stroke_simplify_exec C epsilon;
      operators.grease_pencil_delete_exec C;
      operators.grease_pencil_dissolve_exec C dissolve_mode;
      operators.grease_pencil_stroke_material_set_exec C material_name;
      operators.grease_pencil_cyclical_set_exec C cyclical_mode;
      operators.grease_pencil_set_uniform_thickness_exec C thickness;
      operators.grease_pencil_set_uniform_opacity_exec C opacity;
      operators.grease_pencil_stroke_switch_direction_exec C;
      operators.grease_pencil_caps_set_exec C caps_mode;
      operators.grease_pencil_duplicate_exec C;
      operators.grease_pencil_clean_loose_exec C limit;
      operators.gpencil_stroke_subdivide_exec C cuts only_selected;
      operators.grease_pencil_stroke_reorder_exec C direction;
      operators.grease_pencil_stroke_merge_by_distance_exec C threshold use_unselected;
      operators.grease_pencil_extrude_exec C;
      operators.grease_pencil_snap_to_grid_exec C;
      operators.grease_pencil_snap_to_cursor_exec C use_offset;
      operators.grease_pencil_set_curve_type_exec C dst_type use_handles ].
Proof.
  repeat apply Forall_cons_2; [..|apply Forall_nil_2].
  - apply (grease_pencil_stroke_smooth_exec_confined C).
  - apply (grease_pencil_stroke_simplify_exec_confined C).
  - apply (grease_pencil_delete_exec_confined C).
  - apply (grease_pencil_dissolve_exec_confined C).
  - apply (grease_pencil_stroke_material_set_exec_confined C).
  - apply (grease_pencil_cyclical_set_exec_confined C).
  - apply (grease_pencil_set_uniform_thickness_exec_confined C).
  - apply (grease_pencil_set_uniform_opacity_exec_confined C).
  - apply (grease_pencil_stroke_switch_direction_exec_confined C).
  - apply (grease_pencil_caps_set_exec_confined C).
  - apply (grease_pencil_duplicate_exec_confined C).
  - apply (grease_pencil_clean_loose_exec_confined C).
  - apply (gpencil_stroke_subdivide_exec_confined C).
  - apply (grease_pencil_stroke_reorder_exec_confined C).
  - apply (grease_pencil_stroke_merge_by_distance_exec_confined C).
  - apply (grease_pencil_extrude_exec_confined C).
  - apply (grease_pencil_snap_to_grid_exec_confined C).
  - apply (grease_pencil_snap_to_cursor_exec_confined C).
  - apply (grease_pencil_set_curve_type_exec_confined C).
Qed.

(** X20. The operators that have no failure path: whatever the drawings, the
    selection and the operator properties, they return
    [OPERATOR_FINISHED], also when they changed nothing. *)
Theorem operators_that_never_cancel
    {library : operators.Library} (C : operators.bContext)
    (op : operators.SmoothProperties) (epsilon : bke.float)
    (dissolve_mode : operators.DissolveMode)
    (delete_frame_mode : operators.DeleteFrameMode)
    (cyclical_mode : operators.CyclicalMode) (thickness opacity : bke.float)
    (caps_mode : operators.CapsMode) (limit cuts : Z) (only_selected : bool)
    (direction : greasepencil.ReorderDirection) (threshold : bke.float)
    (use_unselected use_offset : bool) (dst_type : Z) (use_handles : bool)
    (d : list bke.CurvesGeometry) :
  Forall (λ exec : operators.OpM operators.OperatorStatus,
            operators.result (operators.run exec d) = operators.OPERATOR_FINISHED)
    [ operators.grease_pencil_stroke_smooth_exec C op;
      operators.grease_pencil_stroke_simplify_exec C epsilon;
      operators.grease_pencil_delete_exec C;
      operators.grease_pencil_dissolve_exec C dissolve_mode;
      operators.grease_pencil_delete_frame_exec C delete_frame_mode;
      operators.grease_pencil_cyclical_set_exec C cyclical_mode;
      operators.grease_pencil_set_uniform_thickness_exec C thickness;
      operators.grease_pencil_set_uniform_opacity_exec C opacity;
      operators.grease_pencil_stroke_switch_direction_exec C;
      operators.grease_pencil_caps_set_exec C caps_mode;
      operators.grease_pencil_duplicate_exec C;
      operators.grease_pencil_clean_loose_exec C limit;
      operators.gpencil_stroke_subdivide_exec C cuts only_selected;
      operators.grease_pencil_stroke_reorder_exec C direction;
      operators.grease_pencil_stroke_merge_by_distance_exec C threshold use_unselected;
      operators.grease_pencil_extrude_exec C;
      operators.grease_pencil_snap_to_grid_exec C;
      operators.grease_pencil_snap_to_cursor_exec C use_offset;
      operators.grease_pencil_snap_cursor_to_sel_exec C;
      operators.grease_pencil_set_curve_type_exec C dst_type use_handles ].
Proof.
  repeat apply Forall_cons_2; [..|apply Forall_nil_2].
  all: unfold_operator; run_all; reflexivity.
Qed.

(** X21. An operator that returns [OPERATOR_CANCELLED] has changed no
    drawing: the assign-material, set-active-material, set-material,
    move-to-layer, separate and copy operators cancel before their first
    mutating call, and send neither a notifier nor a tag for re-evaluation
    of the geometry. *)
Theorem cancelled_operators_change_nothing
    {library : operators.Library} (C : operators.bContext)
    (material_name : string) (slot : Z) (target_layer_name : string) (add_new_layer : bool)
    (separate_mode : operators.SeparateMode) (d : list bke.CurvesGeometry) :
  Forall (λ exec : operators.OpM operators.OperatorStatus,
            operators.result (operators.run exec d) = operators.OPERATOR_CANCELLED →
            operators.drawings (operators.run exec d) = d
            ∧ operators.modified (operators.events (operators.run exec d)) = false
            ∧ operators.notified (operators.events (operators.run exec d)) = false
            ∧ operators.tagged (operators.events (operators.run exec d)) = false)
    [ operators.grease_pencil_stroke_material_set_exec C material_name;
      operators.grease_pencil_set_active_material_exec C;
      operators.grease_pencil_set_material_exec C slot;
      operators.grease_pencil_move_to_layer_exec C target_layer_name add_new_layer;
      operators.grease_pencil_separate_exec C separate_mode;
      operators.grease_pencil_copy_strokes_exec C ].
Proof.
  pose proof (any_drawing_selected_quiet C d) as (Hs1 & Hs2 & Hs3 & Hs4).
  pose proof (copy_loop_quiet C (operators.retrieve_editable_drawings (operators.scene C))
                ([], 0) d) as (Hc1 & Hc2 & Hc3 & Hc4).
  repeat apply Forall_cons_2; [..|apply Forall_nil_2].
  all: unfold_operator; run_all; intros Hcancelled; try discriminate;
       repeat split; log_done;
       rewrite ?Hs1, ?Hs2, ?Hs3, ?Hs4, ?Hc1, ?Hc2, ?Hc3, ?Hc4; done.
Qed.

Lemma cancelled_operators_change_nothing_witness :
  operators.result
    (operators.run
       (operators.grease_pencil_set_material_exec examples.point_context 5)
       [examples.two_strokes])
  = operators.OPERATOR_CANCELLED
  ∧ operators.drawings
      (operators.run
         (operators.grease_pencil_set_material_exec examples.point_context 5)
         [examples.two_strokes])
    = [examples.two_strokes]
  ∧ operators.notified
      (operators.events
         (operators.run
            (operators.grease_pencil_set_material_exec examples.point_context 5)
            [examples.two_strokes]))
    = false.
Proof.
  pose proof (cancelled_operators_change_nothing (library := examples.library)
                examples.point_context "" 5 "" false operators.SELECTED
                [examples.two_strokes]) as Hall.
  do 2 apply Forall_cons_1 in Hall as [_ Hall].
  apply Forall_cons_1 in Hall as [Hset _].
  split; [reflexivity|].
  destruct (Hset eq_refl) as (Hdrawings & _ & Hnotified & _).
  split; [exact Hdrawings|exact Hnotified].
Defined.

(* ===================================================================== *)
(** * The domains of the attributes                                      *)
(* ===================================================================== *)

Section attribute_frames.
Import BLI bke operators.

#[global] Instance only_point_attribute_refl name : Reflexive (only_point_attribute name).
Proof. intros g. by constructor. Qed.

#[global] Instance only_point_attribute_trans name : Transitive (only_point_attribute name).
Proof.
  intros g1 g2 g3 [H1 H2 H3 H4 H5 H6] [K1 K2 K3 K4 K5 K6].
  constructor; try congruence. intros other Hother. by rewrite K6, H6.
Qed.

#[global] Instance only_curve_attribute_refl name : Reflexive (only_curve_attribute name).
Proof. intros g. by constructor. Qed.

#[global] Instance only_curve_attribute_trans name : Transitive (only_curve_attribute name).
Proof.
  intros g1 g2 g3 [H1 H2 H3 H4 H5 H6] [K1 K2 K3 K4 K5 K6].
  constructor; try congruence. intros other Hother. by rewrite K6, H6.
Qed.






End attribute_frames.


Section attribute_writes.
Import BLI bke operators.
Context {library : Library}.
Variable C : bContext.



















End attribute_writes.



